(** * jsc_decompiler: a shallow embedding of the V8 code-cache reader

    The development follows the layout of the Python sources:
    - [Py]             the pieces of the Python runtime the sources rely on
                       (exceptions, indexing, slicing, [struct], [%] formats)
    - [Version]        common/version.py   (version hashes)
    - [Enums]          common/enums.py     (allocation enums, ScopeInfo flags)
    - [ReservObj]      common/reserv_object.py (heap slots and regions)
    - [Parser]         v6/parser.py        (the snapshot deserializer)
    - [Disasm]         v6/disasm.py        (the bytecode disassembler)
    - [Structs]        v6/structs.py, v6/object_converter.py (function names)
    - [Reconstructor]  reconstructor.py    (expression lifting)
    - [Main]           jsc_decompiler.py   (routing and exit status)
    - [ParserLogic]    how far a parser action moves the cursor
    - [Layout]         v6/structs.py       (handler table, bytecode bytes)
    - [Converter]      v6/object_converter.py (raw bytes of a string)
    - [RawData]        raw data held in the slots of an object
    - [Formatter]      output_formatter.py (declaration of the stack locals)
    Every definition keeps the name of the Python function it embeds.
    Python integers are unbounded, so they are [Z]; the masks the source
    applies are written out with [Z.land]. *)

From Stdlib Require Import ZArith Lia List String Ascii.
From coqutil Require Import Byte Word.LittleEndianList.
From stdpp Require Import gmap strings list.

Local Open Scope Z_scope.

(** * Part I: the embedding *)

(** ** Python runtime *)

Module Py.

(** Exceptions the modelled code can raise. *)
Inductive exn :=
| IndexError
| StructError
| TypeError
| AttributeError
| ValueError (msg : string).

(** Outcome of a computation: a value, a raised exception, or the model's
    own recursion budget running out (never a Python behaviour). *)
Inductive result (A : Type) :=
| Ok (a : A)
| Raise (e : exn)
| OutOfFuel.
Arguments Ok {A} a.
Arguments Raise {A} e.
Arguments OutOfFuel {A}.

Definition len {A : Type} (l : list A) : Z := Z.of_nat (length l).

(** [l[i]]: a negative index counts from the end; out of range is an
    [IndexError], here [None]. *)
Definition getitem {A : Type} (l : list A) (i : Z) : option A :=
  if 0 <=? i then l !! Z.to_nat i
  else if 0 <=? i + len l then l !! Z.to_nat (i + len l)
  else None.

(** Index of a slice bound after Python's normalisation. *)
Definition slice_bound {A : Type} (l : list A) (i : Z) : Z :=
  if i <? 0 then Z.max 0 (i + len l) else Z.min i (len l).

(** [l[start:stop]]: never raises. *)
Definition slice {A : Type} (l : list A) (start stop : Z) : list A :=
  let a := slice_bound l start in
  let b := slice_bound l stop in
  firstn (Z.to_nat (b - a)) (skipn (Z.to_nat a) l).

(** [struct.unpack_from] of one little-endian unsigned integer of [n]
    bytes ("<B", "<H", "<I" for 1, 2, 4): [struct.error] (here [None]) when
    fewer than [n] bytes remain from [offset]. *)
Definition unpack_from_le (n : nat) (buffer : list byte) (offset : Z) : option Z :=
  let off := if offset <? 0 then offset + len buffer else offset in
  if (off <? 0) || (len buffer - off <? Z.of_nat n) then None
  else Some (le_combine (firstn n (skipn (Z.to_nat off) buffer))).

(** Digits of a non-negative integer, most significant first, upper-case
    beyond 9. *)
Definition digit_char (d : Z) : ascii :=
  if d <? 10 then ascii_of_nat (48 + Z.to_nat d) else ascii_of_nat (55 + Z.to_nat d).

Fixpoint digits_aux (fuel : nat) (base n : Z) (acc : string) : string :=
  match fuel with
  | O => acc
  | S fuel' =>
      let acc' := String (digit_char (n mod base)) acc in
      if n / base =? 0 then acc' else digits_aux fuel' base (n / base) acc'
  end.

Definition digits (base n : Z) : string :=
  digits_aux (S (Z.to_nat (Z.log2 n))) base n EmptyString.

Fixpoint repeat_char (c : ascii) (n : nat) : string :=
  match n with O => EmptyString | S n' => String c (repeat_char c n') end.

(** ["%0<width>d" % z] (base 10) and ["%0<width>X" % z] (base 16): the sign
    counts towards the width and the zeros go after it. *)
Definition format_int (base width z : Z) : string :=
  let body := digits base (Z.abs z) in
  let sign := if z <? 0 then "-"%string else EmptyString in
  let used := Z.of_nat (String.length sign + String.length body) in
  (sign ++ repeat_char "0"%char (Z.to_nat (width - used)) ++ body)%string.

(** The double quote character as a string. *)
Definition dquote : string := String (ascii_of_nat 34) EmptyString.

(** ["%d" % z] *)
Definition fmt_d (z : Z) : string := format_int 10 0 z.

(** ["%X" % z] *)
Definition fmt_X (z : Z) : string := format_int 16 0 z.

(** *** Strings *)

(** [sep.join(parts)] *)
Fixpoint join (sep : string) (parts : list string) : string :=
  match parts with
  | [] => EmptyString
  | [x] => x
  | x :: rest => (x ++ sep ++ join sep rest)%string
  end.

(** [s.startswith(pre)] *)
Definition startswith (s pre : string) : bool := String.prefix pre s.

Fixpoint rev_string_aux (s acc : string) : string :=
  match s with
  | EmptyString => acc
  | String c s' => rev_string_aux s' (String c acc)
  end.

Definition rev_string (s : string) : string := rev_string_aux s EmptyString.

(** [s.endswith(suf)] *)
Definition endswith (s suf : string) : bool :=
  String.prefix (rev_string suf) (rev_string s).

(** [sub in s] *)
Fixpoint contains (sub s : string) : bool :=
  String.prefix sub s ||
  match s with
  | EmptyString => false
  | String _ s' => contains sub s'
  end.

(** [s[n:]] and [s[:n]] for [n >= 0]. *)
Fixpoint drop_chars (n : nat) (s : string) : string :=
  match n, s with
  | S n', String _ s' => drop_chars n' s'
  | _, _ => s
  end.

Fixpoint take_chars (n : nat) (s : string) : string :=
  match n, s with
  | S n', String c s' => String c (take_chars n' s')
  | _, _ => EmptyString
  end.

(** [s[a:-b]] for [a, b >= 0]. *)
Definition strip_ends (a b : nat) (s : string) : string :=
  take_chars (String.length s - a - b) (drop_chars a s).

(** [s.split(sep)] for a non-empty [sep]: the pieces between the
    occurrences of [sep], found from the left without overlap.  [skip]
    counts the characters of a matched separator still to pass over and
    [cur] is the piece read so far. *)
Fixpoint split_aux (sep : string) (skip : nat) (cur : string) (s : string) : list string :=
  match s with
  | EmptyString => [cur]
  | String c s' =>
      match skip with
      | S k => split_aux sep k cur s'
      | O =>
          if String.prefix sep s
          then cur :: split_aux sep (String.length sep - 1) EmptyString s'
          else split_aux sep O (cur ++ String c EmptyString) s'
      end
  end.

Definition split (sep s : string) : list string := split_aux sep O EmptyString s.

(** [s.replace(old, new)] for a non-empty [old]. *)
Fixpoint replace_aux (old new : string) (skip : nat) (s : string) : string :=
  match s with
  | EmptyString => EmptyString
  | String c s' =>
      match skip with
      | S k => replace_aux old new k s'
      | O =>
          if String.prefix old s
          then (new ++ replace_aux old new (String.length old - 1) s')%string
          else String c (replace_aux old new O s')
      end
  end.

Definition replace (old new s : string) : string := replace_aux old new O s.

(** ASCII white space, as [str.split()] and [str.strip()] see it. *)
Definition is_space (c : ascii) : bool :=
  let n := nat_of_ascii c in
  ((9 <=? n) && (n <=? 13) || (28 <=? n) && (n <=? 32))%nat.

(** [s.split()]: the maximal runs of non-space characters. *)
Fixpoint split_ws_aux (cur : string) (s : string) : list string :=
  match s with
  | EmptyString => match cur with EmptyString => [] | _ => [cur] end
  | String c s' =>
      if is_space c
      then match cur with
           | EmptyString => split_ws_aux EmptyString s'
           | _ => cur :: split_ws_aux EmptyString s'
           end
      else split_ws_aux (cur ++ String c EmptyString) s'
  end.

Definition split_ws (s : string) : list string := split_ws_aux EmptyString s.

(** [s.lstrip(chars)], [s.rstrip(chars)], [s.strip(chars)] with the set of
    characters given as a predicate. *)
Fixpoint lstrip (f : ascii -> bool) (s : string) : string :=
  match s with
  | String c s' => if f c then lstrip f s' else s
  | EmptyString => EmptyString
  end.

Definition rstrip (f : ascii -> bool) (s : string) : string :=
  rev_string (lstrip f (rev_string s)).

Definition strip (f : ascii -> bool) (s : string) : string := rstrip f (lstrip f s).

Definition is_char (c : ascii) : ascii -> bool := fun d => Ascii.eqb c d.

Definition is_digit (c : ascii) : bool :=
  let n := nat_of_ascii c in ((48 <=? n) && (n <=? 57))%nat.

Fixpoint all_chars (f : ascii -> bool) (s : string) : bool :=
  match s with
  | EmptyString => true
  | String c s' => f c && all_chars f s'
  end.

(** [s.isdigit()] on ASCII text: non-empty and all digits. *)
Definition isdigit (s : string) : bool :=
  match s with EmptyString => false | _ => all_chars is_digit s end.

(** Value of a digit in [base] (at most 16), either case. *)
Definition digit_value (base : Z) (c : ascii) : option Z :=
  let n := Z.of_nat (nat_of_ascii c) in
  let v := if (48 <=? n) && (n <=? 57) then n - 48
           else if (65 <=? n) && (n <=? 70) then n - 55
           else if (97 <=? n) && (n <=? 102) then n - 87
           else 16 in
  if v <? base then Some v else None.

(** Digits with single underscores between them, as [int()] accepts;
    [after_digit] tells whether the previous character was a digit. *)
Fixpoint parse_digits (base : Z) (after_digit : bool) (acc : Z) (s : string) : option Z :=
  match s with
  | EmptyString => if after_digit then Some acc else None
  | String c s' =>
      if Ascii.eqb c "_"%char then
        if after_digit then parse_digits base false acc s' else None
      else
        match digit_value base c with
        | Some v => parse_digits base true (acc * base + v) s'
        | None => None
        end
  end.

(** The digits of [int(s, base)] after the sign: for base 16 an optional
    [0x] or [0X], which may be followed by one underscore. *)
Definition parse_magnitude (base : Z) (s : string) : option Z :=
  match s with
  | String "0" (String x s') =>
      if (base =? 16) && (Ascii.eqb x "x" || Ascii.eqb x "X") then
        match s' with
        | String "_" s'' => parse_digits base false 0 s''
        | _ => parse_digits base false 0 s'
        end
      else parse_digits base false 0 s
  | _ => parse_digits base false 0 s
  end.

(** [int(s, base)] on ASCII text, for base 10 or 16: surrounding white
    space, an optional sign, digits; [None] stands for [ValueError]. *)
Definition int_of_string (base : Z) (s : string) : option Z :=
  match strip is_space s with
  | String "-" s' => Z.opp <$> parse_magnitude base s'
  | String "+" s' => parse_magnitude base s'
  | s' => parse_magnitude base s'
  end.

End Py.

(** ** common/version.py *)

Module Version.

Definition _mask32 (v : Z) : Z := Z.land v 0xFFFFFFFF.

Definition _mask64 (v : Z) : Z := Z.land v 0xFFFFFFFFFFFFFFFF.

Definition hash_value_unsigned (v : Z) : Z :=
  let v := _mask32 (Z.shiftl v 15 - v - 1) in
  let v := _mask32 (Z.lxor v (Z.shiftr v 12)) in
  let v := _mask32 (v + Z.shiftl v 2) in
  let v := _mask32 (Z.lxor v (Z.shiftr v 4)) in
  let v := _mask32 (v * 2057) in
  let v := _mask32 (Z.lxor v (Z.shiftr v 16)) in
  v.

Definition hash_combine (seed value : Z) : Z :=
  let value := _mask32 (value * 0xCC9E2D51) in
  let value := _mask32 (Z.lor (Z.shiftr value 15) (Z.shiftl value 17)) in
  let value := _mask32 (value * 0x1B873593) in
  let seed := Z.lxor seed value in
  let seed := _mask32 (Z.lor (Z.shiftr seed 13) (Z.shiftl seed 19)) in
  let seed := _mask32 (seed * 5 + 0xE6546B64) in
  seed.

Definition hash_combine64 (seed value : Z) : Z :=
  let m := 0xC6A4A7935BD1E995 in
  let value := _mask64 (value * m) in
  let value := _mask64 (Z.lxor value (Z.shiftr value 47)) in
  let value := _mask64 (value * m) in
  let seed := _mask64 (Z.lxor seed value) in
  let seed := _mask64 (seed * m) in
  seed.

Definition version_hash (major minor build patch : Z) : Z :=
  let seed := 0 in
  let seed := hash_combine seed (hash_value_unsigned patch) in
  let seed := hash_combine seed (hash_value_unsigned build) in
  let seed := hash_combine seed (hash_value_unsigned minor) in
  let seed := hash_combine seed (hash_value_unsigned major) in
  seed.

Definition version_hash64 (major minor build patch : Z) : Z :=
  let seed := 0 in
  let seed := hash_combine64 seed (hash_value_unsigned patch) in
  let seed := hash_combine64 seed (hash_value_unsigned build) in
  let seed := hash_combine64 seed (hash_value_unsigned minor) in
  let seed := hash_combine64 seed (hash_value_unsigned major) in
  _mask32 seed.

(** *** The recipe in the words of the specification

    Unsigned machine arithmetic of width [w]: every primitive operation
    wraps modulo [2^w]; xor and logical right shift stay in range on their
    own.  Rotation is the arithmetic rotate-left: the low [w-n] bits move up
    by [n] places and the high [n] bits come back in at the bottom. *)

Section Machine.
Variable w : Z.

Definition wrap (z : Z) : Z := z mod 2 ^ w.
Definition uadd (a b : Z) : Z := wrap (a + b).
Definition usub (a b : Z) : Z := wrap (a - b).
Definition umul (a b : Z) : Z := wrap (a * b).
Definition ushl (a n : Z) : Z := wrap (a * 2 ^ n).
Definition ushr (a n : Z) : Z := a / 2 ^ n.
Definition rotl (a n : Z) : Z := (a mod 2 ^ (w - n)) * 2 ^ n + a / 2 ^ (w - n).
End Machine.

(** v <- (v<<15)-v-1; v <- v^(v>>12); v <- v+(v<<2); v <- v^(v>>4);
    v <- v*2057; v <- v^(v>>16) *)
Definition spec_hash_value (v : Z) : Z :=
  let v := usub 32 (usub 32 (ushl 32 v 15) v) 1 in
  let v := Z.lxor v (ushr v 12) in
  let v := uadd 32 v (ushl 32 v 2) in
  let v := Z.lxor v (ushr v 4) in
  let v := umul 32 v 2057 in
  let v := Z.lxor v (ushr v 16) in
  v.

(** x <- x*0xCC9E2D51; x <- rotl17(x); x <- x*0x1B873593; seed <- seed^x;
    seed <- rotl19(seed); seed <- seed*5 + 0xE6546B64 *)
Definition spec_hash_combine (seed x : Z) : Z :=
  let x := umul 32 x 0xCC9E2D51 in
  let x := rotl 32 x 17 in
  let x := umul 32 x 0x1B873593 in
  let seed := Z.lxor seed x in
  let seed := rotl 32 seed 19 in
  let seed := uadd 32 (umul 32 seed 5) 0xE6546B64 in
  seed.

(** The Murmur-like 64-bit mix, with the multiplier as a parameter. *)
Definition spec_hash_combine64 (m seed x : Z) : Z :=
  let x := umul 64 x m in
  let x := Z.lxor x (ushr x 47) in
  let x := umul 64 x m in
  let seed := Z.lxor seed x in
  let seed := umul 64 seed m in
  seed.

Definition spec_version_hash (major minor build patch : Z) : Z :=
  fold_left spec_hash_combine
    (map spec_hash_value [patch; build; minor; major]) 0.

Definition spec_version_hash64 (major minor build patch : Z) : Z :=
  wrap 32
    (fold_left (spec_hash_combine64 0xC6A4A7935BD1E995)
       (map spec_hash_value [patch; build; minor; major]) 0).

End Version.

(** ** common/enums.py *)

Module Enums.

(** [IntEnum.from_int]: the first member, in declaration order, whose value
    is the argument; [None] when there is none. *)
Definition from_int {A : Type} (members : list A) (value : A -> Z) (v : Z) : option A :=
  find (fun m => value m =? v) members.

Inductive AllocSpace := NEW_SPACE | OLD_SPACE | CODE_SPACE | MAP_SPACE | LO_SPACE.

Definition AllocSpace_value (s : AllocSpace) : Z :=
  match s with
  | NEW_SPACE => 0x00 | OLD_SPACE => 0x01 | CODE_SPACE => 0x02
  | MAP_SPACE => 0x03 | LO_SPACE => 0x04
  end.

Definition AllocSpace_members : list AllocSpace :=
  [NEW_SPACE; OLD_SPACE; CODE_SPACE; MAP_SPACE; LO_SPACE].

Definition AllocSpace_from_int : Z -> option AllocSpace :=
  from_int AllocSpace_members AllocSpace_value.

(** Enum members are dictionary keys in the parser. *)
#[global] Instance AllocSpace_eq_dec : EqDecision AllocSpace.
Proof. solve_decision. Defined.

#[global] Instance AllocSpace_countable : Countable AllocSpace.
Proof.
  refine (inj_countable' (fun s => Z.to_nat (AllocSpace_value s))
            (fun n => nth n AllocSpace_members NEW_SPACE) _).
  intros []; reflexivity.
Defined.

Inductive AllocWhere :=
| kNewObject | kBackref | kBackrefWithSkip | kRootArray
| kPartialSnapshotCache | kExternalReference | kAttachedReference | kBuiltin.

Definition AllocWhere_value (w : AllocWhere) : Z :=
  match w with
  | kNewObject => 0x00 | kBackref => 0x08 | kBackrefWithSkip => 0x10
  | kRootArray => 0x05 | kPartialSnapshotCache => 0x06
  | kExternalReference => 0x07 | kAttachedReference => 0x0D | kBuiltin => 0x0E
  end.

Inductive AllocHow := kPlain | kFromCode.

Definition AllocHow_value (h : AllocHow) : Z :=
  match h with kPlain => 0x00 | kFromCode => 0x20 end.

Inductive AllocPoint := kStartOfObject | kInnerPointer.

Definition AllocPoint_value (p : AllocPoint) : Z :=
  match p with kStartOfObject => 0x00 | kInnerPointer => 0x40 end.

Inductive AllocationAlignment := kWordAligned | kDoubleAligned | kDoubleUnaligned.

Definition AllocationAlignment_value (a : AllocationAlignment) : Z :=
  match a with kWordAligned => 0 | kDoubleAligned => 1 | kDoubleUnaligned => 2 end.

Definition AllocationAlignment_from_int : Z -> option AllocationAlignment :=
  from_int [kWordAligned; kDoubleAligned; kDoubleUnaligned] AllocationAlignment_value.

Inductive ScopeInfoFlagsScope :=
| EVAL_SCOPE | FUNCTION_SCOPE | MODULE_SCOPE | SCRIPT_SCOPE
| CATCH_SCOPE | BLOCK_SCOPE | WITH_SCOPE.

Definition ScopeInfoFlagsScope_value (s : ScopeInfoFlagsScope) : Z :=
  match s with
  | EVAL_SCOPE => 0 | FUNCTION_SCOPE => 1 | MODULE_SCOPE => 2 | SCRIPT_SCOPE => 3
  | CATCH_SCOPE => 4 | BLOCK_SCOPE => 5 | WITH_SCOPE => 6
  end.

Definition ScopeInfoFlagsScope_from_int : Z -> option ScopeInfoFlagsScope :=
  from_int [EVAL_SCOPE; FUNCTION_SCOPE; MODULE_SCOPE; SCRIPT_SCOPE;
            CATCH_SCOPE; BLOCK_SCOPE; WITH_SCOPE] ScopeInfoFlagsScope_value.

(** [ScopeInfoFlagsReceiver] and [ScopeInfoFlagsFuncVar] declare the same
    four members. *)
Inductive ScopeInfoFlagsReceiver := RECV_NONE | RECV_STACK | RECV_CONTEXT | RECV_UNUSED.

Definition ScopeInfoFlagsReceiver_value (r : ScopeInfoFlagsReceiver) : Z :=
  match r with RECV_NONE => 0 | RECV_STACK => 1 | RECV_CONTEXT => 2 | RECV_UNUSED => 3 end.

Definition ScopeInfoFlagsReceiver_from_int : Z -> option ScopeInfoFlagsReceiver :=
  from_int [RECV_NONE; RECV_STACK; RECV_CONTEXT; RECV_UNUSED] ScopeInfoFlagsReceiver_value.

Inductive ScopeInfoFlagsFuncVar := FVAR_NONE | FVAR_STACK | FVAR_CONTEXT | FVAR_UNUSED.

Definition ScopeInfoFlagsFuncVar_value (r : ScopeInfoFlagsFuncVar) : Z :=
  match r with FVAR_NONE => 0 | FVAR_STACK => 1 | FVAR_CONTEXT => 2 | FVAR_UNUSED => 3 end.

Definition ScopeInfoFlagsFuncVar_from_int : Z -> option ScopeInfoFlagsFuncVar :=
  from_int [FVAR_NONE; FVAR_STACK; FVAR_CONTEXT; FVAR_UNUSED] ScopeInfoFlagsFuncVar_value.

Inductive ScopeInfoFlagsLang := SLOPPY | STRICT.

Definition ScopeInfoFlagsLang_value (l : ScopeInfoFlagsLang) : Z :=
  match l with SLOPPY => 0 | STRICT => 1 end.

Definition ScopeInfoFlagsLang_from_int : Z -> option ScopeInfoFlagsLang :=
  from_int [SLOPPY; STRICT] ScopeInfoFlagsLang_value.

Inductive ScopeInfoFlagsFuncKind :=
| NormalFunction | ArrowFunction | GeneratorFunction | ConciseMethod
| ConciseGeneratorMethod | DefaultConstructor | DerivedConstructor
| BaseConstructor | GetterFunction | SetterFunction | AsyncFunction
| Module_ | AccessorFunction | DefaultBaseConstructor
| DefaultDerivedConstructor | ClassConstructor | AsyncArrowFunction
| AsyncConciseMethod | AsyncConciseGeneratorMethod | AsyncGeneratorFunction.

Definition ScopeInfoFlagsFuncKind_value (k : ScopeInfoFlagsFuncKind) : Z :=
  match k with
  | NormalFunction => 0 | ArrowFunction => 1 | GeneratorFunction => 2
  | ConciseMethod => 4 | ConciseGeneratorMethod => 6 | DefaultConstructor => 8
  | DerivedConstructor => 16 | BaseConstructor => 32 | GetterFunction => 64
  | SetterFunction => 128 | AsyncFunction => 256 | Module_ => 512
  | AccessorFunction => 192 | DefaultBaseConstructor => 40
  | DefaultDerivedConstructor => 24 | ClassConstructor => 56
  | AsyncArrowFunction => 257 | AsyncConciseMethod => 260
  | AsyncConciseGeneratorMethod => 262 | AsyncGeneratorFunction => 258
  end.

Definition ScopeInfoFlagsFuncKind_members : list ScopeInfoFlagsFuncKind :=
  [NormalFunction; ArrowFunction; GeneratorFunction; ConciseMethod;
   ConciseGeneratorMethod; DefaultConstructor; DerivedConstructor;
   BaseConstructor; GetterFunction; SetterFunction; AsyncFunction;
   Module_; AccessorFunction; DefaultBaseConstructor;
   DefaultDerivedConstructor; ClassConstructor; AsyncArrowFunction;
   AsyncConciseMethod; AsyncConciseGeneratorMethod; AsyncGeneratorFunction].

Definition ScopeInfoFlagsFuncKind_from_int : Z -> option ScopeInfoFlagsFuncKind :=
  from_int ScopeInfoFlagsFuncKind_members ScopeInfoFlagsFuncKind_value.

Record CaseState := {
  cs_value : Z;
  cs_where : AllocWhere;
  cs_how : AllocHow;
  cs_within : AllocPoint
}.

Definition case_statement (state : CaseState) : Z :=
  AllocWhere_value (cs_where state) + AllocHow_value (cs_how state)
  + AllocPoint_value (cs_within state).

Record ScopeInfoFlags := {
  scope : option ScopeInfoFlagsScope;
  calls_sloppy_eval : bool;
  lang_mode : option ScopeInfoFlagsLang;
  declaration_scope : bool;
  recv : option ScopeInfoFlagsReceiver;
  has_new_target : bool;
  func_var : option ScopeInfoFlagsFuncVar;
  asm_module : bool;
  has_simple_parameters : bool;
  kind : option ScopeInfoFlagsFuncKind;
  has_outer_scope_info : bool;
  is_debug_evaluate_scope : bool
}.

(** Python's [x != 0] on integers. *)
Definition nonzero (x : Z) : bool := negb (x =? 0).

(** [ScopeInfoFlags.__init__] *)
Definition ScopeInfoFlags_init (flags : Z) : ScopeInfoFlags := {|
  scope := ScopeInfoFlagsScope_from_int (Z.land flags 0xF);
  calls_sloppy_eval := nonzero (Z.shiftr (Z.land flags 0x10) 0x04);
  lang_mode := ScopeInfoFlagsLang_from_int (Z.shiftr (Z.land flags 0x20) 0x05);
  declaration_scope := nonzero (Z.shiftr (Z.land flags 0x40) 0x06);
  recv := ScopeInfoFlagsReceiver_from_int (Z.shiftr (Z.land flags 0x180) 0x07);
  has_new_target := nonzero (Z.shiftr (Z.land flags 0x200) 0x09);
  func_var := ScopeInfoFlagsFuncVar_from_int (Z.shiftr (Z.land flags 0xC00) 0x0A);
  asm_module := nonzero (Z.shiftr (Z.land flags 0x1000) 0x0C);
  has_simple_parameters := nonzero (Z.shiftr (Z.land flags 0x2000) 0x0D);
  kind := ScopeInfoFlagsFuncKind_from_int (Z.shiftr (Z.land flags 0x00FFC000) 0x0E);
  has_outer_scope_info := nonzero (Z.shiftr (Z.land flags 0x01000000) 0x18);
  is_debug_evaluate_scope := nonzero (Z.shiftr (Z.land flags 0x02000000) 0x19)
|}.

Definition has_receiver (f : ScopeInfoFlags) : bool :=
  match recv f with
  | Some RECV_UNUSED | Some RECV_NONE => false
  | _ => true
  end.

Definition has_function_var (f : ScopeInfoFlags) : bool :=
  match func_var f with Some FVAR_NONE => false | _ => true end.

Definition has_outer_scope (f : ScopeInfoFlags) : bool := has_outer_scope_info f.

(** The bit field of [flags] that occupies bit positions [lo..hi]. *)
Definition bit_field (flags lo hi : Z) : Z := (flags / 2 ^ lo) mod 2 ^ (hi - lo + 1).

(** A decoded field read back as a number: the integer value of an enum
    member ([IntEnum] members compare equal to their value; [None] is equal
    to no integer), 1 or 0 for a boolean. *)
Definition enum_is {A : Type} (value : A -> Z) (field : option A) (v : Z) : Prop :=
  exists m, field = Some m /\ value m = v.

Definition bool_is (field : bool) (v : Z) : Prop := Z.b2z field = v.

(** The flag property the way the specification words it: every decoded
    field equals the bit field at its positions. *)
Definition fields_equal_extractions (flags : Z) : Prop :=
  let f := ScopeInfoFlags_init flags in
  enum_is ScopeInfoFlagsScope_value (scope f) (bit_field flags 0 3)
  /\ bool_is (calls_sloppy_eval f) (bit_field flags 4 4)
  /\ enum_is ScopeInfoFlagsLang_value (lang_mode f) (bit_field flags 5 5)
  /\ bool_is (declaration_scope f) (bit_field flags 6 6)
  /\ enum_is ScopeInfoFlagsReceiver_value (recv f) (bit_field flags 7 8)
  /\ bool_is (has_new_target f) (bit_field flags 9 9)
  /\ enum_is ScopeInfoFlagsFuncVar_value (func_var f) (bit_field flags 10 11)
  /\ bool_is (asm_module f) (bit_field flags 12 12)
  /\ bool_is (has_simple_parameters f) (bit_field flags 13 13)
  /\ enum_is ScopeInfoFlagsFuncKind_value (kind f) (bit_field flags 14 23)
  /\ bool_is (has_outer_scope_info f) (bit_field flags 24 24)
  /\ bool_is (is_debug_evaluate_scope f) (bit_field flags 25 25).

(** What the code guarantees for an enumerated field: the member with the
    extracted value when the enum declares one, [None] otherwise. *)
Definition enum_decodes {A : Type} (value : A -> Z) (field : option A) (v : Z) : Prop :=
  match field with
  | Some m => value m = v
  | None => forall m, value m <> v
  end.

End Enums.

(** ** common/reserv_object.py *)

Module ReservObj.
Import Py.

(** What a heap slot (or a hot-ring entry) can hold.  [ReservObject]
    instances are mutable and shared, so a slot holds a reference [VObj id]
    into the store of the parser. *)
Inductive PyVal :=
| VNone
| VInt (z : Z)
| VStr (s : string)
| VRoot (name type_ : string)
| VObj (id : nat).

Record ReservObject := {
  size : Z;
  pointer_size : Z;
  _offset : Z;
  _last_add_address : Z;
  objects : gmap Z PyVal
}.

(** [ReservObject(size, pointer_size)] *)
Definition ReservObject_init (size pointer_size : Z) : ReservObject := {|
  size := size; pointer_size := pointer_size;
  _offset := 0; _last_add_address := 0; objects := ∅
|}.

(** [dict.get(key)], with [None] for a missing key. *)
Definition objects_get (o : ReservObject) (key : Z) : PyVal :=
  default VNone (objects o !! key).

Definition set_offset (o : ReservObject) (value : Z) : ReservObject := {|
  size := size o; pointer_size := pointer_size o;
  _offset := value; _last_add_address := _last_add_address o;
  objects := objects o
|}.

Definition _bytes_to_ints (data : list byte) : list Z :=
  let count := Z.to_nat (len data / 4) in
  map (fun i => le_combine (firstn 4 (skipn (4 * i) data))) (seq 0 count).

Definition smi_to_int (value pointer_size : Z) : Z :=
  if pointer_size =? 4 then Z.shiftr (Z.land value 0xFFFFFFFF) 1
  else Z.shiftr value 32.

Definition get_last_object (o : ReservObject) : PyVal :=
  objects_get o (_last_add_address o).

Definition get_aligned_object (o : ReservObject) (offset : Z) : PyVal :=
  let obj := objects_get o offset in
  if pointer_size o =? 4 then obj
  else match obj with
       | VInt _ =>
           match objects_get o (offset + 4) with
           | VInt obj2 => VInt (Z.shiftl obj2 32)
           | _ => obj
           end
       | _ => obj
       end.

Definition get_int (o : ReservObject) (offset : Z) : Z :=
  match objects_get o offset with
  | VInt val => Z.land val 0xFFFFFFFF
  | _ => 0
  end.

Definition get_smi_int (o : ReservObject) (offset : Z) : Z :=
  let obj1 := get_int o offset in
  if pointer_size o =? 4 then smi_to_int obj1 (pointer_size o)
  else
    let obj2 := get_int o (offset + 4) in
    smi_to_int (Z.shiftl obj2 32) (pointer_size o).

(** [add_object] with a value that is not a byte string. *)
Definition add_object (o : ReservObject) (address : Z) (obj : PyVal) : ReservObject := {|
  size := size o; pointer_size := pointer_size o; _offset := _offset o;
  _last_add_address := address;
  objects := <[address := obj]> (objects o)
|}.

Fixpoint store_ints (m : gmap Z PyVal) (address : Z) (i : Z) (ints : list Z) : gmap Z PyVal :=
  match ints with
  | [] => m
  | val :: rest => store_ints (<[address + i * 4 := VInt val]> m) address (i + 1) rest
  end.

(** [add_object] with [bytes]: one slot per complete group of four. *)
Definition add_object_bytes (o : ReservObject) (address : Z) (data : list byte) : ReservObject := {|
  size := size o; pointer_size := pointer_size o; _offset := _offset o;
  _last_add_address := address;
  objects := store_ints (objects o) address 0 (_bytes_to_ints data)
|}.

Definition get_size (o : ReservObject) : Z := size o.

End ReservObj.

(** ** v6/parser.py *)

Module Parser.
Import Py Enums ReservObj.

Record BinaryReader := { data : list byte; pos : Z }.

(** The parser object together with the store of the [ReservObject]
    instances it has created ([heap], indexed by allocation order). *)
Record JscParser := {
  reader : BinaryReader;
  is_32bit : bool;
  attached : list PyVal;
  builtins : list PyVal;
  roots : list PyVal;
  next_alignment : option AllocationAlignment;
  last_hot_index : Z;
  last_chunk_index : gmap (option AllocSpace) Z;
  hots : gmap Z PyVal;
  reserv : gmap (option AllocSpace) (list nat);
  code_stubs : list Z;
  version_hash : Z;
  source_hash : Z;
  heap : list ReservObject
}.

Definition kPointerSizeLog2 (p : JscParser) : Z := if is_32bit p then 2 else 3.
Definition kPointerSize (p : JscParser) : Z := if is_32bit p then 4 else 8.
Definition kPointerAlignment (p : JscParser) : Z := Z.shiftl 1 (kPointerSizeLog2 p).
Definition kPointerAlignmentMask (p : JscParser) : Z := kPointerAlignment p - 1.
Definition kObjectAlignmentBits (p : JscParser) : Z := kPointerSizeLog2 p.

(** [JscParser(data, is_32bit)], with the tables [load_metadata] reads from
    the JSON files given as arguments. *)
Definition JscParser_init (data : list byte) (is_32bit : bool)
    (roots builtins : list PyVal) : JscParser := {|
  reader := {| data := data; pos := 0 |};
  is_32bit := is_32bit;
  attached := [VStr "Source"];
  builtins := builtins;
  roots := roots;
  next_alignment := Some kWordAligned;
  last_hot_index := 0;
  last_chunk_index := ∅;
  hots := ∅;
  reserv := ∅;
  code_stubs := [];
  version_hash := 0;
  source_hash := 0;
  heap := []
|}.

(** *** State updates *)

Definition with_reader (r : BinaryReader) (p : JscParser) : JscParser := {|
  reader := r; is_32bit := is_32bit p; attached := attached p;
  builtins := builtins p; roots := roots p; next_alignment := next_alignment p;
  last_hot_index := last_hot_index p; last_chunk_index := last_chunk_index p;
  hots := hots p; reserv := reserv p; code_stubs := code_stubs p;
  version_hash := version_hash p; source_hash := source_hash p; heap := heap p
|}.

Definition with_pos (n : Z) (p : JscParser) : JscParser :=
  with_reader {| data := data (reader p); pos := n |} p.

Definition with_next_alignment (a : option AllocationAlignment) (p : JscParser) : JscParser := {|
  reader := reader p; is_32bit := is_32bit p; attached := attached p;
  builtins := builtins p; roots := roots p; next_alignment := a;
  last_hot_index := last_hot_index p; last_chunk_index := last_chunk_index p;
  hots := hots p; reserv := reserv p; code_stubs := code_stubs p;
  version_hash := version_hash p; source_hash := source_hash p; heap := heap p
|}.

(** [self.hots[self.last_hot_index] = v;
     self.last_hot_index = (self.last_hot_index + 1) & 7] *)
Definition push_hot (v : PyVal) (p : JscParser) : JscParser := {|
  reader := reader p; is_32bit := is_32bit p; attached := attached p;
  builtins := builtins p; roots := roots p; next_alignment := next_alignment p;
  last_hot_index := Z.land (last_hot_index p + 1) 7;
  last_chunk_index := last_chunk_index p;
  hots := <[last_hot_index p := v]> (hots p);
  reserv := reserv p; code_stubs := code_stubs p;
  version_hash := version_hash p; source_hash := source_hash p; heap := heap p
|}.

Definition with_last_chunk_index (m : gmap (option AllocSpace) Z) (p : JscParser) : JscParser := {|
  reader := reader p; is_32bit := is_32bit p; attached := attached p;
  builtins := builtins p; roots := roots p; next_alignment := next_alignment p;
  last_hot_index := last_hot_index p; last_chunk_index := m;
  hots := hots p; reserv := reserv p; code_stubs := code_stubs p;
  version_hash := version_hash p; source_hash := source_hash p; heap := heap p
|}.

Definition with_reserv (m : gmap (option AllocSpace) (list nat)) (p : JscParser) : JscParser := {|
  reader := reader p; is_32bit := is_32bit p; attached := attached p;
  builtins := builtins p; roots := roots p; next_alignment := next_alignment p;
  last_hot_index := last_hot_index p; last_chunk_index := last_chunk_index p;
  hots := hots p; reserv := m; code_stubs := code_stubs p;
  version_hash := version_hash p; source_hash := source_hash p; heap := heap p
|}.

Definition with_header (vh sh : Z) (stubs : list Z) (p : JscParser) : JscParser := {|
  reader := reader p; is_32bit := is_32bit p; attached := attached p;
  builtins := builtins p; roots := roots p; next_alignment := next_alignment p;
  last_hot_index := last_hot_index p; last_chunk_index := last_chunk_index p;
  hots := hots p; reserv := reserv p; code_stubs := stubs;
  version_hash := vh; source_hash := sh; heap := heap p
|}.

Definition with_heap (h : list ReservObject) (p : JscParser) : JscParser := {|
  reader := reader p; is_32bit := is_32bit p; attached := attached p;
  builtins := builtins p; roots := roots p; next_alignment := next_alignment p;
  last_hot_index := last_hot_index p; last_chunk_index := last_chunk_index p;
  hots := hots p; reserv := reserv p; code_stubs := code_stubs p;
  version_hash := version_hash p; source_hash := source_hash p; heap := h
|}.

(** The object a reference denotes.  Every reference the parser hands out
    is an index below [length (heap p)]; the default is never used. *)
Definition deref (p : JscParser) (id : nat) : ReservObject :=
  default (ReservObject_init 0 0) (heap p !! id).

(** In-place mutation of a shared object. *)
Definition update_obj (id : nat) (f : ReservObject -> ReservObject) (p : JscParser) : JscParser :=
  with_heap (alter f id (heap p)) p.

(** *** The parser monad: state passing with exceptions *)

Definition M (A : Type) : Type := JscParser -> result (A * JscParser).

Definition ret {A : Type} (a : A) : M A := fun p => Ok (a, p).

Definition bind {A B : Type} (m : M A) (k : A -> M B) : M B :=
  fun p =>
    match m p with
    | Ok (a, p') => k a p'
    | Raise e => Raise e
    | OutOfFuel => OutOfFuel
    end.

Definition raise {A : Type} (e : exn) : M A := fun _ => Raise e.
Definition out_of_fuel {A : Type} : M A := fun _ => OutOfFuel.
Definition get {A : Type} (f : JscParser -> A) : M A := fun p => Ok (f p, p).
Definition modify (f : JscParser -> JscParser) : M unit := fun p => Ok (tt, f p).

Notation "'let*' x ':=' m 'in' k" := (bind m (fun x => k))
  (at level 10, x pattern, m at level 100, k at level 200).
Notation "m ';;' k" := (bind m (fun _ => k))
  (at level 100, k at level 200, right associativity).

(** [new ReservObject(size, pointer_size)]: a fresh entry of the store. *)
Definition alloc (size pointer_size : Z) : M nat :=
  fun p => Ok (length (heap p),
               with_heap (heap p ++ [ReservObject_init size pointer_size]) p).

(** *** BinaryReader *)

Definition read_uint32 : M Z :=
  fun p =>
    match unpack_from_le 4 (data (reader p)) (pos (reader p)) with
    | Some val => Ok (val, with_pos (pos (reader p) + 4) p)
    | None => Raise StructError
    end.

Definition read_byte : M Z :=
  fun p =>
    match getitem (data (reader p)) (pos (reader p)) with
    | Some val => Ok (byte.unsigned val, with_pos (pos (reader p) + 1) p)
    | None => Raise IndexError
    end.

Definition read_bytes (count : Z) : M (list byte) :=
  fun p =>
    Ok (slice (data (reader p)) (pos (reader p)) (pos (reader p) + count),
        with_pos (pos (reader p) + count) p).

Definition seek (n : Z) : M unit := modify (with_pos n).

(** *** JscParser *)

Definition _pointer_size_align (value : Z) : M Z :=
  let* mask := get kPointerAlignmentMask in
  ret (Z.land (value + mask) (Z.lnot mask)).

Definition _read_int : M Z :=
  let* answer := read_uint32 in
  let bytes_count := Z.land answer 3 + 1 in
  let* pos0 := get (fun p => pos (reader p)) in
  modify (with_pos (pos0 - (4 - bytes_count)));;
  let mask := Z.shiftr 0xFFFFFFFF (32 - Z.shiftl bytes_count 3) in
  let answer := Z.land answer mask in
  let answer := Z.shiftr answer 2 in
  ret answer.

Definition _all_spaces (state : CaseState) : option AllocSpace :=
  AllocSpace_from_int (cs_value state - case_statement state).

Definition _new_space (state : CaseState) : bool :=
  match AllocSpace_from_int (cs_value state - case_statement state) with
  | Some NEW_SPACE => true
  | _ => false
  end.

(** [self.reserv.get(space, [])] *)
Definition chunks_of (p : JscParser) (space : option AllocSpace) : list nat :=
  default [] (reserv p !! space).

Definition reserv_get (space : option AllocSpace) : M (list nat) :=
  get (fun p => chunks_of p space).

(** The decoding step in the middle of [_get_back_referenced_object]: the
    chunk index and chunk offset computed from [back_ref] for [space]. *)
Definition back_ref_position (is_32bit : bool) (kObjectAlignmentBits : Z)
    (space : option AllocSpace) (back_ref : Z) : Z * Z :=
  match space with
  | Some LO_SPACE => (0, 0)
  | Some MAP_SPACE => (0, 0)
  | _ =>
      if is_32bit then
        (Z.shiftr (Z.land back_ref 0x1FFE0000) 0x11,
         Z.shiftl (Z.land back_ref 0x1FFFF) kObjectAlignmentBits)
      else
        (Z.shiftr (Z.land back_ref 0x1FFF0000) 0x10,
         Z.shiftl (Z.land back_ref 0xFFFF) kObjectAlignmentBits)
  end.

Definition _get_back_referenced_object (space : option AllocSpace) : M PyVal :=
  let* back_ref := _read_int in
  let* is32 := get is_32bit in
  let* bits := get kObjectAlignmentBits in
  let '(chunk_index, chunk_offset) := back_ref_position is32 bits space back_ref in
  let* chunks := reserv_get space in
  if len chunks <=? chunk_index then ret VNone
  else
    match getitem chunks chunk_index with
    | None => raise IndexError
    | Some reserv_obj =>
        let* back_obj := get (fun p => get_aligned_object (deref p reserv_obj) chunk_offset) in
        modify (push_hot back_obj);;
        ret back_obj
    end.

Definition _get_maximum_fill_to_align : M Z :=
  let* a := get next_alignment in
  let* ps := get kPointerSize in
  match a with
  | Some kWordAligned => ret 0
  | Some kDoubleAligned | Some kDoubleUnaligned => ret (8 - ps)
  | None => ret 0
  end.

Definition _get_fill_to_align (address : Z) : M Z :=
  let* a := get next_alignment in
  let* ps := get kPointerSize in
  match a with
  | Some kDoubleAligned => if nonzero (Z.land address 7) then ret ps else ret 0
  | Some kDoubleUnaligned => if nonzero (Z.land address 7) then ret (8 - ps) else ret 0
  | _ => ret 0
  end.

(** [self.roots[i] if len(self.roots) > i else None] *)
Definition root_or_none (i : Z) : M PyVal :=
  let* rs := get roots in
  if i <? len rs then
    match getitem rs i with Some r => ret r | None => raise IndexError end
  else ret VNone.

Definition _create_filler_object (obj : nat) (address size : Z) : M unit :=
  let* ps := get kPointerSize in
  if size =? 0 then modify (update_obj obj (fun o => add_object o address VNone))
  else if size =? ps then
    let* r := root_or_none 1 in modify (update_obj obj (fun o => add_object o address r))
  else if size =? 2 * ps then
    let* r := root_or_none 2 in modify (update_obj obj (fun o => add_object o address r))
  else
    let* r := root_or_none 0 in modify (update_obj obj (fun o => add_object o address r)).

Definition _precede_with_filler (obj : nat) (address size : Z) : M Z :=
  _create_filler_object obj address size;;
  ret (address + size).

Definition _align_with_filler (obj : nat) (address object_size filler_size : Z) : M unit :=
  let* pre_filler := _get_fill_to_align address in
  let* (address, filler_size) :=
    (if nonzero pre_filler then
       let* address := _precede_with_filler obj address pre_filler in
       ret (address, filler_size - pre_filler)
     else ret (address, filler_size)) in
  if nonzero filler_size then
    _create_filler_object obj (address + object_size) filler_size
  else ret tt.

Fixpoint _repeat_object_loop (count : nat) (insert_obj : nat) (insert_off : Z)
    (last_obj : PyVal) : M Z :=
  match count with
  | O => ret insert_off
  | S count' =>
      modify (update_obj insert_obj (fun o => add_object o insert_off last_obj));;
      let* ps := get kPointerSize in
      _repeat_object_loop count' insert_obj (insert_off + ps) last_obj
  end.

Definition _repeat_object (insert_obj : nat) (insert_off : Z) (last_obj : PyVal)
    (count : Z) : M Z :=
  _repeat_object_loop (Z.to_nat count) insert_obj insert_off last_obj.

(** The fourteen [(where, how, within)] attempts of [_read_data], in source
    order; [true] marks the [_do_all_spaces] ones. *)
Definition dispatch_order : list (bool * AllocWhere * AllocHow * AllocPoint) :=
  [ (true, kNewObject, kPlain, kStartOfObject);
    (true, kNewObject, kFromCode, kInnerPointer);
    (true, kBackref, kPlain, kStartOfObject);
    (true, kBackrefWithSkip, kPlain, kStartOfObject);
    (true, kBackref, kFromCode, kInnerPointer);
    (true, kBackrefWithSkip, kFromCode, kInnerPointer);
    (false, kRootArray, kPlain, kStartOfObject);
    (false, kExternalReference, kPlain, kStartOfObject);
    (false, kExternalReference, kFromCode, kStartOfObject);
    (false, kAttachedReference, kPlain, kStartOfObject);
    (false, kAttachedReference, kFromCode, kStartOfObject);
    (false, kAttachedReference, kFromCode, kInnerPointer);
    (false, kBuiltin, kPlain, kStartOfObject);
    (false, kBuiltin, kFromCode, kStartOfObject) ].

Section ReadData.
(** The recursive call [self._read_data(obj, size, space, start_insert)]. *)
Variable read_data : nat -> Z -> option AllocSpace -> Z -> M unit.

Definition _read_object (obj : nat) (insert_off : Z) (space : option AllocSpace) : M unit :=
  let* n := _read_int in
  let* bits := get kObjectAlignmentBits in
  let size := Z.shiftl n bits in
  let* space_chunk := get (fun p => default 0 (last_chunk_index p !! space)) in
  let* a := get next_alignment in
  (match a with
   | Some kWordAligned => ret tt
   | _ =>
       let* chunks := reserv_get space in
       (if space_chunk <? len chunks then
          match getitem chunks space_chunk with
          | None => raise IndexError
          | Some reserv_obj =>
              let* address := get (fun p => _offset (deref p reserv_obj)) in
              let* filler := _get_maximum_fill_to_align in
              _align_with_filler reserv_obj address size filler;;
              modify (update_obj reserv_obj (fun o => set_offset o (address + filler)))
          end
        else ret tt);;
       modify (with_next_alignment (Some kWordAligned))
   end);;
  let* chunks := reserv_get space in
  if len chunks <=? space_chunk then ret tt
  else
    match getitem chunks space_chunk with
    | None => raise IndexError
    | Some reserv_obj =>
        let* address := get (fun p => _offset (deref p reserv_obj)) in
        modify (update_obj reserv_obj (fun o => set_offset o (address + size)));;
        let* ps := get kPointerSize in
        let* new_obj := alloc size ps in
        modify (update_obj reserv_obj (fun o => add_object o address (VObj new_obj)));;
        read_data new_obj size space 0;;
        modify (update_obj obj (fun o => add_object o insert_off (VObj new_obj)))
    end.

Definition _read_space_data (obj : nat) (insert_off : Z) (state : CaseState)
    (space : option (option AllocSpace)) : M Z :=
  let space :=
    match space with
    | None => AllocSpace_from_int (Z.land (cs_value state) 7)
    | Some s => s
    end in
  (match cs_where state, cs_how state, cs_within state with
   | kNewObject, kPlain, kStartOfObject => _read_object obj insert_off space
   | kNewObject, _, _ => ret tt
   | kBackref, _, _ =>
       let* back_obj :=
         _get_back_referenced_object (AllocSpace_from_int (Z.land (cs_value state) 7)) in
       modify (update_obj obj (fun o => add_object o insert_off back_obj))
   | kBackrefWithSkip, _, _ => ret tt
   | kRootArray, _, _ =>
       let* idx := _read_int in
       let* rs := get roots in
       match getitem rs idx with
       | None => raise IndexError
       | Some hot_obj =>
           modify (push_hot hot_obj);;
           modify (update_obj obj (fun o => add_object o insert_off hot_obj))
       end
   | kPartialSnapshotCache, _, _ => ret tt
   | kExternalReference, _, _ => ret tt
   | kAttachedReference, _, _ =>
       let* index := _read_int in
       let* att := get attached in
       if index <? len att then
         match getitem att index with
         | None => raise IndexError
         | Some v => modify (update_obj obj (fun o => add_object o insert_off v))
         end
       else ret tt
   | kBuiltin, _, _ =>
       let* idx := _read_int in
       let* bs := get builtins in
       if idx <? len bs then
         match getitem bs idx with
         | None => raise IndexError
         | Some v => modify (update_obj obj (fun o => add_object o insert_off v))
         end
       else ret tt
   end);;
  let* ps := get kPointerSize in
  ret (insert_off + ps).

Definition _do_all_spaces (insert_off val : Z) (obj : nat)
    (where_ : AllocWhere) (how : AllocHow) (within : AllocPoint) : M Z :=
  let state := {| cs_value := val; cs_where := where_; cs_how := how; cs_within := within |} in
  match _all_spaces state with
  | None => ret (-1)
  | Some NEW_SPACE => _read_space_data obj insert_off state (Some (Some NEW_SPACE))
  | Some _ => _read_space_data obj insert_off state None
  end.

Definition _do_new_space (insert_off val : Z) (obj : nat)
    (where_ : AllocWhere) (how : AllocHow) (within : AllocPoint) : M Z :=
  let state := {| cs_value := val; cs_where := where_; cs_how := how; cs_within := within |} in
  if negb (_new_space state) then ret (-1)
  else _read_space_data obj insert_off state (Some (Some NEW_SPACE)).

(** The chain [result = ...; if result != -1: insert_off = result; continue]:
    the first attempt whose result is not -1, or -1 after the last. *)
Fixpoint try_cases (cases : list (bool * AllocWhere * AllocHow * AllocPoint))
    (insert_off b : Z) (obj : nat) : M Z :=
  match cases with
  | [] => ret (-1)
  | (all, where_, how, within) :: rest =>
      let* result :=
        (if all : bool then _do_all_spaces insert_off b obj where_ how within
         else _do_new_space insert_off b obj where_ how within) in
      if result =? -1 then try_cases rest insert_off b obj
      else ret result
  end.

(** One iteration of the [while insert_off < size] loop, after the loop
    test: [Some insert_off'] to go round again, [None] for [return]. *)
Definition _read_data_step (obj : nat) (size : Z) (space : option AllocSpace)
    (insert_off : Z) : M (option Z) :=
  let* b0 := read_byte in
  let b := Z.land b0 0xFF in
  let* result := try_cases dispatch_order insert_off b obj in
  if negb (result =? -1) then ret (Some result)
  else if b =? 0x0F then
    let* n := _read_int in ret (Some (insert_off + n))
  else if (b =? 0x1B) || (b =? 0x1C) then ret (Some insert_off)
  else if b =? 0x2F then ret None
  else if b =? 0x4F then
    let* c := read_byte in
    let new_chunk := Z.land c 0xFF in
    modify (fun p => with_last_chunk_index (<[space := new_chunk]> (last_chunk_index p)) p);;
    ret (Some insert_off)
  else if b =? 0x6F then ret (Some size)
  else if b =? 0x18 then ret (Some insert_off)
  else if b =? 0x1A then
    let* size_in_bytes := _read_int in
    let* raw_data := read_bytes size_in_bytes in
    modify (update_obj obj (fun o => add_object_bytes o insert_off raw_data));;
    ret (Some insert_off)
  else if b =? 0x19 then
    let* repeats := _read_int in
    let* last_obj := get (fun p => get_last_object (deref p obj)) in
    let* off := _repeat_object obj insert_off last_obj repeats in
    ret (Some off)
  else if (b =? 0x15) || (b =? 0x16) || (b =? 0x17) then
    modify (with_next_alignment (AllocationAlignment_from_int (b - (0x15 - 1))));;
    ret (Some insert_off)
  else if (0xA0 <=? b) && (b <=? 0xBF) then ret (Some insert_off)
  else if (0x80 <=? b) && (b <=? 0x9F) then
    let* rs := get roots in
    match getitem rs (Z.land b 0x1F) with
    | None => raise IndexError
    | Some r =>
        modify (update_obj obj (fun o => add_object o insert_off r));;
        let* ps := get kPointerSize in
        ret (Some (insert_off + ps))
    end
  else if (0x58 <=? b) && (b <=? 0x5F) then ret (Some insert_off)
  else if (0x38 <=? b) && (b <=? 0x3F) then
    let* hot := get (fun p => default VNone (hots p !! Z.land b 7)) in
    modify (update_obj obj (fun o => add_object o insert_off hot));;
    let* ps := get kPointerSize in
    ret (Some (insert_off + ps))
  else if (0xC0 <=? b) && (b <=? 0xDF) then
    let* bits := get kPointerSizeLog2 in
    let size_in_bytes := Z.shiftl (b - (0xC0 - 1)) bits in
    let* raw_data := read_bytes size_in_bytes in
    modify (update_obj obj (fun o => add_object_bytes o insert_off raw_data));;
    ret (Some (insert_off + size_in_bytes))
  else if (0xE0 <=? b) && (b <=? 0xEF) then
    let repeats := b - (0xE0 - 1) in
    let* last_obj := get (fun p => get_last_object (deref p obj)) in
    let* off := _repeat_object obj insert_off last_obj repeats in
    ret (Some off)
  else
    let* pos0 := get (fun p => pos (reader p)) in
    raise (ValueError ("Wrong JSC byte data: 0x" ++ format_int 16 2 b
                       ++ " at pos 0x" ++ fmt_X (pos0 - 1))).
End ReadData.

(** [_read_data]: every loop iteration and every nested call takes one unit
    of [fuel]. *)
Fixpoint _read_data (fuel : nat) (obj : nat) (size : Z) (space : option AllocSpace)
    (insert_off : Z) : M unit :=
  match fuel with
  | O => out_of_fuel
  | S fuel' =>
      if insert_off <? size then
        let* next := _read_data_step (_read_data fuel') obj size space insert_off in
        match next with
        | Some off => _read_data fuel' obj size space off
        | None => ret tt
        end
      else ret tt
  end.

Fixpoint _deserialize_deferred_objects (fuel : nat) : M unit :=
  match fuel with
  | O => out_of_fuel
  | S fuel' =>
      let* b0 := read_byte in
      let b := Z.land b0 0xFF in
      if (b =? 0x15) || (b =? 0x16) || (b =? 0x17) then
        modify (with_next_alignment (AllocationAlignment_from_int (b - (0x15 - 1))));;
        _deserialize_deferred_objects fuel'
      else if b =? 0x18 then ret tt
      else
        let space := AllocSpace_from_int (Z.land b 7) in
        let* back_obj := _get_back_referenced_object space in
        let* n := _read_int in
        let* bits := get kPointerSizeLog2 in
        let size := Z.shiftl n bits in
        (match back_obj with
         | VObj id =>
             let* ps := get kPointerSize in
             _read_data fuel' id size space ps
         | _ => ret tt
         end);;
        _deserialize_deferred_objects fuel'
  end.

Definition _get_script_offset : M Z :=
  let* ps := get kPointerSize in
  let kCodeOffset := ps in
  let kNameOffset := kCodeOffset + ps in
  let kScopeInfoOffset := kNameOffset + ps in
  let kOuterScopeInfoOffset := kScopeInfoOffset + ps in
  let kConstructStubOffset := kOuterScopeInfoOffset + ps in
  let kInstanceClassNameOffset := kConstructStubOffset + ps in
  let kFunctionDataOffset := kInstanceClassNameOffset + ps in
  ret (kFunctionDataOffset + ps).

(** [_load_space_objects]: the function objects reachable from the first
    object of a chunk, [None] when the chunk does not have that shape. *)
Definition _load_space_objects (space_objs : nat) : M (option (list nat)) :=
  let* first_func := get (fun p => get_aligned_object (deref p space_objs) 0) in
  match first_func with
  | VObj first_func =>
      let* kPointerSize := get kPointerSize in
      let* script_offset := _get_script_offset in
      let* script := get (fun p => get_aligned_object (deref p first_func) script_offset) in
      match script with
      | VObj script =>
          let* shared_funcs :=
            get (fun p => get_aligned_object (deref p script) (12 * kPointerSize)) in
          match shared_funcs with
          | VObj shared_funcs =>
              let array_length_offset := kPointerSize in
              let array_header_size := array_length_offset + kPointerSize in
              let* sf_count :=
                get (fun p => get_smi_int (deref p shared_funcs) array_length_offset) in
              let* functions := get (fun p =>
                flat_map (fun i =>
                  match get_aligned_object (deref p shared_funcs)
                          (array_header_size + Z.of_nat i * kPointerSize) with
                  | VObj weak_func =>
                      match get_aligned_object (deref p weak_func) kPointerSize with
                      | VObj func => [func]
                      | _ => []
                      end
                  | _ => []
                  end) (seq 0 (Z.to_nat sf_count))) in
              ret (Some functions)
          | _ => ret None
          end
      | _ => ret None
      end
  | _ => ret None
  end.

(** The [for i in range(reserv_count)] loop of [parse]. *)
Fixpoint read_reservations (count : nat) (curr_space : Z) : M unit :=
  match count with
  | O => ret tt
  | S count' =>
      let space := AllocSpace_from_int curr_space in
      modify (fun p =>
        match reserv p !! space with
        | Some _ => p
        | None => with_reserv (<[space := []]> (reserv p)) p
        end);;
      let* size := read_uint32 in
      let* ps := get kPointerSize in
      let* chunk := alloc (Z.land size 0x7FFFFFFF) ps in
      modify (fun p =>
        with_reserv (<[space := default [] (reserv p !! space) ++ [chunk]]> (reserv p)) p);;
      modify (fun p => with_last_chunk_index (<[space := 0]> (last_chunk_index p)) p);;
      if nonzero (Z.shiftr (Z.land size 0x80000000) 0x1F) then
        read_reservations count' (curr_space + 1)
      else read_reservations count' curr_space
  end.

Fixpoint read_code_stubs (count : nat) (acc : list Z) : M (list Z) :=
  match count with
  | O => ret acc
  | S count' => let* v := read_uint32 in read_code_stubs count' (acc ++ [v])
  end.

Fixpoint load_chunks (chunks : list nat) (results : list nat) : M (list nat) :=
  match chunks with
  | [] => ret results
  | chunk :: rest =>
      let* funcs := _load_space_objects chunk in
      match funcs with
      | Some (f :: fs) => load_chunks rest (results ++ f :: fs)
      | _ => load_chunks rest results
      end
  end.

(** [parse]: the references of the function objects found. *)
Definition parse (fuel : nat) : M (list nat) :=
  let* magic := read_uint32 in
  if negb ((magic =? 0xC0DE0BEE) || (magic =? 0xC0DE03BE) || (magic =? 0xC0DE0628)) then
    raise (ValueError ("Invalid JSC magic: 0x" ++ format_int 16 8 magic))
  else
    let* vh := read_uint32 in
    let* sh := read_uint32 in
    modify (fun p => with_header vh sh (code_stubs p) p);;
    let* cpu_features := read_uint32 in
    let* flags_hash := read_uint32 in
    let* reserv_count := read_uint32 in
    let reserv_size := reserv_count * 4 in
    let* code_stubs_count := read_uint32 in
    let code_stubs_size := code_stubs_count * 4 in
    let* payload_size := read_uint32 in
    let* c1 := read_uint32 in
    let* c2 := read_uint32 in
    let* pos0 := get (fun p => pos (reader p)) in
    let* payload_offset := _pointer_size_align (pos0 + reserv_size + code_stubs_size) in
    read_reservations (Z.to_nat reserv_count) 0;;
    let* stubs0 := get code_stubs in
    let* stubs := read_code_stubs (Z.to_nat code_stubs_count) stubs0 in
    modify (fun p => with_header (version_hash p) (source_hash p) stubs p);;
    seek payload_offset;;
    let* ps := get kPointerSize in
    let* root := alloc ps ps in
    let* root_size := get (fun p => get_size (deref p root)) in
    _read_data fuel root root_size (Some NEW_SPACE) 0;;
    _deserialize_deferred_objects fuel;;
    let* old_space_chunks := reserv_get (Some OLD_SPACE) in
    load_chunks old_space_chunks [].

(** A fatal format error: the deserializer raises [ValueError] with a message. *)
Definition fails_with_format_error {A : Type} (r : result A) : Prop :=
  exists msg, r = Raise (ValueError msg).

(** Modelled from the spec: the writer's side of the varint of section
    4.2.1, which is not in the repository.  The reader takes the byte count
    minus one from the low two bits and the value from the bits above, so a
    value [m] is stored as [(m << 2) | (n - 1)] in [n] little-endian bytes,
    with [n] the least width that holds it. *)
Definition varint_width (m : Z) : Z :=
  if m <? 2 ^ 6 then 1 else if m <? 2 ^ 14 then 2 else if m <? 2 ^ 22 then 3 else 4.

Definition encode_varint (m : Z) : list byte :=
  le_split (Z.to_nat (varint_width m)) (Z.lor (Z.shiftl m 2) (varint_width m - 1)).

(** Modelled from the spec: the writer's side of the back-reference word of
    section 4.2.2 (not in the repository): the chunk index above the offset
    field, the chunk offset in units of the pointer size. *)
Definition encode_back_ref (is_32bit : bool) (chunk_index chunk_offset : Z) : Z :=
  if is_32bit then Z.lor (Z.shiftl chunk_index 17) (Z.shiftr chunk_offset 2)
  else Z.lor (Z.shiftl chunk_index 16) (Z.shiftr chunk_offset 3).

End Parser.

(** ** v6/disasm.py *)

Module Disasm.
Import Py.
Local Open Scope string_scope.
Local Open Scope Z_scope.

Inductive OperandType :=
| kReg | kImm | kIdx | kUImm | kFlag8 | kIntrinsicId | kRuntimeId
| kRegRange | kRegPair | kRegTriple.

#[global] Instance OperandType_eq_dec : EqDecision OperandType.
Proof. solve_decision. Defined.

(** Opcode table: opcode -> (mnemonic, operand types), in source order. *)
Definition OPCODES : list (Z * (string * list OperandType)) := [
    (0x00, ("Wide", []));
    (0x01, ("ExtraWide", []));
    (0x02, ("LdaZero", []));
    (0x03, ("LdaSmi", [kImm]));
    (0x04, ("LdaUndefined", []));
    (0x05, ("LdaNull", []));
    (0x06, ("LdaTheHole", []));
    (0x07, ("LdaTrue", []));
    (0x08, ("LdaFalse", []));
    (0x09, ("LdaConstant", [kIdx]));
    (0x0a, ("LdaGlobal", [kIdx; kIdx]));
    (0x0b, ("LdaGlobalInsideTypeof", [kIdx; kIdx]));
    (0x0c, ("StaGlobalSloppy", [kIdx; kIdx]));
    (0x0d, ("StaGlobalStrict", [kIdx; kIdx]));
    (0x0e, ("PushContext", [kReg]));
    (0x0f, ("PopContext", [kReg]));
    (0x10, ("LdaContextSlot", [kReg; kIdx; kUImm]));
    (0x11, ("LdaImmutableContextSlot", [kReg; kIdx; kUImm]));
    (0x12, ("LdaCurrentContextSlot", [kIdx]));
    (0x13, ("LdaImmutableCurrentContextSlot", [kIdx]));
    (0x14, ("StaContextSlot", [kReg; kIdx; kUImm]));
    (0x15, ("StaCurrentContextSlot", [kIdx]));
    (0x16, ("LdaLookupSlot", [kIdx]));
    (0x17, ("LdaLookupContextSlot", [kIdx; kIdx; kUImm]));
    (0x18, ("LdaLookupGlobalSlot", [kIdx; kIdx; kUImm]));
    (0x19, ("LdaLookupSlotInsideTypeof", [kIdx]));
    (0x1a, ("LdaLookupContextSlotInsideTypeof", [kIdx; kIdx; kUImm]));
    (0x1b, ("LdaLookupGlobalSlotInsideTypeof", [kIdx; kIdx; kUImm]));
    (0x1c, ("StaLookupSlot", [kIdx; kFlag8]));
    (0x1d, ("Ldar", [kReg]));
    (0x1e, ("Star", [kReg]));
    (0x1f, ("Mov", [kReg; kReg]));
    (0x20, ("LdaNamedProperty", [kReg; kIdx; kIdx]));
    (0x21, ("LdaKeyedProperty", [kReg; kIdx]));
    (0x22, ("LdaModuleVariable", [kImm; kUImm]));
    (0x23, ("StaModuleVariable", [kImm; kUImm]));
    (0x24, ("StaNamedPropertySloppy", [kReg; kIdx; kIdx]));
    (0x25, ("StaNamedPropertyStrict", [kReg; kIdx; kIdx]));
    (0x26, ("StaNamedOwnProperty", [kReg; kIdx; kIdx]));
    (0x27, ("StaKeyedPropertySloppy", [kReg; kReg; kIdx]));
    (0x28, ("StaKeyedPropertyStrict", [kReg; kReg; kIdx]));
    (0x29, ("StaDataPropertyInLiteral", [kReg; kReg; kFlag8; kIdx]));
    (0x2a, ("CollectTypeProfile", [kImm]));
    (0x2b, ("Add", [kReg; kIdx]));
    (0x2c, ("Sub", [kReg; kIdx]));
    (0x2d, ("Mul", [kReg; kIdx]));
    (0x2e, ("Div", [kReg; kIdx]));
    (0x2f, ("Mod", [kReg; kIdx]));
    (0x30, ("BitwiseOr", [kReg; kIdx]));
    (0x31, ("BitwiseXor", [kReg; kIdx]));
    (0x32, ("BitwiseAnd", [kReg; kIdx]));
    (0x33, ("ShiftLeft", [kReg; kIdx]));
    (0x34, ("ShiftRight", [kReg; kIdx]));
    (0x35, ("ShiftRightLogical", [kReg; kIdx]));
    (0x36, ("AddSmi", [kImm; kIdx]));
    (0x37, ("SubSmi", [kImm; kIdx]));
    (0x38, ("MulSmi", [kImm; kIdx]));
    (0x39, ("DivSmi", [kImm; kIdx]));
    (0x3a, ("ModSmi", [kImm; kIdx]));
    (0x3b, ("BitwiseOrSmi", [kImm; kIdx]));
    (0x3c, ("BitwiseXorSmi", [kImm; kIdx]));
    (0x3d, ("BitwiseAndSmi", [kImm; kIdx]));
    (0x3e, ("ShiftLeftSmi", [kImm; kIdx]));
    (0x3f, ("ShiftRightSmi", [kImm; kIdx]));
    (0x40, ("ShiftRightLogicalSmi", [kImm; kIdx]));
    (0x41, ("Inc", [kIdx]));
    (0x42, ("Dec", [kIdx]));
    (0x43, ("ToBooleanLogicalNot", []));
    (0x44, ("LogicalNot", []));
    (0x45, ("TypeOf", []));
    (0x46, ("DeletePropertyStrict", [kReg]));
    (0x47, ("DeletePropertySloppy", [kReg]));
    (0x48, ("GetSuperConstructor", [kReg]));
    (0x49, ("CallAnyReceiver", [kReg; kRegRange; kIdx]));
    (0x4a, ("CallProperty", [kReg; kRegRange; kIdx]));
    (0x4b, ("CallProperty0", [kReg; kReg; kIdx]));
    (0x4c, ("CallProperty1", [kReg; kReg; kReg; kIdx]));
    (0x4d, ("CallProperty2", [kReg; kReg; kReg; kReg; kIdx]));
    (0x4e, ("CallUndefinedReceiver", [kReg; kRegRange; kIdx]));
    (0x4f, ("CallUndefinedReceiver0", [kReg; kIdx]));
    (0x50, ("CallUndefinedReceiver1", [kReg; kReg; kIdx]));
    (0x51, ("CallUndefinedReceiver2", [kReg; kReg; kReg; kIdx]));
    (0x52, ("CallWithSpread", [kReg; kRegRange; kIdx]));
    (0x53, ("CallRuntime", [kRuntimeId; kRegRange]));
    (0x54, ("CallRuntimeForPair", [kRuntimeId; kRegRange; kRegPair]));
    (0x55, ("CallJSRuntime", [kIdx; kRegRange]));
    (0x56, ("InvokeIntrinsic", [kIntrinsicId; kRegRange]));
    (0x57, ("Construct", [kReg; kRegRange; kIdx]));
    (0x58, ("ConstructWithSpread", [kReg; kRegRange; kIdx]));
    (0x59, ("TestEqual", [kReg; kIdx]));
    (0x5a, ("TestEqualStrict", [kReg; kIdx]));
    (0x5b, ("TestLessThan", [kReg; kIdx]));
    (0x5c, ("TestGreaterThan", [kReg; kIdx]));
    (0x5d, ("TestLessThanOrEqual", [kReg; kIdx]));
    (0x5e, ("TestGreaterThanOrEqual", [kReg; kIdx]));
    (0x5f, ("TestEqualStrictNoFeedback", [kReg]));
    (0x60, ("TestInstanceOf", [kReg]));
    (0x61, ("TestIn", [kReg]));
    (0x62, ("TestUndetectable", []));
    (0x63, ("TestNull", []));
    (0x64, ("TestUndefined", []));
    (0x65, ("TestTypeOf", [kFlag8]));
    (0x66, ("ToName", [kReg]));
    (0x67, ("ToNumber", [kReg; kIdx]));
    (0x68, ("ToObject", [kReg]));
    (0x69, ("CreateRegExpLiteral", [kIdx; kIdx; kFlag8]));
    (0x6a, ("CreateArrayLiteral", [kIdx; kIdx; kFlag8]));
    (0x6b, ("CreateEmptyArrayLiteral", [kIdx]));
    (0x6c, ("CreateObjectLiteral", [kIdx; kIdx; kFlag8; kReg]));
    (0x6d, ("CreateEmptyObjectLiteral", []));
    (0x6e, ("CreateClosure", [kIdx; kIdx; kFlag8]));
    (0x6f, ("CreateBlockContext", [kIdx]));
    (0x70, ("CreateCatchContext", [kReg; kIdx; kIdx]));
    (0x71, ("CreateFunctionContext", [kUImm]));
    (0x72, ("CreateEvalContext", [kUImm]));
    (0x73, ("CreateWithContext", [kReg; kIdx]));
    (0x74, ("CreateMappedArguments", []));
    (0x75, ("CreateUnmappedArguments", []));
    (0x76, ("CreateRestParameter", []));
    (0x77, ("JumpLoop", [kUImm; kImm]));
    (0x78, ("Jump", [kUImm]));
    (0x79, ("JumpConstant", [kIdx]));
    (0x7a, ("JumpIfNullConstant", [kIdx]));
    (0x7b, ("JumpIfNotNullConstant", [kIdx]));
    (0x7c, ("JumpIfUndefinedConstant", [kIdx]));
    (0x7d, ("JumpIfNotUndefinedConstant", [kIdx]));
    (0x7e, ("JumpIfTrueConstant", [kIdx]));
    (0x7f, ("JumpIfFalseConstant", [kIdx]));
    (0x80, ("JumpIfJSReceiverConstant", [kIdx]));
    (0x81, ("JumpIfToBooleanTrueConstant", [kIdx]));
    (0x82, ("JumpIfToBooleanFalseConstant", [kIdx]));
    (0x83, ("JumpIfToBooleanTrue", [kUImm]));
    (0x84, ("JumpIfToBooleanFalse", [kUImm]));
    (0x85, ("JumpIfTrue", [kUImm]));
    (0x86, ("JumpIfFalse", [kUImm]));
    (0x87, ("JumpIfNull", [kUImm]));
    (0x88, ("JumpIfNotNull", [kUImm]));
    (0x89, ("JumpIfUndefined", [kUImm]));
    (0x8a, ("JumpIfNotUndefined", [kUImm]));
    (0x8b, ("JumpIfJSReceiver", [kUImm]));
    (0x8c, ("SwitchOnSmiNoFeedback", [kIdx; kUImm; kImm]));
    (0x8d, ("ForInPrepare", [kReg; kRegTriple]));
    (0x8e, ("ForInContinue", [kReg; kReg]));
    (0x8f, ("ForInNext", [kReg; kReg; kRegPair; kIdx]));
    (0x90, ("ForInStep", [kReg]));
    (0x91, ("StackCheck", []));
    (0x92, ("SetPendingMessage", []));
    (0x93, ("Throw", []));
    (0x94, ("ReThrow", []));
    (0x95, ("Return", []));
    (0x96, ("ThrowReferenceErrorIfHole", [kIdx]));
    (0x97, ("ThrowSuperNotCalledIfHole", []));
    (0x98, ("ThrowSuperAlreadyCalledIfNotHole", []));
    (0x99, ("RestoreGeneratorState", [kReg]));
    (0x9a, ("SuspendGenerator", [kReg; kRegRange; kUImm]));
    (0x9b, ("RestoreGeneratorRegisters", [kReg; kRegRange]));
    (0x9c, ("Debugger", []));
    (0x9d, ("DebugBreak0", []));
    (0x9e, ("DebugBreak1", [kReg]));
    (0x9f, ("DebugBreak2", [kReg; kReg]));
    (0xa0, ("DebugBreak3", [kReg; kReg; kReg]));
    (0xa1, ("DebugBreak4", [kReg; kReg; kReg; kReg]));
    (0xa2, ("DebugBreak5", [kRuntimeId; kReg; kReg]));
    (0xa3, ("DebugBreak6", [kRuntimeId; kReg; kReg; kReg]));
    (0xa4, ("DebugBreakWide", []));
    (0xa5, ("DebugBreakExtraWide", []));
    (0xa6, ("IncBlockCounter", [kIdx]));
    (0xa7, ("Illegal", []));
    (0xa8, ("Nop", [])) ].

(** [OPCODES[opcode]], [None] when [opcode not in OPCODES]. *)
Definition OPCODES_get (opcode : Z) : option (string * list OperandType) :=
  snd <$> find (fun e => fst e =? opcode) OPCODES.

Definition FORWARD_JUMPS : list string :=
  ["Jump"; "JumpIfToBooleanTrue"; "JumpIfToBooleanFalse";
   "JumpIfTrue"; "JumpIfFalse";
   "JumpIfNull"; "JumpIfNotNull";
   "JumpIfUndefined"; "JumpIfNotUndefined";
   "JumpIfJSReceiver"].

Definition BACKWARD_JUMPS : list string := ["JumpLoop"].

Definition TYPEOF_LITERALS : list string :=
  ["number"; "string"; "symbol"; "boolean"; "undefined";
   "function"; "object"; "other"].

(** [x in names] *)
Definition str_in (x : string) (names : list string) : bool :=
  existsb (String.eqb x) names.

Definition _byte_to_register (val : Z) : string :=
  if val =? 0 then "Wide"
  else if val =? 1 then "ExtraWide"
  else if (2 <=? val) && (val <=? 127) then "a" ++ fmt_d (val - 2)
  else if (128 <=? val) && (val <=? 251) then "r" ++ fmt_d (251 - val)
  else if val =? 252 then "_closure"
  else if val =? 253 then "_context"
  else "??(" ++ fmt_d val ++ ")".

(** An entry of the constant pool as the disassembler and the reconstructor
    tell them apart: [str], [int], [float] (kept as its [repr] text), a
    [RootObject], a [ConstantPoolRef], anything else. *)
Inductive CPItem :=
| CPStr (s : string)
| CPInt (z : Z)
| CPFloat (repr : string)
| CPRoot (name type_ : string)
| CPRef (type_name name : string)
| CPOther.

(** The second component of an [operands] entry: a number, or the
    [(reg_byte, count)] pair of a register range. *)
Inductive OperandVal :=
| OInt (val : Z)
| ORange (reg_byte count : Z).

(** The tuple [(offset, mnemonic, operands_str, raw_bytes, comment)]. *)
Record Instruction := {
  i_offset : Z;
  i_mnemonic : string;
  i_operands : string;
  i_raw : list byte;
  i_comment : string
}.

(** Width in bytes of an operand field for an operand size (1, 2, or else 4). *)
Definition field_width (operand_size : Z) : Z :=
  if operand_size =? 1 then 1 else if operand_size =? 2 then 2 else 4.

(** Operand values are never negative. *)
Definition entry_nonneg (e : OperandType * OperandVal) : Prop :=
  match snd e with
  | OInt v => 0 <= v
  | ORange r c => 0 <= r /\ 0 <= c
  end.

(** [bytecode[pos]] *)
Definition byte_at (bytecode : list byte) (pos : Z) : result Z :=
  match getitem bytecode pos with
  | Some b => Ok (byte.unsigned b)
  | None => Raise IndexError
  end.

(** [struct.unpack_from(fmt, bytecode, pos)[0]] for "<H" and "<I". *)
Definition unpack (n : nat) (bytecode : list byte) (pos : Z) : result Z :=
  match unpack_from_le n bytecode pos with
  | Some v => Ok v
  | None => Raise StructError
  end.

(** One field of a register operand:
    [bytecode[pos] if pos < length else 0] and its wider forms; the cursor
    moves on by the width whatever was read. *)
Definition read_reg_field (operand_size : Z) (bytecode : list byte) (pos : Z) : result (Z * Z) :=
  let length := len bytecode in
  if operand_size =? 1 then
    match (if pos <? length then byte_at bytecode pos else Ok 0) with
    | Ok v => Ok (v, pos + 1)
    | Raise e => Raise e
    | OutOfFuel => OutOfFuel
    end
  else if operand_size =? 2 then
    match (if pos + 2 <=? length then unpack 2 bytecode pos else Ok 0) with
    | Ok v => Ok (v, pos + 2)
    | Raise e => Raise e
    | OutOfFuel => OutOfFuel
    end
  else
    match (if pos + 4 <=? length then unpack 4 bytecode pos else Ok 0) with
    | Ok v => Ok (v, pos + 4)
    | Raise e => Raise e
    | OutOfFuel => OutOfFuel
    end.

(** A standard operand of [operand_size] bytes: value and new cursor. *)
Definition read_standard (operand_size : Z) (bytecode : list byte) (pos : Z) : result (Z * Z) :=
  let length := len bytecode in
  if operand_size =? 1 then
    if length <=? pos then Ok (0, length)
    else match byte_at bytecode pos with
         | Ok v => Ok (v, pos + 1)
         | Raise e => Raise e
         | OutOfFuel => OutOfFuel
         end
  else if operand_size =? 2 then
    if length <? pos + 2 then Ok (0, length)
    else match unpack 2 bytecode pos with
         | Ok v => Ok (v, pos + 2)
         | Raise e => Raise e
         | OutOfFuel => OutOfFuel
         end
  else
    if length <? pos + 4 then Ok (0, length)
    else match unpack 4 bytecode pos with
         | Ok v => Ok (v, pos + 4)
         | Raise e => Raise e
         | OutOfFuel => OutOfFuel
         end.

(** The text of a standard operand; for [kImm] after the sign extension the
    source applies to the printed value. *)
Definition standard_operand_str (op_type : OperandType) (operand_size val : Z) : option string :=
  match op_type with
  | kReg => Some (_byte_to_register (Z.land val 0xFF))
  | kImm =>
      let val :=
        if (operand_size =? 1) && (127 <? val) then val - 256
        else if (operand_size =? 2) && (32767 <? val) then val - 65536
        else val in
      Some ("[" ++ fmt_d val ++ "]")
  | kIdx => Some ("[" ++ fmt_d val ++ "]")
  | kUImm => Some ("[" ++ fmt_d val ++ "]")
  | kFlag8 => Some ("#" ++ fmt_d val)
  | kIntrinsicId => Some ("[" ++ fmt_d val ++ "]")
  | _ => None
  end.

(** One pass of the body of [for op_type in operand_types]: the entry
    appended to [operands], the text appended to [operand_strs], and the
    cursor afterwards. *)
Definition decode_operand (op_type : OperandType) (operand_size : Z)
    (bytecode : list byte) (pos : Z)
    : result ((OperandType * OperandVal) * option string * Z) :=
  let length := len bytecode in
  match op_type with
  | kRuntimeId =>
      if pos + 2 <=? length then
        match unpack 2 bytecode pos with
        | Ok val => Ok ((op_type, OInt val), Some ("[" ++ fmt_d val ++ "]"), pos + 2)
        | Raise e => Raise e
        | OutOfFuel => OutOfFuel
        end
      else Ok ((op_type, OInt 0), Some ("[" ++ fmt_d 0 ++ "]"), length)
  | kRegRange =>
      match read_reg_field operand_size bytecode pos with
      | Ok (reg_byte, pos) =>
          match read_reg_field operand_size bytecode pos with
          | Ok (count, pos) =>
              let reg_name := _byte_to_register (Z.land reg_byte 0xFF) in
              let last_name :=
                if 0 <? count then _byte_to_register (Z.land (reg_byte + count - 1) 0xFF)
                else reg_name in
              Ok ((op_type, ORange reg_byte count),
                  Some (reg_name ++ "-" ++ last_name ++ "(" ++ fmt_d count ++ ")"),
                  pos)
          | Raise e => Raise e
          | OutOfFuel => OutOfFuel
          end
      | Raise e => Raise e
      | OutOfFuel => OutOfFuel
      end
  | kRegPair =>
      match read_reg_field operand_size bytecode pos with
      | Ok (reg_byte, pos) =>
          Ok ((op_type, OInt reg_byte),
              Some (_byte_to_register (Z.land reg_byte 0xFF) ++ "(pair)"), pos)
      | Raise e => Raise e
      | OutOfFuel => OutOfFuel
      end
  | kRegTriple =>
      match read_reg_field operand_size bytecode pos with
      | Ok (reg_byte, pos) =>
          Ok ((op_type, OInt reg_byte),
              Some (_byte_to_register (Z.land reg_byte 0xFF) ++ "(triple)"), pos)
      | Raise e => Raise e
      | OutOfFuel => OutOfFuel
      end
  | _ =>
      match read_standard operand_size bytecode pos with
      | Ok (val, pos) =>
          Ok ((op_type, OInt val), standard_operand_str op_type operand_size val, pos)
      | Raise e => Raise e
      | OutOfFuel => OutOfFuel
      end
  end.

(** The whole [for op_type in operand_types] loop. *)
Fixpoint decode_operands (operand_types : list OperandType) (operand_size : Z)
    (bytecode : list byte) (pos : Z)
    (operands : list (OperandType * OperandVal)) (operand_strs : list string)
    : result (list (OperandType * OperandVal) * list string * Z) :=
  match operand_types with
  | [] => Ok (operands, operand_strs, pos)
  | op_type :: rest =>
      match decode_operand op_type operand_size bytecode pos with
      | Ok (entry, str, pos) =>
          decode_operands rest operand_size bytecode pos (operands ++ [entry])%list
            (match str with Some t => (operand_strs ++ [t])%list | None => operand_strs end)
      | Raise e => Raise e
      | OutOfFuel => OutOfFuel
      end
  end.

(** [mnemonic.split(".")[-1] if "." in mnemonic else mnemonic] *)
Definition base_of (mnemonic : string) : string :=
  if contains "." mnemonic then List.last (split "." mnemonic) EmptyString
  else mnemonic.

(** The value of the first entry of [operands] whose type is [t] and whose
    value passes [ok]: the loops
    [for op_type, val in operands: if op_type == t and ...: ...; break].
    Register ranges carry their own type and are passed over. *)
Fixpoint first_operand (t : OperandType) (ok : Z -> bool)
    (operands : list (OperandType * OperandVal)) : option Z :=
  match operands with
  | [] => None
  | (op_type, OInt v) :: rest =>
      if bool_decide (op_type = t) && ok v then Some v
      else first_operand t ok rest
  | (_, ORange _ _) :: rest => first_operand t ok rest
  end.

(** The comment for a constant-pool entry. *)
Definition cp_comment (cp_val : CPItem) : string :=
  match cp_val with
  | CPStr s => " ; " ++ dquote ++ take_chars 60 s ++ dquote
  | CPInt z => " ; " ++ fmt_d z
  | CPFloat repr => " ; " ++ repr
  | CPRoot name _ => " ; " ++ name
  | CPRef _ name => " ; " ++ name
  | CPOther => ""
  end.

(** The part of the loop body after operand decoding: jump target,
    constant-pool and typeof comments. *)
Definition build_comment (mnemonic : string) (inst_start : Z)
    (operands : list (OperandType * OperandVal))
    (constant_pool : option (list CPItem)) : result string :=
  let base_mnemonic := base_of mnemonic in
  let comment :=
    if str_in base_mnemonic FORWARD_JUMPS then
      match first_operand kUImm (fun _ => true) operands with
      | Some val => "-> @" ++ format_int 16 4 (inst_start + val)
      | None => ""
      end
    else if str_in base_mnemonic BACKWARD_JUMPS then
      match first_operand kUImm (fun _ => true) operands with
      | Some val => "-> @" ++ format_int 16 4 (inst_start - val)
      | None => ""
      end
    else "" in
  let comment_cp :=
    match constant_pool with
    | None => Ok comment
    | Some items =>
        match first_operand kIdx (fun val => val <? len items) operands with
        | Some val =>
            match getitem items val with
            | Some cp_val => Ok (comment ++ cp_comment cp_val)
            | None => Raise IndexError
            end
        | None => Ok comment
        end
    end in
  match comment_cp with
  | Ok comment =>
      if String.eqb base_mnemonic "TestTypeOf" then
        match first_operand kFlag8 (fun val => val <? len TYPEOF_LITERALS) operands with
        | Some val =>
            match getitem TYPEOF_LITERALS val with
            | Some lit => Ok ("; " ++ lit)
            | None => Raise IndexError
            end
        | None => Ok comment
        end
      else Ok comment
  | Raise e => Raise e
  | OutOfFuel => OutOfFuel
  end.

(** What one iteration of [while pos < length] does: [break], or an
    instruction appended and the cursor where the next iteration starts. *)
Inductive step :=
| Break
| Next (inst : Instruction) (pos : Z).

(** The opcode after prefix handling: [None] for the [break] of a prefix at
    the very end, else the operand size, the prefix name, the opcode and the
    cursor behind it. *)
Definition fetch_opcode (bytecode : list byte) (pos : Z)
    : result (option (Z * option string * Z * Z)) :=
  let length := len bytecode in
  match byte_at bytecode pos with
  | Ok opcode =>
      let pos := pos + 1 in
      if opcode =? 0x00 then
        if length <=? pos then Ok None
        else match byte_at bytecode pos with
             | Ok opcode => Ok (Some (2, Some "Wide", opcode, pos + 1))
             | Raise e => Raise e
             | OutOfFuel => OutOfFuel
             end
      else if opcode =? 0x01 then
        if length <=? pos then Ok None
        else match byte_at bytecode pos with
             | Ok opcode => Ok (Some (4, Some "ExtraWide", opcode, pos + 1))
             | Raise e => Raise e
             | OutOfFuel => OutOfFuel
             end
      else Ok (Some (1, None, opcode, pos))
  | Raise e => Raise e
  | OutOfFuel => OutOfFuel
  end.

Definition decode_instruction (bytecode : list byte)
    (constant_pool : option (list CPItem)) (pos : Z) : result step :=
  let inst_start := pos in
  match fetch_opcode bytecode pos with
  | Ok None => Ok Break
  | Ok (Some (operand_size, prefix_name, opcode, pos)) =>
      match OPCODES_get opcode with
      | None =>
          Ok (Next {| i_offset := inst_start; i_mnemonic := "UNKNOWN";
                      i_operands := "0x" ++ format_int 16 2 opcode;
                      i_raw := slice bytecode inst_start pos;
                      i_comment := "" |} pos)
      | Some (mnemonic, operand_types) =>
          let mnemonic :=
            match prefix_name with
            | Some pre => pre ++ "." ++ mnemonic
            | None => mnemonic
            end in
          match decode_operands operand_types operand_size bytecode pos [] [] with
          | Ok (operands, operand_strs, pos) =>
              match build_comment mnemonic inst_start operands constant_pool with
              | Ok comment =>
                  Ok (Next {| i_offset := inst_start; i_mnemonic := mnemonic;
                              i_operands := join " " operand_strs;
                              i_raw := slice bytecode inst_start pos;
                              i_comment := comment |} pos)
              | Raise e => Raise e
              | OutOfFuel => OutOfFuel
              end
          | Raise e => Raise e
          | OutOfFuel => OutOfFuel
          end
      end
  | Raise e => Raise e
  | OutOfFuel => OutOfFuel
  end.

Fixpoint disassemble_loop (fuel : nat) (bytecode : list byte)
    (constant_pool : option (list CPItem)) (pos : Z)
    (instructions : list Instruction) : result (list Instruction) :=
  match fuel with
  | O => OutOfFuel
  | S fuel' =>
      if pos <? len bytecode then
        match decode_instruction bytecode constant_pool pos with
        | Ok Break => Ok instructions
        | Ok (Next inst pos') =>
            disassemble_loop fuel' bytecode constant_pool pos' (instructions ++ [inst])%list
        | Raise e => Raise e
        | OutOfFuel => OutOfFuel
        end
      else Ok instructions
  end.

(** [disassemble_bytecode(bytecode, constant_pool)]; the handler table
    argument is not used by the source.  One unit of fuel per byte is
    enough (shown below), one more for the final loop test. *)
Definition disassemble_bytecode (bytecode : list byte)
    (constant_pool : option (list CPItem)) : result (list Instruction) :=
  disassemble_loop (S (length bytecode)) bytecode constant_pool 0 [].

End Disasm.

(** ** v6/structs.py and v6/object_converter.py: function names *)

Module Structs.
Import Py ReservObj.
Local Open Scope string_scope.
Local Open Scope Z_scope.

(** What [convert_reserv_object] can return: [None], a string (one of the
    string shapes, decoded), a list of integers (FixedCOWArray), a float
    (HeapNumber; only whether it is zero matters below). *)
Inductive Converted :=
| CvNone
| CvStr (s : string)
| CvList (items : list Z)
| CvFloat (is_zero : bool).

(** [converted if converted else ""]: Python truthiness decides; a
    non-empty list or a non-zero float is kept and is not a string. *)
Definition or_empty (converted : Converted) : option string :=
  match converted with
  | CvNone => Some ""
  | CvStr s => Some s
  | CvList [] => Some ""
  | CvList (_ :: _) => None
  | CvFloat true => Some ""
  | CvFloat false => None
  end.

Section Names.
(** [convert_reserv_object(obj, pointer_size)] for the object a reference
    denotes; its decoding of bytes to text is outside this part. *)
Variable convert_reserv_object : nat -> Converted.

(** The chain of [isinstance] tests on [name_obj] in
    [SharedFunctionInfo.__init__]; [None] when the value kept is not a
    string (the [.replace] that follows raises [AttributeError]). *)
Definition sfi_source_name (name_obj : PyVal) : option string :=
  match name_obj with
  | VRoot name _ => Some name
  | VObj id => or_empty (convert_reserv_object id)
  | VStr s => Some s
  | VInt z => if z =? 0 then Some "empty_string" else Some ""
  | VNone => Some ""
  end.

(** [self.name = self.name.replace(" ", "_").replace("empty_string", "")]
    and the [func_%04d] fallback. *)
Definition sfi_clean_name (name : string) (function_literal_id : Z) : string :=
  let name := replace "empty_string" "" (replace " " "_" name) in
  if String.eqb name "" then "func_" ++ format_int 10 4 function_literal_id
  else name.

(** The name part of [SharedFunctionInfo.__init__]. *)
Definition SharedFunctionInfo_name (name_obj : PyVal) (function_literal_id : Z)
    : result string :=
  match sfi_source_name name_obj with
  | Some name => Ok (sfi_clean_name name function_literal_id)
  | None => Raise AttributeError
  end.

(** The chain of tests in [_extract_sfi_name]: no integer case. *)
Definition closure_source_name (name_obj : PyVal) : option string :=
  match name_obj with
  | VRoot name _ => Some name
  | VObj id => or_empty (convert_reserv_object id)
  | VStr s => Some s
  | _ => Some ""
  end.

(** [_extract_sfi_name], with the function literal id it reads from the
    object given as an argument. *)
Definition _extract_sfi_name (name_obj : PyVal) (func_id : Z) : result string :=
  match closure_source_name name_obj with
  | Some name =>
      let name := replace "empty_string" "" name in
      if String.eqb name "" then Ok ("func_" ++ format_int 10 4 func_id)
      else Ok name
  | None => Raise AttributeError
  end.
End Names.

(** The rule in the words of the specification: dots and spaces become
    underscores, the name [empty_string] becomes the empty name, and the
    fallback stands in for an empty result. *)
Definition underscore_dots_and_spaces (c : ascii) : ascii :=
  if (Ascii.eqb c "."%char || Ascii.eqb c " "%char)%bool then "_"%char else c.

Fixpoint map_chars (f : ascii -> ascii) (s : string) : string :=
  match s with
  | EmptyString => EmptyString
  | String c s' => String (f c) (map_chars f s')
  end.

Definition spec_function_name (name : string) (function_literal_id : Z) : string :=
  let name := map_chars underscore_dots_and_spaces name in
  let name := if String.eqb name "empty_string" then "" else name in
  if String.eqb name "" then "func_" ++ format_int 10 4 function_literal_id
  else name.

(** [c] occurs in [s]. *)
Fixpoint has_char (c : ascii) (s : string) : bool :=
  match s with
  | EmptyString => false
  | String d s' => (Ascii.eqb c d || has_char c s')%bool
  end.

(** Spaces only. *)
Definition underscore_spaces (c : ascii) : ascii :=
  if Ascii.eqb c " "%char then "_"%char else c.

End Structs.

(** ** reconstructor.py

    The expression part of the reconstructor: constant loads, register
    moves, arithmetic, bitwise, shift, unary and comparison handlers,
    [Return] and [Throw], with the whole per-instruction prologue (short
    [StarN] forms, aliases, jump-target and try/catch markers).  An
    instruction whose handler is not among these ends the model with
    [Unmodelled]; nothing is said about such code. *)

Module Reconstructor.
Import Py Disasm.
Local Open Scope string_scope.
Local Open Scope Z_scope.

Definition _OPCODE_ALIASES : list (string * string) :=
  [ ("GetNamedProperty", "LdaNamedProperty");
    ("GetKeyedProperty", "LdaKeyedProperty");
    ("GetNamedPropertyFromSuper", "LdaNamedProperty");
    ("GetEnumeratedKeyedProperty", "LdaKeyedProperty");
    ("SetNamedProperty", "StaNamedPropertySloppy");
    ("DefineNamedOwnProperty", "StaNamedOwnProperty");
    ("SetKeyedProperty", "StaKeyedPropertySloppy");
    ("DefineKeyedOwnProperty", "StaKeyedPropertySloppy");
    ("DefineKeyedOwnPropertyInLiteral", "StaDataPropertyInLiteral");
    ("StaGlobal", "StaGlobalSloppy") ].

(** [d.get(key)] on a table written as a list of pairs. *)
Definition table_get {A : Type} (key : string) (table : list (string * A)) : option A :=
  snd <$> find (fun e => String.eqb (fst e) key) table.

Definition _P_COND : Z := 4.
Definition _P_OR : Z := 6.
Definition _P_XOR : Z := 7.
Definition _P_AND : Z := 8.
Definition _P_EQ : Z := 9.
Definition _P_REL : Z := 10.
Definition _P_SHIFT : Z := 11.
Definition _P_ADD : Z := 12.
Definition _P_MUL : Z := 13.
Definition _P_EXP : Z := 14.
Definition _P_ATOM : Z := 100.

Definition _RIGHT_ASSOC_SAFE : list string := ["+"; "*"; "|"; "&"; "^"].

Definition _wrap_left (acc : string) (acc_prec op_prec : Z) : string :=
  if acc_prec <? op_prec then "(" ++ acc ++ ")" else acc.

Definition _wrap_right (acc : string) (acc_prec op_prec : Z) (op_str : string) : string :=
  if acc_prec <? op_prec then "(" ++ acc ++ ")"
  else if (acc_prec =? op_prec) && negb (str_in op_str _RIGHT_ASSOC_SAFE)
  then "(" ++ acc ++ ")"
  else acc.

Definition _reg_to_name (reg_str : string) (params stack_locals : list string)
    (stack_first_slot : Z) : string :=
  if String.eqb reg_str "<this>" then "this"
  else if str_in reg_str ["<closure>"; "<context>"] then reg_str
  else if startswith reg_str "a" && isdigit (drop_chars 1 reg_str) then
    match int_of_string 10 (drop_chars 1 reg_str) with
    | Some idx =>
        let rev_idx := len params - 1 - idx in
        if (0 <=? rev_idx) && (rev_idx <? len params) then
          default reg_str (getitem params rev_idx)
        else reg_str
    | None => reg_str
    end
  else if startswith reg_str "r" && isdigit (drop_chars 1 reg_str) then
    match int_of_string 10 (drop_chars 1 reg_str) with
    | Some idx =>
        let slot := idx - stack_first_slot in
        if (0 <=? slot) && (slot <? len stack_locals) then
          match getitem stack_locals slot with
          | Some name =>
              if negb (String.eqb name "") && negb (String.eqb name "empty_string")
              then replace " " "_" (replace "." "_" name)
              else reg_str
          | None => reg_str
          end
        else reg_str
    | None => reg_str
    end
  else reg_str.

Definition _cp_value_str (idx : Z) (constant_pool : option (list CPItem)) : result string :=
  let unknown := "cp[" ++ fmt_d idx ++ "]" in
  match constant_pool with
  | None => Ok unknown
  | Some items =>
      if len items <=? idx then Ok unknown
      else
        match getitem items idx with
        | None => Raise IndexError
        | Some item =>
            Ok match item with
               | CPStr item =>
                   if startswith item "HeapNumber:" then drop_chars 11 item
                   else if startswith item "ArrayBoilerplate:" then drop_chars 17 item
                   else if startswith item "ObjBoilerplate:" then drop_chars 15 item
                   else dquote ++ replace dquote ("\" ++ dquote) item ++ dquote
               | CPFloat repr => repr
               | CPInt z => fmt_d z
               | CPRoot name type_ =>
                   if String.eqb name "empty_string" then dquote ++ dquote
                   else if String.eqb type_ "str"
                   then dquote ++ replace dquote ("\" ++ dquote) name ++ dquote
                   else name
               | CPRef _ name => name
               | CPOther => unknown
               end
        end
  end.

(** *** Operand extraction helpers *)

Definition _parse_operands (inst : Instruction) : list string :=
  if String.eqb (i_operands inst) "" then [] else split_ws (i_operands inst).

Definition _clean_op (val : string) : string :=
  strip is_space (rstrip (is_char ","%char) val).

Definition _get_reg (ops : list string) : string :=
  match ops with
  | op :: _ => _clean_op op
  | [] => "?"
  end.

Definition _get_second_reg (ops : list string) : string :=
  match ops with
  | _ :: op :: _ => _clean_op op
  | _ => "?"
  end.

Definition _get_two_regs (ops : list string) : string * string :=
  (_get_reg ops, _get_second_reg ops).

Fixpoint _get_imm (ops : list string) : Z :=
  match ops with
  | [] => 0
  | op :: rest =>
      let c := _clean_op op in
      if startswith c "[" && endswith c "]" then
        match int_of_string 10 (strip_ends 1 1 c) with
        | Some n => n
        | None => _get_imm rest
        end
      else _get_imm rest
  end.

Definition _get_idx (ops : list string) : Z := _get_imm ops.

(** *** The function being lifted, as [reconstruct_js] reads it *)

Record ScopeInfo := {
  params : list string;
  stack_locals : list string;
  stack_locals_first_slot : Z;
  context_locals : list string
}.

Record HandlerTableEntry := {
  he_start : Z;
  he_end : Z;
  he_prediction : Z;
  he_handler_offset : Z;
  he_data : Z
}.

Record BytecodeData := {
  bytecode : list byte;
  constant_pool : option (list CPItem);
  handler_table : option (list HandlerTableEntry)
}.

Record SharedFunctionInfo := {
  name : string;
  sfi_bytecode : option BytecodeData;
  scope_info : option ScopeInfo
}.

(** The symbolic machine: accumulator text with its precedence, register
    texts, the lines emitted so far, the current indentation. *)
Record State := {
  acc : string;
  acc_prec : Z;
  regs : gmap string string;
  lines : list string;
  indent : string
}.

(** How lifting ends: a value, an instruction outside the modelled
    handlers, or a Python exception. *)
Inductive lifted (A : Type) :=
| Lifted (a : A)
| Unmodelled (mnemonic : string)
| Failed (e : exn).
Arguments Lifted {A} a.
Arguments Unmodelled {A} mnemonic.
Arguments Failed {A} e.

(** Register-accumulator handlers [acc = "reg OP wrap_right(acc)"]:
    mnemonic, operator text, precedence. *)
Definition REG_BINOPS : list (string * (string * Z)) :=
  [ ("Add", ("+", _P_ADD)); ("Sub", ("-", _P_ADD));
    ("Mul", ("*", _P_MUL)); ("Div", ("/", _P_MUL)); ("Mod", ("%", _P_MUL));
    ("Exp", ("**", _P_EXP));
    ("BitwiseOr", ("|", _P_OR)); ("BitwiseXor", ("^", _P_XOR));
    ("BitwiseAnd", ("&", _P_AND));
    ("ShiftLeft", ("<<", _P_SHIFT)); ("ShiftRight", (">>", _P_SHIFT));
    ("ShiftRightLogical", (">>>", _P_SHIFT)) ].

(** Accumulator-literal handlers [acc = "wrap_left(acc) OP val"]. *)
Definition SMI_BINOPS : list (string * (string * Z)) :=
  [ ("AddSmi", ("+", _P_ADD)); ("SubSmi", ("-", _P_ADD));
    ("MulSmi", ("*", _P_MUL)); ("DivSmi", ("/", _P_MUL)); ("ModSmi", ("%", _P_MUL));
    ("ExpSmi", ("**", _P_EXP));
    ("BitwiseOrSmi", ("|", _P_OR)); ("BitwiseXorSmi", ("^", _P_XOR));
    ("BitwiseAndSmi", ("&", _P_AND));
    ("ShiftLeftSmi", ("<<", _P_SHIFT)); ("ShiftRightSmi", (">>", _P_SHIFT));
    ("ShiftRightLogicalSmi", (">>>", _P_SHIFT)) ].

(** Register-accumulator comparisons [acc = "reg OP acc"], never wrapped. *)
Definition REG_TESTS : list (string * (string * Z)) :=
  [ ("TestEqual", ("==", _P_EQ));
    ("TestEqualStrict", ("===", _P_EQ));
    ("TestEqualStrictNoFeedback", ("===", _P_EQ));
    ("TestLessThan", ("<", _P_REL)); ("TestGreaterThan", (">", _P_REL));
    ("TestLessThanOrEqual", ("<=", _P_REL));
    ("TestGreaterThanOrEqual", (">=", _P_REL));
    ("TestInstanceOf", ("instanceof", _P_REL)); ("TestIn", ("in", _P_REL)) ].

(** Accumulator tests [acc = "acc OP literal"], never wrapped. *)
Definition ACC_TESTS : list (string * string) :=
  [ ("TestUndetectable", "== null"); ("TestNull", "=== null");
    ("TestUndefined", "=== undefined") ].

(** Constant loads without operand. *)
Definition CONSTANTS : list (string * string) :=
  [ ("LdaZero", "0"); ("LdaUndefined", "undefined"); ("LdaNull", "null");
    ("LdaTheHole", "undefined /* TheHole */"); ("LdaTrue", "true");
    ("LdaFalse", "false") ].

(** [re.match(r'^[ar]\d+$', name)] on ASCII text: [a] or [r], then digits,
    then at most one final newline. *)
Definition is_raw (name : string) : bool :=
  match name with
  | String c rest =>
      (Ascii.eqb c "a" || Ascii.eqb c "r")
      && isdigit (if endswith rest (String (ascii_of_nat 10) "")
                  then take_chars (String.length rest - 1) rest else rest)
  | EmptyString => false
  end.

Section Lifting.
Variables (params_ stack_locals_ : list string) (stack_first_slot : Z).
Variable cp : option (list CPItem).

Definition rname (r : string) : string :=
  _reg_to_name r params_ stack_locals_ stack_first_slot.

Definition get_reg (st : State) (r : string) : string :=
  default (rname r) (regs st !! rname r).

Definition with_acc (a : string) (p : Z) (st : State) : State :=
  {| acc := a; acc_prec := p; regs := regs st; lines := lines st; indent := indent st |}.

Definition with_regs (m : gmap string string) (st : State) : State :=
  {| acc := acc st; acc_prec := acc_prec st; regs := m; lines := lines st;
     indent := indent st |}.

Definition with_indent (i : string) (st : State) : State :=
  {| acc := acc st; acc_prec := acc_prec st; regs := regs st; lines := lines st;
     indent := i |}.

(** [lines.append(indent + text)] *)
Definition emit (text : string) (st : State) : State :=
  {| acc := acc st; acc_prec := acc_prec st; regs := regs st;
     lines := (lines st ++ [(indent st ++ text)%string])%list; indent := indent st |}.

(** [lines.append("")] *)
Definition emit_blank (st : State) : State :=
  {| acc := acc st; acc_prec := acc_prec st; regs := regs st;
     lines := (lines st ++ [""%string])%list; indent := indent st |}.

(** The body shared by [Star] and the short [StarN] forms. *)
Definition store_acc (reg : string) (st : State) : State :=
  let name := rname reg in
  let raw := is_raw name in
  let st :=
    if raw && (acc_prec st <? _P_ATOM)
    then with_regs (<[name := "(" ++ acc st ++ ")"]> (regs st)) st
    else with_regs (<[name := acc st]> (regs st)) st in
  let st :=
    if negb raw
    then with_regs (<[name := name]> (regs st)) (emit (name ++ " = " ++ acc st ++ ";") st)
    else st in
  with_acc name _P_ATOM st.

(** The [if base == ...: ... elif ...] chain, for the handlers modelled. *)
Definition dispatch (base : string) (ops : list string) (st : State) : lifted State :=
  match table_get base CONSTANTS with
  | Some text => Lifted (with_acc text _P_ATOM st)
  | None =>
  if String.eqb base "LdaSmi" then
    Lifted (with_acc (fmt_d (_get_imm ops)) _P_ATOM st)
  else if String.eqb base "LdaConstant" then
    match _cp_value_str (_get_idx ops) cp with
    | Ok text => Lifted (with_acc text _P_ATOM st)
    | Raise e => Failed e
    | OutOfFuel => Failed IndexError
    end
  else if String.eqb base "Ldar" then
    Lifted (with_acc (get_reg st (_get_reg ops)) _P_ATOM st)
  else if String.eqb base "Star" then
    Lifted (store_acc (_get_reg ops) st)
  else if String.eqb base "Mov" then
    let '(src_r, dst_r) := _get_two_regs ops in
    let val := get_reg st src_r in
    let name := rname dst_r in
    let st := with_regs (<[name := val]> (regs st)) st in
    if negb (is_raw name)
    then Lifted (with_regs (<[name := name]> (regs st))
                   (emit (name ++ " = " ++ val ++ ";") st))
    else Lifted st
  else
  match table_get base REG_BINOPS with
  | Some (op, prec) =>
      Lifted (with_acc (get_reg st (_get_reg ops) ++ " " ++ op ++ " "
                        ++ _wrap_right (acc st) (acc_prec st) prec op) prec st)
  | None =>
  match table_get base SMI_BINOPS with
  | Some (op, prec) =>
      Lifted (with_acc (_wrap_left (acc st) (acc_prec st) prec ++ " " ++ op ++ " "
                        ++ fmt_d (_get_imm ops)) prec st)
  | None =>
  if String.eqb base "Inc" then
    Lifted (with_acc (_wrap_left (acc st) (acc_prec st) _P_ADD ++ " + 1") _P_ADD st)
  else if String.eqb base "Dec" then
    Lifted (with_acc (_wrap_left (acc st) (acc_prec st) _P_ADD ++ " - 1") _P_ADD st)
  else if String.eqb base "ToBooleanLogicalNot" || String.eqb base "LogicalNot" then
    Lifted (with_acc (if acc_prec st <? _P_ATOM then "!(" ++ acc st ++ ")"
                      else "!" ++ acc st) _P_ATOM st)
  else if String.eqb base "TypeOf" then
    Lifted (with_acc ("typeof " ++ acc st) _P_ATOM st)
  else if String.eqb base "Negate" then
    Lifted (with_acc ("-" ++ _wrap_left (acc st) (acc_prec st) _P_ATOM) _P_ATOM st)
  else if String.eqb base "BitwiseNot" then
    Lifted (with_acc ("~" ++ _wrap_left (acc st) (acc_prec st) _P_ATOM) _P_ATOM st)
  else
  match table_get base REG_TESTS with
  | Some (op, prec) =>
      Lifted (with_acc (get_reg st (_get_reg ops) ++ " " ++ op ++ " " ++ acc st) prec st)
  | None =>
  match table_get base ACC_TESTS with
  | Some text => Lifted (with_acc (acc st ++ " " ++ text) _P_EQ st)
  | None =>
  if String.eqb base "Return" then Lifted (emit ("return " ++ acc st ++ ";") st)
  else if String.eqb base "Throw" then Lifted (emit ("throw " ++ acc st ++ ";") st)
  else Unmodelled base
  end end end end end.

(** The sets built before the loop. *)
Variable jump_targets : list Z.
Variables try_starts try_ends handler_offsets : list Z.

Definition offset_in (offset : Z) (offsets : list Z) : bool :=
  existsb (Z.eqb offset) offsets.

(** The body of [for inst_idx, (...) in enumerate(instructions)]. *)
Definition lift_instruction (inst : Instruction) (st : State) : lifted State :=
  let base := base_of (i_mnemonic inst) in
  if startswith base "Star" && (4 <? Z.of_nat (String.length base))
     && isdigit (drop_chars 4 base) then
    match int_of_string 10 (drop_chars 4 base) with
    | Some reg_num => Lifted (store_acc ("r" ++ fmt_d reg_num) st)
    | None => Failed (ValueError "invalid literal for int() with base 10")
    end
  else
    let base := default base (table_get base _OPCODE_ALIASES) in
    let ops := _parse_operands inst in
    let st := if offset_in (i_offset inst) jump_targets then emit_blank st else st in
    let st :=
      if offset_in (i_offset inst) try_starts
      then with_indent "        " (emit "try {" st) else st in
    let st :=
      if offset_in (i_offset inst) try_ends
      then with_indent "        " (emit "} catch (e) {" (with_indent "    " st))
      else st in
    let st :=
      if offset_in (i_offset inst) handler_offsets
      then emit "}" (with_indent "    " st) else st in
    if String.eqb base "StackCheck" then Lifted st
    else dispatch base ops st.

Fixpoint lift_all (instructions : list Instruction) (st : State) : lifted State :=
  match instructions with
  | [] => Lifted st
  | inst :: rest =>
      match lift_instruction inst st with
      | Lifted st' => lift_all rest st'
      | other => other
      end
  end.
End Lifting.

(** [int(comment.split("-> @")[1][:4], 16)] for the comments that contain
    ["-> @"]. *)
Fixpoint collect_jump_targets (instructions : list Instruction) : result (list Z) :=
  match instructions with
  | [] => Ok []
  | inst :: rest =>
      if contains "-> @" (i_comment inst) then
        match split "-> @" (i_comment inst) with
        | _ :: piece :: _ =>
            match int_of_string 16 (take_chars 4 piece) with
            | Some target =>
                match collect_jump_targets rest with
                | Ok targets => Ok (target :: targets)
                | other => other
                end
            | None => Raise (ValueError "invalid literal for int() with base 16")
            end
        | _ => Raise IndexError
        end
      else collect_jump_targets rest
  end.

Definition initial_state : State :=
  {| acc := "undefined"; acc_prec := _P_ATOM; regs := ∅; lines := []; indent := "    " |}.

Definition reconstruct_js (sfi : SharedFunctionInfo) : lifted string :=
  match sfi_bytecode sfi with
  | None => Lifted ("// No bytecode available for " ++ name sfi ++ String (ascii_of_nat 10) "")
  | Some bc =>
      let cp := constant_pool bc in
      let ht := handler_table bc in
      let params := match scope_info sfi with Some si => params si | None => [] end in
      let stack_locals := match scope_info sfi with Some si => stack_locals si | None => [] end in
      let stack_first_slot :=
        match scope_info sfi with Some si => stack_locals_first_slot si | None => 0 end in
      match disassemble_bytecode (bytecode bc) cp with
      | Ok instructions =>
          match collect_jump_targets instructions with
          | Ok jump_targets =>
              let entries := match ht with Some entries => entries | None => [] end in
              match lift_all params stack_locals stack_first_slot cp jump_targets
                      (map he_start entries) (map he_end entries)
                      (map he_handler_offset entries) instructions initial_state with
              | Lifted st => Lifted (join (String (ascii_of_nat 10) "") (lines st))
              | Unmodelled m => Unmodelled m
              | Failed e => Failed e
              end
          | Raise e => Failed e
          | OutOfFuel => Failed IndexError
          end
      | Raise e => Failed e
      | OutOfFuel => Failed IndexError
      end
  end.

(** *** The parenthesization rule in the words of the specification

    A binary expression tree printed with the rule "wrap left if its
    precedence < op precedence; wrap right if its precedence < op
    precedence, or equal and OP is not associative-safe". *)
Inductive Expr :=
| Atom (text : string)
| Bin (op : string) (prec : Z) (left right : Expr).

Definition parens (wrap : bool) (text : string) : string :=
  if wrap then "(" ++ text ++ ")" else text.

Fixpoint spec_render (e : Expr) : string * Z :=
  match e with
  | Atom text => (text, _P_ATOM)
  | Bin op prec l r =>
      let '(ltext, lprec) := spec_render l in
      let '(rtext, rprec) := spec_render r in
      (parens (lprec <? prec) ltext ++ " " ++ op ++ " "
       ++ parens ((rprec <? prec)
                  || ((rprec =? prec) && negb (str_in op _RIGHT_ASSOC_SAFE))) rtext,
       prec)
  end.

(** The function body is the single statement [return e;] with [e] printed
    by the rule of the specification. *)
Definition emits_as_specified (sfi : SharedFunctionInfo) (e : Expr) : Prop :=
  reconstruct_js sfi = Lifted ("    return " ++ fst (spec_render e) ++ ";").

End Reconstructor.

(** ** jsc_decompiler.py and the version catalog of common/version.py *)

Module Main.
Import Py ReservObj Parser.
Local Open Scope string_scope.
Local Open Scope Z_scope.

(** [V8VersionDetector]: the two hash tables. *)
Record V8VersionDetector := {
  ver_hashes_32 : gmap Z string;
  ver_hashes_64 : gmap Z string
}.

(** [int(p) for p in parts], left to right, up to the first [ValueError]
    (its text is exact for a part without quote or escape characters). *)
Fixpoint ints_of (parts : list string) : result (list Z) :=
  match parts with
  | [] => Ok []
  | part :: rest =>
      match int_of_string 10 part with
      | Some n =>
          match ints_of rest with
          | Ok ns => Ok (n :: ns)
          | other => other
          end
      | None =>
          Raise (ValueError ("invalid literal for int() with base 10: '" ++ part ++ "'"))
      end
  end.

(** The loop of [V8VersionDetector.__init__] over the strings of
    v8_versions.json. *)
Fixpoint load_versions (versions : list string) (d : V8VersionDetector)
    : result V8VersionDetector :=
  match versions with
  | [] => Ok d
  | ver :: rest =>
      let parts := split "." ver in
      if negb (len parts =? 4) then load_versions rest d
      else
        match ints_of parts with
        | Ok [major; minor; build; patch] =>
            let h32 := Version.version_hash major minor build patch in
            let h64 := Version.version_hash64 major minor build patch in
            load_versions rest
              {| ver_hashes_32 := <[h32 := ver]> (ver_hashes_32 d);
                 ver_hashes_64 := <[h64 := ver]> (ver_hashes_64 d) |}
        | Ok _ => Raise TypeError
        | Raise e => Raise e
        | OutOfFuel => OutOfFuel
        end
  end.

Definition V8VersionDetector_init (versions : list string) : result V8VersionDetector :=
  load_versions versions {| ver_hashes_32 := ∅; ver_hashes_64 := ∅ |}.

Definition detect_version (d : V8VersionDetector) (hash_val : Z) : string :=
  match ver_hashes_32 d !! hash_val with
  | Some ver => ver
  | None =>
      match ver_hashes_64 d !! hash_val with
      | Some ver => ver
      | None => "Unknown"
      end
  end.

Definition detect_bitness (d : V8VersionDetector) (hash_val : Z) : result bool :=
  match ver_hashes_32 d !! hash_val with
  | Some _ => Ok true
  | None =>
      match ver_hashes_64 d !! hash_val with
      | Some _ => Ok false
      | None => Raise (ValueError ("Unknown bitness for hash 0x" ++ format_int 16 8 hash_val))
      end
  end.

Definition _MAGIC_V8_LEGACY : list Z := [0xC0DE0BEE; 0xC0DE03BE].
Definition _MAGIC_V8_MODERN : list Z := [0xC0DE0628].
Definition _ALL_MAGIC : list Z := (_MAGIC_V8_LEGACY ++ _MAGIC_V8_MODERN)%list.

(** [x in magics] *)
Definition magic_in (x : Z) (magics : list Z) : bool := existsb (Z.eqb x) magics.

(** The parsed command line. *)
Record Args := {
  file : string;
  verbose : bool;
  json : bool;
  js : bool;
  disasm : bool;
  quiet : bool
}.

(** A line on stderr: literal text, or a line built from an exception
    object, whose text Python supplies. *)
Inductive Line :=
| Text (s : string)
| ParseError (e : exn)       (* "Error parsing JSC file: %s" % e *)
| FunctionWarning (e : exn)  (* "Warning: Failed to parse function: %s" % e *)
| Traceback (e : exn).

(** How a run ends: the exit status with what was printed, or no answer
    when the model's recursion budget for [parse] was too small. *)
Inductive Outcome :=
| Exit (status : Z) (stderr : list Line) (stdout : list string)
| NoAnswer.

(** An exception nobody catches: the interpreter prints the traceback and
    exits with status 1. *)
Definition uncaught (e : exn) (err : list Line) : Outcome :=
  Exit 1 (err ++ [Traceback e]) [].

(** [os.path.basename] on a POSIX path. *)
Definition basename (path : string) : string := List.last (split "/" path) "".

(** What [main] passes on: [--json] and [--disasm] switch [--js] off. *)
Definition effective_args (args : Args) : Args :=
  if json args || disasm args then
    {| file := file args; verbose := verbose args; json := json args;
       js := false; disasm := disasm args; quiet := quiet args |}
  else args.

Section Pipeline.
(** The collaborators of the pipeline that lie outside this part: the
    decoded function record, its constructor [SharedFunctionInfo(func_obj,
    pointer_size, scope_cache)], and the formatter chosen by the flags.
    The contents of the metadata files and the budget for [parse] are
    given as well. *)
Variable SFI : Type.
Variable convert : JscParser -> nat -> result SFI.
Variable render : Args -> string -> bool -> list SFI -> result string.
Variable versions : list string.
Variables roots builtins : list PyVal.
Variable fuel : nat.

(** The loop that turns function objects into records, with the warnings
    it prints. *)
Fixpoint convert_all (args : Args) (p : JscParser) (func_objects : list nat)
    : option (list SFI * list Line) :=
  match func_objects with
  | [] => Some ([], [])
  | func_obj :: rest =>
      match convert p func_obj, convert_all args p rest with
      | _, None => None
      | OutOfFuel, _ => None
      | Ok sfi, Some (functions, warnings) => Some (sfi :: functions, warnings)
      | Raise e, Some (functions, warnings) =>
          Some (functions,
                if quiet args then warnings else FunctionWarning e :: warnings)
      end
  end.

Definition _run_legacy_pipeline (args : Args) (data : list byte) : Outcome :=
  match V8VersionDetector_init versions with
  | Raise e => uncaught e []
  | OutOfFuel => NoAnswer
  | Ok detector =>
      match unpack_from_le 4 data 4 with
      | None => uncaught StructError []
      | Some version_hash =>
          let version := detect_version detector version_hash in
          let '(is_32bit, err) :=
            match detect_bitness detector version_hash with
            | Ok b => (b, [])
            | _ =>
                (false,
                 if quiet args then []
                 else [Text ("Warning: Unknown version hash 0x"
                             ++ format_int 16 8 version_hash ++ ", assuming 64-bit")])
            end in
          let err :=
            (err ++ if negb (quiet args) && negb (json args) then
                      [Text ("Parsing " ++ basename (file args) ++ "...");
                       Text ("V8 Version: " ++ version ++ " ("
                             ++ (if is_32bit : bool then "32-bit" else "64-bit") ++ ")")]
                    else [])%list in
          match parse fuel (JscParser_init data is_32bit roots builtins) with
          | OutOfFuel => NoAnswer
          | Raise e =>
              Exit 1 (err ++ ParseError e :: (if quiet args then [] else [Traceback e])) []
          | Ok ([], _) =>
              Exit 0 (err ++ if quiet args then []
                             else [Text "No functions found in JSC file."]) []
          | Ok (func_objects, p) =>
              let err :=
                (err ++ if negb (quiet args) && negb (json args) then
                          [Text ("Converting " ++ fmt_d (len func_objects)
                                 ++ " function objects...")]
                        else [])%list in
              match convert_all args p func_objects with
              | None => NoAnswer
              | Some (functions, warnings) =>
                  let err :=
                    (err ++ warnings
                         ++ if negb (quiet args) && negb (json args) && negb (js args) then
                              [Text ("Extracted " ++ fmt_d (len functions) ++ " functions.")]
                            else [])%list in
                  match render args version is_32bit functions with
                  | Ok text => Exit 0 err [text]
                  | Raise e => uncaught e err
                  | OutOfFuel => NoAnswer
                  end
              end
          end
      end
  end.

(** [main], after argument parsing; [isfile] is [os.path.isfile(args.file)]
    and [data] the content of the file. *)
Definition main (args : Args) (isfile : bool) (data : list byte) : Outcome :=
  let args := effective_args args in
  if negb isfile then Exit 1 [Text ("Error: File not found: " ++ file args)] []
  else if len data <? 8 then Exit 1 [Text "Error: File too small"] []
  else
    match unpack_from_le 4 data 0 with
    | None => uncaught StructError []
    | Some magic =>
        if negb (magic_in magic _ALL_MAGIC) then
          Exit 1 [Text ("Error: Invalid JSC magic: 0x" ++ format_int 16 8 magic)] []
        else if magic_in magic _MAGIC_V8_MODERN then
          Exit 1 [Text "Error: This file was compiled with Node.js 22+ (V8 12.x).";
                  Text "Node 22 support is available separately.";
                  Text "Contact: Girishx3@gmail.com"] []
        else _run_legacy_pipeline args data
    end.
End Pipeline.

(** The run ended in the invalid-magic rejection. *)
Definition rejected_as_invalid_magic (o : Outcome) : Prop :=
  exists magic,
    o = Exit 1 [Text ("Error: Invalid JSC magic: 0x" ++ format_int 16 8 magic)] [].

End Main.

(** ** Sample inputs *)

Module Samples.
Import Py Enums ReservObj Parser.

(** Bytes from their numeric values. *)
Definition bytes (l : list Z) : list byte := map byte.of_Z l.

(** 300 takes two bytes, [(300 << 2) | 1 = 0x04B1]; two more bytes follow. *)
Definition varint_example : JscParser :=
  JscParser_init (encode_varint 300 ++ bytes [0xAA; 0xBB]) true [] [].

(** A 32-bit parser about to read the back-reference word for chunk 1,
    offset 8, [(1 << 17) | (8 >> 2) = 0x20002], stored as a 3-byte varint. *)
Definition back_ref_example : JscParser :=
  JscParser_init (encode_varint 0x20002 ++ bytes [0x00]) true [] [].

(** A 64-bit code-cache file with no reservation at all: the ten header
    words, then the payload [09 00] (back-reference into OLD_SPACE, word 0),
    the end-of-deferred marker [18], and two bytes of padding. *)
Definition unresolved_backref_file : list byte :=
  bytes [0xEE; 0x0B; 0xDE; 0xC0;  0; 0; 0; 0;  0; 0; 0; 0;  0; 0; 0; 0;
         0; 0; 0; 0;  0; 0; 0; 0;  0; 0; 0; 0;  5; 0; 0; 0;
         0; 0; 0; 0;  0; 0; 0; 0;
         0x09; 0x00; 0x18; 0x00; 0x00].

(** A 64-bit file with one OLD_SPACE chunk of 16 bytes in which nothing has
    been written when the payload [09 00] refers to its offset 0. *)
Definition empty_slot_backref_file : list byte :=
  bytes [0xEE; 0x0B; 0xDE; 0xC0;  0; 0; 0; 0;  0; 0; 0; 0;  0; 0; 0; 0;
         0; 0; 0; 0;  2; 0; 0; 0;  0; 0; 0; 0;  5; 0; 0; 0;
         0; 0; 0; 0;  0; 0; 0; 0;
         0x00; 0x00; 0x00; 0x80;  0x10; 0x00; 0x00; 0x80;
         0x09; 0x00; 0x18; 0x00; 0x00].

(** A 64-bit parser in the kBackref branch for byte [09], about to read
    the back-reference word 0 while OLD_SPACE has no chunk. *)
Definition unresolved_backref_parser : JscParser :=
  JscParser_init (bytes [0x00; 0x18; 0x00; 0x00]) false [] [].

(** A function [f(a, b, c)] without locals, constant pool or handler
    table, with the given bytecode.  Parameters are numbered from the last:
    [a0] (byte 2) is [c], [a1] (byte 3) is [b], [a2] (byte 4) is [a]; byte
    0xFB is the anonymous register [r0]. *)
Definition expr_function (code : list Z) : Reconstructor.SharedFunctionInfo :=
  {| Reconstructor.name := "f";
     Reconstructor.sfi_bytecode :=
       Some {| Reconstructor.bytecode := bytes code;
               Reconstructor.constant_pool := None;
               Reconstructor.handler_table := None |};
     Reconstructor.scope_info :=
       Some {| Reconstructor.params := ["a"; "b"; "c"]%string;
               Reconstructor.stack_locals := [];
               Reconstructor.stack_locals_first_slot := 0;
               Reconstructor.context_locals := [] |} |}.

(** (a + b) * c:  Ldar a1; Add a2, [0]; Star r0; Ldar a0; Mul r0, [1]; Return *)
Definition code_sum_times : list Z :=
  [0x1D; 0x03; 0x2B; 0x04; 0x00; 0x1E; 0xFB; 0x1D; 0x02; 0x2D; 0xFB; 0x01; 0x95].

(** a + b * c:  Ldar a0; Mul a1, [0]; Add a2, [1]; Return *)
Definition code_plus_product : list Z :=
  [0x1D; 0x02; 0x2D; 0x03; 0x00; 0x2B; 0x04; 0x01; 0x95].

(** a * b + c:  Ldar a1; Mul a2, [0]; Star r0; Ldar a0; Add r0, [1]; Return *)
Definition code_product_plus : list Z :=
  [0x1D; 0x03; 0x2D; 0x04; 0x00; 0x1E; 0xFB; 0x1D; 0x02; 0x2B; 0xFB; 0x01; 0x95].

(** a < (b == c):  Ldar a0; TestEqual a1, [0]; TestLessThan a2, [1]; Return *)
Definition code_less_than_equal : list Z :=
  [0x1D; 0x02; 0x59; 0x03; 0x00; 0x5B; 0x04; 0x01; 0x95].

(** [decompile sample.jsc --quiet] *)
Definition quiet_args : Main.Args :=
  {| Main.file := "sample.jsc"; Main.verbose := false; Main.json := false;
     Main.js := true; Main.disasm := false; Main.quiet := true |}.

(** Eight bytes that start with the modern magic 0xC0DE0628. *)
Definition modern_magic_file : list byte :=
  bytes [0x28; 0x06; 0xDE; 0xC0; 0; 0; 0; 0].

(** Four zero bytes: a little-endian u32 at offset 0, and nothing else. *)
Definition four_byte_file : list byte := bytes [0; 0; 0; 0].

(** Stand-ins for the collaborators of the pipeline in closed examples: the
    record constructor fails on every object, the formatter prints nothing.
    No example below gets as far as calling them. *)
Definition no_convert (_ : JscParser) (_ : nat) : result unit := Raise TypeError.
Definition no_render (_ : Main.Args) (_ : string) (_ : bool) (_ : list unit)
    : result string := Ok EmptyString.

(** [main] with empty metadata tables. *)
Definition run_main (args : Main.Args) (data : list byte) : Main.Outcome :=
  Main.main unit no_convert no_render [] [] [] 50 args true data.

Definition backref_old_space_state : CaseState :=
  {| cs_value := 0x09; cs_where := kBackref; cs_how := kPlain;
     cs_within := kStartOfObject |}.

End Samples.

(** ** The progress of a parser action *)

Module ParserLogic.
Import Py Parser.

(** Input bytes not yet behind the cursor. *)
Definition remaining (p : JscParser) : Z :=
  Z.max 0 (len (data (reader p)) - pos (reader p)).

(** [advances n k m]: started with fewer than [n] bytes left, [m] does not
    exhaust its budget; when it returns, the input is the same, the cursor
    has not moved back, and at least [k] of the bytes left were used up. *)
Definition advances {A : Type} (n k : Z) (m : M A) : Prop :=
  forall p, remaining p < n ->
    match m p with
    | Ok (_, p') =>
        data (reader p') = data (reader p)
        /\ pos (reader p) <= pos (reader p')
        /\ remaining p' + k <= remaining p
    | Raise _ => True
    | OutOfFuel => False
    end.

End ParserLogic.

(** ** v6/structs.py: handler table and bytecode bytes *)

Module Layout.
Import Py ReservObj Reconstructor.

Definition K_META_MAP : Z := 0.

Definition get_array_length_offset (pointer_size : Z) : Z := K_META_MAP + pointer_size.

Definition get_array_header_size (pointer_size : Z) : Z :=
  get_array_length_offset pointer_size + pointer_size.

(** [range(0, stop, 4)] *)
Definition range_by_4 (stop : Z) : list Z :=
  map (fun k => 4 * Z.of_nat k) (seq 0 (Z.to_nat ((stop + 3) / 4))).

(** [HandlerTable.__init__]: the entries. *)
Definition HandlerTable_init (obj : ReservObject) (pointer_size : Z)
    : list HandlerTableEntry :=
  let arr_len_off := get_array_length_offset pointer_size in
  let arr_hdr_size := get_array_header_size pointer_size in
  let count := get_smi_int obj arr_len_off / 4 in
  map (fun i =>
         let i := Z.of_nat i in
         let start := get_smi_int obj (arr_hdr_size + (4 * i + 0) * pointer_size) in
         let end_ := get_smi_int obj (arr_hdr_size + (4 * i + 1) * pointer_size) in
         let handler := get_smi_int obj (arr_hdr_size + (4 * i + 2) * pointer_size) in
         let data := get_smi_int obj (arr_hdr_size + (4 * i + 3) * pointer_size) in
         let prediction := Z.land handler 7 in
         let handler_offset := Z.shiftr handler 3 in
         {| he_start := start; he_end := end_; he_prediction := prediction;
            he_handler_offset := handler_offset; he_data := data |})
      (seq 0 (Z.to_nat count)).

(** The offsets [BytecodeData.__init__] computes. *)
Definition kConstantPoolOffset (pointer_size : Z) : Z := get_array_header_size pointer_size.
Definition kHandlerTableOffset (pointer_size : Z) : Z :=
  kConstantPoolOffset pointer_size + pointer_size.
Definition kSourcePositionTableOffset (pointer_size : Z) : Z :=
  kHandlerTableOffset pointer_size + pointer_size.
Definition kFrameSizeOffset (pointer_size : Z) : Z :=
  kSourcePositionTableOffset pointer_size + pointer_size.
Definition kParameterSizeOffset (pointer_size : Z) : Z := kFrameSizeOffset pointer_size + 4.
Definition kIncomingNewTargetOrGeneratorRegisterOffset (pointer_size : Z) : Z :=
  kParameterSizeOffset pointer_size + 4.
Definition kInterruptBudgetOffset (pointer_size : Z) : Z :=
  kIncomingNewTargetOrGeneratorRegisterOffset pointer_size + 4.
Definition kOSRNestingLevelOffset (pointer_size : Z) : Z :=
  kInterruptBudgetOffset pointer_size + 4.
Definition kBytecodeAgeOffset (pointer_size : Z) : Z := kOSRNestingLevelOffset pointer_size + 1.
Definition kHeaderSize (pointer_size : Z) : Z := kBytecodeAgeOffset pointer_size + 1 + 2.

(** [BytecodeData.__init__]: [self.length]. *)
Definition BytecodeData_length (obj : ReservObject) (pointer_size : Z) : Z :=
  get_smi_int obj (get_array_length_offset pointer_size).

(** The statements under "Extract bytecode bytes": two bytes from the
    upper half of the word at [kOSRNestingLevelOffset], then whole words
    from [kHeaderSize] on, cut to [self.length]. *)
Definition BytecodeData_bytecode (obj : ReservObject) (pointer_size : Z) : list byte :=
  let length := BytecodeData_length obj pointer_size in
  let tmp := get_int obj (kOSRNestingLevelOffset pointer_size) in
  let bytecode := [byte.of_Z (Z.land (Z.shiftr tmp 16) 0xFF);
                   byte.of_Z (Z.land (Z.shiftr tmp 24) 0xFF)] in
  let remaining := length - 2 in
  let bytecode :=
    fold_left (fun bytecode i =>
                 let dw := get_int obj (kHeaderSize pointer_size + i) in
                 bytecode ++ le_split 4 (Z.land dw 0xFFFFFFFF))
              (range_by_4 remaining) bytecode in
  slice bytecode 0 length.

End Layout.

(** ** v6/object_converter.py: raw bytes of a string object *)

Module Converter.
Import Py ReservObj Layout.

(** [_int_to_bytes_le] *)
Definition _int_to_bytes_le (val : Z) : list byte := le_split 4 (Z.land val 0xFFFFFFFF).

(** The inner [for j in range(4)] loop of [reserv_object_to_bytes]: the
    bytes of [tmp] that fall below [length] are stored at [i + j]; the
    [break] skips the rest, which would fail the same test. *)
Definition store_word (length : Z) (result : list byte) (i : Z) (tmp : list byte)
    : list byte :=
  fold_left (fun result j =>
               if i + Z.of_nat j <? length
               then <[Z.to_nat (i + Z.of_nat j) := nth j tmp Byte.x00]> result
               else result)
            (seq 0 4) result.

Definition reserv_object_to_bytes (obj : ReservObject) (len_dword_index : Z)
    (is_16le : bool) (pointer_size : Z) : list byte :=
  let length :=
    get_smi_int obj (len_dword_index * pointer_size) * (if is_16le then 2 else 1) in
  let result := replicate (Z.to_nat length) Byte.x00 in
  fold_left (fun result i =>
               let tmp := _int_to_bytes_le
                            (get_int obj ((len_dword_index + 1) * pointer_size + i)) in
               store_word length result i tmp)
            (range_by_4 length) result.

End Converter.

(** ** Vocabulary for raw data held in an object *)

Module RawData.
Import Py ReservObj.

(** The object holds the complete little-endian words of [raw] in its
    slots from [address] on. *)
Definition holds_raw (o : ReservObject) (address : Z) (raw : list byte) : Prop :=
  forall k : nat, (4 * k + 4 <= length raw)%nat ->
    objects o !! (address + 4 * Z.of_nat k)
    = Some (VInt (le_combine (take 4 (drop (4 * k) raw)))).

End RawData.

(** ** output_formatter.py: the declaration of the stack locals *)

Module Formatter.
Import Py Disasm.
Local Open Scope string_scope.

(** The loop of [format_js_output] under "Declare stack locals": the
    list [locals_list] it builds from the names of the stack locals. *)
Definition declared_locals (params stack_locals : list string) : list string :=
  fold_left (fun locals_list l =>
               if negb (String.eqb l "") && negb (String.eqb l "empty_string")
                  && negb (str_in l params)
               then
                 let clean := replace " " "_" (replace "." "_" l) in
                 if negb (String.eqb clean "") && negb (str_in clean locals_list)
                 then (locals_list ++ [clean])%list
                 else locals_list
               else locals_list)
            stack_locals [].

End Formatter.

(** ** More sample inputs *)

Module Fixtures.
Import Py Enums ReservObj Parser Samples.
Local Open Scope string_scope.
Local Open Scope Z_scope.

(** A version catalog of two releases and one entry that is no version. *)
Definition version_catalog : list string := ["6.2.414.54"; "6.8.275.32"; "unversioned"].

(** The detector built from it. *)
Definition catalog_detector : Main.V8VersionDetector :=
  match Main.V8VersionDetector_init version_catalog with
  | Ok d => d
  | _ => {| Main.ver_hashes_32 := ∅; Main.ver_hashes_64 := ∅ |}
  end.

(** A parser whose next byte, 0x06, has no meaning in the payload. *)
Definition unassigned_byte_parser : JscParser :=
  JscParser_init (bytes [0x06; 0x18]) false [] [].

(** The listing of [code_sum_times]. *)
Definition sum_times_listing : list Disasm.Instruction :=
  match Disasm.disassemble_bytecode (bytes code_sum_times) None with
  | Ok instructions => instructions
  | _ => []
  end.

(** A parser at the start of three reservation words: 16 bytes, then 32
    bytes with the top bit that ends the first space, then 8 bytes. *)
Definition reservations_parser : JscParser :=
  JscParser_init (bytes [0x10; 0; 0; 0;  0x20; 0; 0; 0x80;  0x08; 0; 0; 0]) false [] [].

(** A 32-bit parser whose store holds one object of four slots. *)
Definition parser_with_object : JscParser :=
  with_heap [ReservObject_init 16 4] (JscParser_init [] true [] []).

(** Ten values pushed on the hot ring of a fresh parser. *)
Definition ten_hot_values : list PyVal := map VInt [0; 1; 2; 3; 4; 5; 6; 7; 8; 9].

(** The raw data of a 32-bit BytecodeArray at address 0: map word, length 9
    as a Smi, three pointers, frame size 8, parameter size 16, two more
    words, the word with OSR level, age and the first two bytecodes, then
    the other seven bytecodes of [code_plus_product] and one byte of
    padding. *)
Definition bytecode_array_raw : list byte :=
  bytes ([0; 0; 0; 0;  18; 0; 0; 0;  0; 0; 0; 0;  0; 0; 0; 0;  0; 0; 0; 0;
          8; 0; 0; 0;  16; 0; 0; 0;  0; 0; 0; 0;  0; 0; 0; 0;  0; 0]
         ++ code_plus_product ++ [0])%list.

Definition bytecode_array : ReservObject :=
  add_object_bytes (ReservObject_init 48 4) 0 bytecode_array_raw.

(** The raw data of a 32-bit one-byte string at address 0: map word, hash
    word, length 5 as a Smi, then [hello] and three bytes of padding. *)
Definition string_raw : list byte :=
  bytes [0; 0; 0; 0;  0; 0; 0; 0;  10; 0; 0; 0;
         0x68; 0x65; 0x6C; 0x6C;  0x6F; 0; 0; 0].

Definition string_object : ReservObject :=
  add_object_bytes (ReservObject_init 20 4) 0 string_raw.

(** [JumpIfTrue [5]] at offset 10 with its comment, and [Add r0 [5]]. *)
Definition jump_at_10 : Disasm.Instruction :=
  {| Disasm.i_offset := 10; Disasm.i_mnemonic := "JumpIfTrue";
     Disasm.i_operands := "[5]"; Disasm.i_raw := bytes [0x85; 0x05];
     Disasm.i_comment := "-> @000F" |}.

Definition add_r0_5 : Disasm.Instruction :=
  {| Disasm.i_offset := 0; Disasm.i_mnemonic := "Add";
     Disasm.i_operands := "r0 [5]"; Disasm.i_raw := bytes [0x2B; 0xFB; 0x05];
     Disasm.i_comment := "" |}.

End Fixtures.

(** * Part II: properties *)

(** ** Shared arithmetic facts about masks and bit fields *)

Lemma land_ones_mod (v n : Z) : 0 <= n -> Z.land v (Z.ones n) = v mod 2 ^ n.
Proof. intros Hn. apply Z.land_ones; exact Hn. Qed.

Lemma mod_pow2_range (v n : Z) : 0 <= n -> 0 <= v mod 2 ^ n < 2 ^ n.
Proof. intros Hn. apply Z.mod_pos_bound. apply Z.pow_pos_nonneg; lia. Qed.

Lemma lxor_mod_pow2 (a b n : Z) :
  0 <= n -> Z.lxor (a mod 2 ^ n) (b mod 2 ^ n) = Z.lxor a b mod 2 ^ n.
Proof.
  intros Hn. apply Z.bits_inj'. intros m Hm.
  rewrite Z.lxor_spec.
  destruct (Z.lt_ge_cases m n) as [Hlt | Hge].
  - rewrite !Z.mod_pow2_bits_low by lia. now rewrite Z.lxor_spec.
  - now rewrite !Z.mod_pow2_bits_high by lia.
Qed.

Lemma lxor_range (a b n : Z) :
  0 <= n -> 0 <= a < 2 ^ n -> 0 <= b < 2 ^ n -> 0 <= Z.lxor a b < 2 ^ n.
Proof.
  intros Hn Ha Hb.
  rewrite <- (Z.mod_small a (2 ^ n)), <- (Z.mod_small b (2 ^ n)) by lia.
  rewrite lxor_mod_pow2 by lia.
  apply mod_pow2_range; lia.
Qed.

Lemma shiftr_range (a n k : Z) :
  0 <= k -> 0 <= a < 2 ^ n -> 0 <= Z.shiftr a k < 2 ^ n.
Proof.
  intros Hk Ha. rewrite Z.shiftr_div_pow2 by lia.
  assert (0 < 2 ^ k) by (apply Z.pow_pos_nonneg; lia).
  split; [apply Z.div_pos; lia|].
  apply Z.le_lt_trans with a; [|lia].
  apply Z.div_le_upper_bound; nia.
Qed.


Lemma lor_shiftl_disjoint (a c n : Z) :
  0 <= n -> 0 <= a < 2 ^ n -> Z.lor a (c * 2 ^ n) = a + c * 2 ^ n.
Proof.
  intros Hn Ha. rewrite <- Z.shiftl_mul_pow2 by lia.
  assert (Hdis : Z.land a (Z.shiftl c n) = 0).
  { apply Z.bits_inj'. intros m Hm. rewrite Z.land_spec, Z.bits_0.
    destruct (Z.lt_ge_cases m n) as [Hlt | Hge].
    - rewrite (Z.shiftl_spec_low c n m) by lia. apply andb_false_r.
    - rewrite <- (Z.mod_small a (2 ^ n)) by lia.
      now rewrite Z.mod_pow2_bits_high by lia. }
  rewrite <- Z.lxor_lor by exact Hdis.
  symmetry. apply Z.add_nocarry_lxor. exact Hdis.
Qed.

(** ** Version hashes (common/version.py) *)

Section VersionFacts.
Import Version.

Lemma mask32_mod (v : Z) : _mask32 v = v mod 2 ^ 32.
Proof. unfold _mask32. change 0xFFFFFFFF with (Z.ones 32). apply land_ones_mod; lia. Qed.

Lemma mask64_mod (v : Z) : _mask64 v = v mod 2 ^ 64.
Proof.
  unfold _mask64. change 0xFFFFFFFFFFFFFFFF with (Z.ones 64).
  apply land_ones_mod; lia.
Qed.

Lemma xorshift_small (w v k : Z) :
  0 <= w -> 0 <= k -> 0 <= v < 2 ^ w ->
  Z.lxor v (Z.shiftr v k) mod 2 ^ w = Z.lxor v (ushr v k).
Proof.
  intros Hw Hk Hv. unfold ushr. rewrite <- Z.shiftr_div_pow2 by lia.
  apply Z.mod_small. apply lxor_range; [lia | lia |].
  apply shiftr_range; lia.
Qed.

(** The source spells the rotation as [(x >> (32-n)) | (x << n)] under a
    32-bit mask. *)
Lemma rotl32_lor (x n : Z) :
  0 < n < 32 -> 0 <= x < 2 ^ 32 ->
  Z.lor (Z.shiftr x (32 - n)) (Z.shiftl x n) mod 2 ^ 32 = rotl 32 x n.
Proof.
  intros Hn Hx. unfold rotl.
  rewrite <- !land_ones_mod by lia.
  rewrite Z.land_lor_distr_l, !land_ones_mod by lia.
  rewrite Z.shiftr_div_pow2, Z.shiftl_mul_pow2 by lia.
  assert (Hp : 2 ^ 32 = 2 ^ (32 - n) * 2 ^ n).
  { rewrite <- Z.pow_add_r by lia. f_equal; lia. }
  assert (Hpos1 : 0 < 2 ^ (32 - n)) by (apply Z.pow_pos_nonneg; lia).
  assert (Hpos2 : 0 < 2 ^ n) by (apply Z.pow_pos_nonneg; lia).
  assert (Hhi : 0 <= x / 2 ^ (32 - n) < 2 ^ n).
  { split; [apply Z.div_pos; lia|]. apply Z.div_lt_upper_bound; lia. }
  rewrite (Z.mod_small (x / 2 ^ (32 - n))) by nia.
  rewrite Hp at 1. rewrite Z.mul_mod_distr_r by lia.
  rewrite lor_shiftl_disjoint by lia. lia.
Qed.

Lemma rotl32_range (x n : Z) :
  0 < n < 32 -> 0 <= x < 2 ^ 32 -> 0 <= rotl 32 x n < 2 ^ 32.
Proof.
  intros Hn Hx. rewrite <- rotl32_lor by lia. apply mod_pow2_range; lia.
Qed.

Lemma hash_value_unsigned_spec (v : Z) :
  hash_value_unsigned v = spec_hash_value v.
Proof.
  unfold hash_value_unsigned, spec_hash_value, usub, uadd, umul, ushl, wrap.
  rewrite !mask32_mod.
  rewrite (Z.shiftl_mul_pow2 v 15) by lia.
  rewrite (Zminus_mod_idemp_l (v * 2 ^ 15) v), (Zminus_mod_idemp_l (v * 2 ^ 15 - v) 1).
  set (v1 := (v * 2 ^ 15 - v - 1) mod 2 ^ 32).
  assert (H1 : 0 <= v1 < 2 ^ 32) by (apply mod_pow2_range; lia).
  rewrite (xorshift_small 32 v1 12) by lia.
  set (v2 := Z.lxor v1 (ushr v1 12)).
  rewrite (Z.shiftl_mul_pow2 v2 2) by lia.
  rewrite (Zplus_mod_idemp_r (v2 * 2 ^ 2) v2).
  set (v3 := (v2 + v2 * 2 ^ 2) mod 2 ^ 32).
  assert (H3 : 0 <= v3 < 2 ^ 32) by (apply mod_pow2_range; lia).
  rewrite (xorshift_small 32 v3 4) by lia.
  set (v4 := Z.lxor v3 (ushr v3 4)).
  set (v5 := (v4 * 2057) mod 2 ^ 32).
  assert (H5 : 0 <= v5 < 2 ^ 32) by (apply mod_pow2_range; lia).
  now rewrite (xorshift_small 32 v5 16) by lia.
Qed.

Lemma hash_value_unsigned_range (v : Z) : 0 <= hash_value_unsigned v < 2 ^ 32.
Proof.
  unfold hash_value_unsigned. cbv zeta. rewrite mask32_mod.
  apply mod_pow2_range; lia.
Qed.

Lemma hash_combine_spec (seed value : Z) :
  0 <= seed < 2 ^ 32 ->
  hash_combine seed value = spec_hash_combine seed value.
Proof.
  intros Hs. unfold hash_combine, spec_hash_combine, uadd, umul, wrap.
  rewrite !mask32_mod.
  set (x1 := (value * 0xCC9E2D51) mod 2 ^ 32).
  assert (H1 : 0 <= x1 < 2 ^ 32) by (apply mod_pow2_range; lia).
  change 15 with (32 - 17). rewrite (rotl32_lor x1 17) by lia.
  set (x2 := rotl 32 x1 17).
  set (x3 := (x2 * 0x1B873593) mod 2 ^ 32).
  assert (H3 : 0 <= x3 < 2 ^ 32) by (apply mod_pow2_range; lia).
  assert (H4 : 0 <= Z.lxor seed x3 < 2 ^ 32) by (apply lxor_range; lia).
  change 13 with (32 - 19). rewrite (rotl32_lor (Z.lxor seed x3) 19) by lia.
  now rewrite Zplus_mod_idemp_l.
Qed.

Lemma hash_combine_range (seed value : Z) : 0 <= hash_combine seed value < 2 ^ 32.
Proof.
  unfold hash_combine. cbv zeta. rewrite (mask32_mod (_ + _)).
  apply mod_pow2_range; lia.
Qed.

Lemma hash_combine64_spec (seed value : Z) :
  0 <= seed < 2 ^ 64 ->
  hash_combine64 seed value = spec_hash_combine64 0xC6A4A7935BD1E995 seed value.
Proof.
  intros Hs. unfold hash_combine64, spec_hash_combine64, umul, wrap.
  cbv zeta. rewrite !mask64_mod.
  set (x1 := (value * 0xC6A4A7935BD1E995) mod 2 ^ 64).
  assert (H1 : 0 <= x1 < 2 ^ 64) by (apply mod_pow2_range; lia).
  rewrite (xorshift_small 64 x1 47) by lia.
  set (x3 := (Z.lxor x1 (ushr x1 47) * 0xC6A4A7935BD1E995) mod 2 ^ 64).
  assert (H3 : 0 <= x3 < 2 ^ 64) by (apply mod_pow2_range; lia).
  rewrite (Z.mod_small (Z.lxor seed x3)) by (apply lxor_range; lia).
  reflexivity.
Qed.

Lemma hash_combine64_range (seed value : Z) : 0 <= hash_combine64 seed value < 2 ^ 64.
Proof.
  unfold hash_combine64. cbv zeta. rewrite (mask64_mod (_ * _)).
  apply mod_pow2_range; lia.
Qed.

(** C1. For unsigned 32-bit [major], [minor], [build], [patch] the 32-bit
    version hash is the fold of [hash_combine] over H(patch), H(build),
    H(minor), H(major) from seed 0, where H and the combine step are the
    recipes of the specification in wrapping 32-bit arithmetic (with
    rotate-left by 17 and by 19); the 64-bit variant folds the same four
    values in the same order with multiplier 0xC6A4A7935BD1E995 and keeps
    the low 32 bits of the final seed. *)
Theorem version_hash_recipe (major minor build patch : Z) :
  0 <= major < 2 ^ 32 -> 0 <= minor < 2 ^ 32 ->
  0 <= build < 2 ^ 32 -> 0 <= patch < 2 ^ 32 ->
  version_hash major minor build patch
    = spec_version_hash major minor build patch
  /\ version_hash64 major minor build patch
    = spec_version_hash64 major minor build patch
  /\ 0 <= version_hash major minor build patch < 2 ^ 32
  /\ 0 <= version_hash64 major minor build patch < 2 ^ 32.
Proof.
  intros _ _ _ _.
  unfold version_hash, version_hash64, spec_version_hash, spec_version_hash64.
  cbn [map fold_left]. cbv zeta.
  rewrite <- !hash_value_unsigned_spec.
  repeat split.
  - rewrite <- (hash_combine_spec 0) by lia.
    now rewrite <- !(hash_combine_spec (hash_combine _ _)) by apply hash_combine_range.
  - rewrite mask32_mod. unfold wrap.
    rewrite <- (hash_combine64_spec 0) by lia.
    now rewrite <- !(hash_combine64_spec (hash_combine64 _ _))
      by apply hash_combine64_range.
  - apply hash_combine_range.
  - apply hash_combine_range.
  - rewrite mask32_mod. apply mod_pow2_range; lia.
  - rewrite mask32_mod. apply mod_pow2_range; lia.
Qed.

Lemma version_hash_recipe_witness :
  version_hash 8 9 255 25 = spec_version_hash 8 9 255 25
  /\ version_hash64 8 9 255 25 = spec_version_hash64 8 9 255 25
  /\ 0 <= version_hash 8 9 255 25 < 2 ^ 32
  /\ 0 <= version_hash64 8 9 255 25 < 2 ^ 32.
Proof. apply (version_hash_recipe 8 9 255 25); lia. Defined.

End VersionFacts.

(** ** ScopeInfo flags (common/enums.py) *)

Section EnumFacts.
Import Enums.

Lemma bit_field_range (flags lo hi : Z) :
  lo <= hi -> 0 <= bit_field flags lo hi < 2 ^ (hi - lo + 1).
Proof. intros H. unfold bit_field. apply mod_pow2_range; lia. Qed.

(** [(flags & mask) >> lo] with [mask] covering [n] bits from [lo] up. *)
Lemma land_shiftr_bit_field (flags lo n : Z) :
  0 <= lo -> 0 < n ->
  Z.shiftr (Z.land flags (Z.shiftl (Z.ones n) lo)) lo = bit_field flags lo (lo + n - 1).
Proof.
  intros Hlo Hn. unfold bit_field.
  rewrite Z.shiftr_land, Z.shiftr_shiftl_l, Z.sub_diag, Z.shiftl_0_r by lia.
  rewrite land_ones_mod, Z.shiftr_div_pow2 by lia.
  do 2 f_equal; lia.
Qed.

Lemma from_int_decodes {A : Type} (members : list A) (value : A -> Z) (v : Z) :
  (forall m, In m members) ->
  enum_decodes value (from_int members value v) v.
Proof.
  intros Hall. unfold enum_decodes, from_int.
  destruct (find _ members) as [m|] eqn:Hf.
  - apply find_some in Hf. lia.
  - intros m. pose proof (find_none _ _ Hf m (Hall m)) as Hm. cbn in Hm. lia.
Qed.

Lemma nonzero_bool_is (x : Z) : 0 <= x < 2 -> bool_is (nonzero x) x.
Proof.
  intros Hx. unfold bool_is, nonzero.
  destruct (Z.eqb_spec x 0) as [-> | Hne]; cbn; lia.
Qed.

Lemma lang_from_int_total (v : Z) :
  0 <= v < 2 -> enum_is ScopeInfoFlagsLang_value (ScopeInfoFlagsLang_from_int v) v.
Proof.
  intros Hv. assert (Hc : v = 0 \/ v = 1) by lia.
  destruct Hc as [-> | ->]; eexists; split; reflexivity.
Qed.

Lemma recv_from_int_total (v : Z) :
  0 <= v < 4 ->
  enum_is ScopeInfoFlagsReceiver_value (ScopeInfoFlagsReceiver_from_int v) v.
Proof.
  intros Hv. assert (Hc : v = 0 \/ v = 1 \/ v = 2 \/ v = 3) by lia.
  destruct Hc as [-> | [-> | [-> | ->]]]; eexists; split; reflexivity.
Qed.

Lemma func_var_from_int_total (v : Z) :
  0 <= v < 4 ->
  enum_is ScopeInfoFlagsFuncVar_value (ScopeInfoFlagsFuncVar_from_int v) v.
Proof.
  intros Hv. assert (Hc : v = 0 \/ v = 1 \/ v = 2 \/ v = 3) by lia.
  destruct Hc as [-> | [-> | [-> | ->]]]; eexists; split; reflexivity.
Qed.

(** C7 (as the code has it). For every 26-bit [flags_raw], each boolean
    field is the bit at its position (4, 6, 9, 12, 13, 24, 25), language
    mode, receiver mode and function-variable mode are the enum members
    whose values are the bit fields 5, 7..8 and 10..11, and scope kind and
    function kind are the members whose values are the bit fields 0..3 and
    14..23 when the enum declares such a member and [None] when it does
    not. *)
Theorem scope_info_flags_decoding (flags : Z) :
  0 <= flags < 2 ^ 26 ->
  let f := ScopeInfoFlags_init flags in
  enum_decodes ScopeInfoFlagsScope_value (scope f) (bit_field flags 0 3)
  /\ bool_is (calls_sloppy_eval f) (bit_field flags 4 4)
  /\ enum_is ScopeInfoFlagsLang_value (lang_mode f) (bit_field flags 5 5)
  /\ bool_is (declaration_scope f) (bit_field flags 6 6)
  /\ enum_is ScopeInfoFlagsReceiver_value (recv f) (bit_field flags 7 8)
  /\ bool_is (has_new_target f) (bit_field flags 9 9)
  /\ enum_is ScopeInfoFlagsFuncVar_value (func_var f) (bit_field flags 10 11)
  /\ bool_is (asm_module f) (bit_field flags 12 12)
  /\ bool_is (has_simple_parameters f) (bit_field flags 13 13)
  /\ enum_decodes ScopeInfoFlagsFuncKind_value (kind f) (bit_field flags 14 23)
  /\ bool_is (has_outer_scope_info f) (bit_field flags 24 24)
  /\ bool_is (is_debug_evaluate_scope f) (bit_field flags 25 25).
Proof.
  intros _. cbn [ScopeInfoFlags_init scope calls_sloppy_eval lang_mode
    declaration_scope recv has_new_target func_var asm_module
    has_simple_parameters kind has_outer_scope_info is_debug_evaluate_scope].
  change 0xF with (Z.ones 4).
  rewrite (land_ones_mod flags 4) by lia.
  replace (flags mod 2 ^ 4) with (bit_field flags 0 3)
    by (unfold bit_field; now rewrite Z.pow_0_r, Z.div_1_r).
  change 0x10 with (Z.shiftl (Z.ones 1) 4).
  change 0x20 with (Z.shiftl (Z.ones 1) 5).
  change 0x40 with (Z.shiftl (Z.ones 1) 6).
  change 0x180 with (Z.shiftl (Z.ones 2) 7).
  change 0x200 with (Z.shiftl (Z.ones 1) 9).
  change 0xC00 with (Z.shiftl (Z.ones 2) 10).
  change 0x1000 with (Z.shiftl (Z.ones 1) 12).
  change 0x2000 with (Z.shiftl (Z.ones 1) 13).
  change 0x00FFC000 with (Z.shiftl (Z.ones 10) 14).
  change 0x01000000 with (Z.shiftl (Z.ones 1) 24).
  change 0x02000000 with (Z.shiftl (Z.ones 1) 25).
  change 0x04 with 4. change 0x05 with 5. change 0x06 with 6.
  change 0x07 with 7. change 0x09 with 9. change 0x0A with 10.
  change 0x0C with 12. change 0x0D with 13. change 0x0E with 14.
  change 0x18 with 24. change 0x19 with 25.
  rewrite !land_shiftr_bit_field by lia.
  cbn [Z.add Z.sub Z.opp Z.pos_sub Pos.add Pos.succ Pos.pred_double].
  repeat split.
  - apply from_int_decodes. intros []; cbn; tauto.
  - apply nonzero_bool_is, (bit_field_range flags 4 4); lia.
  - apply lang_from_int_total, (bit_field_range flags 5 5); lia.
  - apply nonzero_bool_is, (bit_field_range flags 6 6); lia.
  - apply recv_from_int_total, (bit_field_range flags 7 8); lia.
  - apply nonzero_bool_is, (bit_field_range flags 9 9); lia.
  - apply func_var_from_int_total, (bit_field_range flags 10 11); lia.
  - apply nonzero_bool_is, (bit_field_range flags 12 12); lia.
  - apply nonzero_bool_is, (bit_field_range flags 13 13); lia.
  - apply from_int_decodes. intros []; cbn; tauto.
  - apply nonzero_bool_is, (bit_field_range flags 24 24); lia.
  - apply nonzero_bool_is, (bit_field_range flags 25 25); lia.
Qed.

Lemma scope_info_flags_decoding_witness :
  let f := ScopeInfoFlags_init 0x2041 in
  enum_decodes ScopeInfoFlagsScope_value (scope f) (bit_field 0x2041 0 3)
  /\ bool_is (calls_sloppy_eval f) (bit_field 0x2041 4 4)
  /\ enum_is ScopeInfoFlagsLang_value (lang_mode f) (bit_field 0x2041 5 5)
  /\ bool_is (declaration_scope f) (bit_field 0x2041 6 6)
  /\ enum_is ScopeInfoFlagsReceiver_value (recv f) (bit_field 0x2041 7 8)
  /\ bool_is (has_new_target f) (bit_field 0x2041 9 9)
  /\ enum_is ScopeInfoFlagsFuncVar_value (func_var f) (bit_field 0x2041 10 11)
  /\ bool_is (asm_module f) (bit_field 0x2041 12 12)
  /\ bool_is (has_simple_parameters f) (bit_field 0x2041 13 13)
  /\ enum_decodes ScopeInfoFlagsFuncKind_value (kind f) (bit_field 0x2041 14 23)
  /\ bool_is (has_outer_scope_info f) (bit_field 0x2041 24 24)
  /\ bool_is (is_debug_evaluate_scope f) (bit_field 0x2041 25 25).
Proof. apply (scope_info_flags_decoding 0x2041); lia. Defined.

(** C7 as worded fails: with scope bits 7 no scope kind is decoded, so the
    scope field is [None] and equals no bit-field value. *)
Lemma scope_info_flags_unknown_scope :
  0 <= 7 < 2 ^ 26
  /\ bit_field 7 0 3 = 7
  /\ scope (ScopeInfoFlags_init 7) = None
  /\ ~ fields_equal_extractions 7.
Proof.
  split; [lia|]. split; [reflexivity|]. split; [reflexivity|].
  intros (Hscope & _). destruct Hscope as (m & Hm & _). discriminate Hm.
Qed.

(** The same happens for a function-kind field that is not a declared
    kind, e.g. kind bits 3. *)
Lemma scope_info_flags_unknown_kind :
  bit_field 0xC000 14 23 = 3 /\ kind (ScopeInfoFlags_init 0xC000) = None.
Proof. split; reflexivity. Qed.

End EnumFacts.

(** ** The varint reader (v6/parser.py) *)

Section VarintFacts.
Import Py Enums ReservObj Parser.

Lemma with_pos_with_pos (a b : Z) (p : JscParser) :
  with_pos a (with_pos b p) = with_pos a p.
Proof. reflexivity. Qed.

Lemma land_3_range (w : Z) : 0 <= Z.land w 3 < 4.
Proof. change 3 with (Z.ones 2). rewrite land_ones_mod by lia. apply (mod_pow2_range w 2); lia. Qed.

Lemma read_int_mask (n : Z) :
  1 <= n <= 4 -> Z.shiftr 0xFFFFFFFF (32 - Z.shiftl n 3) = Z.ones (n * 8).
Proof.
  intros Hn. assert (Hc : n = 1 \/ n = 2 \/ n = 3 \/ n = 4) by lia.
  destruct Hc as [-> | [-> | [-> | ->]]]; reflexivity.
Qed.

Lemma read_int_decodes (p : JscParser) (w : Z) :
  unpack_from_le 4 (data (reader p)) (pos (reader p)) = Some w ->
  _read_int p
  = Ok (Z.shiftr (Z.land w (Z.ones ((Z.land w 3 + 1) * 8))) 2,
        with_pos (pos (reader p) + (Z.land w 3 + 1)) p).
Proof.
  intros Hw. unfold _read_int, bind, read_uint32. rewrite Hw.
  cbn [get modify ret with_pos with_reader reader pos data].
  rewrite read_int_mask by (pose proof (land_3_range w); lia).
  unfold ret. rewrite with_pos_with_pos. do 3 f_equal. lia.
Qed.

Lemma unpack_from_le_at (before rest : list byte) :
  unpack_from_le 4 (before ++ rest) (len before)
  = if len rest <? 4 then None else Some (le_combine (firstn 4 rest)).
Proof.
  unfold unpack_from_le, len. rewrite length_app.
  destruct (Z.ltb_spec (Z.of_nat (length before)) 0) as [Hneg | _]; [lia|].
  destruct (Z.ltb_spec (Z.of_nat (length before)) 0) as [Hneg | _]; [lia|].
  cbn [orb].
  replace (Z.of_nat (length before + length rest) - Z.of_nat (length before))
    with (Z.of_nat (length rest)) by lia.
  change (Z.of_nat 4) with 4.
  destruct (Z.of_nat (length rest) <? 4); [reflexivity|].
  rewrite Nat2Z.id. now rewrite drop_app_length.
Qed.

Lemma varint_width_range (m : Z) : 1 <= varint_width m <= 4.
Proof. unfold varint_width. repeat case_match; lia. Qed.

(** The width is the least one whose payload bits hold [m]. *)
Lemma varint_width_minimal (m : Z) :
  0 <= m < 2 ^ 30 ->
  m < 2 ^ (8 * varint_width m - 2)
  /\ (forall n, 1 <= n < varint_width m -> 2 ^ (8 * n - 2) <= m).
Proof.
  intros Hm. unfold varint_width.
  destruct (Z.ltb_spec m (2 ^ 6)); [split; [lia | intros; lia]|].
  destruct (Z.ltb_spec m (2 ^ 14)).
  { split; [lia|]. intros n Hn. replace n with 1 by lia. lia. }
  destruct (Z.ltb_spec m (2 ^ 22)).
  { split; [lia|]. intros n Hn.
    assert (Hc : n = 1 \/ n = 2) by lia. destruct Hc as [-> | ->]; lia. }
  split; [lia|]. intros n Hn.
  assert (Hc : n = 1 \/ n = 2 \/ n = 3) by lia.
  destruct Hc as [-> | [-> | ->]]; lia.
Qed.

Lemma encode_varint_length (m : Z) : len (encode_varint m) = varint_width m.
Proof.
  unfold encode_varint, len. rewrite length_le_split.
  pose proof (varint_width_range m). lia.
Qed.

(** The u32 at the start of an encoded varint followed by anything: the
    tagged value in the low bytes, the following bytes above it. *)
Lemma encode_varint_word (m : Z) (after : list byte) :
  0 <= m < 2 ^ 30 ->
  exists hi, 0 <= hi /\
    le_combine (firstn 4 (encode_varint m ++ after))
    = 4 * m + (varint_width m - 1) + 2 ^ (8 * varint_width m) * hi.
Proof.
  intros Hm.
  pose proof (varint_width_range m) as Hw.
  pose proof (varint_width_minimal m Hm) as [Hfit _].
  pose proof (encode_varint_length m) as Hlen. unfold len in Hlen.
  rewrite firstn_app, firstn_all2 by lia.
  set (tl := firstn (4 - length (encode_varint m)) after).
  exists (le_combine tl). split; [apply le_combine_bound|].
  rewrite le_combine_app. unfold encode_varint at 1.
  rewrite le_combine_split, Z2Nat.id by lia.
  rewrite !Z.shiftl_mul_pow2 by lia.
  rewrite (Z.lor_comm (m * 2 ^ 2)).
  rewrite (lor_shiftl_disjoint (varint_width m - 1) m 2) by lia.
  assert (Hpow : 2 ^ (8 * varint_width m) = 2 ^ (8 * varint_width m - 2) * 4).
  { change 4 with (2 ^ 2). rewrite <- Z.pow_add_r by lia. f_equal; lia. }
  replace (varint_width m * 8) with (8 * varint_width m) by lia.
  rewrite Z.mod_small by lia.
  replace (Z.of_nat (length (encode_varint m)) * 8) with (8 * varint_width m) by lia.
  change (2 ^ 2) with 4.
  rewrite lor_shiftl_disjoint by lia. lia.
Qed.

(** C2. When the four bytes at the read position decode as the
    little-endian u32 [w], [_read_int] returns [w] masked to [n*8] bits
    and shifted right by 2, with [n = (w & 3) + 1] in 1..4, and leaves the
    position [n] bytes further; hence, when those bytes start with the
    minimal-width encoding of some [m] in [0, 2^30), it returns [m] and
    has consumed exactly the 1 to 4 bytes of the encoding. *)
Theorem read_int_varint (p : JscParser) (w : Z) :
  unpack_from_le 4 (data (reader p)) (pos (reader p)) = Some w ->
  let n := Z.land w 3 + 1 in
  _read_int p
  = Ok (Z.shiftr (Z.land w (Z.ones (n * 8))) 2, with_pos (pos (reader p) + n) p)
  /\ 1 <= n <= 4
  /\ forall (m : Z) (before after : list byte),
       0 <= m < 2 ^ 30 ->
       data (reader p) = before ++ encode_varint m ++ after ->
       pos (reader p) = len before ->
       _read_int p = Ok (m, with_pos (pos (reader p) + len (encode_varint m)) p)
       /\ 1 <= len (encode_varint m) <= 4
       /\ m < 2 ^ (8 * len (encode_varint m) - 2)
       /\ (forall k, 1 <= k < len (encode_varint m) -> 2 ^ (8 * k - 2) <= m).
Proof.
  intros Hw n. split; [apply read_int_decodes, Hw|].
  split; [pose proof (land_3_range w); lia|].
  intros m before after Hm Hdata Hpos.
  rewrite encode_varint_length.
  pose proof (varint_width_range m) as Hwd.
  pose proof (varint_width_minimal m Hm) as [Hfit Hmin].
  split; [|split; [lia | split; assumption]].
  rewrite (read_int_decodes p w Hw).
  rewrite Hdata, Hpos, unpack_from_le_at in Hw.
  destruct (len (encode_varint m ++ after) <? 4); [discriminate|].
  injection Hw as Hw.
  destruct (encode_varint_word m after Hm) as (hi & Hhi & Hword).
  rewrite Hword in Hw. clear Hword.
  assert (Hpow : 2 ^ (8 * varint_width m) = 2 ^ (8 * varint_width m - 2) * 4).
  { change 4 with (2 ^ 2). rewrite <- Z.pow_add_r by lia. f_equal; lia. }
  assert (Hpos2 : 0 < 2 ^ (8 * varint_width m - 2)) by (apply Z.pow_pos_nonneg; lia).
  assert (Hlow : Z.land w 3 = varint_width m - 1).
  { change 3 with (Z.ones 2). rewrite land_ones_mod by lia. change (2 ^ 2) with 4.
    subst w. rewrite Hpow.
    replace (4 * m + (varint_width m - 1) + 2 ^ (8 * varint_width m - 2) * 4 * hi)
      with (varint_width m - 1 + (m + 2 ^ (8 * varint_width m - 2) * hi) * 4) by lia.
    rewrite Z.mod_add by lia. apply Z.mod_small. lia. }
  rewrite Hlow. replace (varint_width m - 1 + 1) with (varint_width m) by lia.
  do 2 f_equal.
  rewrite land_ones_mod by lia.
  replace (varint_width m * 8) with (8 * varint_width m) by lia.
  subst w. rewrite (Z.mul_comm (2 ^ (8 * varint_width m)) hi), Z.mod_add by lia.
  rewrite Z.mod_small by lia.
  rewrite Z.shiftr_div_pow2 by lia. change (2 ^ 2) with 4.
  replace (4 * m + (varint_width m - 1)) with (varint_width m - 1 + m * 4) by lia.
  rewrite Z.div_add by lia. rewrite Z.div_small by lia. lia.
Qed.

End VarintFacts.

Section VarintExamples.
Import Py Enums ReservObj Parser Samples.

Lemma read_int_varint_witness :
  let p := varint_example in
  let w := 0xBBAA04B1 in
  let n := Z.land w 3 + 1 in
  _read_int p
  = Ok (Z.shiftr (Z.land w (Z.ones (n * 8))) 2, with_pos (pos (reader p) + n) p)
  /\ 1 <= n <= 4
  /\ forall (m : Z) (before after : list byte),
       0 <= m < 2 ^ 30 ->
       data (reader p) = before ++ encode_varint m ++ after ->
       pos (reader p) = len before ->
       _read_int p = Ok (m, with_pos (pos (reader p) + len (encode_varint m)) p)
       /\ 1 <= len (encode_varint m) <= 4
       /\ m < 2 ^ (8 * len (encode_varint m) - 2)
       /\ (forall k, 1 <= k < len (encode_varint m) -> 2 ^ (8 * k - 2) <= m).
Proof. apply (read_int_varint varint_example 0xBBAA04B1). reflexivity. Defined.

Example read_int_300 :
  _read_int varint_example = Ok (300, with_pos 2 varint_example).
Proof. reflexivity. Qed.

(** The reader always fetches four bytes first: a one-byte varint that
    ends the buffer is a [struct.error], not a value. *)
Example read_int_at_end_of_buffer :
  _read_int (JscParser_init (encode_varint 0) true [] []) = Raise StructError.
Proof. reflexivity. Qed.

End VarintExamples.

(** ** Back-references (v6/parser.py) *)

Section BackRefFacts.
Import Py Enums ReservObj Parser.

Lemma read_int_state (p p1 : JscParser) (v : Z) :
  _read_int p = Ok (v, p1) -> exists n, p1 = with_pos n p.
Proof.
  unfold _read_int, bind, read_uint32.
  destruct (unpack_from_le 4 _ _); [|discriminate].
  cbn [get modify ret]. unfold ret. rewrite with_pos_with_pos.
  intros [= _ <-]. eauto.
Qed.

Lemma land_low_mod (x n : Z) (mask : Z) :
  0 <= n -> mask = Z.ones n -> Z.land x mask = x mod 2 ^ n.
Proof. intros Hn ->. now apply land_ones_mod. Qed.

(** Packing a chunk index above an offset field of [k] bits and taking
    both fields apart again. *)
Lemma back_ref_fields (c q k n : Z) :
  0 <= k -> 0 < n -> 0 <= c < 2 ^ n -> 0 <= q < 2 ^ k ->
  let ref := Z.lor (Z.shiftl c k) q in
  Z.shiftr (Z.land ref (Z.shiftl (Z.ones n) k)) k = c
  /\ Z.land ref (Z.ones k) = q.
Proof.
  intros Hk Hn Hc Hq ref. subst ref.
  rewrite Z.lor_comm, Z.shiftl_mul_pow2, lor_shiftl_disjoint by lia.
  assert (0 < 2 ^ k) by (apply Z.pow_pos_nonneg; lia).
  split.
  - rewrite land_shiftr_bit_field by lia. unfold Enums.bit_field.
    rewrite Z.div_add, Z.div_small by lia.
    replace (k + n - 1 - k + 1) with n by lia. apply Z.mod_small; lia.
  - rewrite land_ones_mod, Z.mod_add by lia. apply Z.mod_small; lia.
Qed.

Lemma back_ref_roundtrip (is32 : bool) (space : option AllocSpace) (c o : Z) :
  space <> Some LO_SPACE -> space <> Some MAP_SPACE ->
  0 <= c < (if is32 then 2 ^ 12 else 2 ^ 13) ->
  0 <= o < 2 ^ 19 ->
  o mod (if is32 then 4 else 8) = 0 ->
  back_ref_position is32 (if is32 then 2 else 3) space (encode_back_ref is32 c o) = (c, o).
Proof.
  intros Hlo Hmap Hc Ho Hal.
  assert (Hsp : back_ref_position is32 (if is32 then 2 else 3) space (encode_back_ref is32 c o)
                = if is32
                  then (Z.shiftr (Z.land (encode_back_ref true c o) 0x1FFE0000) 0x11,
                        Z.shiftl (Z.land (encode_back_ref true c o) 0x1FFFF) 2)
                  else (Z.shiftr (Z.land (encode_back_ref false c o) 0x1FFF0000) 0x10,
                        Z.shiftl (Z.land (encode_back_ref false c o) 0xFFFF) 3)).
  { unfold back_ref_position.
    destruct space as [[]|]; try congruence; destruct is32; reflexivity. }
  rewrite Hsp. clear Hsp. unfold encode_back_ref.
  destruct is32.
  - change 0x1FFE0000 with (Z.shiftl (Z.ones 12) 17). change 0x11 with 17.
    change 0x1FFFF with (Z.ones 17).
    assert (Hq : 0 <= Z.shiftr o 2 < 2 ^ 17).
    { rewrite Z.shiftr_div_pow2 by lia. change (2 ^ 2) with 4.
      split; [apply Z.div_pos; lia|]. apply Z.div_lt_upper_bound; lia. }
    destruct (back_ref_fields c (Z.shiftr o 2) 17 12) as [-> ->]; try lia.
    f_equal. rewrite Z.shiftr_div_pow2, Z.shiftl_mul_pow2 by lia.
    change (2 ^ 2) with 4. rewrite (Z.div_mod o 4) at 2 by lia. lia.
  - change 0x1FFF0000 with (Z.shiftl (Z.ones 13) 16). change 0x10 with 16.
    change 0xFFFF with (Z.ones 16).
    assert (Hq : 0 <= Z.shiftr o 3 < 2 ^ 16).
    { rewrite Z.shiftr_div_pow2 by lia. change (2 ^ 3) with 8.
      split; [apply Z.div_pos; lia|]. apply Z.div_lt_upper_bound; lia. }
    destruct (back_ref_fields c (Z.shiftr o 3) 16 13) as [-> ->]; try lia.
    f_equal. rewrite Z.shiftr_div_pow2, Z.shiftl_mul_pow2 by lia.
    change (2 ^ 3) with 8. rewrite (Z.div_mod o 8) at 2 by lia. lia.
Qed.

End BackRefFacts.

Section BackRefClaims.
Import Py Enums ReservObj Parser.

Lemma get_back_referenced_object_unfold (space : option AllocSpace)
    (p p1 : JscParser) (ref : Z) :
  _read_int p = Ok (ref, p1) ->
  _get_back_referenced_object space p
  = let '(ci, co) := back_ref_position (is_32bit p1) (kObjectAlignmentBits p1) space ref in
    if len (chunks_of p1 space) <=? ci then Ok (VNone, p1)
    else match getitem (chunks_of p1 space) ci with
         | None => Raise IndexError
         | Some chunk =>
             Ok (get_aligned_object (deref p1 chunk) co,
                 push_hot (get_aligned_object (deref p1 chunk) co) p1)
         end.
Proof.
  intros Hr. unfold _get_back_referenced_object, bind. rewrite Hr.
  cbn [get reserv_get].
  destruct (back_ref_position _ _ _ _) as [ci co].
  destruct (_ <=? ci); [reflexivity|].
  destruct (getitem _ ci); reflexivity.
Qed.

(** C3 (as the code has it). For a back-reference word [ref] read for a
    space other than MAP_SPACE and LO_SPACE, the deserializer takes chunk
    index [(ref & 0x1FFE0000) >> 17] and chunk offset [(ref & 0x1FFFF) << 2]
    in 32-bit mode, and [(ref & 0x1FFF0000) >> 16], [(ref & 0xFFFF) << 3] in
    64-bit mode, the shift being log2 of the pointer size; it looks the
    object up at that chunk and offset; and every chunk index and aligned
    offset that fit the fields are recovered from their encoded word.  For
    MAP_SPACE and LO_SPACE the word is read and, whatever it is, chunk
    index 0 and chunk offset 0 are used: the object is looked up at offset
    0 of the first chunk of the space. *)
Theorem back_reference_decoding (space : option AllocSpace) (p p1 : JscParser) (ref : Z) :
  _read_int p = Ok (ref, p1) ->
  let ci := if is_32bit p then Z.shiftr (Z.land ref 0x1FFE0000) 17
            else Z.shiftr (Z.land ref 0x1FFF0000) 16 in
  let co := if is_32bit p then Z.shiftl (Z.land ref 0x1FFFF) 2
            else Z.shiftl (Z.land ref 0xFFFF) 3 in
  (space <> Some LO_SPACE -> space <> Some MAP_SPACE ->
     back_ref_position (is_32bit p) (kObjectAlignmentBits p) space ref = (ci, co)
     /\ 2 ^ kObjectAlignmentBits p = kPointerSize p
     /\ (forall chunk, ci < len (chunks_of p1 space) ->
           getitem (chunks_of p1 space) ci = Some chunk ->
           _get_back_referenced_object space p
           = Ok (get_aligned_object (deref p1 chunk) co,
                 push_hot (get_aligned_object (deref p1 chunk) co) p1))
     /\ (forall c o,
           0 <= c < (if is_32bit p then 2 ^ 12 else 2 ^ 13) ->
           0 <= o < 2 ^ 19 -> o mod kPointerSize p = 0 ->
           ref = encode_back_ref (is_32bit p) c o -> (ci, co) = (c, o)))
  /\ (space = Some MAP_SPACE \/ space = Some LO_SPACE ->
        back_ref_position (is_32bit p) (kObjectAlignmentBits p) space ref = (0, 0)
        /\ (forall chunk, 0 < len (chunks_of p1 space) ->
              getitem (chunks_of p1 space) 0 = Some chunk ->
              _get_back_referenced_object space p
              = Ok (get_aligned_object (deref p1 chunk) 0,
                    push_hot (get_aligned_object (deref p1 chunk) 0) p1))).
Proof.
  intros Hr ci co.
  destruct (read_int_state p p1 ref Hr) as [n ->].
  split.
  - intros Hlo Hmap.
    assert (Hpos : back_ref_position (is_32bit p) (kObjectAlignmentBits p) space ref
                   = (ci, co)).
    { unfold back_ref_position, kObjectAlignmentBits, kPointerSizeLog2. subst ci co.
      destruct space as [[]|]; try congruence; destruct (is_32bit p); reflexivity. }
    split; [exact Hpos|].
    split; [unfold kObjectAlignmentBits, kPointerSizeLog2, kPointerSize;
            destruct (is_32bit p); reflexivity|].
    split.
    + intros chunk Hlt Hget.
      rewrite (get_back_referenced_object_unfold space p _ ref Hr).
      change (is_32bit (with_pos n p)) with (is_32bit p).
      change (kObjectAlignmentBits (with_pos n p)) with (kObjectAlignmentBits p).
      rewrite Hpos.
      destruct (Z.leb_spec (len (chunks_of (with_pos n p) space)) ci) as [Hle | _]; [lia|].
      now rewrite Hget.
    + intros c o Hc Ho Hal ->. rewrite <- Hpos.
      unfold kObjectAlignmentBits, kPointerSizeLog2, kPointerSize in *.
      apply back_ref_roundtrip; assumption.
  - intros Hskip.
    assert (Hpos : back_ref_position (is_32bit p) (kObjectAlignmentBits p) space ref
                   = (0, 0)).
    { destruct Hskip as [-> | ->]; reflexivity. }
    split; [exact Hpos|].
    intros chunk Hlt Hget.
    rewrite (get_back_referenced_object_unfold space p _ ref Hr).
    change (is_32bit (with_pos n p)) with (is_32bit p).
    change (kObjectAlignmentBits (with_pos n p)) with (kObjectAlignmentBits p).
    rewrite Hpos.
    destruct (Z.leb_spec (len (chunks_of (with_pos n p) space)) 0) as [Hle | _]; [lia|].
    now rewrite Hget.
Qed.

(** C3 as worded fails for the two spaces the decoder skips: a MAP_SPACE
    back-reference with chunk field 1 and offset field 1 is taken as chunk
    0, offset 0. *)
Lemma back_reference_map_space_not_decoded :
  back_ref_position true 2 (Some MAP_SPACE) 0x20001 = (0, 0)
  /\ (Z.shiftr (Z.land 0x20001 0x1FFE0000) 17, Z.shiftl (Z.land 0x20001 0x1FFFF) 2) = (1, 4)
  /\ back_ref_position true 2 (Some MAP_SPACE) 0x20001
     <> (Z.shiftr (Z.land 0x20001 0x1FFE0000) 17, Z.shiftl (Z.land 0x20001 0x1FFFF) 2)
  /\ back_ref_position false 3 (Some LO_SPACE) 0x10001 = (0, 0)
  /\ (Z.shiftr (Z.land 0x10001 0x1FFF0000) 16, Z.shiftl (Z.land 0x10001 0xFFFF) 3) = (1, 8)
  /\ back_ref_position false 3 (Some LO_SPACE) 0x10001
     <> (Z.shiftr (Z.land 0x10001 0x1FFF0000) 16, Z.shiftl (Z.land 0x10001 0xFFFF) 3).
Proof. repeat split; discriminate. Qed.

End BackRefClaims.

Section BackRefExamples.
Import Py Enums ReservObj Parser Samples.

Lemma back_reference_decoding_witness :
  let p := back_ref_example in
  let p1 := with_pos 3 back_ref_example in
  let ref := 0x20002 in
  let space := Some OLD_SPACE in
  let ci := if is_32bit p then Z.shiftr (Z.land ref 0x1FFE0000) 17
            else Z.shiftr (Z.land ref 0x1FFF0000) 16 in
  let co := if is_32bit p then Z.shiftl (Z.land ref 0x1FFFF) 2
            else Z.shiftl (Z.land ref 0xFFFF) 3 in
  back_ref_position (is_32bit p) (kObjectAlignmentBits p) space ref = (ci, co)
  /\ 2 ^ kObjectAlignmentBits p = kPointerSize p
  /\ (forall chunk, ci < len (chunks_of p1 space) ->
        getitem (chunks_of p1 space) ci = Some chunk ->
        _get_back_referenced_object space p
        = Ok (get_aligned_object (deref p1 chunk) co,
              push_hot (get_aligned_object (deref p1 chunk) co) p1))
  /\ (forall c o,
        0 <= c < (if is_32bit p then 2 ^ 12 else 2 ^ 13) ->
        0 <= o < 2 ^ 19 -> o mod kPointerSize p = 0 ->
        ref = encode_back_ref (is_32bit p) c o -> (ci, co) = (c, o)).
Proof.
  destruct (back_reference_decoding (Some OLD_SPACE) back_ref_example
              (with_pos 3 back_ref_example) 0x20002) as [Hdecoded _];
    [reflexivity | apply Hdecoded; discriminate].
Defined.

Example back_ref_example_position :
  back_ref_position true 2 (Some OLD_SPACE) (encode_back_ref true 1 8) = (1, 8).
Proof. reflexivity. Qed.

End BackRefExamples.

(** ** Unresolvable back-references (v6/parser.py) *)

Section UnresolvedBackRef.
Import Py Enums ReservObj Parser Samples.

Lemma add_object_lookup (o : ReservObject) (address : Z) (v : PyVal) :
  objects (add_object o address v) !! address = Some v.
Proof. cbn. apply lookup_insert_eq. Qed.

Lemma get_aligned_object_empty (o : ReservObject) (offset : Z) :
  objects o !! offset = None -> get_aligned_object o offset = VNone.
Proof.
  intros Hn. unfold get_aligned_object, objects_get. rewrite Hn. cbn.
  now destruct (pointer_size o =? 4).
Qed.

(** C4 (as the code has it). In the kBackref branch an unresolvable
    back-reference is not an error.  If the decoded chunk index is beyond
    the chunks declared for the space, nothing is looked up and the hot
    ring is left alone; if the chunk exists but nothing was written at the
    decoded offset, [None] is what the lookup gives and [None] enters the
    hot ring.  Either way [None] is stored as the slot at the insertion
    offset and the branch returns the offset advanced by the pointer
    size. *)
Theorem unresolved_back_reference_stores_none
    (rd : nat -> Z -> option AllocSpace -> Z -> M unit)
    (obj : nat) (insert_off : Z) (state : CaseState)
    (sp : option (option AllocSpace)) (p p1 : JscParser) (ref : Z) :
  cs_where state = kBackref ->
  _read_int p = Ok (ref, p1) ->
  let space := AllocSpace_from_int (Z.land (cs_value state) 7) in
  let pos_ := back_ref_position (is_32bit p1) (kObjectAlignmentBits p1) space ref in
  let store_none := update_obj obj (fun o => add_object o insert_off VNone) in
  (len (chunks_of p1 space) <= fst pos_ ->
     _read_space_data rd obj insert_off state sp p
     = Ok (insert_off + kPointerSize p, store_none p1))
  /\ (forall chunk,
        fst pos_ < len (chunks_of p1 space) ->
        getitem (chunks_of p1 space) (fst pos_) = Some chunk ->
        objects (deref p1 chunk) !! snd pos_ = None ->
        _read_space_data rd obj insert_off state sp p
        = Ok (insert_off + kPointerSize p, store_none (push_hot VNone p1)))
  /\ (forall o, objects (add_object o insert_off VNone) !! insert_off = Some VNone).
Proof.
  intros Hwhere Hr space pos_ store_none.
  destruct (read_int_state p p1 ref Hr) as [n Hp1].
  assert (Hps : kPointerSize p1 = kPointerSize p) by (now subst p1).
  assert (Hrun : _read_space_data rd obj insert_off state sp p
                 = match _get_back_referenced_object space p with
                   | Ok (back_obj, p2) =>
                       Ok (insert_off + kPointerSize p2,
                           update_obj obj (fun o => add_object o insert_off back_obj) p2)
                   | Raise e => Raise e
                   | OutOfFuel => OutOfFuel
                   end).
  { unfold _read_space_data. rewrite Hwhere. unfold bind at 1 2.
    fold space. destruct (_get_back_referenced_object space p) as [[v p2]| |];
      reflexivity. }
  rewrite Hrun, (get_back_referenced_object_unfold space p p1 ref Hr).
  fold pos_. destruct pos_ as [ci co]. cbn [fst snd].
  split; [|split].
  - intros Hle. destruct (Z.leb_spec (len (chunks_of p1 space)) ci); [|lia].
    now rewrite Hps.
  - intros chunk Hlt Hget Hempty.
    destruct (Z.leb_spec (len (chunks_of p1 space)) ci); [lia|].
    rewrite Hget, (get_aligned_object_empty _ _ Hempty).
    change (kPointerSize (push_hot VNone p1)) with (kPointerSize p1).
    now rewrite Hps.
  - intros o. apply add_object_lookup.
Qed.

End UnresolvedBackRef.

Section UnresolvedBackRefExamples.
Import Py Enums ReservObj Parser Samples.

Lemma unresolved_back_reference_stores_none_witness :
  let rd := fun (_ : nat) (_ : Z) (_ : option AllocSpace) (_ : Z) => ret tt in
  let p := unresolved_backref_parser in
  let p1 := with_pos 1 unresolved_backref_parser in
  let state := backref_old_space_state in
  let space := AllocSpace_from_int (Z.land (cs_value state) 7) in
  let pos_ := back_ref_position (is_32bit p1) (kObjectAlignmentBits p1) space 0 in
  let store_none := update_obj 0 (fun o => add_object o 0 VNone) in
  (len (chunks_of p1 space) <= fst pos_ ->
     _read_space_data rd 0 0 state None p
     = Ok (0 + kPointerSize p, store_none p1))
  /\ (forall chunk,
        fst pos_ < len (chunks_of p1 space) ->
        getitem (chunks_of p1 space) (fst pos_) = Some chunk ->
        objects (deref p1 chunk) !! snd pos_ = None ->
        _read_space_data rd 0 0 state None p
        = Ok (0 + kPointerSize p, store_none (push_hot VNone p1)))
  /\ (forall o, objects (add_object o 0 VNone) !! 0 = Some VNone).
Proof.
  apply (unresolved_back_reference_stores_none
           (fun _ _ _ _ => ret tt) 0%nat 0 backref_old_space_state None
           unresolved_backref_parser (with_pos 1 unresolved_backref_parser) 0);
    reflexivity.
Defined.

(** C4 as worded fails.  The file declares no chunk at all and its payload
    is a back-reference into OLD_SPACE, so the chunk index 0 it decodes is
    beyond the declared chunks; [parse] nevertheless returns normally, with
    no function found and [None] stored in slot 0 of the root object. *)
Lemma unresolved_back_reference_not_fatal :
  let r := parse 50 (JscParser_init unresolved_backref_file false [] []) in
  match r with
  | Ok (funcs, p') =>
      funcs = []
      /\ chunks_of p' (Some OLD_SPACE) = []
      /\ objects (deref p' 0) !! 0 = Some VNone
  | _ => False
  end
  /\ ~ fails_with_format_error r.
Proof.
  split.
  - vm_compute. repeat split.
  - intros [msg Hmsg]. vm_compute in Hmsg. discriminate Hmsg.
Qed.

(** The same with a declared, still empty chunk: the offset the word
    refers to holds nothing, [None] is stored and also enters the hot
    ring. *)
Lemma empty_slot_back_reference_not_fatal :
  let r := parse 50 (JscParser_init empty_slot_backref_file false [] []) in
  match r with
  | Ok (funcs, p') =>
      funcs = []
      /\ chunks_of p' (Some OLD_SPACE) = [1%nat]
      /\ objects (deref p' 1) = ∅
      /\ objects (deref p' 2) !! 0 = Some VNone
      /\ hots p' !! 0 = Some VNone
  | _ => False
  end.
Proof. vm_compute. repeat split. Qed.

(** The format error the deserializer does raise: a byte outside the
    payload alphabet, reported with its value and file offset. *)
Example unknown_payload_byte_is_fatal :
  parse 50 (JscParser_init
              (firstn 40 unresolved_backref_file ++ bytes [0x30; 0; 0; 0; 0])
              false [] [])
  = Raise (ValueError "Wrong JSC byte data: 0x30 at pos 0x28").
Proof. vm_compute. reflexivity. Qed.

End UnresolvedBackRefExamples.

(** ** The disassembler never raises and always advances (v6/disasm.py) *)

Section DisasmTotal.
Import Py Disasm.

Lemma len_nonneg {A : Type} (l : list A) : 0 <= len l.
Proof. unfold len. lia. Qed.

Lemma getitem_in_range {A : Type} (l : list A) (i : Z) :
  0 <= i < len l -> exists x, getitem l i = Some x.
Proof.
  intros Hi. unfold getitem.
  destruct (Z.leb_spec 0 i); [|lia].
  apply lookup_lt_is_Some_2. unfold len in Hi. lia.
Qed.

Lemma byte_at_ok (bytecode : list byte) (pos : Z) :
  0 <= pos < len bytecode ->
  exists v, byte_at bytecode pos = Ok v /\ 0 <= v < 256.
Proof.
  intros Hp. unfold byte_at.
  destruct (getitem_in_range bytecode pos Hp) as [b ->].
  exists (byte.unsigned b). split; [reflexivity|]. apply byte.unsigned_range.
Qed.

Lemma unpack_ok (n : nat) (bytecode : list byte) (pos : Z) :
  0 <= pos -> pos + Z.of_nat n <= len bytecode ->
  exists v, unpack n bytecode pos = Ok v /\ 0 <= v.
Proof.
  intros Hp Hn. unfold unpack, unpack_from_le.
  destruct (Z.ltb_spec pos 0); [lia|].
  destruct (Z.ltb_spec pos 0); [lia|].
  destruct (Z.ltb_spec (len bytecode - pos) (Z.of_nat n)); [lia|].
  cbn [orb]. eexists. split; [reflexivity|]. apply le_combine_bound.
Qed.

Lemma read_reg_field_ok (operand_size : Z) (bytecode : list byte) (pos : Z) :
  0 <= pos ->
  exists v, read_reg_field operand_size bytecode pos
            = Ok (v, pos + field_width operand_size)
            /\ 0 <= v
            /\ (len bytecode < pos + field_width operand_size -> v = 0).
Proof.
  intros Hp. unfold read_reg_field, field_width.
  destruct (operand_size =? 1).
  { destruct (Z.ltb_spec pos (len bytecode)).
    - destruct (byte_at_ok bytecode pos) as (v & -> & Hv); [lia|].
      exists v. repeat split; lia.
    - exists 0. repeat split; lia. }
  destruct (operand_size =? 2).
  { destruct (Z.leb_spec (pos + 2) (len bytecode)).
    - destruct (unpack_ok 2 bytecode pos) as (v & -> & Hv); [lia | lia |].
      exists v. repeat split; lia.
    - exists 0. repeat split; lia. }
  destruct (Z.leb_spec (pos + 4) (len bytecode)).
  - destruct (unpack_ok 4 bytecode pos) as (v & -> & Hv); [lia | lia |].
    exists v. repeat split; lia.
  - exists 0. repeat split; lia.
Qed.

Lemma read_standard_ok (operand_size : Z) (bytecode : list byte) (pos : Z) :
  0 <= pos ->
  exists v pos',
    read_standard operand_size bytecode pos = Ok (v, pos')
    /\ 0 <= v
    /\ (len bytecode < pos + field_width operand_size -> v = 0 /\ pos' = len bytecode)
    /\ (pos + field_width operand_size <= len bytecode ->
        pos' = pos + field_width operand_size).
Proof.
  intros Hp. unfold read_standard, field_width.
  destruct (operand_size =? 1).
  { destruct (Z.leb_spec (len bytecode) pos).
    - exists 0, (len bytecode). repeat split; lia.
    - destruct (byte_at_ok bytecode pos) as (v & -> & Hv); [lia|].
      exists v, (pos + 1). repeat split; lia. }
  destruct (operand_size =? 2).
  { destruct (Z.ltb_spec (len bytecode) (pos + 2)).
    - exists 0, (len bytecode). repeat split; lia.
    - destruct (unpack_ok 2 bytecode pos) as (v & -> & Hv); [lia | lia |].
      exists v, (pos + 2). repeat split; lia. }
  destruct (Z.ltb_spec (len bytecode) (pos + 4)).
  - exists 0, (len bytecode). repeat split; lia.
  - destruct (unpack_ok 4 bytecode pos) as (v & -> & Hv); [lia | lia |].
    exists v, (pos + 4). repeat split; lia.
Qed.

Lemma field_width_pos (operand_size : Z) : 1 <= field_width operand_size <= 4.
Proof. unfold field_width. repeat case_match; lia. Qed.

(** Every operand decodes, to a non-negative value, and leaves the cursor
    at or beyond any bound [lo] that both the old cursor and the buffer
    length respect. *)
Lemma decode_operand_ok (op_type : OperandType) (operand_size : Z)
    (bytecode : list byte) (pos lo : Z) :
  0 <= lo <= pos -> lo <= len bytecode ->
  exists entry str pos',
    decode_operand op_type operand_size bytecode pos = Ok (entry, str, pos')
    /\ entry_nonneg entry /\ fst entry = op_type /\ lo <= pos'.
Proof.
  intros Hlo Hlen.
  pose proof (field_width_pos operand_size) as Hw.
  assert (Hstd : forall t,
    (forall v, exists s, standard_operand_str t operand_size v = s) ->
    exists entry str pos',
      match read_standard operand_size bytecode pos with
      | Ok (val, pos0) =>
          Ok (t, OInt val, standard_operand_str t operand_size val, pos0)
      | Raise e => Raise e
      | OutOfFuel => OutOfFuel
      end = Ok (entry, str, pos')
      /\ entry_nonneg entry /\ fst entry = t /\ lo <= pos').
  { intros t _.
    destruct (read_standard_ok operand_size bytecode pos) as (v & pos' & -> & Hv & Hout & Hin);
      [lia|].
    do 3 eexists. split; [reflexivity|]. repeat split; [exact Hv|].
    destruct (Z.le_gt_cases (pos + field_width operand_size) (len bytecode)) as [Hle | Hgt].
    - rewrite (Hin Hle). lia.
    - destruct (Hout Hgt) as [_ ->]. lia. }
  destruct op_type; cbn [decode_operand];
    try (apply Hstd; intros; eauto).
  - (* kRuntimeId *)
    destruct (Z.leb_spec (pos + 2) (len bytecode)).
    + destruct (unpack_ok 2 bytecode pos) as (v & -> & Hv); [lia | lia |].
      do 3 eexists. split; [reflexivity|]. repeat split; cbn; lia.
    + do 3 eexists. split; [reflexivity|]. repeat split; cbn; lia.
  - (* kRegRange *)
    destruct (read_reg_field_ok operand_size bytecode pos) as (r & -> & Hr & _); [lia|].
    destruct (read_reg_field_ok operand_size bytecode (pos + field_width operand_size))
      as (c & -> & Hc & _); [lia|].
    do 3 eexists. split; [reflexivity|]. repeat split; cbn; lia.
  - (* kRegPair *)
    destruct (read_reg_field_ok operand_size bytecode pos) as (r & -> & Hr & _); [lia|].
    do 3 eexists. split; [reflexivity|]. repeat split; cbn; lia.
  - (* kRegTriple *)
    destruct (read_reg_field_ok operand_size bytecode pos) as (r & -> & Hr & _); [lia|].
    do 3 eexists. split; [reflexivity|]. repeat split; cbn; lia.
Qed.

Lemma decode_operands_ok (operand_types : list OperandType) (operand_size : Z)
    (bytecode : list byte) (lo : Z) :
  forall pos operands operand_strs,
    0 <= lo <= pos -> lo <= len bytecode ->
    Forall entry_nonneg operands ->
    exists operands' strs' pos',
      decode_operands operand_types operand_size bytecode pos operands operand_strs
      = Ok (operands', strs', pos')
      /\ Forall entry_nonneg operands' /\ lo <= pos'.
Proof.
  induction operand_types as [|t rest IH]; intros pos operands strs Hlo Hlen Hnn.
  - do 3 eexists. split; [reflexivity|]. split; [assumption | lia].
  - cbn [decode_operands].
    destruct (decode_operand_ok t operand_size bytecode pos lo Hlo Hlen)
      as (entry & str & pos' & -> & Hentry & _ & Hpos').
    apply IH; [lia | lia |].
    apply Forall_app. split; [assumption|]. now constructor.
Qed.

Lemma first_operand_some (t : OperandType) (ok : Z -> bool)
    (operands : list (OperandType * OperandVal)) (v : Z) :
  first_operand t ok operands = Some v ->
  ok v = true /\ In (t, OInt v) operands.
Proof.
  induction operands as [|[op_type [u | r c]] rest IH]; cbn [first_operand].
  - discriminate.
  - destruct (bool_decide_reflect (op_type = t)) as [-> | Hne]; cbn [andb].
    + destruct (ok u) eqn:Hok.
      * intros [= <-]. split; [assumption | now left].
      * intros H. destruct (IH H). split; [assumption | now right].
    + intros H. destruct (IH H). split; [assumption | now right].
  - intros H. destruct (IH H). split; [assumption | now right].
Qed.

Lemma first_operand_in_range (t : OperandType) {A : Type} (items : list A)
    (operands : list (OperandType * OperandVal)) (v : Z) :
  Forall entry_nonneg operands ->
  first_operand t (fun val => val <? len items) operands = Some v ->
  exists x, getitem items v = Some x.
Proof.
  intros Hnn Hf. apply first_operand_some in Hf as [Hlt Hin].
  apply getitem_in_range.
  rewrite Forall_forall in Hnn. apply list_elem_of_In in Hin.
  specialize (Hnn _ Hin). cbn in Hnn.
  apply Z.ltb_lt in Hlt. lia.
Qed.

Lemma build_comment_ok (mnemonic : string) (inst_start : Z)
    (operands : list (OperandType * OperandVal))
    (constant_pool : option (list CPItem)) :
  Forall entry_nonneg operands ->
  exists comment, build_comment mnemonic inst_start operands constant_pool = Ok comment.
Proof.
  intros Hnn. unfold build_comment.
  set (jump := if str_in _ FORWARD_JUMPS then _ else _).
  assert (Hcp : exists c,
    match constant_pool with
    | Some items =>
        match first_operand kIdx (fun val => val <? len items) operands with
        | Some val =>
            match getitem items val with
            | Some cp_val => Ok (jump ++ cp_comment cp_val)%string
            | None => Raise IndexError
            end
        | None => Ok jump
        end
    | None => Ok jump
    end = Ok c).
  { destruct constant_pool as [items|]; [|eauto].
    destruct (first_operand kIdx _ operands) as [val|] eqn:Hf; [|eauto].
    destruct (first_operand_in_range kIdx items operands val Hnn Hf) as [x ->]. eauto. }
  destruct Hcp as [c ->].
  destruct (String.eqb _ "TestTypeOf"); [|eauto].
  destruct (first_operand kFlag8 _ operands) as [val|] eqn:Hf; [|eauto].
  destruct (first_operand_in_range kFlag8 TYPEOF_LITERALS operands val Hnn Hf) as [x ->].
  eauto.
Qed.

Lemma fetch_opcode_ok (bytecode : list byte) (pos : Z) :
  0 <= pos < len bytecode ->
  fetch_opcode bytecode pos = Ok None
  \/ exists operand_size prefix_name opcode pos',
       fetch_opcode bytecode pos = Ok (Some (operand_size, prefix_name, opcode, pos'))
       /\ pos + 1 <= pos' <= len bytecode.
Proof.
  intros Hp. unfold fetch_opcode.
  destruct (byte_at_ok bytecode pos Hp) as (op & -> & _).
  destruct (op =? 0).
  { destruct (Z.leb_spec (len bytecode) (pos + 1)); [now left | right].
    destruct (byte_at_ok bytecode (pos + 1)) as (op2 & -> & _); [lia|].
    do 4 eexists. split; [reflexivity | lia]. }
  destruct (op =? 1).
  { destruct (Z.leb_spec (len bytecode) (pos + 1)); [now left | right].
    destruct (byte_at_ok bytecode (pos + 1)) as (op2 & -> & _); [lia|].
    do 4 eexists. split; [reflexivity | lia]. }
  right. do 4 eexists. split; [reflexivity | lia].
Qed.

(** One loop iteration: it breaks, or it appends one instruction that
    starts at the old cursor and moves the cursor at least one byte on. *)
Lemma decode_instruction_progress (bytecode : list byte)
    (constant_pool : option (list CPItem)) (pos : Z) :
  0 <= pos < len bytecode ->
  decode_instruction bytecode constant_pool pos = Ok Break
  \/ exists inst pos',
       decode_instruction bytecode constant_pool pos = Ok (Next inst pos')
       /\ i_offset inst = pos /\ pos + 1 <= pos'.
Proof.
  intros Hp. unfold decode_instruction.
  destruct (fetch_opcode_ok bytecode pos Hp)
    as [-> | (sz & pre & opcode & pos1 & -> & Hpos1)]; [now left | right].
  destruct (OPCODES_get opcode) as [[mnemonic operand_types]|].
  - destruct (decode_operands_ok operand_types sz bytecode (pos + 1) pos1 [] [])
      as (operands & strs & pos2 & -> & Hnn & Hpos2); [lia | lia | constructor |].
    destruct (build_comment_ok
                match pre with Some p => (p ++ "." ++ mnemonic)%string | None => mnemonic end
                pos operands constant_pool Hnn) as [comment ->].
    do 2 eexists. split; [reflexivity|]. split; [reflexivity | lia].
  - do 2 eexists. split; [reflexivity|]. split; [reflexivity | lia].
Qed.

Lemma disassemble_loop_total (bytecode : list byte) (constant_pool : option (list CPItem)) :
  forall fuel pos instructions,
    0 <= pos -> Z.max 0 (len bytecode - pos) < Z.of_nat fuel ->
    exists result, disassemble_loop fuel bytecode constant_pool pos instructions = Ok result.
Proof.
  induction fuel as [|fuel IH]; intros pos instructions Hp Hfuel.
  - lia.
  - cbn [disassemble_loop].
    destruct (Z.ltb_spec pos (len bytecode)) as [Hlt | Hge]; [|eauto].
    destruct (decode_instruction_progress bytecode constant_pool pos)
      as [-> | (inst & pos' & -> & _ & Hadv)]; [lia | eauto |].
    apply IH; lia.
Qed.

End DisasmTotal.

Section DisasmClaims.
Import Py Disasm Samples.

(** C10 (as the code has it). For every byte string and constant pool
    [disassemble_bytecode] returns an instruction list and raises nothing;
    every loop iteration either breaks or moves the cursor at least one
    byte on; a standard or runtime-id operand whose bytes extend past the
    end decodes to 0 and sets the cursor to the buffer length; a field of
    a register range, pair or triple whose bytes extend past the end
    decodes to 0 without any read, and the cursor moves on by the field
    width, beyond the buffer length. *)
Theorem disassemble_bytecode_total (bytecode : list byte)
    (constant_pool : option (list CPItem)) :
  (exists instructions, disassemble_bytecode bytecode constant_pool = Ok instructions)
  /\ (forall pos, 0 <= pos < len bytecode ->
        decode_instruction bytecode constant_pool pos = Ok Break
        \/ exists inst pos',
             decode_instruction bytecode constant_pool pos = Ok (Next inst pos')
             /\ i_offset inst = pos /\ pos + 1 <= pos')
  /\ (forall op_type operand_size pos,
        0 <= pos ->
        op_type <> kRegRange -> op_type <> kRegPair -> op_type <> kRegTriple ->
        len bytecode < pos + (if bool_decide (op_type = kRuntimeId) then 2
                              else field_width operand_size) ->
        exists str,
          decode_operand op_type operand_size bytecode pos
          = Ok ((op_type, OInt 0), str, len bytecode))
  /\ (forall operand_size pos,
        0 <= pos -> len bytecode < pos + field_width operand_size ->
        read_reg_field operand_size bytecode pos
        = Ok (0, pos + field_width operand_size)
        /\ len bytecode < pos + field_width operand_size).
Proof.
  split; [|split; [|split]].
  - apply disassemble_loop_total; [lia|].
    pose proof (len_nonneg bytecode). unfold len in *. lia.
  - apply decode_instruction_progress.
  - intros op_type operand_size pos Hp Hr Hpair Htriple Hout.
    destruct (bool_decide_reflect (op_type = kRuntimeId)) as [-> | Hne].
    + cbn [decode_operand]. destruct (Z.leb_spec (pos + 2) (len bytecode)); [lia | eauto].
    + assert (Hstd : decode_operand op_type operand_size bytecode pos
                     = match read_standard operand_size bytecode pos with
                       | Ok (val, pos0) =>
                           Ok (op_type, OInt val,
                               standard_operand_str op_type operand_size val, pos0)
                       | Raise e => Raise e
                       | OutOfFuel => OutOfFuel
                       end) by (destruct op_type; try reflexivity; congruence).
      rewrite Hstd.
      destruct (read_standard_ok operand_size bytecode pos Hp)
        as (v & pos' & -> & _ & Hz & _).
      destruct (Hz Hout) as [-> ->]. eauto.
  - intros operand_size pos Hp Hout. split; [|exact Hout].
    destruct (read_reg_field_ok operand_size bytecode pos Hp) as (v & -> & _ & Hz).
    now rewrite (Hz Hout).
Qed.

Lemma disassemble_bytecode_total_witness :
  decode_instruction (bytes [0x53]) None 0 = Ok Break
  \/ exists inst pos',
       decode_instruction (bytes [0x53]) None 0 = Ok (Next inst pos')
       /\ i_offset inst = 0 /\ 0 + 1 <= pos'.
Proof.
  destruct (disassemble_bytecode_total (bytes [0x53]) None) as (_ & Hstep & _).
  apply (Hstep 0). unfold len. cbn. lia.
Defined.

(** C10 as worded fails for register ranges.  [CallRuntime] alone in the
    buffer: the runtime id is cut short and the cursor is set to the
    length 1, then the two fields of the register range decode to 0 and
    leave the cursor at 3. *)
Lemma register_range_cursor_not_clamped :
  len (bytes [0x53]) = 1
  /\ decode_operand kRuntimeId 1 (bytes [0x53]) 1
     = Ok ((kRuntimeId, OInt 0), Some "[0]"%string, 1)
  /\ decode_operand kRegRange 1 (bytes [0x53]) 1
     = Ok ((kRegRange, ORange 0 0), Some "Wide-Wide(0)"%string, 3)
  /\ decode_instruction (bytes [0x53]) None 0
     = Ok (Next {| i_offset := 0; i_mnemonic := "CallRuntime";
                   i_operands := "[0] Wide-Wide(0)";
                   i_raw := bytes [0x53]; i_comment := "" |} 3)
  /\ ~ (3 <= len (bytes [0x53])).
Proof. repeat split. unfold len. cbn. lia. Qed.

(** *** Operand values: sign extension (C5) *)

(** One- and two-byte immediates are sign-extended. *)
Lemma immediate_sign_extension_narrow (w val : Z) :
  w = 1 \/ w = 2 -> 0 <= val < 2 ^ (8 * w) ->
  let shown := if 2 ^ (8 * w - 1) <=? val then val - 2 ^ (8 * w) else val in
  standard_operand_str kImm w val = Some ("[" ++ fmt_d shown ++ "]")%string.
Proof.
  intros [-> | ->] Hv; cbn [standard_operand_str Z.eqb Pos.eqb andb].
  - change (2 ^ (8 * 1 - 1)) with 128. change (2 ^ (8 * 1)) with 256.
    destruct (Z.ltb_spec 127 val), (Z.leb_spec 128 val); try lia; reflexivity.
  - change (2 ^ (8 * 2 - 1)) with 32768. change (2 ^ (8 * 2)) with 65536.
    destruct (Z.ltb_spec 32767 val), (Z.leb_spec 32768 val); try lia; reflexivity.
Qed.

(** Indices, unsigned immediates and flags print the value as read, at
    every width. *)
Lemma unsigned_operand_text (w val : Z) :
  standard_operand_str kIdx w val = Some ("[" ++ fmt_d val ++ "]")%string
  /\ standard_operand_str kUImm w val = Some ("[" ++ fmt_d val ++ "]")%string
  /\ standard_operand_str kFlag8 w val = Some ("#" ++ fmt_d val)%string.
Proof. repeat split. Qed.

(** C5 fails at width 4.  [ExtraWide LdaSmi] with the immediate bytes
    FF FF FF FF (the 32-bit encoding of -1) prints 4294967295: the four
    byte case has no sign extension. *)
Theorem extra_wide_immediate_not_sign_extended :
  disassemble_bytecode (bytes [0x01; 0x03; 0xFF; 0xFF; 0xFF; 0xFF]) None
  = Ok [{| i_offset := 0; i_mnemonic := "ExtraWide.LdaSmi";
           i_operands := "[4294967295]";
           i_raw := bytes [0x01; 0x03; 0xFF; 0xFF; 0xFF; 0xFF];
           i_comment := "" |}]
  /\ standard_operand_str kImm 4 0xFFFFFFFF = Some "[4294967295]"%string
  /\ 0xFFFFFFFF - 2 ^ (8 * 4) = -1
  /\ disassemble_bytecode (bytes [0x00; 0x03; 0xFF; 0xFF]) None
     = Ok [{| i_offset := 0; i_mnemonic := "Wide.LdaSmi"; i_operands := "[-1]";
              i_raw := bytes [0x00; 0x03; 0xFF; 0xFF]; i_comment := "" |}].
Proof. repeat split. Qed.

End DisasmClaims.

(** ** Function names (v6/structs.py, v6/object_converter.py) *)

Section NameFacts.
Import Py ReservObj Structs.
Local Open Scope string_scope.

Lemma prefix_single (c d : ascii) (s : string) :
  String.prefix (String c EmptyString) (String d s) = Ascii.eqb d c.
Proof.
  cbn [String.prefix].
  destruct (ascii_dec c d) as [<- | Hne].
  - rewrite Ascii.eqb_refl. now destruct s.
  - destruct (Ascii.eqb_spec d c); congruence.
Qed.

Lemma replace_space_map (s : string) :
  replace " " "_" s = map_chars underscore_spaces s.
Proof.
  unfold replace. induction s as [|c s IH]; [reflexivity|].
  cbn [replace_aux map_chars String.length Nat.sub].
  rewrite prefix_single, IH. unfold underscore_spaces.
  now destruct (Ascii.eqb c " ").
Qed.

Lemma map_underscore_spaces_no_space (s : string) :
  has_char " " (map_chars underscore_spaces s) = false.
Proof.
  induction s as [|c s IH]; [reflexivity|].
  cbn [map_chars has_char]. rewrite IH, orb_false_r.
  unfold underscore_spaces.
  destruct (Ascii.eqb_spec c " ") as [-> | Hne]; [reflexivity|].
  destruct (Ascii.eqb_spec " " c); congruence.
Qed.

(** Deleting occurrences of a text brings in no new character. *)
Lemma replace_aux_delete_no_char (c : ascii) (old : string) (s : string) :
  forall skip, has_char c s = false -> has_char c (replace_aux old "" skip s) = false.
Proof.
  induction s as [|d s IH]; intros skip Hs; [reflexivity|].
  cbn [has_char] in Hs. apply orb_false_elim in Hs as [Hd Hs].
  cbn [replace_aux]. destruct skip as [|k]; [|now apply IH].
  destruct (String.prefix old (String d s)).
  - cbn [String.append]. now apply IH.
  - cbn [has_char]. rewrite Hd. now apply IH.
Qed.

Lemma replace_absent (old new s : string) :
  contains old s = false -> replace old new s = s.
Proof.
  unfold replace. induction s as [|c s IH]; intros Hc; [reflexivity|].
  cbn [contains] in Hc. apply orb_false_elim in Hc as [Hp Hc].
  cbn [replace_aux]. rewrite Hp. f_equal. now apply IH.
Qed.

Lemma map_underscore_spaces_id (s : string) :
  has_char " " s = false -> map_chars underscore_spaces s = s.
Proof.
  induction s as [|c s IH]; intros Hs; [reflexivity|].
  cbn [has_char] in Hs. apply orb_false_elim in Hs as [Hc Hs].
  cbn [map_chars]. rewrite (IH Hs). f_equal. unfold underscore_spaces.
  now rewrite Ascii.eqb_sym, Hc.
Qed.

(** C9 (as the code has it). For a SharedFunctionInfo whose name slot
    yields the source name [src], the emitted name is [src] with every
    space replaced by an underscore and then every occurrence of the text
    empty_string deleted, or [func_NNNN] (the function literal id, zero
    padded to four digits) exactly when that result is empty.  So the
    emitted name is never empty, a kept name has no space, the source name
    empty_string gives the fallback, and a name without spaces and without
    the text empty_string is emitted unchanged, dots included.  The
    closure display name of [_extract_sfi_name] only deletes the text
    empty_string before the same fallback. *)
Theorem function_name_cleanup (convert : nat -> Converted) (name_obj : PyVal)
    (id : Z) (src : string) :
  sfi_source_name convert name_obj = Some src ->
  let cleaned := replace "empty_string" "" (map_chars underscore_spaces src) in
  let fallback := "func_" ++ format_int 10 4 id in
  let emitted := if String.eqb cleaned "" then fallback else cleaned in
  SharedFunctionInfo_name convert name_obj id = Ok emitted
  /\ (emitted = fallback <-> cleaned = "" \/ cleaned = fallback)
  /\ emitted <> ""
  /\ (cleaned <> "" -> has_char " " emitted = false)
  /\ (src = "empty_string" -> emitted = fallback)
  /\ (src <> "" -> has_char " " src = false -> contains "empty_string" src = false ->
      emitted = src)
  /\ (forall src', closure_source_name convert name_obj = Some src' ->
      _extract_sfi_name convert name_obj id
      = Ok (if String.eqb (replace "empty_string" "" src') "" then fallback
            else replace "empty_string" "" src')).
Proof.
  intros Hsrc cleaned fallback emitted.
  assert (Hclean : sfi_clean_name src id = emitted).
  { unfold sfi_clean_name. now rewrite replace_space_map. }
  split.
  { unfold SharedFunctionInfo_name. now rewrite Hsrc, Hclean. }
  assert (Hcases : (cleaned = "" /\ emitted = fallback)
                   \/ (cleaned <> "" /\ emitted = cleaned)).
  { subst emitted. destruct (String.eqb_spec cleaned ""); [left | right]; tauto. }
  assert (Hkeep : has_char " " src = false -> contains "empty_string" src = false ->
                  cleaned = src).
  { intros Hsp Hc. subst cleaned.
    now rewrite map_underscore_spaces_id, replace_absent by assumption. }
  assert (Hclosure : forall src', closure_source_name convert name_obj = Some src' ->
            _extract_sfi_name convert name_obj id
            = Ok (if String.eqb (replace "empty_string" "" src') "" then fallback
                  else replace "empty_string" "" src')).
  { intros src' Hsrc'. unfold _extract_sfi_name. rewrite Hsrc'.
    now destruct (String.eqb (replace "empty_string" "" src') ""). }
  clearbody emitted.
  destruct Hcases as [[Hempty ->] | [Hne ->]].
  - split; [tauto|]. split; [discriminate|]. split; [tauto|].
    split; [tauto|]. split; [|exact Hclosure].
    intros Hs Hsp Hc. rewrite (Hkeep Hsp Hc) in Hempty. contradiction.
  - split; [tauto|]. split; [exact Hne|].
    split.
    { intros _. subst cleaned. unfold replace.
      apply replace_aux_delete_no_char, map_underscore_spaces_no_space. }
    split.
    { intros ->. exfalso. apply Hne. reflexivity. }
    split; [|exact Hclosure].
    intros _ Hsp Hc. exact (Hkeep Hsp Hc).
Qed.

Lemma function_name_cleanup_witness :
  let convert := fun _ : nat => CvNone in
  let name_obj := VStr "get my value" in
  let id := 7%Z in
  let src := "get my value" in
  let cleaned := replace "empty_string" "" (map_chars underscore_spaces src) in
  let fallback := "func_" ++ format_int 10 4 id in
  let emitted := if String.eqb cleaned "" then fallback else cleaned in
  SharedFunctionInfo_name convert name_obj id = Ok emitted
  /\ (emitted = fallback <-> cleaned = "" \/ cleaned = fallback)
  /\ emitted <> ""
  /\ (cleaned <> "" -> has_char " " emitted = false)
  /\ (src = "empty_string" -> emitted = fallback)
  /\ (src <> "" -> has_char " " src = false -> contains "empty_string" src = false ->
      emitted = src)
  /\ (forall src', closure_source_name convert name_obj = Some src' ->
      _extract_sfi_name convert name_obj id
      = Ok (if String.eqb (replace "empty_string" "" src') "" then fallback
            else replace "empty_string" "" src')).
Proof.
  apply (function_name_cleanup (fun _ => CvNone) (VStr "get my value") 7 "get my value").
  reflexivity.
Defined.

(** C9 as worded fails on a dot: the name Foo.bar is emitted as it is,
    where the specification's rule gives Foo_bar. *)
Lemma function_name_keeps_dots :
  SharedFunctionInfo_name (fun _ => CvNone) (VStr "Foo.bar") 7 = Ok "Foo.bar"
  /\ spec_function_name "Foo.bar" 7 = "Foo_bar"
  /\ SharedFunctionInfo_name (fun _ => CvNone) (VStr "Foo.bar") 7
     <> Ok (spec_function_name "Foo.bar" 7).
Proof. repeat split. discriminate. Qed.

Example function_name_examples :
  SharedFunctionInfo_name (fun _ => CvNone) (VStr "get my value") 7 = Ok "get_my_value"
  /\ SharedFunctionInfo_name (fun _ => CvNone) (VRoot "empty_string" "str") 7 = Ok "func_0007"
  /\ SharedFunctionInfo_name (fun _ => CvNone) (VInt 0) 12345 = Ok "func_12345"
  /\ SharedFunctionInfo_name (fun _ => CvNone) (VStr "empty string") 7 = Ok "func_0007"
  /\ SharedFunctionInfo_name (fun _ => CvNone) (VStr "my empty_string") 7 = Ok "my_"
  /\ _extract_sfi_name (fun _ => CvNone) (VStr "get my.value") 7 = Ok "get my.value".
Proof. repeat split. Qed.

End NameFacts.

(** ** Routing by magic and exit status (jsc_decompiler.py) *)

Section MainFacts.
Import Py ReservObj Parser Main.
Local Open Scope string_scope.
Local Open Scope Z_scope.

Variable SFI : Type.
Variable convert : JscParser -> nat -> result SFI.
Variable render : Args -> string -> bool -> list SFI -> result string.
Variable versions : list string.
Variables roots builtins : list PyVal.
Variable fuel : nat.

Local Abbreviation main := (main SFI convert render versions roots builtins fuel).
Local Abbreviation _run_legacy_pipeline :=
  (_run_legacy_pipeline SFI convert render versions roots builtins fuel).

Lemma unpack_from_le_start (n : nat) (data : list byte) :
  Z.of_nat n <= len data ->
  unpack_from_le n data 0 = Some (le_combine (firstn n data)).
Proof.
  intros Hn. unfold unpack_from_le. change (0 <? 0)%Z with false. cbn iota.
  rewrite Z.sub_0_r.
  destruct (Z.ltb_spec (len data) (Z.of_nat n)); [lia|]. reflexivity.
Qed.

Lemma pipeline_status (args : Args) (data : list byte) (st : Z)
    (err : list Line) (out : list string) :
  _run_legacy_pipeline args data = Exit st err out -> st = 0 \/ st = 1.
Proof.
  unfold Main._run_legacy_pipeline, uncaught.
  repeat (case_match; try discriminate); intros [= <- _ _]; lia.
Qed.

(** C8 (as the code has it). An existing input file of at least 8 bytes
    is routed by the little-endian u32 at offset 0: a value outside
    {0xC0DE0BEE, 0xC0DE03BE, 0xC0DE0628} is rejected with the
    invalid-magic error and status 1; the modern magic prints a message
    naming Node 22 on stderr and exits with status 1; the two legacy
    magics, and only they, reach the deserialization pipeline.  A file of
    fewer than 8 bytes is rejected as too small, with status 1, before its
    magic is looked at.  Every run that ends exits with status 0 or 1; in
    the pipeline a failed parse gives 1, a file without functions 0, and
    functions that are converted and printed give 0. *)
Theorem main_routing (args : Args) (data : list byte) :
  8 <= len data ->
  let magic := le_combine (firstn 4 data) in
  (magic <> 0xC0DE0BEE -> magic <> 0xC0DE03BE -> magic <> 0xC0DE0628 ->
     main args true data
     = Exit 1 [Text ("Error: Invalid JSC magic: 0x" ++ format_int 16 8 magic)] [])
  /\ (magic = 0xC0DE0628 ->
        main args true data
        = Exit 1 [Text "Error: This file was compiled with Node.js 22+ (V8 12.x).";
                  Text "Node 22 support is available separately.";
                  Text "Contact: Girishx3@gmail.com"] []
        /\ contains "Node 22" "Node 22 support is available separately." = true)
  /\ (magic = 0xC0DE0BEE \/ magic = 0xC0DE03BE ->
        main args true data = _run_legacy_pipeline (effective_args args) data)
  /\ (forall short : list byte, len short < 8 ->
        main args true short = Exit 1 [Text "Error: File too small"] [])
  /\ (forall isfile input st err out,
        main args isfile input = Exit st err out -> st = 0 \/ st = 1)
  /\ (forall a input d v,
        V8VersionDetector_init versions = Ok d ->
        unpack_from_le 4 input 4 = Some v ->
        let is_32bit := match detect_bitness d v with Ok b => b | _ => false end in
        let parsed := parse fuel (JscParser_init input is_32bit roots builtins) in
        (forall e, parsed = Raise e ->
           exists err, _run_legacy_pipeline a input = Exit 1 err [])
        /\ (forall p, parsed = Ok ([], p) ->
              exists err, _run_legacy_pipeline a input = Exit 0 err [])
        /\ (forall f fs p functions warnings text,
              parsed = Ok (f :: fs, p) ->
              convert_all SFI convert a p (f :: fs) = Some (functions, warnings) ->
              render a (detect_version d v) is_32bit functions = Ok text ->
              exists err, _run_legacy_pipeline a input = Exit 0 err [text])).
Proof.
  intros Hlen magic.
  assert (Hmain : main args true data
                  = if negb (magic_in magic _ALL_MAGIC) then
                      Exit 1 [Text ("Error: Invalid JSC magic: 0x" ++ format_int 16 8 magic)] []
                    else if magic_in magic _MAGIC_V8_MODERN then
                      Exit 1 [Text "Error: This file was compiled with Node.js 22+ (V8 12.x).";
                              Text "Node 22 support is available separately.";
                              Text "Contact: Girishx3@gmail.com"] []
                    else _run_legacy_pipeline (effective_args args) data).
  { unfold Main.main. cbn [negb].
    destruct (Z.ltb_spec (len data) 8); [lia|].
    rewrite unpack_from_le_start by (change (Z.of_nat 4) with 4; lia).
    reflexivity. }
  assert (Hin : forall x, magic_in magic [x] = (magic =? x)).
  { intros x. cbn. apply orb_false_r. }
  split; [|split; [|split; [|split; [|split]]]].
  - intros H1 H2 H3. rewrite Hmain. unfold magic_in, _ALL_MAGIC. cbn.
    destruct (Z.eqb_spec magic 0xC0DE0BEE); [contradiction|].
    destruct (Z.eqb_spec magic 0xC0DE03BE); [contradiction|].
    destruct (Z.eqb_spec magic 0xC0DE0628); [contradiction|]. reflexivity.
  - intros Hm. split; [|reflexivity]. rewrite Hmain, Hm. reflexivity.
  - intros [Hm | Hm]; rewrite Hmain, Hm; reflexivity.
  - intros short Hshort. unfold Main.main. cbn [negb].
    destruct (Z.ltb_spec (len short) 8); [reflexivity | lia].
  - intros isfile input st err out. unfold Main.main.
    destruct isfile; cbn [negb]; [|intros [= <- _ _]; lia].
    destruct (len input <? 8); [intros [= <- _ _]; lia|].
    destruct (unpack_from_le 4 input 0) as [m|]; [|intros [= <- _ _]; lia].
    destruct (negb (magic_in m _ALL_MAGIC)); [intros [= <- _ _]; lia|].
    destruct (magic_in m _MAGIC_V8_MODERN); [intros [= <- _ _]; lia|].
    apply pipeline_status.
  - intros a input d v Hd Hv is_32bit parsed.
    assert (Hbit : forall (A : Type) (x y : list Line) (k : bool -> list Line -> A),
              (let '(b, err) :=
                 match detect_bitness d v with
                 | Ok b => (b, x)
                 | _ => (false, y)
                 end in k b err)
              = k is_32bit (match detect_bitness d v with Ok _ => x | _ => y end)).
    { intros A x y k. subst is_32bit. now destruct (detect_bitness d v). }
    split; [|split].
    + intros e Hparse. unfold Main._run_legacy_pipeline.
      rewrite Hd, Hv, Hbit. fold parsed. rewrite Hparse. eauto.
    + intros p Hparse. unfold Main._run_legacy_pipeline.
      rewrite Hd, Hv, Hbit. fold parsed. rewrite Hparse. eauto.
    + intros f fs p functions warnings text Hparse Hconv Hrender.
      unfold Main._run_legacy_pipeline.
      rewrite Hd, Hv, Hbit. fold parsed. rewrite Hparse, Hconv, Hrender. eauto.
Qed.

End MainFacts.

(** ** Parenthesization (reconstructor.py) *)

Section ParenFacts.
Import Py Disasm Reconstructor Samples.
Local Open Scope string_scope.
Local Open Scope Z_scope.

Lemma wrap_left_parens (text : string) (text_prec op_prec : Z) :
  _wrap_left text text_prec op_prec = parens (text_prec <? op_prec) text.
Proof. reflexivity. Qed.

Lemma wrap_right_parens (text : string) (text_prec op_prec : Z) (op : string) :
  _wrap_right text text_prec op_prec op
  = parens ((text_prec <? op_prec)
            || ((text_prec =? op_prec) && negb (str_in op _RIGHT_ASSOC_SAFE))) text.
Proof.
  unfold _wrap_right, parens.
  destruct (text_prec <? op_prec); [reflexivity|].
  now destruct ((text_prec =? op_prec) && negb (str_in op _RIGHT_ASSOC_SAFE)).
Qed.

Lemma table_get_in {A : Type} (key : string) (table : list (string * A)) (v : A) :
  table_get key table = Some v -> In (key, v) table.
Proof.
  unfold table_get. destruct (find _ table) as [[k w]|] eqn:Hf; [|discriminate].
  cbn. intros [= ->]. apply find_some in Hf as [Hin Hk].
  cbn in Hk. apply String.eqb_eq in Hk. now subst k.
Qed.

Variables (params_ stack_locals_ : list string) (stack_first_slot : Z).
Variable cp : option (list CPItem).

Local Abbreviation dispatch := (dispatch params_ stack_locals_ stack_first_slot cp).
Local Abbreviation get_reg := (get_reg params_ stack_locals_ stack_first_slot).
Local Abbreviation rname := (rname params_ stack_locals_ stack_first_slot).
Local Abbreviation store_acc := (store_acc params_ stack_locals_ stack_first_slot).

Lemma dispatch_smi_binop (base op : string) (prec : Z) (ops : list string) (st : State) :
  table_get base SMI_BINOPS = Some (op, prec) ->
  dispatch base ops st
  = Lifted (with_acc (_wrap_left (acc st) (acc_prec st) prec ++ " " ++ op ++ " "
                      ++ fmt_d (_get_imm ops)) prec st).
Proof.
  intros Hget. apply table_get_in in Hget. cbn in Hget.
  repeat (destruct Hget as [[= <- <- <-] | Hget]; [reflexivity|]).
  contradiction.
Qed.

Lemma dispatch_reg_binop (base op : string) (prec : Z) (ops : list string) (st : State) :
  table_get base REG_BINOPS = Some (op, prec) ->
  dispatch base ops st
  = Lifted (with_acc (get_reg st (_get_reg ops) ++ " " ++ op ++ " "
                      ++ _wrap_right (acc st) (acc_prec st) prec op) prec st).
Proof.
  intros Hget. apply table_get_in in Hget. cbn in Hget.
  repeat (destruct Hget as [[= <- <- <-] | Hget]; [reflexivity|]).
  contradiction.
Qed.

(** The comparison handlers test no precedence: both operands go into
    the text as they are. *)
Lemma dispatch_reg_test (base op : string) (prec : Z) (ops : list string) (st : State) :
  table_get base REG_TESTS = Some (op, prec) ->
  dispatch base ops st
  = Lifted (with_acc (get_reg st (_get_reg ops) ++ " " ++ op ++ " " ++ acc st) prec st).
Proof.
  intros Hget. apply table_get_in in Hget. cbn in Hget.
  repeat (destruct Hget as [[= <- <- <-] | Hget]; [reflexivity|]).
  contradiction.
Qed.

Lemma store_acc_register (reg : string) (st : State) :
  regs (store_acc reg st) !! rname reg
  = Some (if is_raw (rname reg) then parens (acc_prec st <? _P_ATOM) (acc st)
          else rname reg).
Proof.
  unfold Reconstructor.store_acc.
  destruct (is_raw (rname reg)); cbn [andb negb].
  - destruct (acc_prec st <? _P_ATOM); cbn; apply lookup_insert_eq.
  - cbn. apply lookup_insert_eq.
Qed.

End ParenFacts.

Section ParenClaims.
Import Py Disasm Reconstructor Samples.
Local Open Scope string_scope.
Local Open Scope Z_scope.

(** C6 (as the code has it). In the arithmetic, bitwise and shift
    handlers the accumulator is the operand with a recorded precedence.
    As left operand (the Smi variants) it is wrapped in parentheses
    exactly when its precedence is strictly less than OP's; as right
    operand (the register variants) exactly when its precedence is
    strictly less than OP's, or equal to it with OP outside
    {+, *, |, &, ^}.  The other operand is inserted as it is: a literal, or
    the text of the register, and the text [Star] stores in an anonymous
    register is parenthesised whenever the accumulator was not an atom,
    whatever operator uses it later.  The bytecode for (a + b) * c lifts to
    the text (a + b) * c and the bytecode for a + b * c to a + b * c. *)
Theorem binary_expression_parenthesization
    (params_ stack_locals_ : list string) (stack_first_slot : Z)
    (cp : option (list CPItem))
    (base op : string) (prec : Z) (ops : list string) (st : State) :
  (table_get base SMI_BINOPS = Some (op, prec) ->
     dispatch params_ stack_locals_ stack_first_slot cp base ops st
     = Lifted (with_acc (parens (acc_prec st <? prec) (acc st) ++ " " ++ op ++ " "
                         ++ fmt_d (_get_imm ops)) prec st))
  /\ (table_get base REG_BINOPS = Some (op, prec) ->
        dispatch params_ stack_locals_ stack_first_slot cp base ops st
        = Lifted (with_acc
                    (get_reg params_ stack_locals_ stack_first_slot st (_get_reg ops)
                     ++ " " ++ op ++ " "
                     ++ parens ((acc_prec st <? prec)
                                || ((acc_prec st =? prec)
                                    && negb (str_in op _RIGHT_ASSOC_SAFE))) (acc st))
                    prec st))
  /\ (forall reg,
        let name := rname params_ stack_locals_ stack_first_slot reg in
        regs (store_acc params_ stack_locals_ stack_first_slot reg st) !! name
        = Some (if is_raw name then parens (acc_prec st <? _P_ATOM) (acc st) else name))
  /\ reconstruct_js (expr_function code_sum_times) = Lifted "    return (a + b) * c;"
  /\ emits_as_specified (expr_function code_sum_times)
       (Bin "*" _P_MUL (Bin "+" _P_ADD (Atom "a") (Atom "b")) (Atom "c"))
  /\ reconstruct_js (expr_function code_plus_product) = Lifted "    return a + b * c;"
  /\ emits_as_specified (expr_function code_plus_product)
       (Bin "+" _P_ADD (Atom "a") (Bin "*" _P_MUL (Atom "b") (Atom "c"))).
Proof.
  split; [|split; [|split; [|split; [|split; [|split]]]]].
  - intros Hget. rewrite <- wrap_left_parens. now apply dispatch_smi_binop.
  - intros Hget. rewrite <- wrap_right_parens. now apply dispatch_reg_binop.
  - intros reg name. apply store_acc_register.
  - vm_compute. reflexivity.
  - unfold emits_as_specified. vm_compute. reflexivity.
  - vm_compute. reflexivity.
  - unfold emits_as_specified. vm_compute. reflexivity.
Qed.

Lemma binary_expression_parenthesization_witness :
  let st := {| acc := "a + b"; acc_prec := _P_ADD; regs := ∅; lines := [];
               indent := "    " |} in
  dispatch ["a"; "b"; "c"] [] 0 None "MulSmi" ["[2]"; "[0]"] st
  = Lifted (with_acc "(a + b) * 2" _P_MUL st).
Proof.
  intros st.
  destruct (binary_expression_parenthesization ["a"; "b"; "c"] [] 0 None
              "MulSmi" "*" _P_MUL ["[2]"; "[0]"] st) as [Hsmi _].
  rewrite Hsmi; reflexivity.
Defined.

(** C6 as worded fails for a left operand taken from a register.  In
    a * b + c the product has precedence 13, not below the 12 of [+], yet
    it is printed in parentheses, because [Star] wrapped it when it went
    into [r0]. *)
Lemma register_operand_parenthesized_regardless :
  reconstruct_js (expr_function code_product_plus) = Lifted "    return (a * b) + c;"
  /\ spec_render (Bin "+" _P_ADD (Bin "*" _P_MUL (Atom "a") (Atom "b")) (Atom "c"))
     = ("a * b + c", _P_ADD)
  /\ ~ emits_as_specified (expr_function code_product_plus)
         (Bin "+" _P_ADD (Bin "*" _P_MUL (Atom "a") (Atom "b")) (Atom "c")).
Proof.
  split; [vm_compute; reflexivity|].
  split; [vm_compute; reflexivity|].
  unfold emits_as_specified; vm_compute; intros H; discriminate H.
Qed.

(** The comparison handlers are not among the handlers of C6: the
    accumulator goes into the text of a comparison as it is. *)
Example comparison_right_operand_printed_bare :
  reconstruct_js (expr_function code_less_than_equal) = Lifted "    return a < b == c;".
Proof. vm_compute. reflexivity. Qed.

(** Scenarios 2 and 3 of the specification, on the same model. *)
Example reconstruct_return_and_addition :
  reconstruct_js (expr_function [0x95]) = Lifted "    return undefined;"
  /\ reconstruct_js (expr_function [0x03; 0x02; 0x1E; 0xFB; 0x03; 0x03;
                                    0x2B; 0xFB; 0x00; 0x95])
     = Lifted "    return 2 + 3;".
Proof. split; vm_compute; reflexivity. Qed.

End ParenClaims.

Section MainExamples.
Import Py ReservObj Parser Main Samples.
Local Open Scope string_scope.
Local Open Scope Z_scope.

Lemma main_routing_witness :
  run_main quiet_args modern_magic_file
  = Exit 1 [Text "Error: This file was compiled with Node.js 22+ (V8 12.x).";
            Text "Node 22 support is available separately.";
            Text "Contact: Girishx3@gmail.com"] [].
Proof.
  destruct (main_routing unit no_convert no_render [] [] [] 50%nat
              quiet_args modern_magic_file) as (_ & Hmodern & _).
  - unfold len. cbn. lia.
  - apply Hmodern. reflexivity.
Defined.

(** C8 as worded fails for a file of four to seven bytes: it has a u32 at
    offset 0, here 0, which is none of the three magics, but the file is
    rejected as too small, not with the invalid-magic error. *)
Lemma short_file_not_routed_by_magic :
  le_combine (firstn 4 four_byte_file) = 0
  /\ magic_in 0 _ALL_MAGIC = false
  /\ run_main quiet_args four_byte_file = Exit 1 [Text "Error: File too small"] []
  /\ ~ rejected_as_invalid_magic (run_main quiet_args four_byte_file).
Proof.
  split; [reflexivity|]. split; [reflexivity|]. split; [reflexivity|].
  intros [magic Hm]. change (run_main quiet_args four_byte_file)
    with (Exit 1 [Text "Error: File too small"] []) in Hm.
  cbn [String.append] in Hm. discriminate Hm.
Qed.

Example invalid_magic_rejected :
  run_main quiet_args (bytes [1; 2; 3; 4; 0; 0; 0; 0])
  = Exit 1 [Text "Error: Invalid JSC magic: 0x04030201"] [].
Proof. vm_compute. reflexivity. Qed.

(** The file with the unresolvable back-reference goes through the whole
    program and ends with status 0. *)
Example unresolved_back_reference_exit_status :
  run_main quiet_args unresolved_backref_file = Exit 0 [] [].
Proof. vm_compute. reflexivity. Qed.

End MainExamples.

(** ** Ranges of the version hashes (common/version.py) *)

Section VersionRangeFacts.
Import Version.

Lemma hash_value_unsigned_wraps (v k : Z) :
  hash_value_unsigned (v + k * 2 ^ 32) = hash_value_unsigned v.
Proof.
  unfold hash_value_unsigned.
  assert (H : _mask32 (Z.shiftl (v + k * 2 ^ 32) 15 - (v + k * 2 ^ 32) - 1)
              = _mask32 (Z.shiftl v 15 - v - 1)).
  { rewrite !mask32_mod, !Z.shiftl_mul_pow2 by lia.
    replace ((v + k * 2 ^ 32) * 2 ^ 15 - (v + k * 2 ^ 32) - 1)
      with (v * 2 ^ 15 - v - 1 + (k * (2 ^ 15 - 1)) * 2 ^ 32) by ring.
    apply Z_mod_plus_full. }
  now rewrite H.
Qed.

(** X1. Both version hashes are 32-bit values, 0 <= h < 2^32, whatever four
    integers they are given, and each component counts only through its low
    32 bits: adding a multiple of 2^32 to any of major, minor, build, patch
    changes neither version_hash nor version_hash64. *)
Theorem version_hashes_fit_32_bits (major minor build patch : Z) :
  (0 <= version_hash major minor build patch < 2 ^ 32)
  /\ (0 <= version_hash64 major minor build patch < 2 ^ 32)
  /\ (forall k1 k2 k3 k4,
        version_hash (major + k1 * 2 ^ 32) (minor + k2 * 2 ^ 32)
                     (build + k3 * 2 ^ 32) (patch + k4 * 2 ^ 32)
        = version_hash major minor build patch
        /\ version_hash64 (major + k1 * 2 ^ 32) (minor + k2 * 2 ^ 32)
                          (build + k3 * 2 ^ 32) (patch + k4 * 2 ^ 32)
           = version_hash64 major minor build patch).
Proof.
  split; [|split].
  - unfold version_hash. apply hash_combine_range.
  - unfold version_hash64. rewrite mask32_mod. apply mod_pow2_range. lia.
  - intros k1 k2 k3 k4. unfold version_hash, version_hash64.
    now rewrite !hash_value_unsigned_wraps.
Qed.
End VersionRangeFacts.

(** ** The version detector (common/version.py) *)

Section DetectorFacts.
Import Py Version Main.
Local Open Scope string_scope.
Local Open Scope Z_scope.

Lemma ints_of_length (parts : list string) (ns : list Z) :
  ints_of parts = Ok ns -> length ns = length parts.
Proof.
  revert ns. induction parts as [|part rest IH]; intros ns; cbn.
  - now intros [= <-].
  - destruct (int_of_string 10 part); [|discriminate].
    destruct (ints_of rest) as [ns'| |]; try discriminate.
    intros [= <-]. cbn. now rewrite (IH ns').
Qed.

Lemma ints_of_not_out_of_fuel (parts : list string) : ints_of parts <> OutOfFuel.
Proof.
  induction parts as [|part rest IH]; cbn; [discriminate|].
  destruct (int_of_string 10 part); [|discriminate].
  destruct (ints_of rest); congruence.
Qed.

(** What one pass of the loop does with an entry of four numeric parts. *)
Lemma load_versions_step (ver : string) (rest : list string) (d : V8VersionDetector)
    (major minor build patch : Z) :
  ints_of (split "." ver) = Ok [major; minor; build; patch] ->
  load_versions (ver :: rest) d
  = load_versions rest
      {| ver_hashes_32 := <[version_hash major minor build patch := ver]> (ver_hashes_32 d);
         ver_hashes_64 := <[version_hash64 major minor build patch := ver]> (ver_hashes_64 d) |}.
Proof.
  intros Hints. cbn [load_versions].
  pose proof (ints_of_length _ _ Hints) as Hlen. cbn in Hlen.
  unfold len. rewrite <- Hlen. cbn [Z.of_nat Z.eqb Pos.of_succ_nat Pos.succ Pos.eqb negb].
  now rewrite Hints.
Qed.

Lemma four_parts_shape (parts : list string) (ns : list Z) :
  len parts = 4 -> ints_of parts = Ok ns ->
  exists major minor build patch, ns = [major; minor; build; patch].
Proof.
  intros Hlen Hints. apply ints_of_length in Hints. unfold len in Hlen.
  destruct ns as [|a [|b [|c [|e [|? ?]]]]]; cbn in Hints; try lia.
  eauto.
Qed.

(** The tables only ever hold entries of the file, each under its own hash. *)
Local Abbreviation table_sound hash all table :=
  (forall (h : Z) (ver : string), table !! h = Some ver ->
     In ver all /\
     exists major minor build patch : Z,
       ints_of (split "." ver) = Ok [major; minor; build; patch]
       /\ hash major minor build patch = h).

Lemma load_versions_sound (all vs : list string) (d d' : V8VersionDetector) :
  (forall v, In v vs -> In v all) ->
  table_sound version_hash all (ver_hashes_32 d) ->
  table_sound version_hash64 all (ver_hashes_64 d) ->
  load_versions vs d = Ok d' ->
  table_sound version_hash all (ver_hashes_32 d')
  /\ table_sound version_hash64 all (ver_hashes_64 d').
Proof.
  revert d. induction vs as [|ver rest IH]; intros d Hsub H32 H64.
  - cbn. now intros [= <-].
  - cbn [load_versions].
    destruct (negb (len (split "." ver) =? 4)) eqn:Hfour.
    + apply IH; auto. intros v Hv. apply Hsub. now right.
    + apply negb_false_iff, Z.eqb_eq in Hfour.
      destruct (ints_of (split "." ver)) as [ns| |] eqn:Hints; try discriminate.
      destruct (four_parts_shape _ _ Hfour Hints) as (a & b & c & e & ->).
      apply IH.
      * intros v Hv. apply Hsub. now right.
      * intros h v. cbn. rewrite lookup_insert_Some.
        intros [[<- <-] | [_ Hin]]; [|now apply H32].
        split; [apply Hsub; now left|]. now exists a, b, c, e.
      * intros h v. cbn. rewrite lookup_insert_Some.
        intros [[<- <-] | [_ Hin]]; [|now apply H64].
        split; [apply Hsub; now left|]. now exists a, b, c, e.
Qed.

(** Keys are never removed by the loop. *)
Lemma load_versions_keeps (vs : list string) (d d' : V8VersionDetector) (h : Z) :
  load_versions vs d = Ok d' ->
  (is_Some (ver_hashes_32 d !! h) -> is_Some (ver_hashes_32 d' !! h))
  /\ (is_Some (ver_hashes_64 d !! h) -> is_Some (ver_hashes_64 d' !! h)).
Proof.
  revert d. induction vs as [|ver rest IH]; intros d.
  - cbn. now intros [= <-].
  - cbn [load_versions].
    destruct (negb (len (split "." ver) =? 4)); [apply IH|].
    destruct (ints_of (split "." ver)) as [ns| |]; try discriminate.
    destruct ns as [|a [|b [|c [|e [|? ?]]]]]; try discriminate.
    intros Hload. apply IH in Hload. cbn in Hload. destruct Hload as [K32 K64].
    split; intros Hs.
    + apply K32. rewrite lookup_insert_is_Some. destruct (decide (version_hash a b c e = h)); auto.
    + apply K64. rewrite lookup_insert_is_Some. destruct (decide (version_hash64 a b c e = h)); auto.
Qed.

Lemma load_versions_has (vs : list string) (d d' : V8VersionDetector) (ver : string)
    (major minor build patch : Z) :
  In ver vs ->
  ints_of (split "." ver) = Ok [major; minor; build; patch] ->
  load_versions vs d = Ok d' ->
  is_Some (ver_hashes_32 d' !! version_hash major minor build patch)
  /\ is_Some (ver_hashes_64 d' !! version_hash64 major minor build patch).
Proof.
  revert d. induction vs as [|v rest IH]; intros d Hin Hints; [destruct Hin|].
  destruct Hin as [-> | Hin].
  - rewrite (load_versions_step _ _ _ _ _ _ _ Hints). intros Hload.
    destruct (load_versions_keeps _ _ _ (version_hash major minor build patch) Hload) as [K _].
    destruct (load_versions_keeps _ _ _ (version_hash64 major minor build patch) Hload) as [_ K'].
    split; [apply K | apply K']; cbn; rewrite lookup_insert_eq; eauto.
  - cbn [load_versions].
    destruct (negb (len (split "." v) =? 4)); [now apply IH|].
    destruct (ints_of (split "." v)) as [ns| |]; try discriminate.
    destruct ns as [|a [|b [|c [|e [|? ?]]]]]; try discriminate.
    now apply IH.
Qed.

(** X2. For a detector built from a list of version strings and any hash
    value: when detect_bitness returns an answer, detect_version returns an
    entry of the list, never the text Unknown, whose four numeric parts hash
    to that value, by version_hash when the answer is True and by
    version_hash64 when it is False; when detect_bitness raises, it raises
    ValueError with the text 'Unknown bitness for hash 0x' followed by the
    hash as %08X, and detect_version returns Unknown. *)
Theorem detected_version_has_the_hash (versions : list string) (d : V8VersionDetector)
    (hash_val : Z) :
  V8VersionDetector_init versions = Ok d ->
  match detect_bitness d hash_val with
  | Ok is_32bit =>
      In (detect_version d hash_val) versions
      /\ detect_version d hash_val <> "Unknown"
      /\ exists major minor build patch,
           ints_of (split "." (detect_version d hash_val)) = Ok [major; minor; build; patch]
           /\ (if is_32bit then version_hash major minor build patch
               else version_hash64 major minor build patch) = hash_val
  | Raise e =>
      detect_version d hash_val = "Unknown"
      /\ e = ValueError ("Unknown bitness for hash 0x" ++ format_int 16 8 hash_val)
  | OutOfFuel => False
  end.
Proof.
  intros Hinit. unfold V8VersionDetector_init in Hinit.
  destruct (fun A B => load_versions_sound versions versions _ d (fun _ H => H) A B Hinit)
    as [S32 S64].
  1,2: intros h ver; cbn [ver_hashes_32 ver_hashes_64]; rewrite lookup_empty; discriminate.
  assert (Hne : forall ver a b c e,
            ints_of (split "." ver) = Ok [a; b; c; e] -> ver <> "Unknown").
  { intros ver a b c e Hints ->. discriminate Hints. }
  unfold detect_bitness, detect_version.
  destruct (ver_hashes_32 d !! hash_val) as [ver|] eqn:H32.
  - destruct (S32 _ _ H32) as (Hin & a & b & c & e & Hints & Hh).
    split; [exact Hin|]. split; [eapply Hne; eauto|]. now exists a, b, c, e.
  - destruct (ver_hashes_64 d !! hash_val) as [ver|] eqn:H64.
    + destruct (S64 _ _ H64) as (Hin & a & b & c & e & Hints & Hh).
      split; [exact Hin|]. split; [eapply Hne; eauto|]. now exists a, b, c, e.
    + split; reflexivity.
Qed.

(** X3. Every entry of the version list that has four numeric parts is
    recognised under both of its hashes: detect_bitness returns True for its
    32-bit hash and returns an answer for its 64-bit hash, and
    detect_version returns a version, not Unknown, for either hash. *)
Theorem listed_version_is_detected (versions : list string) (d : V8VersionDetector)
    (ver : string) (major minor build patch : Z) :
  V8VersionDetector_init versions = Ok d ->
  In ver versions ->
  ints_of (split "." ver) = Ok [major; minor; build; patch] ->
  detect_bitness d (version_hash major minor build patch) = Ok true
  /\ (exists is_32bit, detect_bitness d (version_hash64 major minor build patch) = Ok is_32bit)
  /\ detect_version d (version_hash major minor build patch) <> "Unknown"
  /\ detect_version d (version_hash64 major minor build patch) <> "Unknown".
Proof.
  intros Hinit Hin Hints.
  destruct (load_versions_has _ _ _ _ _ _ _ _ Hin Hints Hinit) as [[v32 H32] [v64 H64]].
  assert (Hne : forall h, match detect_bitness d h with
                          | Ok _ => detect_version d h <> "Unknown" | _ => True end).
  { intros h. unfold V8VersionDetector_init in Hinit.
    destruct (fun A B => load_versions_sound versions versions _ d (fun _ H => H) A B Hinit)
      as [S32 S64].
    1,2: intros h' ver'; cbn [ver_hashes_32 ver_hashes_64]; rewrite lookup_empty; discriminate.
    unfold detect_bitness, detect_version.
    destruct (ver_hashes_32 d !! h) as [w|] eqn:E32.
    - destruct (S32 _ _ E32) as (_ & a & b & c & e & Hi & _). intros ->. discriminate Hi.
    - destruct (ver_hashes_64 d !! h) as [w|] eqn:E64; [|exact I].
      destruct (S64 _ _ E64) as (_ & a & b & c & e & Hi & _). intros ->. discriminate Hi. }
  assert (B32 : detect_bitness d (version_hash major minor build patch) = Ok true).
  { unfold detect_bitness. now rewrite H32. }
  assert (B64 : exists b, detect_bitness d (version_hash64 major minor build patch) = Ok b).
  { unfold detect_bitness.
    destruct (ver_hashes_32 d !! version_hash64 major minor build patch) as [w|];
      [now exists true|].
    rewrite H64. now exists false. }
  split; [exact B32|]. split; [exact B64|]. split.
  - specialize (Hne (version_hash major minor build patch)). now rewrite B32 in Hne.
  - destruct B64 as [b B64].
    specialize (Hne (version_hash64 major minor build patch)). now rewrite B64 in Hne.
Qed.
End DetectorFacts.

Section DetectorErrors.
Import Py Version Main.
Local Open Scope string_scope.
Local Open Scope Z_scope.

Lemma ints_of_cases (parts : list string) :
  (exists ns, ints_of parts = Ok ns)
  \/ (exists part, In part parts /\ int_of_string 10 part = None
        /\ ints_of parts
           = Raise (ValueError ("invalid literal for int() with base 10: '" ++ part ++ "'"))).
Proof.
  induction parts as [|part rest IH]; cbn; [left; eauto|].
  destruct (int_of_string 10 part) eqn:Hp.
  - destruct IH as [[ns ->] | (bad & Hin & Hbad & ->)]; [left; eauto|].
    right. exists bad. auto.
  - right. exists part. auto.
Qed.

(** X4. The constructor of the detector either succeeds, and then every
    entry with exactly four dot-separated parts is numeric in all four, or
    some entry with four parts has a part that int() rejects and the
    constructor raises ValueError. An entry with another number of parts is
    skipped and never makes it fail. *)
Theorem detector_init_outcome (versions : list string) :
  (exists d, V8VersionDetector_init versions = Ok d
     /\ forall ver, In ver versions -> len (split "." ver) = 4 ->
          exists ns, ints_of (split "." ver) = Ok ns)
  \/ (exists ver part,
        In ver versions /\ len (split "." ver) = 4 /\ In part (split "." ver)
        /\ int_of_string 10 part = None
        /\ exists msg, V8VersionDetector_init versions = Raise (ValueError msg)).
Proof.
  unfold V8VersionDetector_init.
  generalize {| ver_hashes_32 := ∅; ver_hashes_64 := ∅ |}.
  induction versions as [|ver rest IH]; intros d.
  - left. exists d. split; [reflexivity|]. intros ver [].
  - cbn [load_versions].
    destruct (negb (len (split "." ver) =? 4)) eqn:Hfour.
    + apply negb_true_iff, Z.eqb_neq in Hfour.
      destruct (IH d) as [(d' & Hd & Hall) | (v & part & Hin & Hlen & Hpart & Hbad & Hr)].
      * left. exists d'. split; [exact Hd|].
        intros v [<- | Hv] Hlen; [contradiction | now apply Hall].
      * right. exists v, part. cbn [In]. eauto 10.
    + apply negb_false_iff, Z.eqb_eq in Hfour.
      destruct (ints_of_cases (split "." ver)) as [[ns Hns] | (part & Hpart & Hbad & Hr)].
      * rewrite Hns.
        destruct (four_parts_shape _ _ Hfour Hns) as (a & b & c & e & ->).
        match goal with |- context [load_versions rest ?d1] =>
          destruct (IH d1) as [(d' & Hd & Hall) | (v & part & Hin & Hlen & Hpart & Hbad & Hr)]
        end.
        -- left. exists d'. split; [exact Hd|].
           intros v [<- | Hv] Hlen; [eauto | now apply Hall].
        -- right. exists v, part. cbn [In]. eauto 10.
      * right. exists ver, part. rewrite Hr. cbn [In]. eauto 10.
Qed.
End DetectorErrors.

Section DetectorExamples.
Import Py Version Main Fixtures.
Local Open Scope string_scope.
Local Open Scope Z_scope.

Lemma detected_version_has_the_hash_witness :
  let d := catalog_detector in
  let hash_val := version_hash64 6 8 275 32 in
  match detect_bitness d hash_val with
  | Ok is_32bit =>
      In (detect_version d hash_val) version_catalog
      /\ detect_version d hash_val <> "Unknown"
      /\ exists major minor build patch,
           ints_of (split "." (detect_version d hash_val)) = Ok [major; minor; build; patch]
           /\ (if is_32bit then version_hash major minor build patch
               else version_hash64 major minor build patch) = hash_val
  | Raise e =>
      detect_version d hash_val = "Unknown"
      /\ e = ValueError ("Unknown bitness for hash 0x" ++ format_int 16 8 hash_val)
  | OutOfFuel => False
  end.
Proof.
  apply (detected_version_has_the_hash version_catalog catalog_detector
           (version_hash64 6 8 275 32)).
  vm_compute. reflexivity.
Defined.

Lemma listed_version_is_detected_witness :
  let d := catalog_detector in
  detect_bitness d (version_hash 6 2 414 54) = Ok true
  /\ (exists is_32bit, detect_bitness d (version_hash64 6 2 414 54) = Ok is_32bit)
  /\ detect_version d (version_hash 6 2 414 54) <> "Unknown"
  /\ detect_version d (version_hash64 6 2 414 54) <> "Unknown".
Proof.
  apply (listed_version_is_detected version_catalog catalog_detector "6.2.414.54" 6 2 414 54).
  - vm_compute. reflexivity.
  - simpl. left. reflexivity.
  - vm_compute. reflexivity.
Defined.

(** A release is found under either of its hashes, and the word size is
    told by the table the hash is in. *)
Example detect_6_8_275_32 :
  detect_version catalog_detector (version_hash 6 8 275 32) = "6.8.275.32"
  /\ detect_bitness catalog_detector (version_hash 6 8 275 32) = Ok true
  /\ detect_version catalog_detector (version_hash64 6 8 275 32) = "6.8.275.32"
  /\ detect_bitness catalog_detector (version_hash64 6 8 275 32) = Ok false
  /\ detect_version catalog_detector 0 = "Unknown".
Proof. vm_compute. repeat split. Qed.

End DetectorExamples.

(** ** Enum lookups and the dispatch on a payload byte (common/enums.py, v6/parser.py) *)

Section EnumRoundTrip.
Import Enums.

Lemma from_int_some {A : Type} (members : list A) (value : A -> Z) (v : Z) (m : A) :
  from_int members value v = Some m -> value m = v.
Proof. unfold from_int. intros H. apply find_some in H. lia. Qed.

(** X5. For AllocSpace, AllocationAlignment and the five ScopeInfoFlags
    enums, from_int(v) returns the member m exactly when m.value = v:
    from_int(m.value) is m for every member, and a value that no member has
    gives None. *)
Theorem from_int_inverts_value :
  (forall v m, AllocSpace_from_int v = Some m <-> AllocSpace_value m = v)
  /\ (forall v m, AllocationAlignment_from_int v = Some m <-> AllocationAlignment_value m = v)
  /\ (forall v m, ScopeInfoFlagsScope_from_int v = Some m <-> ScopeInfoFlagsScope_value m = v)
  /\ (forall v m, ScopeInfoFlagsLang_from_int v = Some m <-> ScopeInfoFlagsLang_value m = v)
  /\ (forall v m, ScopeInfoFlagsReceiver_from_int v = Some m
                  <-> ScopeInfoFlagsReceiver_value m = v)
  /\ (forall v m, ScopeInfoFlagsFuncVar_from_int v = Some m
                  <-> ScopeInfoFlagsFuncVar_value m = v)
  /\ (forall v m, ScopeInfoFlagsFuncKind_from_int v = Some m
                  <-> ScopeInfoFlagsFuncKind_value m = v).
Proof.
  repeat split; try apply from_int_some; intros <-; destruct m; reflexivity.
Qed.
End EnumRoundTrip.

Section DispatchFacts.
Import Py Enums ReservObj Parser.

Lemma alloc_space_from_int_range (v : Z) (s : AllocSpace) :
  AllocSpace_from_int v = Some s -> 0 <= v <= 4.
Proof. intros H. apply from_int_some in H. destruct s; cbn in H; lia. Qed.

Lemma alloc_space_from_int_none (v : Z) :
  v < 0 \/ 4 < v -> AllocSpace_from_int v = None.
Proof.
  intros Hv. destruct (AllocSpace_from_int v) as [s|] eqn:H; [|reflexivity].
  apply alloc_space_from_int_range in H. lia.
Qed.

(** X6. A payload byte is accepted by at most one of the fourteen (where,
    how, within) attempts that _read_data makes in turn: if two attempts of
    the list both accept the same byte (_all_spaces gives a space for a
    _do_all_spaces attempt, _new_space is true for a _do_new_space attempt),
    they are the same attempt. The order of the attempts therefore does not
    change which one handles a byte. *)
Theorem dispatch_cases_are_disjoint (b : Z)
    (all1 all2 : bool) (where1 where2 : AllocWhere) (how1 how2 : AllocHow)
    (within1 within2 : AllocPoint) :
  In (all1, where1, how1, within1) dispatch_order ->
  In (all2, where2, how2, within2) dispatch_order ->
  let state1 := {| cs_value := b; cs_where := where1; cs_how := how1; cs_within := within1 |} in
  let state2 := {| cs_value := b; cs_where := where2; cs_how := how2; cs_within := within2 |} in
  (if all1 then is_Some (_all_spaces state1) else _new_space state1 = true) ->
  (if all2 then is_Some (_all_spaces state2) else _new_space state2 = true) ->
  (all1, where1, how1, within1) = (all2, where2, how2, within2).
Proof.
  intros H1 H2 state1 state2 M1 M2.
  assert (R : forall all w h p,
            In (all, w, h, p) dispatch_order ->
            (if all then is_Some (_all_spaces {| cs_value := b; cs_where := w; cs_how := h; cs_within := p |})
             else _new_space {| cs_value := b; cs_where := w; cs_how := h; cs_within := p |} = true) ->
            let c := AllocWhere_value w + AllocHow_value h + AllocPoint_value p in
            c <= b <= c + (if all then 4 else 0)).
  { intros all w h p _ M. cbn zeta. destruct all.
    - destruct M as [s Hs]. unfold _all_spaces, case_statement in Hs.
      cbn [cs_value cs_where cs_how cs_within] in Hs.
      apply alloc_space_from_int_range in Hs. lia.
    - unfold _new_space, case_statement in M.
      cbn [cs_value cs_where cs_how cs_within] in M.
      destruct (AllocSpace_from_int _) as [s|] eqn:Hs; [|discriminate].
      destruct s; try discriminate. apply from_int_some in Hs. cbn in Hs. lia. }
  pose proof (R _ _ _ _ H1 M1) as R1. pose proof (R _ _ _ _ H2 M2) as R2.
  clear R M1 M2 state1 state2.
  cbn [dispatch_order In] in H1, H2.
  repeat (destruct H1 as [H1 | H1]; [injection H1 as <- <- <- <-|]); [..|destruct H1];
  repeat (destruct H2 as [H2 | H2]; [injection H2 as <- <- <- <-|]); try destruct H2;
  cbn in R1, R2; first [reflexivity | lia].
Qed.
End DispatchFacts.

Section UnknownByteFacts.
Import Py Enums ReservObj Parser.
Local Open Scope string_scope.
Local Open Scope Z_scope.

Lemma do_all_spaces_no_match (rd : nat -> Z -> option AllocSpace -> Z -> M unit)
    (off b : Z) (obj : nat) (w : AllocWhere) (h : AllocHow) (pt : AllocPoint) (p : JscParser) :
  let c := AllocWhere_value w + AllocHow_value h + AllocPoint_value pt in
  b < c \/ c + 4 < b ->
  _do_all_spaces rd off b obj w h pt p = Ok (-1, p).
Proof.
  intros c Hb. unfold _do_all_spaces, _all_spaces, case_statement.
  cbn [cs_value cs_where cs_how cs_within].
  rewrite alloc_space_from_int_none by (subst c; lia). reflexivity.
Qed.

Lemma do_new_space_no_match (rd : nat -> Z -> option AllocSpace -> Z -> M unit)
    (off b : Z) (obj : nat) (w : AllocWhere) (h : AllocHow) (pt : AllocPoint) (p : JscParser) :
  b <> AllocWhere_value w + AllocHow_value h + AllocPoint_value pt ->
  _do_new_space rd off b obj w h pt p = Ok (-1, p).
Proof.
  intros Hb. unfold _do_new_space, _new_space, case_statement.
  cbn [cs_value cs_where cs_how cs_within].
  destruct (AllocSpace_from_int _) as [s|] eqn:Hs; [|reflexivity].
  destruct s; try reflexivity. apply from_int_some in Hs. cbn in Hs. lia.
Qed.

Lemma land_byte (b : Z) : 0 <= b < 256 -> Z.land b 0xFF = b.
Proof.
  intros Hb. change 0xFF with (Z.ones 8). rewrite land_ones_mod by lia.
  apply Z.mod_small. lia.
Qed.

(** X7. When the next payload byte b is one of 0x06, 0x1D..0x26, 0x28..0x2C,
    0x30..0x37, 0x40..0x4E, 0x50..0x57, 0x65..0x67, 0x6E, 0x75..0x7F,
    0xF0..0xFF, one iteration of the loop of _read_data raises ValueError
    with the text 'Wrong JSC byte data: 0x%02X at pos 0x%X' made from b and
    the offset at which b was read. *)
Theorem unassigned_payload_byte_is_rejected
    (read_data : nat -> Z -> option AllocSpace -> Z -> M unit)
    (obj : nat) (size : Z) (space : option AllocSpace) (insert_off : Z)
    (p p1 : JscParser) (b : Z) :
  read_byte p = Ok (b, p1) ->
  b = 0x06 \/ 0x1D <= b <= 0x26 \/ 0x28 <= b <= 0x2C \/ 0x30 <= b <= 0x37
  \/ 0x40 <= b <= 0x4E \/ 0x50 <= b <= 0x57 \/ 0x65 <= b <= 0x67 \/ b = 0x6E
  \/ 0x75 <= b <= 0x7F \/ 0xF0 <= b <= 0xFF ->
  _read_data_step read_data obj size space insert_off p
  = Raise (ValueError ("Wrong JSC byte data: 0x" ++ format_int 16 2 b
                       ++ " at pos 0x" ++ fmt_X (pos (reader p)))).
Proof.
  intros Hread Hb.
  assert (Hpos : pos (reader p1) - 1 = pos (reader p)).
  { unfold read_byte in Hread. destruct (getitem _ _); [|discriminate].
    injection Hread as _ <-. cbn. lia. }
  assert (Hrange : 0 <= b < 256) by lia.
  unfold _read_data_step, bind. rewrite Hread, (land_byte b Hrange).
  unfold try_cases, dispatch_order, bind.
  repeat (rewrite do_all_spaces_no_match by (cbn; lia);
          replace (-1 =? -1) with true by reflexivity).
  repeat (rewrite do_new_space_no_match by (cbn; lia);
          replace (-1 =? -1) with true by reflexivity).
  cbn [ret negb].
  repeat match goal with
         | |- context [Z.eqb b ?k] =>
             replace (Z.eqb b k) with false by (symmetry; apply Z.eqb_neq; lia)
         end.
  cbn [orb].
  repeat match goal with
         | |- context [(?lo <=? b) && (b <=? ?hi)] =>
             replace ((lo <=? b) && (b <=? hi)) with false
               by (symmetry; apply andb_false_iff;
                   destruct (Z.leb_spec lo b); [right; apply Z.leb_gt; lia | now left])
         end.
  change (negb (-1 =? -1)) with false. cbv beta iota. unfold raise, get. now rewrite Hpos.
Qed.
End UnknownByteFacts.

Section DispatchExamples.
Import Py Enums ReservObj Parser Samples Fixtures.
Local Open Scope string_scope.
Local Open Scope Z_scope.

Lemma dispatch_cases_are_disjoint_witness :
  (true, kBackref, kPlain, kStartOfObject) = (true, kBackref, kPlain, kStartOfObject).
Proof.
  apply (dispatch_cases_are_disjoint 0x09 true true kBackref kBackref kPlain kPlain
           kStartOfObject kStartOfObject).
  - simpl. tauto.
  - simpl. tauto.
  - vm_compute. eauto.
  - vm_compute. eauto.
Defined.

Lemma unassigned_payload_byte_is_rejected_witness :
  _read_data_step (fun _ _ _ _ => ret tt) 0%nat 0 None 0 unassigned_byte_parser
  = Raise (ValueError ("Wrong JSC byte data: 0x" ++ format_int 16 2 0x06
                       ++ " at pos 0x" ++ fmt_X (pos (reader unassigned_byte_parser)))).
Proof.
  apply (unassigned_payload_byte_is_rejected (fun _ _ _ _ => ret tt) 0%nat 0 None 0
           unassigned_byte_parser (with_pos 1 unassigned_byte_parser) 0x06).
  - reflexivity.
  - lia.
Defined.

Example unassigned_byte_message :
  _read_data_step (fun _ _ _ _ => ret tt) 0%nat 0 None 0 unassigned_byte_parser
  = Raise (ValueError "Wrong JSC byte data: 0x06 at pos 0x0").
Proof. reflexivity. Qed.

End DispatchExamples.

(** ** Header checks and the reservation table of parse (v6/parser.py) *)

Section HeaderFacts.
Import Py Enums ReservObj Parser.
Local Open Scope string_scope.
Local Open Scope Z_scope.

(** [read_uint32] by cases on the bytes left. *)
Lemma read_uint32_cases (p : JscParser) :
  0 <= pos (reader p) ->
  read_uint32 p
  = if pos (reader p) + 4 <=? len (data (reader p))
    then Ok (le_combine (take 4 (drop (Z.to_nat (pos (reader p))) (data (reader p)))),
             with_pos (pos (reader p) + 4) p)
    else Raise StructError.
Proof.
  intros Hpos. unfold read_uint32, unpack_from_le.
  destruct (Z.ltb_spec (pos (reader p)) 0); [lia|].
  destruct (Z.ltb_spec (pos (reader p)) 0); [lia|]. cbn [orb].
  change (Z.of_nat 4) with 4.
  destruct (Z.ltb_spec (len (data (reader p)) - pos (reader p)) 4),
           (Z.leb_spec (pos (reader p) + 4) (len (data (reader p)))); try lia; reflexivity.
Qed.

(** X8. parse on a fresh parser rejects a bad header before it deserializes
    anything: an input of fewer than 4 bytes raises struct.error; an input
    whose first little-endian word is none of 0xC0DE0BEE, 0xC0DE03BE,
    0xC0DE0628 raises ValueError with the text 'Invalid JSC magic: 0x%08X'
    of that word; an input with one of the three magic words and fewer than
    40 bytes (the ten header words) raises struct.error. *)
Theorem parse_rejects_a_bad_header (fuel : nat) (input : list byte) (is_32bit : bool)
    (roots builtins : list PyVal) :
  let p := JscParser_init input is_32bit roots builtins in
  let magic := le_combine (take 4 input) in
  (len input < 4 -> parse fuel p = Raise StructError)
  /\ (4 <= len input ->
      magic <> 0xC0DE0BEE -> magic <> 0xC0DE03BE -> magic <> 0xC0DE0628 ->
      parse fuel p = Raise (ValueError ("Invalid JSC magic: 0x" ++ format_int 16 8 magic)))
  /\ (4 <= len input < 40 ->
      magic = 0xC0DE0BEE \/ magic = 0xC0DE03BE \/ magic = 0xC0DE0628 ->
      parse fuel p = Raise StructError).
Proof.
  intros p magic. split; [|split].
  - intros Hlen. unfold parse, bind. rewrite read_uint32_cases by (cbn; lia).
    cbn [p JscParser_init reader data pos].
    destruct (Z.leb_spec (0 + 4) (len input)); [lia | reflexivity].
  - intros Hlen H1 H2 H3. unfold parse, bind. rewrite read_uint32_cases by (cbn; lia).
    cbn [p JscParser_init reader data pos].
    destruct (Z.leb_spec (0 + 4) (len input)); [|lia].
    change (drop (Z.to_nat 0) input) with input. fold magic.
    destruct (Z.eqb_spec magic 0xC0DE0BEE); [contradiction|].
    destruct (Z.eqb_spec magic 0xC0DE03BE); [contradiction|].
    destruct (Z.eqb_spec magic 0xC0DE0628); [contradiction|].
    reflexivity.
  - intros Hlen Hmagic. unfold parse, bind. rewrite read_uint32_cases by (cbn; lia).
    cbn [p JscParser_init reader data pos].
    destruct (Z.leb_spec (0 + 4) (len input)); [|lia].
    change (drop (Z.to_nat 0) input) with input. fold magic.
    replace ((magic =? 0xC0DE0BEE) || (magic =? 0xC0DE03BE) || (magic =? 0xC0DE0628))
      with true
      by (destruct Hmagic as [-> | [-> | ->]]; reflexivity).
    cbn [negb]. subst p.
    unfold modify.
    repeat (rewrite read_uint32_cases
              by (cbn [with_pos with_reader with_header reader data pos JscParser_init]; lia);
            cbn [with_pos with_reader with_header reader data pos JscParser_init];
            match goal with
            | |- context [?a <=? len input] =>
                destruct (Z.leb_spec a (len input)); [|reflexivity]
            end;
            cbv beta iota).
    lia.
Qed.
End HeaderFacts.

Section HeaderExamples.
Import Py Enums ReservObj Parser Samples.
Local Open Scope string_scope.

Example parse_of_empty_input :
  parse 10 (JscParser_init [] false [] []) = Raise StructError.
Proof. reflexivity. Qed.

Example parse_of_foreign_magic :
  parse 10 (JscParser_init four_byte_file false [] [])
  = Raise (ValueError "Invalid JSC magic: 0x00000000").
Proof. reflexivity. Qed.

End HeaderExamples.

Section ReservationFacts.
Import Py Enums ReservObj Parser.

Lemma filter_map_shift {A B : Type} (f : B -> bool) (g : A -> B) (l : list A) :
  List.filter f (map g l) = map g (List.filter (fun a => f (g a)) l).
Proof.
  induction l as [|a l IH]; [reflexivity|]. cbn. rewrite IH. now destruct (f (g a)).
Qed.

Lemma read_reservations_layout (ws : list Z) :
  forall (curr_space : Z) (p : JscParser),
  (forall (i : nat) (w : Z), ws !! i = Some w ->
     unpack_from_le 4 (data (reader p)) (pos (reader p) + 4 * Z.of_nat i) = Some w) ->
  let is_last := fun w => nonzero (Z.shiftr (Z.land w 0x80000000) 0x1F) in
  let space_of := fun i : nat =>
    AllocSpace_from_int (curr_space + len (List.filter is_last (take i ws))) in
  exists p',
    read_reservations (length ws) curr_space p = Ok (tt, p')
    /\ reader p' = reader (with_pos (pos (reader p) + 4 * len ws) p)
    /\ is_32bit p' = is_32bit p
    /\ heap p'
       = heap p ++ map (fun w => ReservObject_init (Z.land w 0x7FFFFFFF) (kPointerSize p)) ws
    /\ (forall space,
          chunks_of p' space
          = chunks_of p space
            ++ map (fun i => (length (heap p) + i)%nat)
                 (List.filter (fun i => bool_decide (space_of i = space))
                    (seq 0 (length ws))))
    /\ (forall space, last_chunk_index p !! space = Some 0 ->
          last_chunk_index p' !! space = Some 0)
    /\ (forall i : nat, (i < length ws)%nat -> last_chunk_index p' !! space_of i = Some 0).
Proof.
  induction ws as [|w ws IH]; intros curr_space p Hws is_last space_of.
  - exists p. cbn [length read_reservations]. unfold ret.
    split; [reflexivity|]. split.
    { cbn [with_pos with_reader reader]. destruct (reader p) as [d q].
      cbn [data pos]. f_equal. unfold len. cbn [length]. lia. }
    split; [reflexivity|]. split; [cbn; now rewrite app_nil_r|].
    split; [intros space; cbn; now rewrite app_nil_r|].
    split; [intros space Hs; exact Hs | intros i Hi; cbn in Hi; lia].
  - cbn [length read_reservations]. unfold bind, modify, get.
    remember (AllocSpace_from_int curr_space) as space eqn:Espace.
    set (p0 := match reserv p !! space with
               | Some _ => p
               | None => with_reserv (<[space := []]> (reserv p)) p
               end).
    assert (Hreader0 : reader p0 = reader p) by (unfold p0; now destruct (reserv p !! space)).
    assert (Hheap0 : heap p0 = heap p) by (unfold p0; now destruct (reserv p !! space)).
    assert (H320 : is_32bit p0 = is_32bit p) by (unfold p0; now destruct (reserv p !! space)).
    assert (Hlci0 : last_chunk_index p0 = last_chunk_index p)
      by (unfold p0; now destruct (reserv p !! space)).
    assert (Hchunks0 : forall s, chunks_of p0 s = chunks_of p s).
    { intros s. unfold p0, chunks_of. destruct (reserv p !! space) eqn:Hsp; [reflexivity|].
      cbn. destruct (decide (space = s)) as [<- | Hne].
      - now rewrite lookup_insert_eq, Hsp.
      - now rewrite lookup_insert_ne. }
    pose proof (Hws O w eq_refl) as Hw0.
    replace (pos (reader p) + 4 * Z.of_nat 0) with (pos (reader p)) in Hw0 by lia.
    unfold read_uint32. rewrite Hreader0, Hw0. unfold alloc.
    cbn [with_pos with_reader with_heap with_reserv with_last_chunk_index
         reader heap reserv last_chunk_index is_32bit kPointerSize].
    set (p1 := with_last_chunk_index _ _).
    assert (Hreader1 : reader p1 = reader (with_pos (pos (reader p) + 4) p)).
    { unfold p1. cbn. now rewrite Hreader0. }
    assert (H321 : is_32bit p1 = is_32bit p) by (unfold p1; cbn; exact H320).
    assert (Hps1 : kPointerSize p1 = kPointerSize p) by (unfold kPointerSize; now rewrite H321).
    assert (Hheap1 : heap p1
                     = heap p ++ [ReservObject_init (Z.land w 0x7FFFFFFF) (kPointerSize p)]).
    { unfold p1. cbn. rewrite Hheap0. unfold kPointerSize.
      cbn [with_pos with_reader is_32bit]. now rewrite H320. }
    assert (Hchunks1 : forall s,
               chunks_of p1 s
               = chunks_of p s ++ (if bool_decide (space = s) then [length (heap p)] else [])).
    { intros s. unfold p1, chunks_of. cbn.
      destruct (bool_decide_reflect (space = s)) as [<- | Hne].
      - rewrite lookup_insert_eq. cbn. fold (chunks_of p0 space).
        now rewrite Hchunks0, Hheap0.
      - rewrite lookup_insert_ne by exact Hne. fold (chunks_of p0 s).
        now rewrite Hchunks0, app_nil_r. }
    assert (Hlci1 : last_chunk_index p1 !! space = Some 0).
    { unfold p1. cbn. apply lookup_insert_eq. }
    set (curr' := if is_last w then curr_space + 1 else curr_space).
    assert (Hrec : (if nonzero (Z.shiftr (Z.land w 0x80000000) 0x1F)
                    then read_reservations (length ws) (curr_space + 1)
                    else read_reservations (length ws) curr_space)
                   = read_reservations (length ws) curr').
    { unfold curr', is_last. now destruct (nonzero _). }
    rewrite Hrec. clear Hrec.
    destruct (IH curr' p1) as (p' & Hrun & Hreader & H32 & Hheap & Hchunks & Hkeep & Hlci).
    { intros i v Hi. rewrite Hreader1. cbn [with_pos with_reader reader data pos].
      specialize (Hws (S i) v Hi).
      replace (pos (reader p) + 4 + 4 * Z.of_nat i)
        with (pos (reader p) + 4 * Z.of_nat (S i)) by lia.
      exact Hws. }
    assert (Hspace : forall i : nat,
               AllocSpace_from_int (curr' + len (List.filter is_last (take i ws)))
               = space_of (S i)).
    { intros i. unfold space_of, curr'. cbn [take List.filter].
      destruct (is_last w); f_equal; unfold len; cbn [length]; lia. }
    exists p'. split; [exact Hrun|]. split.
    { rewrite Hreader. cbn [with_pos with_reader reader]. rewrite Hreader1.
      cbn [with_pos with_reader reader data pos]. f_equal.
      unfold len. cbn [length]. lia. }
    split; [now rewrite H32|]. split.
    { rewrite Hheap, Hheap1, Hps1, <- app_assoc. reflexivity. }
    split; [|].
    + assert (Hlen1 : length (heap p1) = S (length (heap p))).
      { rewrite Hheap1, length_app. cbn [length]. lia. }
      intros s. rewrite Hchunks, Hchunks1, <- app_assoc. f_equal.
      cbn [seq List.filter].
      assert (H0 : space_of O = space).
      { unfold space_of. rewrite Espace. f_equal. cbn [take List.filter]. unfold len.
        cbn [length]. lia. }
      rewrite H0. rewrite <- seq_shift, filter_map_shift.
      rewrite (List.filter_ext _ (fun i => bool_decide (space_of (S i) = s)))
        by (intros i; now rewrite Hspace).
      destruct (bool_decide (space = s)); cbn [app map]; rewrite map_map;
        [f_equal; [lia|]|]; apply map_ext; intros i; rewrite Hlen1; lia.
    + split.
      * intros s Hs. apply Hkeep. unfold p1. cbn. rewrite Hlci0.
        destruct (decide (space = s)) as [<- | Hne].
        -- apply lookup_insert_eq.
        -- now rewrite lookup_insert_ne.
      * intros [|i] Hi.
        -- assert (H0 : space_of O = space).
           { unfold space_of. rewrite Espace. f_equal. cbn [take List.filter]. unfold len.
        cbn [length]. lia. }
           rewrite H0. apply Hkeep, Hlci1.
        -- rewrite <- Hspace. apply Hlci. cbn in Hi. lia.
Qed.
(** X9. The reservation loop of parse turns the reservation words into
    chunks per space. When the next words of the input are ws, the loop
    reads them all, moving the cursor by four bytes per word, and creates
    one ReservObject per word, in order, of size word & 0x7FFFFFFF; the
    chunk list of each space gains, in file order, exactly the objects of
    the words that belong to it, the space of a word being
    AllocSpace.from_int of the start value plus the number of earlier words
    with the top bit set (a set top bit ends the run of a space, and past
    LO_SPACE the key is None); and every space that received a chunk has
    last_chunk_index 0. *)
Theorem reservations_are_allotted_to_spaces (ws : list Z) (curr_space : Z) (p : JscParser) :
  map (fun i : nat =>
         unpack_from_le 4 (data (reader p)) (pos (reader p) + 4 * Z.of_nat i))
      (seq 0 (length ws))
  = map Some ws ->
  let is_last := fun w => nonzero (Z.shiftr (Z.land w 0x80000000) 0x1F) in
  let space_of := fun i : nat =>
    AllocSpace_from_int (curr_space + len (List.filter is_last (take i ws))) in
  exists p',
    read_reservations (length ws) curr_space p = Ok (tt, p')
    /\ data (reader p') = data (reader p)
    /\ pos (reader p') = pos (reader p) + 4 * len ws
    /\ heap p'
       = heap p ++ map (fun w => ReservObject_init (Z.land w 0x7FFFFFFF) (kPointerSize p)) ws
    /\ (forall space,
          chunks_of p' space
          = chunks_of p space
            ++ map (fun i => (length (heap p) + i)%nat)
                 (List.filter (fun i => bool_decide (space_of i = space))
                    (seq 0 (length ws))))
    /\ (forall i : nat, (i < length ws)%nat -> last_chunk_index p' !! space_of i = Some 0).
Proof.
  intros Hws is_last space_of.
  destruct (read_reservations_layout ws curr_space p)
    as (p' & Hrun & Hreader & _ & Hheap & Hchunks & _ & Hlci).
  { intros i w Hi.
    assert (Hlook : (Some <$> ws) !! i = Some (Some w)) by (now rewrite list_lookup_fmap, Hi).
    change (Some <$> ws) with (map Some ws) in Hlook. rewrite <- Hws in Hlook.
    change (map ?f ?l) with (f <$> l) in Hlook.
    rewrite list_lookup_fmap in Hlook.
    apply lookup_lt_Some in Hi.
    rewrite lookup_seq_lt in Hlook by exact Hi. cbn in Hlook. now injection Hlook. }
  exists p'. rewrite Hreader. cbn [with_pos with_reader reader data pos].
  repeat split; assumption.
Qed.
End ReservationFacts.

Section ReservationExamples.
Import Py Enums ReservObj Parser Fixtures.

Lemma reservations_are_allotted_to_spaces_witness :
  let ws := [0x10; 0x80000020; 0x08] in
  let p := reservations_parser in
  let is_last := fun w => nonzero (Z.shiftr (Z.land w 0x80000000) 0x1F) in
  let space_of := fun i : nat =>
    AllocSpace_from_int (0 + len (List.filter is_last (take i ws))) in
  exists p',
    read_reservations (length ws) 0 p = Ok (tt, p')
    /\ data (reader p') = data (reader p)
    /\ pos (reader p') = pos (reader p) + 4 * len ws
    /\ heap p'
       = heap p ++ map (fun w => ReservObject_init (Z.land w 0x7FFFFFFF) (kPointerSize p)) ws
    /\ (forall space,
          chunks_of p' space
          = chunks_of p space
            ++ map (fun i => (length (heap p) + i)%nat)
                 (List.filter (fun i => bool_decide (space_of i = space))
                    (seq 0 (length ws))))
    /\ (forall i : nat, (i < length ws)%nat -> last_chunk_index p' !! space_of i = Some 0).
Proof.
  apply (reservations_are_allotted_to_spaces [0x10; 0x80000020; 0x08] 0 reservations_parser).
  reflexivity.
Defined.

(** Two chunks for NEW_SPACE, one for OLD_SPACE. *)
Example reservations_of_the_sample :
  match read_reservations 3 0 reservations_parser with
  | Ok (_, p') =>
      chunks_of p' (Some NEW_SPACE) = [0; 1]%nat
      /\ chunks_of p' (Some OLD_SPACE) = [2%nat]
      /\ map size (heap p') = [16; 32; 8]
  | _ => False
  end.
Proof. vm_compute. repeat split. Qed.

(** A table cut short is a [struct.error]. *)
Example reservations_cut_short :
  read_reservations 4 0 reservations_parser = Raise StructError.
Proof. reflexivity. Qed.

End ReservationExamples.

(** ** Termination of parse (v6/parser.py) *)

Section Termination.
Import Py Enums ReservObj Parser ParserLogic.

Lemma remaining_mono (p p' : JscParser) :
  data (reader p') = data (reader p) -> pos (reader p) <= pos (reader p') ->
  remaining p' <= remaining p.
Proof. unfold remaining. intros -> H. lia. Qed.

Lemma adv_intro {A : Type} (n : Z) (m : M A) :
  (forall p, match m p with
             | Ok (_, p') =>
                 data (reader p') = data (reader p) /\ pos (reader p) <= pos (reader p')
             | Raise _ => True
             | OutOfFuel => False
             end) ->
  advances n 0 m.
Proof.
  intros H p _. specialize (H p). destruct (m p) as [[a p1]| |]; auto.
  destruct H as [Hd Hpos]. pose proof (remaining_mono p p1 Hd Hpos). repeat split; auto; lia.
Qed.

Lemma adv_ret {A : Type} (n : Z) (a : A) : advances n 0 (ret a).
Proof. apply adv_intro. intros p. cbn. split; [reflexivity | lia]. Qed.

Lemma adv_raise {A : Type} (n : Z) (e : exn) : advances n 0 (@raise A e).
Proof. intros p _. exact I. Qed.

Lemma adv_get {A : Type} (n : Z) (f : JscParser -> A) : advances n 0 (get f).
Proof. apply adv_intro. intros p. cbn. split; [reflexivity | lia]. Qed.

Lemma adv_modify (n : Z) (g : JscParser -> JscParser) :
  (forall p, reader (g p) = reader p) -> advances n 0 (modify g).
Proof. intros Hg. apply adv_intro. intros p. cbn. rewrite Hg. split; [reflexivity | lia]. Qed.

Lemma adv_bind {A B : Type} (n : Z) (m : M A) (f : A -> M B) :
  advances n 0 m -> (forall a, advances n 0 (f a)) -> advances n 0 (bind m f).
Proof.
  intros Hm Hf p Hp. unfold bind. specialize (Hm p Hp).
  destruct (m p) as [[a p1]| |]; [|exact I|exact Hm].
  destruct Hm as (Hd & Hpos & Hrem).
  assert (Hp1 : remaining p1 < n) by lia.
  specialize (Hf a p1 Hp1).
  destruct (f a p1) as [[b p2]| |]; [|exact I|exact Hf].
  destruct Hf as (Hd' & Hpos' & Hrem'). repeat split; [congruence | lia | lia].
Qed.

Lemma adv_alloc (n size ps : Z) : advances n 0 (alloc size ps).
Proof. apply adv_intro. intros p. cbn. split; [reflexivity | lia]. Qed.

Lemma adv_read_byte (n : Z) : advances n 0 read_byte.
Proof.
  apply adv_intro. intros p. unfold read_byte. destruct (getitem _ _); [|exact I].
  cbn. split; [reflexivity | lia].
Qed.

Lemma adv_read_uint32 (n : Z) : advances n 0 read_uint32.
Proof.
  apply adv_intro. intros p. unfold read_uint32. destruct (unpack_from_le _ _ _); [|exact I].
  cbn. split; [reflexivity | lia].
Qed.

Lemma adv_read_bytes (n count : Z) : 0 <= count -> advances n 0 (read_bytes count).
Proof. intros Hc. apply adv_intro. intros p. cbn. split; [reflexivity | lia]. Qed.

(** [_read_int] moves on by one to four bytes and returns a non-negative
    number. *)
Lemma read_int_result (p p1 : JscParser) (v : Z) :
  _read_int p = Ok (v, p1) ->
  0 <= v /\ data (reader p1) = data (reader p) /\ pos (reader p) + 1 <= pos (reader p1).
Proof.
  intros H. unfold _read_int, bind, read_uint32 in H.
  destruct (unpack_from_le 4 _ _) as [w|] eqn:Hw; [|discriminate].
  cbn [get modify ret] in H. unfold ret in H. injection H as <- <-.
  pose proof (land_3_range w).
  assert (0 <= w).
  { unfold unpack_from_le in Hw. destruct (_ || _); [discriminate|].
    injection Hw as <-. apply le_combine_bound. }
  split; [|split].
  - apply Z.shiftr_nonneg, Z.land_nonneg. now left.
  - reflexivity.
  - cbn. lia.
Qed.

Lemma read_int_not_out_of_fuel (p : JscParser) : _read_int p <> OutOfFuel.
Proof.
  unfold _read_int, bind, read_uint32. destruct (unpack_from_le 4 _ _); discriminate.
Qed.

Lemma adv_bind_read_int {B : Type} (n : Z) (f : Z -> M B) :
  (forall v, 0 <= v -> advances n 0 (f v)) -> advances n 0 (bind _read_int f).
Proof.
  intros Hf p Hp. unfold bind.
  destruct (_read_int p) as [[v p1]| |] eqn:Hr; [|exact I|now apply read_int_not_out_of_fuel in Hr].
  destruct (read_int_result _ _ _ Hr) as (Hv & Hd & Hpos).
  assert (Hmono : remaining p1 <= remaining p) by (apply remaining_mono; [assumption | lia]).
  assert (Hp1 : remaining p1 < n) by lia.
  specialize (Hf v Hv p1 Hp1).
  destruct (f v p1) as [[b p2]| |]; [|exact I|exact Hf].
  destruct Hf as (Hd' & Hpos' & Hrem'). repeat split; [congruence | lia | lia].
Qed.

(** A byte read from a state with fewer than [n + 1] bytes left leaves
    fewer than [n]. *)
Lemma adv_bind_read_byte {B : Type} (n : Z) (f : Z -> M B) :
  (forall b, advances n 0 (f b)) -> advances (n + 1) 1 (bind read_byte f).
Proof.
  intros Hf p Hp. unfold bind, read_byte.
  destruct (getitem _ _) as [b|] eqn:Hg; [|exact I].
  set (p1 := with_pos (pos (reader p) + 1) p).
  assert (Hlt : pos (reader p) < len (data (reader p))).
  { unfold getitem in Hg.
    destruct (Z.leb_spec 0 (pos (reader p))).
    - apply lookup_lt_Some in Hg. unfold len. lia.
    - unfold len. lia. }
  assert (Hrem : remaining p1 + 1 <= remaining p).
  { unfold remaining in *. subst p1. cbn. lia. }
  assert (Hp1 : remaining p1 < n) by lia.
  specialize (Hf (byte.unsigned b) p1 Hp1).
  destruct (f _ p1) as [[c p2]| |]; [|exact I|exact Hf].
  destruct Hf as (Hd' & Hpos' & Hrem'). subst p1. cbn in Hd', Hpos'.
  repeat split; [assumption | lia | lia].
Qed.

Ltac adv_step :=
  match goal with
  | |- advances _ 0 (ret _) => apply adv_ret
  | |- advances _ 0 (raise _) => apply adv_raise
  | |- advances _ 0 (get _) => apply adv_get
  | |- advances _ 0 (modify _) => apply adv_modify; intros; reflexivity
  | |- advances _ 0 read_uint32 => apply adv_read_uint32
  | |- advances _ 0 read_byte => apply adv_read_byte
  | |- advances _ 0 (read_bytes _) => apply adv_read_bytes
  | |- advances _ 0 (alloc _ _) => apply adv_alloc
  | |- advances _ 0 (bind _read_int _) => apply adv_bind_read_int; intros
  | |- advances _ 0 (bind _ _) => apply adv_bind; [|intros]
  | |- advances _ 0 (if ?c then _ else _) => destruct c eqn:?
  | |- advances _ 0 (match ?x with _ => _ end) => destruct x eqn:?
  | |- advances _ 0 (let '(_, _) := ?x in _) => destruct x eqn:?
  | H : _ |- _ => solve [apply H]
  end.

Ltac adv := repeat adv_step.

Lemma adv_reserv_get (n : Z) (space : option AllocSpace) : advances n 0 (reserv_get space).
Proof. unfold reserv_get. adv. Qed.

Lemma adv_get_back_referenced_object (n : Z) (space : option AllocSpace) :
  advances n 0 (_get_back_referenced_object space).
Proof. unfold _get_back_referenced_object, reserv_get. adv. Qed.

Lemma adv_root_or_none (n i : Z) : advances n 0 (root_or_none i).
Proof. unfold root_or_none. adv. Qed.

Lemma adv_create_filler_object (n : Z) (obj : nat) (address size : Z) :
  advances n 0 (_create_filler_object obj address size).
Proof. unfold _create_filler_object, root_or_none. adv. Qed.

Lemma adv_align_with_filler (n : Z) (obj : nat) (address object_size filler_size : Z) :
  advances n 0 (_align_with_filler obj address object_size filler_size).
Proof.
  unfold _align_with_filler, _get_fill_to_align, _precede_with_filler.
  adv; apply adv_create_filler_object.
Qed.

Lemma adv_repeat_object (n : Z) (obj : nat) (off : Z) (last_obj : PyVal) (count : Z) :
  advances n 0 (_repeat_object obj off last_obj count).
Proof.
  unfold _repeat_object. generalize (Z.to_nat count) as c. intros c. revert off.
  induction c as [|c IH]; intros off; cbn [_repeat_object_loop]; adv.
Qed.

Section WithReadData.
Variable n : Z.
Variable rd : nat -> Z -> option AllocSpace -> Z -> M unit.
Hypothesis Hrd : forall obj size space off, advances n 0 (rd obj size space off).

Lemma adv_read_object (obj : nat) (off : Z) (space : option AllocSpace) :
  advances n 0 (_read_object rd obj off space).
Proof.
  unfold _read_object, reserv_get, _get_maximum_fill_to_align.
  adv; apply adv_align_with_filler.
Qed.

Lemma adv_read_space_data (obj : nat) (off : Z) (state : CaseState)
    (space : option (option AllocSpace)) :
  advances n 0 (_read_space_data rd obj off state space).
Proof.
  unfold _read_space_data.
  adv; first [apply adv_read_object | apply adv_get_back_referenced_object].
Qed.

Lemma adv_try_cases (cases : list (bool * AllocWhere * AllocHow * AllocPoint))
    (off b : Z) (obj : nat) :
  advances n 0 (try_cases rd cases off b obj).
Proof.
  induction cases as [|[[[all w] h] pt] rest IH]; cbn [try_cases]; [apply adv_ret|].
  apply adv_bind.
  - destruct all; unfold _do_all_spaces, _do_new_space; adv; apply adv_read_space_data.
  - intros result. adv.
Qed.

Lemma adv_read_data_step (obj : nat) (size : Z) (space : option AllocSpace) (off : Z) :
  advances (n + 1) 1 (_read_data_step rd obj size space off).
Proof.
  unfold _read_data_step. apply adv_bind_read_byte. intros b0.
  generalize (Z.land b0 255) as b. intros b.
  apply adv_bind; [apply adv_try_cases|]. intros result.
  adv; try apply adv_repeat_object; try assumption.
  apply Z.shiftl_nonneg.
  match goal with H : (_ <=? b) && _ = true |- _ => apply andb_true_iff in H as [H _]; lia end.
Qed.
End WithReadData.

Lemma adv_read_data (fuel : nat) (obj : nat) (size : Z) (space : option AllocSpace) (off : Z) :
  advances (Z.of_nat fuel) 0 (_read_data fuel obj size space off).
Proof.
  revert obj size space off. induction fuel as [|fuel IH]; intros obj size space off.
  - intros p Hp. unfold remaining in Hp. lia.
  - cbn [_read_data]. destruct (off <? size); [|apply (adv_ret (Z.of_nat (S fuel)))].
    intros p Hp. unfold bind.
    assert (Hp' : remaining p < Z.of_nat fuel + 1) by lia.
    pose proof (adv_read_data_step (Z.of_nat fuel) (_read_data fuel) IH obj size space off p
                  Hp') as Hstep.
    destruct (_read_data_step _ _ _ _ _ p) as [[next p1]| |]; [|exact I|exact Hstep].
    destruct Hstep as (Hd & Hpos & Hrem).
    destruct next as [off'|]; [|cbn; repeat split; [assumption | lia | lia]].
    assert (Hp1 : remaining p1 < Z.of_nat fuel) by lia.
    specialize (IH obj size space off' p1 Hp1).
    destruct (_read_data fuel obj size space off' p1) as [[u p2]| |]; [|exact I|exact IH].
    destruct IH as (Hd' & Hpos' & Hrem'). repeat split; [congruence | lia | lia].
Qed.

Lemma adv_weaken_k {A : Type} (n k : Z) (m : M A) :
  advances n k m -> 0 <= k -> advances n 0 m.
Proof.
  intros Hm Hk p Hp. specialize (Hm p Hp).
  destruct (m p) as [[a p1]| |]; auto. destruct Hm as (? & ? & ?). repeat split; auto; lia.
Qed.

Lemma adv_deserialize_deferred_objects (fuel : nat) :
  advances (Z.of_nat fuel) 0 (_deserialize_deferred_objects fuel).
Proof.
  induction fuel as [|fuel IH].
  - intros p Hp. unfold remaining in Hp. lia.
  - cbn [_deserialize_deferred_objects]. rewrite Nat2Z.inj_succ. unfold Z.succ.
    apply (adv_weaken_k _ 1); [|lia].
    apply adv_bind_read_byte. intros b0.
    generalize (Z.land b0 255) as b. intros b.
    adv; first [apply adv_get_back_referenced_object | apply adv_read_data].
Qed.

Lemma adv_load_space_objects (n : Z) (chunk : nat) : advances n 0 (_load_space_objects chunk).
Proof. unfold _load_space_objects, _get_script_offset. adv. Qed.

Lemma adv_load_chunks (n : Z) (chunks results : list nat) :
  advances n 0 (load_chunks chunks results).
Proof.
  revert results. induction chunks as [|c rest IH]; intros results; cbn [load_chunks].
  - apply adv_ret.
  - apply adv_bind; [apply adv_load_space_objects|]. intros funcs. adv.
Qed.

Lemma adv_read_reservations (n : Z) (count : nat) (curr_space : Z) :
  advances n 0 (read_reservations count curr_space).
Proof.
  revert curr_space. induction count as [|count IH]; intros curr_space;
    cbn [read_reservations]; [apply adv_ret|].
  apply adv_bind.
  - apply adv_modify. intros p. now destruct (reserv p !! _).
  - intros _. adv.
Qed.

Lemma adv_read_code_stubs (n : Z) (count : nat) (acc : list Z) :
  advances n 0 (read_code_stubs count acc).
Proof.
  revert acc. induction count as [|count IH]; intros acc; cbn [read_code_stubs]; adv.
Qed.

Lemma read_uint32_result (p p1 : JscParser) (v : Z) :
  read_uint32 p = Ok (v, p1) ->
  0 <= v /\ data (reader p1) = data (reader p) /\ pos (reader p1) = pos (reader p) + 4.
Proof.
  unfold read_uint32. destruct (unpack_from_le 4 _ _) as [w|] eqn:Hw; [|discriminate].
  intros [= <- <-]. split; [|split; reflexivity].
  unfold unpack_from_le in Hw. destruct (_ || _); [discriminate|].
  injection Hw as <-. apply le_combine_bound.
Qed.

Lemma pointer_size_align_lower (value : Z) (p : JscParser) :
  exists r, _pointer_size_align value p = Ok (r, p) /\ value <= r.
Proof.
  unfold _pointer_size_align, bind, get, ret. eexists. split; [reflexivity|].
  assert (Hm : exists k, 0 <= k /\ kPointerAlignmentMask p = Z.ones k).
  { unfold kPointerAlignmentMask, kPointerAlignment, kPointerSizeLog2.
    destruct (is_32bit p); [exists 2 | exists 3]; split; (lia || reflexivity). }
  destruct Hm as (k & Hk & ->).
  rewrite <- Z.ldiff_land, Z.ldiff_ones_r, Z.shiftl_mul_pow2, Z.shiftr_div_pow2 by lia.
  rewrite Z.ones_equiv.
  pose proof (Z.pow_pos_nonneg 2 k ltac:(lia) Hk) as Hpow.
  pose proof (Z.div_mod (value + Z.pred (2 ^ k)) (2 ^ k) ltac:(lia)) as Hdm.
  pose proof (Z.mod_pos_bound (value + Z.pred (2 ^ k)) (2 ^ k) Hpow). lia.
Qed.

Lemma adv_not_out_of_fuel {A : Type} (n : Z) (m : M A) (p : JscParser) :
  advances n 0 m -> remaining p < n -> m p <> OutOfFuel.
Proof. intros Hm Hp H. specialize (Hm p Hp). now rewrite H in Hm. Qed.

(** X10. parse always ends. In the embedding every iteration of the loops of
    _read_data and _deserialize_deferred_objects, and every nested call,
    draws on a budget; with a budget larger than the number of input bytes
    parse never exhausts it: it returns a result or raises an exception. The
    reason is that every iteration reads at least one input byte, the cursor
    never moves back, and a read past the end raises. *)
Theorem parse_terminates (input : list byte) (is_32bit : bool) (roots builtins : list PyVal)
    (fuel : nat) :
  len input < Z.of_nat fuel ->
  parse fuel (JscParser_init input is_32bit roots builtins) <> OutOfFuel.
Proof.
  intros Hfuel.
  set (p0 := JscParser_init input is_32bit roots builtins).
  assert (Hinv : data (reader p0) = input /\ 0 <= pos (reader p0)) by (cbn; split; [reflexivity | lia]).
  clearbody p0. revert p0 Hinv.
  (* every state of the run reads the same input from a non-negative position *)
  assert (Hbind : forall (A B : Type) (m : M A) (f : A -> M B) (p : JscParser),
            (forall n, advances n 0 m) ->
            (data (reader p) = input /\ 0 <= pos (reader p)) ->
            (forall a p', m p = Ok (a, p') ->
                          data (reader p') = input /\ 0 <= pos (reader p') ->
                          f a p' <> OutOfFuel) ->
            bind m f p <> OutOfFuel).
  { intros A B m f p Hm [Hd Hpos] Hf. unfold bind.
    pose proof (Hm (remaining p + 1) p ltac:(lia)) as Hrun.
    destruct (m p) as [[a p1]| |] eqn:Hmp; [|discriminate|contradiction].
    destruct Hrun as (Hd1 & Hpos1 & _). apply Hf; [reflexivity|]. split; [congruence | lia]. }
  intros p0 Hinv. unfold parse.
  apply Hbind; [intros; apply adv_read_uint32 | exact Hinv |]. intros magic p1 _ H1.
  destruct (negb _); [discriminate|].
  apply Hbind; [intros; apply adv_read_uint32 | exact H1 |]. intros vh p2 _ H2.
  apply Hbind; [intros; apply adv_read_uint32 | exact H2 |]. intros sh p3 _ H3.
  apply Hbind; [intros; apply adv_modify; reflexivity | exact H3 |]. intros [] p4 _ H4.
  apply Hbind; [intros; apply adv_read_uint32 | exact H4 |]. intros cpu p5 _ H5.
  apply Hbind; [intros; apply adv_read_uint32 | exact H5 |]. intros fh p6 _ H6.
  apply Hbind; [intros; apply adv_read_uint32 | exact H6 |]. intros rc p7 Hrc H7.
  apply Hbind; [intros; apply adv_read_uint32 | exact H7 |]. intros sc p8 Hsc H8.
  apply Hbind; [intros; apply adv_read_uint32 | exact H8 |]. intros ps_ p9 _ H9.
  apply Hbind; [intros; apply adv_read_uint32 | exact H9 |]. intros c1 p10 _ H10.
  apply Hbind; [intros; apply adv_read_uint32 | exact H10 |]. intros c2 p11 _ H11.
  apply Hbind; [intros; apply adv_get | exact H11 |]. intros pos0 p12 Hpos0 H12.
  injection Hpos0 as <- <-.
  apply read_uint32_result in Hrc as (Hrc & _). apply read_uint32_result in Hsc as (Hsc & _).
  unfold bind at 1.
  destruct (pointer_size_align_lower (pos (reader p11) + rc * 4 + sc * 4) p11)
    as (payload_offset & -> & Hpayload).
  apply Hbind; [intros; apply adv_read_reservations | exact H11 |]. intros [] p13 _ H13.
  apply Hbind; [intros; apply adv_get | exact H13 |]. intros stubs0 p14 _ H14.
  apply Hbind; [intros; apply adv_read_code_stubs | exact H14 |]. intros stubs p15 _ H15.
  apply Hbind; [intros; apply adv_modify; reflexivity | exact H15 |]. intros [] p16 _ H16.
  unfold bind at 1, seek, modify.
  set (ps := with_pos payload_offset p16).
  apply (adv_not_out_of_fuel (Z.of_nat fuel)).
  - adv; first [apply adv_read_data | apply adv_deserialize_deferred_objects
               | apply adv_load_chunks | apply adv_reserv_get].
  - unfold remaining. subst ps. cbn [reader with_pos with_reader data pos].
    destruct H16 as [-> _]. destruct H11 as [_ H11].
    pose proof (len_nonneg input). lia.
Qed.
End Termination.

Section TerminationExamples.
Import Py Enums ReservObj Parser Samples.

Lemma parse_terminates_witness :
  parse 50 (JscParser_init unresolved_backref_file false [] []) <> OutOfFuel.
Proof.
  apply (parse_terminates unresolved_backref_file false [] [] 50). vm_compute. reflexivity.
Defined.

End TerminationExamples.

(** ** Repeated objects, alignment and the hot ring (v6/parser.py) *)

Section RepeatFacts.
Import Py Enums ReservObj Parser.

Lemma repeat_object_loop_fills (count : nat) (insert_obj : nat) (insert_off : Z)
    (last_obj : PyVal) (p : JscParser) (o : ReservObject) :
  heap p !! insert_obj = Some o ->
  exists p' o',
    _repeat_object_loop count insert_obj insert_off last_obj p
    = Ok (insert_off + Z.of_nat count * kPointerSize p, p')
    /\ reader p' = reader p /\ is_32bit p' = is_32bit p
    /\ length (heap p') = length (heap p)
    /\ heap p' !! insert_obj = Some o'
    /\ (forall other, other <> insert_obj -> heap p' !! other = heap p !! other)
    /\ (forall i : nat, (i < count)%nat ->
          objects o' !! (insert_off + Z.of_nat i * kPointerSize p) = Some last_obj)
    /\ (forall key,
          (forall i : nat, (i < count)%nat -> key <> insert_off + Z.of_nat i * kPointerSize p) ->
          objects o' !! key = objects o !! key).
Proof.
  revert insert_off p o. induction count as [|count IH]; intros insert_off p o Ho.
  - exists p, o. cbn [_repeat_object_loop]. unfold ret.
    replace (insert_off + Z.of_nat 0 * kPointerSize p) with insert_off by lia.
    split; [reflexivity|]. split; [reflexivity|]. split; [reflexivity|].
    split; [reflexivity|]. split; [exact Ho|]. split; [reflexivity|].
    split; [intros i Hi; lia | reflexivity].
  - cbn [_repeat_object_loop]. unfold bind, modify, get.
    set (p1 := update_obj insert_obj (fun o => add_object o insert_off last_obj) p).
    assert (Hps : kPointerSize p1 = kPointerSize p) by (unfold p1; reflexivity).
    assert (Hp1 : heap p1 !! insert_obj = Some (add_object o insert_off last_obj)).
    { unfold p1. cbn. rewrite list_lookup_alter, Ho.
      destruct (decide (insert_obj = insert_obj)); [reflexivity | congruence]. }
    assert (Hpos : 0 < kPointerSize p) by (unfold kPointerSize; destruct (is_32bit p); lia).
    destruct (IH (insert_off + kPointerSize p1) p1 _ Hp1)
      as (p' & o' & Hrun & Hreader & H32 & Hlen & Ho' & Hother & Hin & Hout).
    exists p', o'. rewrite Hrun, Hps. split; [do 2 f_equal; lia|].
    split; [now rewrite Hreader|]. split; [now rewrite H32|].
    split; [rewrite Hlen; unfold p1; cbn; now rewrite length_alter|].
    split; [exact Ho'|]. split.
    { intros other Hne. rewrite Hother by exact Hne. unfold p1. cbn.
      rewrite list_lookup_alter.
      destruct (decide (insert_obj = other)); [congruence | reflexivity]. }
    split.
    + intros [|i] Hi.
      * replace (insert_off + Z.of_nat 0 * kPointerSize p) with insert_off by lia.
        rewrite Hout.
        -- cbn. apply lookup_insert_eq.
        -- intros j _. rewrite Hps. nia.
      * specialize (Hin i ltac:(lia)). rewrite Hps in Hin. rewrite <- Hin. f_equal. lia.
    + intros key Hkey. rewrite Hout.
      * cbn. apply lookup_insert_ne. specialize (Hkey O ltac:(lia)). lia.
      * intros i Hi. specialize (Hkey (S i) ltac:(lia)). rewrite Hps. lia.
Qed.

(** X11. _repeat_object on an object of the store writes last_obj into the
    count slots at insert_off, insert_off + kPointerSize, ..., leaves every
    other slot of the object and every other object as they were, does not
    move the reader, and returns insert_off + count * kPointerSize; a count
    of zero or less writes nothing and returns insert_off. *)
Theorem repeat_object_fills_consecutive_slots (insert_obj : nat) (insert_off : Z)
    (last_obj : PyVal) (count : Z) (p : JscParser) (o : ReservObject) :
  heap p !! insert_obj = Some o ->
  exists p' o',
    _repeat_object insert_obj insert_off last_obj count p
    = Ok (insert_off + Z.max 0 count * kPointerSize p, p')
    /\ reader p' = reader p
    /\ heap p' !! insert_obj = Some o'
    /\ (forall other, other <> insert_obj -> heap p' !! other = heap p !! other)
    /\ (forall i, 0 <= i < count ->
          objects o' !! (insert_off + i * kPointerSize p) = Some last_obj)
    /\ (forall key,
          (forall i, 0 <= i < count -> key <> insert_off + i * kPointerSize p) ->
          objects o' !! key = objects o !! key).
Proof.
  intros Ho. unfold _repeat_object.
  destruct (repeat_object_loop_fills (Z.to_nat count) insert_obj insert_off last_obj p o Ho)
    as (p' & o' & Hrun & Hreader & _ & _ & Ho' & Hother & Hin & Hout).
  exists p', o'. rewrite Hrun. split; [do 2 f_equal; lia|].
  split; [exact Hreader|]. split; [exact Ho'|]. split; [exact Hother|]. split.
  - intros i Hi. specialize (Hin (Z.to_nat i) ltac:(lia)).
    now rewrite Z2Nat.id in Hin by lia.
  - intros key Hkey. apply Hout. intros i Hi. apply Hkey. lia.
Qed.
End RepeatFacts.

Section RepeatExamples.
Import Py Enums ReservObj Parser Fixtures.

Lemma repeat_object_fills_consecutive_slots_witness :
  let p := parser_with_object in
  exists p' o',
    _repeat_object 0 4 (VInt 7) 3 p = Ok (4 + Z.max 0 3 * kPointerSize p, p')
    /\ reader p' = reader p
    /\ heap p' !! 0%nat = Some o'
    /\ (forall other, other <> 0%nat -> heap p' !! other = heap p !! other)
    /\ (forall i, 0 <= i < 3 ->
          objects o' !! (4 + i * kPointerSize p) = Some (VInt 7))
    /\ (forall key,
          (forall i, 0 <= i < 3 -> key <> 4 + i * kPointerSize p) ->
          objects o' !! key = objects (ReservObject_init 16 4) !! key).
Proof.
  apply (repeat_object_fills_consecutive_slots 0 4 (VInt 7) 3 parser_with_object
           (ReservObject_init 16 4)).
  reflexivity.
Defined.

(** A count that is not positive writes nothing. *)
Example repeat_object_zero_times :
  _repeat_object 0 4 (VInt 7) (-2) parser_with_object = Ok (4, parser_with_object).
Proof. reflexivity. Qed.

End RepeatExamples.

Section AlignFacts.
Import Py Enums ReservObj Parser.

(** X12. _pointer_size_align rounds up to the pointer size: for every
    integer value the result r is a multiple of kPointerSize (4 or 8) with
    value <= r < value + kPointerSize, and the parser is left unchanged. *)
Theorem pointer_size_align_rounds_up (value : Z) (p : JscParser) :
  exists r,
    _pointer_size_align value p = Ok (r, p)
    /\ r mod kPointerSize p = 0
    /\ value <= r < value + kPointerSize p.
Proof.
  unfold _pointer_size_align, bind, get, ret. eexists. split; [reflexivity|].
  assert (Hm : exists k, 0 <= k /\ kPointerAlignmentMask p = Z.ones k /\ kPointerSize p = 2 ^ k).
  { unfold kPointerAlignmentMask, kPointerAlignment, kPointerSizeLog2, kPointerSize.
    destruct (is_32bit p); [exists 2 | exists 3]; repeat split; lia. }
  destruct Hm as (k & Hk & -> & ->).
  rewrite <- Z.ldiff_land, Z.ldiff_ones_r, Z.shiftl_mul_pow2, Z.shiftr_div_pow2 by lia.
  rewrite Z.ones_equiv.
  pose proof (Z.pow_pos_nonneg 2 k ltac:(lia) Hk) as Hpow.
  pose proof (Z.div_mod (value + Z.pred (2 ^ k)) (2 ^ k) ltac:(lia)) as Hdm.
  pose proof (Z.mod_pos_bound (value + Z.pred (2 ^ k)) (2 ^ k) Hpow).
  split; [apply Z.mod_mul; lia | lia].
Qed.
End AlignFacts.

Section HotRing.
Import Py Enums ReservObj Parser.

Lemma land_7_mod (x : Z) : Z.land x 7 = x mod 8.
Proof. change 7 with (Z.ones 3). now rewrite land_ones_mod by lia. Qed.

(** X13. The hot-object table is a ring of eight slots. Starting from an
    index in 0..7, after a sequence of stores (slot at last_hot_index
    written, index advanced by (index + 1) & 7) the index is the start index
    plus the number of stores modulo 8, and each of the last eight values
    stored is found in slot (start + i) mod 8, i being its position in the
    sequence. *)
Theorem hot_objects_form_a_ring_of_eight (pushed : list PyVal) (p : JscParser) :
  0 <= last_hot_index p < 8 ->
  let p' := fold_left (fun q v => push_hot v q) pushed p in
  last_hot_index p' = (last_hot_index p + len pushed) mod 8
  /\ forall (i : nat) (v : PyVal),
       pushed !! i = Some v ->
       len pushed - 8 <= Z.of_nat i ->
       hots p' !! ((last_hot_index p + Z.of_nat i) mod 8) = Some v.
Proof.
  intros Hstart. induction pushed as [|w pushed IH] using rev_ind.
  - cbn. split; [rewrite Z.add_0_r, Z.mod_small; lia | intros i v Hi; discriminate Hi].
  - rewrite fold_left_app. cbn [fold_left]. cbn zeta in IH. destruct IH as [Hidx Hslots].
    unfold len in *. rewrite length_app. cbn [length].
    split.
    + cbn [push_hot last_hot_index]. rewrite land_7_mod, Hidx.
      rewrite Zplus_mod_idemp_l. f_equal. lia.
    + intros i v Hi Hrecent. cbn [push_hot hots]. rewrite Hidx.
      apply lookup_app_Some in Hi as [Hi | [Hlen Hi]].
      * apply lookup_lt_Some in Hi as Hlt.
        rewrite lookup_insert_ne.
        -- apply Hslots; [assumption | lia].
        -- intros Heq.
           pose proof (Z.div_mod (last_hot_index p + Z.of_nat (length pushed)) 8 ltac:(lia)).
           pose proof (Z.div_mod (last_hot_index p + Z.of_nat i) 8 ltac:(lia)).
           pose proof (Z.mod_pos_bound (last_hot_index p + Z.of_nat (length pushed)) 8 ltac:(lia)).
           lia.
      * destruct (i - length pushed)%nat eqn:Hz; [|destruct n; discriminate].
        injection Hi as <-. replace (Z.of_nat i) with (Z.of_nat (length pushed)) by lia.
        apply lookup_insert_eq.
Qed.
End HotRing.

Section HotRingExamples.
Import Py Enums ReservObj Parser Fixtures.

Lemma hot_objects_form_a_ring_of_eight_witness :
  let p := JscParser_init [] true [] [] in
  let p' := fold_left (fun q v => push_hot v q) ten_hot_values p in
  last_hot_index p' = (last_hot_index p + len ten_hot_values) mod 8
  /\ forall (i : nat) (v : PyVal),
       ten_hot_values !! i = Some v ->
       len ten_hot_values - 8 <= Z.of_nat i ->
       hots p' !! ((last_hot_index p + Z.of_nat i) mod 8) = Some v.
Proof.
  apply (hot_objects_form_a_ring_of_eight ten_hot_values (JscParser_init [] true [] [])).
  simpl. lia.
Defined.

(** After ten pushes the two oldest values are gone: slot 0 holds the
    ninth value. *)
Example hot_ring_overwrites :
  let p' := fold_left (fun q v => push_hot v q) ten_hot_values (JscParser_init [] true [] []) in
  hots p' !! 0 = Some (VInt 8) /\ hots p' !! 2 = Some (VInt 2) /\ last_hot_index p' = 2.
Proof. vm_compute. repeat split. Qed.

End HotRingExamples.

(** ** Layout of a listing (v6/disasm.py) *)

Section DisasmLayout.
Import Py Disasm.

(** The raw bytes of an instruction that starts inside the buffer: the
    bytes from its start to the cursor behind it. *)
Lemma slice_from_take (bytecode : list byte) (pos pos' : Z) :
  0 <= pos < len bytecode -> pos <= pos' ->
  take (Z.to_nat pos) bytecode ++ slice bytecode pos pos' = take (Z.to_nat pos') bytecode.
Proof.
  intros Hp Hle. unfold slice, slice_bound.
  destruct (Z.ltb_spec pos 0); [lia|]. destruct (Z.ltb_spec pos' 0); [lia|].
  rewrite (Z.min_l pos) by lia.
  rewrite take_take_drop.
  destruct (Z.le_ge_cases pos' (len bytecode)).
  - rewrite Z.min_l by lia. f_equal. lia.
  - rewrite Z.min_r by lia. unfold len in *. rewrite !take_ge by lia. reflexivity.
Qed.

Lemma slice_nonempty (bytecode : list byte) (pos pos' : Z) :
  0 <= pos < len bytecode -> pos + 1 <= pos' -> 0 < len (slice bytecode pos pos').
Proof.
  intros Hp Hle. unfold slice, slice_bound, len in *.
  destruct (Z.ltb_spec pos 0); [lia|]. destruct (Z.ltb_spec pos' 0); [lia|].
  rewrite length_take, length_drop. lia.
Qed.

(** One loop iteration in full: a lone prefix byte at the very end breaks
    the loop; otherwise one instruction is appended whose raw bytes run
    from the old cursor to the new one. *)
Lemma decode_instruction_shape (bytecode : list byte)
    (constant_pool : option (list CPItem)) (pos : Z) :
  0 <= pos < len bytecode ->
  (decode_instruction bytecode constant_pool pos = Ok Break
   /\ pos + 1 = len bytecode
   /\ (byte_at bytecode pos = Ok 0 \/ byte_at bytecode pos = Ok 1))
  \/ exists inst pos',
       decode_instruction bytecode constant_pool pos = Ok (Next inst pos')
       /\ i_offset inst = pos /\ pos + 1 <= pos'
       /\ i_raw inst = slice bytecode pos pos'.
Proof.
  intros Hp. unfold decode_instruction.
  assert (Hfetch :
    (fetch_opcode bytecode pos = Ok None /\ pos + 1 = len bytecode
     /\ (byte_at bytecode pos = Ok 0 \/ byte_at bytecode pos = Ok 1))
    \/ exists operand_size prefix_name opcode pos',
         fetch_opcode bytecode pos = Ok (Some (operand_size, prefix_name, opcode, pos'))
         /\ pos + 1 <= pos' <= len bytecode).
  { unfold fetch_opcode.
    destruct (byte_at_ok bytecode pos Hp) as (op & Hop & _). rewrite Hop.
    destruct (Z.eqb_spec op 0) as [-> | _].
    { destruct (Z.leb_spec (len bytecode) (pos + 1)); [left; split; [reflexivity | split; [lia | now left]] | right].
      destruct (byte_at_ok bytecode (pos + 1)) as (op2 & -> & _); [lia|].
      do 4 eexists. split; [reflexivity | lia]. }
    destruct (Z.eqb_spec op 1) as [-> | _].
    { destruct (Z.leb_spec (len bytecode) (pos + 1)); [left; split; [reflexivity | split; [lia | now right]] | right].
      destruct (byte_at_ok bytecode (pos + 1)) as (op2 & -> & _); [lia|].
      do 4 eexists. split; [reflexivity | lia]. }
    right. do 4 eexists. split; [reflexivity | lia]. }
  destruct Hfetch as [(-> & Hend & Hb) | (sz & pre & opcode & pos1 & -> & Hpos1)];
    [now left | right].
  destruct (OPCODES_get opcode) as [[mnemonic operand_types]|].
  - destruct (decode_operands_ok operand_types sz bytecode (pos + 1) pos1 [] [])
      as (operands & strs & pos2 & -> & Hnn & Hpos2); [lia | lia | constructor |].
    destruct (build_comment_ok
                match pre with Some p => (p ++ "." ++ mnemonic)%string | None => mnemonic end
                pos operands constant_pool Hnn) as [comment ->].
    do 2 eexists. split; [reflexivity|]. repeat split; [lia].
  - do 2 eexists. split; [reflexivity|]. repeat split; [lia].
Qed.

(** The loop keeps three facts about the instructions produced so far: their
    raw bytes, concatenated, are the bytes before the cursor; each starts
    where the bytes of its predecessors end; none is empty. *)
Lemma disassemble_loop_layout (bytecode : list byte) (constant_pool : option (list CPItem)) :
  forall fuel pos instructions result,
    0 <= pos ->
    concat (map i_raw instructions) = take (Z.to_nat pos) bytecode ->
    (forall k inst, instructions !! k = Some inst ->
       i_offset inst = len (concat (map i_raw (take k instructions)))
       /\ 0 < len (i_raw inst)) ->
    disassemble_loop fuel bytecode constant_pool pos instructions = Ok result ->
    (exists rest,
       bytecode = concat (map i_raw result) ++ rest
       /\ (rest = [] \/ (exists b, rest = [b] /\ (byte.unsigned b = 0 \/ byte.unsigned b = 1))))
    /\ (forall k inst, result !! k = Some inst ->
          i_offset inst = len (concat (map i_raw (take k result)))
          /\ 0 < len (i_raw inst)).
Proof.
  induction fuel as [|fuel IH]; intros pos instructions result Hp Hcat Hoff; [discriminate|].
  cbn [disassemble_loop].
  destruct (Z.ltb_spec pos (len bytecode)) as [Hlt | Hge].
  - destruct (decode_instruction_shape bytecode constant_pool pos)
      as [(-> & Hend & Hb) | (inst & pos' & -> & Hi & Hadv & Hraw)]; [lia | |].
    + intros [= <-]. split; [|exact Hoff].
      unfold byte_at, getitem in Hb. destruct (Z.leb_spec 0 pos); [|lia].
      destruct (bytecode !! Z.to_nat pos) as [b|] eqn:Hlook; [|destruct Hb; discriminate].
      exists [b]. split.
      * rewrite Hcat. rewrite <- (take_drop (Z.to_nat pos) bytecode) at 1. f_equal.
        pose proof (drop_S bytecode b (Z.to_nat pos) Hlook) as Hd. rewrite Hd. f_equal.
        apply nil_length_inv. rewrite length_drop. unfold len in Hend. lia.
      * right. exists b. split; [reflexivity|]. destruct Hb as [[= ->] | [= ->]]; auto.
    + apply IH; [lia | |].
      * rewrite map_app, concat_app, Hcat. cbn [map concat]. rewrite app_nil_r, Hraw.
        apply slice_from_take; lia.
      * intros k i Hk. apply lookup_app_Some in Hk as [Hk | [Hlen Hk]].
        -- rewrite take_app_le by (apply lookup_lt_Some in Hk; lia). now apply Hoff.
        -- destruct (k - length instructions)%nat eqn:Hz; [|destruct n; discriminate].
           injection Hk as <-. assert (k = length instructions) by lia. subst k.
           rewrite take_app_length, Hcat, Hi, Hraw. split.
           ++ unfold len. rewrite length_take. unfold len in Hlt. lia.
           ++ apply slice_nonempty; lia.
  - intros [= <-]. split; [|exact Hoff]. exists []. split; [|now left].
    rewrite app_nil_r, Hcat. unfold len in Hge. now rewrite take_ge by lia.
Qed.

(** X14. The raw bytes of the instructions that disassemble_bytecode
    returns, put end to end in order, are the bytecode it was given, except
    possibly for its last byte: nothing is skipped or listed twice, and the
    only bytes that can be left out are a final lone Wide (0x00) or
    ExtraWide (0x01) prefix. *)
Theorem disassembly_covers_the_bytecode (bytecode : list byte)
    (constant_pool : option (list CPItem)) (instructions : list Instruction) :
  disassemble_bytecode bytecode constant_pool = Ok instructions ->
  exists rest,
    bytecode = concat (map i_raw instructions) ++ rest
    /\ (rest = [] \/ (exists b, rest = [b] /\ (byte.unsigned b = 0 \/ byte.unsigned b = 1))).
Proof.
  intros H. unfold disassemble_bytecode in H.
  eapply disassemble_loop_layout in H as [Hcover _]; [exact Hcover | lia | reflexivity |].
  intros k inst Hk. discriminate Hk.
Qed.

(** X15. In the list that disassemble_bytecode returns, the offset of each
    instruction is the total length of the raw bytes of the instructions
    before it, every instruction has at least one raw byte, and so the byte
    ranges of two instructions never overlap: an earlier instruction ends at
    or before the offset of a later one. *)
Theorem instruction_offsets_are_cumulative (bytecode : list byte)
    (constant_pool : option (list CPItem)) (instructions : list Instruction) :
  disassemble_bytecode bytecode constant_pool = Ok instructions ->
  (forall k inst, instructions !! k = Some inst ->
     i_offset inst = len (concat (map i_raw (take k instructions)))
     /\ 0 < len (i_raw inst))
  /\ (forall j k a b, (j < k)%nat ->
        instructions !! j = Some a -> instructions !! k = Some b ->
        i_offset a + len (i_raw a) <= i_offset b).
Proof.
  intros H. unfold disassemble_bytecode in H.
  eapply disassemble_loop_layout in H as [_ Hoff]; [| lia | reflexivity |].
  2: { intros k inst Hk. discriminate Hk. }
  split; [exact Hoff|].
  intros j k a b Hjk Ha Hb.
  destruct (Hoff j a Ha) as [-> _]. destruct (Hoff k b Hb) as [-> _].
  assert (Htake : take k instructions = take j instructions ++ a :: take (k - S j) (drop (S j) instructions)).
  { rewrite <- (take_drop j (take k instructions)).
    rewrite take_take, Nat.min_l by lia. f_equal.
    rewrite skipn_firstn_comm. replace (k - j)%nat with (S (k - S j)) by lia.
    rewrite (drop_S _ a j Ha). reflexivity. }
  rewrite Htake, map_app, concat_app. cbn [map concat]. unfold len.
  rewrite !length_app. lia.
Qed.
End DisasmLayout.

Section DisasmLayoutExamples.
Import Py Disasm Samples Fixtures.

Lemma disassembly_covers_the_bytecode_witness :
  exists rest,
    bytes code_sum_times = concat (map i_raw sum_times_listing) ++ rest
    /\ (rest = [] \/ (exists b, rest = [b] /\ (byte.unsigned b = 0 \/ byte.unsigned b = 1))).
Proof.
  apply (disassembly_covers_the_bytecode (bytes code_sum_times) None sum_times_listing).
  vm_compute. reflexivity.
Defined.

Lemma instruction_offsets_are_cumulative_witness :
  (forall k inst, sum_times_listing !! k = Some inst ->
     i_offset inst = len (concat (map i_raw (take k sum_times_listing)))
     /\ 0 < len (i_raw inst))
  /\ (forall j k a b, (j < k)%nat ->
        sum_times_listing !! j = Some a -> sum_times_listing !! k = Some b ->
        i_offset a + len (i_raw a) <= i_offset b).
Proof.
  apply (instruction_offsets_are_cumulative (bytes code_sum_times) None sum_times_listing).
  vm_compute. reflexivity.
Defined.

(** A lone prefix byte is the one byte the listing can leave out. *)
Example lone_wide_prefix_is_dropped :
  disassemble_bytecode (bytes [0x95; 0x00]) None
  = Ok [{| i_offset := 0; i_mnemonic := "Return"; i_operands := "";
           i_raw := bytes [0x95]; i_comment := "" |}].
Proof. vm_compute. reflexivity. Qed.

End DisasmLayoutExamples.

(** ** Number texts of the Python runtime *)

Section PyText.
Import Py.
Local Open Scope string_scope.
Local Open Scope Z_scope.

Lemma append_cons (c : ascii) (s t : string) : String c s ++ t = String c (s ++ t).
Proof. reflexivity. Qed.

Lemma append_assoc (s t u : string) : (s ++ t) ++ u = s ++ (t ++ u).
Proof. induction s as [|c s IH]; [reflexivity | now rewrite !append_cons, IH]. Qed.

Lemma append_nil_r (s : string) : s ++ "" = s.
Proof. induction s as [|c s IH]; [reflexivity | now rewrite append_cons, IH]. Qed.

Lemma sixteen_cases (d : Z) :
  0 <= d < 16 ->
  d = 0 \/ d = 1 \/ d = 2 \/ d = 3 \/ d = 4 \/ d = 5 \/ d = 6 \/ d = 7
  \/ d = 8 \/ d = 9 \/ d = 10 \/ d = 11 \/ d = 12 \/ d = 13 \/ d = 14 \/ d = 15.
Proof. lia. Qed.

Lemma digit_value_digit_char (base d : Z) :
  0 <= d < base -> base <= 16 -> digit_value base (digit_char d) = Some d.
Proof.
  intros Hd Hb. unfold digit_value, digit_char.
  destruct (Z.ltb_spec d 10).
  - rewrite nat_ascii_embedding by lia.
    replace (Z.of_nat (48 + Z.to_nat d)) with (48 + d) by lia.
    destruct (Z.leb_spec 48 (48 + d)); [|lia]. destruct (Z.leb_spec (48 + d) 57); [|lia].
    cbn [andb]. replace (48 + d - 48) with d by lia.
    destruct (Z.ltb_spec d base); [reflexivity | lia].
  - rewrite nat_ascii_embedding by lia.
    replace (Z.of_nat (55 + Z.to_nat d)) with (55 + d) by lia.
    destruct (Z.leb_spec 48 (55 + d)); [|lia]. destruct (Z.leb_spec (55 + d) 57); [lia|].
    destruct (Z.leb_spec 65 (55 + d)); [|lia]. destruct (Z.leb_spec (55 + d) 70); [|lia].
    cbn [andb]. replace (55 + d - 55) with d by lia.
    destruct (Z.ltb_spec d base); [reflexivity | lia].
Qed.

(** A digit is none of the characters that [int()] and the operand parsers
    treat specially. *)
Lemma digit_char_plain (d : Z) :
  0 <= d < 16 ->
  Ascii.eqb (digit_char d) "_" = false /\ Ascii.eqb (digit_char d) "-" = false
  /\ Ascii.eqb (digit_char d) "+" = false /\ Ascii.eqb (digit_char d) "x" = false
  /\ Ascii.eqb (digit_char d) "X" = false /\ is_space (digit_char d) = false.
Proof.
  intros Hd. pose proof (sixteen_cases d Hd) as Hc.
  destruct Hc as [-> | [-> | [-> | [-> | [-> | [-> | [-> | [-> | [-> | [-> | [-> | [-> | [-> | [-> | [-> | ->]]]]]]]]]]]]]]]; repeat split; reflexivity.
Qed.

Lemma digit_char_decimal (d : Z) : 0 <= d < 10 -> is_digit (digit_char d) = true.
Proof.
  intros Hd.
  assert (Hc : d = 0 \/ d = 1 \/ d = 2 \/ d = 3 \/ d = 4 \/ d = 5 \/ d = 6 \/ d = 7
               \/ d = 8 \/ d = 9) by lia.
  destruct Hc as [-> | [-> | [-> | [-> | [-> | [-> | [-> | [-> | [-> | ->]]]]]]]]]; reflexivity.
Qed.

Lemma div_small_pow (n base f : Z) :
  2 <= base -> 0 <= f -> 0 <= n < 2 ^ (f + 1) -> 0 <= n / base < 2 ^ f.
Proof.
  intros Hb Hf Hn. split; [apply Z.div_pos; lia|].
  apply Z.div_lt_upper_bound; [lia|].
  rewrite Z.pow_add_r, Z.pow_1_r in Hn by lia. nia.
Qed.

(** [digits_aux] writes in front of [acc]; read back with [parse_digits],
    the digits written shift the number read so far and add [n]. *)
Lemma parse_digits_aux (base : Z) :
  2 <= base <= 16 ->
  forall fuel n acc, 0 <= n < 2 ^ (Z.of_nat fuel + 1) ->
    exists k, 0 <= k /\
      forall a after_digit,
        parse_digits base after_digit a (digits_aux (S fuel) base n acc)
        = parse_digits base true (a * base ^ k + n) acc.
Proof.
  intros Hb. induction fuel as [|fuel IH]; intros n acc Hn.
  - exists 1. split; [lia|]. intros a ad. cbn [digits_aux].
    change (Z.of_nat 0 + 1) with 1 in Hn. rewrite Z.pow_1_r in Hn.
    rewrite Z.div_small, Z.mod_small by lia. cbn [Z.eqb parse_digits].
    destruct (digit_char_plain n ltac:(lia)) as (-> & _).
    rewrite digit_value_digit_char by lia. f_equal. lia.
  - cbn [digits_aux]. destruct (Z.eqb_spec (n / base) 0) as [Hq | Hq].
    + exists 1. split; [lia|]. intros a ad. cbn [parse_digits].
      pose proof (Z.mod_pos_bound n base ltac:(lia)) as Hm.
      destruct (digit_char_plain (n mod base) ltac:(lia)) as (-> & _).
      rewrite digit_value_digit_char by lia. f_equal.
      pose proof (Z.div_mod n base ltac:(lia)). rewrite Hq in *. lia.
    + destruct (IH (n / base) (String (digit_char (n mod base)) acc)) as (k & Hk & Hparse).
      { apply div_small_pow; [lia | lia |]. rewrite Nat2Z.inj_succ in Hn. exact Hn. }
      exists (k + 1). split; [lia|]. intros a ad. rewrite Hparse. cbn [parse_digits].
      pose proof (Z.mod_pos_bound n base ltac:(lia)) as Hm.
      destruct (digit_char_plain (n mod base) ltac:(lia)) as (-> & _).
      rewrite digit_value_digit_char by lia. f_equal.
      pose proof (Z.div_mod n base ltac:(lia)).
      rewrite Z.pow_add_r, Z.pow_1_r by lia. nia.
Qed.

Lemma digits_fuel (n : Z) : 0 <= n -> n < 2 ^ (Z.of_nat (Z.to_nat (Z.log2 n)) + 1).
Proof.
  intros Hn. rewrite Z2Nat.id by apply Z.log2_nonneg.
  destruct (Z.eq_dec n 0) as [-> | Hne]; [reflexivity|].
  replace (Z.log2 n + 1) with (Z.succ (Z.log2 n)) by lia.
  apply Z.log2_spec. lia.
Qed.

(** The digits of a number, followed by anything, read back as the number
    followed by that. *)
Lemma parse_digits_digits (base n : Z) (rest : string) :
  2 <= base <= 16 -> 0 <= n ->
  exists k, 0 <= k /\
    forall a after_digit,
      parse_digits base after_digit a (digits_aux (S (Z.to_nat (Z.log2 n))) base n rest)
      = parse_digits base true (a * base ^ k + n) rest.
Proof.
  intros Hb Hn. apply parse_digits_aux; [assumption|]. split; [assumption | now apply digits_fuel].
Qed.

Lemma digits_aux_app (base : Z) (fuel : nat) (n : Z) (acc : string) :
  digits_aux fuel base n acc = digits_aux fuel base n "" ++ acc.
Proof.
  revert n acc. induction fuel as [|fuel IH]; intros n acc; [reflexivity|].
  cbn [digits_aux]. destruct (n / base =? 0); [reflexivity|].
  rewrite IH, (IH _ (String _ "")). now rewrite append_assoc.
Qed.

(** Every character of [digits] is a digit of the base, and there is at
    least one. *)
Lemma digits_aux_chars (f : ascii -> bool) (base : Z) :
  2 <= base -> (forall d, 0 <= d < base -> f (digit_char d) = true) ->
  forall fuel n acc, 0 <= n -> all_chars f acc = true ->
    all_chars f (digits_aux fuel base n acc) = true.
Proof.
  intros Hb Hf. induction fuel as [|fuel IH]; intros n acc Hn Hacc; [exact Hacc|].
  cbn [digits_aux].
  assert (Hd : all_chars f (String (digit_char (n mod base)) acc) = true).
  { cbn. rewrite Hf by (apply Z.mod_pos_bound; lia). exact Hacc. }
  destruct (n / base =? 0); [exact Hd|]. apply IH; [apply Z.div_pos; lia | exact Hd].
Qed.

Lemma digits_nonempty (base n : Z) : exists c s, digits base n = String c s.
Proof.
  unfold digits. cbn [digits_aux].
  destruct (n / base =? 0); [eauto|].
  rewrite digits_aux_app. generalize (digits_aux (Z.to_nat (Z.log2 n)) base (n / base) "").
  intros [|c s]; cbn; eauto.
Qed.

(** *** Reversal and stripping *)

Lemma rev_string_aux_app (s acc : string) :
  rev_string_aux s acc = rev_string_aux s "" ++ acc.
Proof.
  revert acc. induction s as [|c s IH]; intros acc; [reflexivity|].
  cbn. rewrite IH, (IH (String c "")). now rewrite append_assoc.
Qed.

Lemma rev_string_cons (c : ascii) (s : string) :
  rev_string (String c s) = rev_string s ++ String c "".
Proof. unfold rev_string. cbn. apply rev_string_aux_app. Qed.

Lemma rev_string_app (s t : string) :
  rev_string (s ++ t) = rev_string t ++ rev_string s.
Proof.
  induction s as [|c s IH].
  - change (rev_string "") with "". now rewrite append_nil_r.
  - rewrite append_cons, !rev_string_cons, IH. now rewrite append_assoc.
Qed.

Lemma rev_string_involutive (s : string) : rev_string (rev_string s) = s.
Proof.
  induction s as [|c s IH]; [reflexivity|].
  rewrite rev_string_cons, rev_string_app, IH. reflexivity.
Qed.

Lemma all_chars_app (f : ascii -> bool) (s t : string) :
  all_chars f (s ++ t) = all_chars f s && all_chars f t.
Proof.
  induction s as [|c s IH]; [reflexivity|].
  rewrite append_cons. cbn [all_chars]. rewrite IH. now destruct (f c).
Qed.

Lemma all_chars_rev (f : ascii -> bool) (s : string) :
  all_chars f (rev_string s) = all_chars f s.
Proof.
  induction s as [|c s IH]; [reflexivity|].
  rewrite rev_string_cons, all_chars_app, IH. cbn. destruct (f c), (all_chars f s); reflexivity.
Qed.

Lemma lstrip_none (f : ascii -> bool) (s : string) :
  all_chars (fun c => negb (f c)) s = true -> lstrip f s = s.
Proof. destruct s as [|c s]; cbn; [reflexivity|]. destruct (f c); [discriminate | reflexivity]. Qed.

(** Text without white space is left alone by [strip()]. *)
Lemma strip_none (s : string) :
  all_chars (fun c => negb (is_space c)) s = true -> strip is_space s = s.
Proof.
  intros H. unfold strip, rstrip. rewrite (lstrip_none _ s H).
  rewrite lstrip_none by now rewrite all_chars_rev. apply rev_string_involutive.
Qed.

Lemma all_chars_impl (f g : ascii -> bool) (s : string) :
  (forall c, f c = true -> g c = true) -> all_chars f s = true -> all_chars g s = true.
Proof.
  intros Hfg. induction s as [|c s IH]; cbn; [reflexivity|].
  intros H. apply andb_true_iff in H as [Hc Hs]. now rewrite (Hfg c Hc), IH.
Qed.

(** Characters that are digits of a base up to 16. *)
Lemma digits_plain (base n : Z) :
  2 <= base <= 16 -> 0 <= n ->
  all_chars (fun c => negb (is_space c) && negb (Ascii.eqb c "-") && negb (Ascii.eqb c "+")
                      && negb (Ascii.eqb c "x") && negb (Ascii.eqb c "X")) (digits base n) = true.
Proof.
  intros Hb Hn. unfold digits. apply digits_aux_chars; [lia | | assumption | reflexivity].
  intros d Hd. destruct (digit_char_plain d ltac:(lia)) as (_ & -> & -> & -> & -> & ->).
  reflexivity.
Qed.

Lemma parse_magnitude_plain (base : Z) (s : string) :
  (forall c x s', s = String c (String x s') -> Ascii.eqb x "x" || Ascii.eqb x "X" = false) ->
  parse_magnitude base s = parse_digits base false 0 s.
Proof.
  intros H. unfold parse_magnitude. destruct s as [|c [|x s']]; try reflexivity.
  - destruct c as [[] [] [] [] [] [] [] []]; reflexivity.
  - specialize (H c x s' eq_refl).
    destruct c as [[] [] [] [] [] [] [] []]; try reflexivity.
    now rewrite H, andb_false_r.
Qed.

Lemma int_of_string_unsigned (base : Z) (s : string) :
  strip is_space s = s ->
  (forall c s', s = String c s' -> Ascii.eqb c "-" = false /\ Ascii.eqb c "+" = false) ->
  int_of_string base s = parse_magnitude base s.
Proof.
  intros Hstrip H. unfold int_of_string. rewrite Hstrip.
  destruct s as [|c s']; [reflexivity|].
  destruct (H c s' eq_refl) as [Hm Hp].
  destruct c as [[] [] [] [] [] [] [] []]; try reflexivity; discriminate.
Qed.

(** [int(s, base)] of the digits of a non-negative number. *)
Lemma int_of_string_digits (base n : Z) :
  (base = 10 \/ base = 16) -> 0 <= n -> int_of_string base (digits base n) = Some n.
Proof.
  intros Hb Hn. assert (Hb' : 2 <= base <= 16) by lia.
  pose proof (digits_plain base n Hb' Hn) as Hplain.
  destruct (parse_digits_digits base n "" Hb' Hn) as (k & Hk & Hparse).
  fold (digits base n) in Hparse.
  rewrite int_of_string_unsigned, parse_magnitude_plain, Hparse.
  - cbn. f_equal; lia.
  - intros c x s' E. rewrite E in Hplain. cbn in Hplain.
    destruct (Ascii.eqb x "x"), (Ascii.eqb x "X"); try reflexivity;
      rewrite ?andb_false_r, ?andb_false_l in Hplain; cbn in Hplain;
      rewrite ?andb_false_r in Hplain; discriminate.
  - apply strip_none. eapply all_chars_impl; [|exact Hplain].
    intros c Hc. cbv beta in Hc. destruct (is_space c); [discriminate Hc | reflexivity].
  - intros c s' E. rewrite E in Hplain. cbn in Hplain.
    destruct (Ascii.eqb c "-"), (Ascii.eqb c "+"); try (split; reflexivity);
      rewrite ?andb_false_r, ?andb_false_l in Hplain; cbn in Hplain;
      rewrite ?andb_false_r in Hplain; discriminate.
Qed.

(** [int("%d" % z)] is [z]. *)
Lemma int_of_string_fmt_d (z : Z) : int_of_string 10 (fmt_d z) = Some z.
Proof.
  unfold fmt_d, format_int.
  replace (Z.to_nat (0 - _)) with O by lia. cbn [repeat_char].
  destruct (Z.ltb_spec z 0) as [Hneg | Hpos].
  - change ("-" ++ "" ++ digits 10 (Z.abs z)) with (String "-" (digits 10 (Z.abs z))).
    pose proof (digits_plain 10 (Z.abs z) ltac:(lia) ltac:(lia)) as Hplain.
    destruct (parse_digits_digits 10 (Z.abs z) "" ltac:(lia) ltac:(lia)) as (k & Hk & Hparse).
    fold (digits 10 (Z.abs z)) in Hparse.
    unfold int_of_string. rewrite strip_none.
    2: { cbn [all_chars]. change (negb (is_space "-")) with true. cbn [andb].
         eapply all_chars_impl; [|exact Hplain]. intros c Hc. cbv beta in Hc. destruct (is_space c); [discriminate Hc | reflexivity]. }
    rewrite parse_magnitude_plain, Hparse.
    + cbn. f_equal; lia.
    + intros c x s' E. rewrite E in Hplain. cbn in Hplain.
      destruct (Ascii.eqb x "x"), (Ascii.eqb x "X"); try reflexivity;
        rewrite ?andb_false_r, ?andb_false_l in Hplain; cbn in Hplain;
        rewrite ?andb_false_r in Hplain; discriminate.
  - change ("" ++ "" ++ digits 10 (Z.abs z)) with (digits 10 (Z.abs z)).
    rewrite Z.abs_eq by lia. apply int_of_string_digits; [now left | lia].
Qed.
End PyText.

Section HexText.
Import Py.
Local Open Scope string_scope.
Local Open Scope Z_scope.

Lemma digits_aux_length (base : Z) :
  2 <= base ->
  forall fuel n acc k, 1 <= k -> 0 <= n < base ^ k ->
    Z.of_nat (String.length (digits_aux fuel base n acc)) <= k + Z.of_nat (String.length acc).
Proof.
  intros Hb. induction fuel as [|fuel IH]; intros n acc k Hk Hn; [cbn; lia|].
  cbn [digits_aux]. destruct (Z.eqb_spec (n / base) 0) as [Hq | Hq]; [cbn; lia|].
  assert (Hk2 : 2 <= k).
  { destruct (Z.eq_dec k 1) as [-> | ?]; [|lia]. rewrite Z.pow_1_r in Hn.
    rewrite Z.div_small in Hq by lia. contradiction. }
  specialize (IH (n / base) (String (digit_char (n mod base)) acc) (k - 1) ltac:(lia)).
  cbn [String.length] in IH. rewrite Nat2Z.inj_succ in IH.
  assert (0 <= n / base < base ^ (k - 1)); [|lia].
  split; [apply Z.div_pos; lia|]. apply Z.div_lt_upper_bound; [lia|].
  replace k with (1 + (k - 1)) in Hn by lia. rewrite Z.pow_add_r, Z.pow_1_r in Hn by lia. lia.
Qed.

Lemma repeat_char_length (c : ascii) (n : nat) : String.length (repeat_char c n) = n.
Proof. induction n as [|n IH]; cbn; [reflexivity | now rewrite IH]. Qed.

Lemma string_length_app (s t : string) :
  String.length (s ++ t) = (String.length s + String.length t)%nat.
Proof. induction s as [|c s IH]; [reflexivity|]. rewrite append_cons. cbn. now rewrite IH. Qed.

(** ["%04X" % t] has exactly four characters when [t] fits sixteen bits. *)
Lemma format_hex4_length (t : Z) :
  0 <= t < 65536 -> String.length (format_int 16 4 t) = 4%nat.
Proof.
  intros Ht. unfold format_int. destruct (Z.ltb_spec t 0); [lia|].
  rewrite Z.abs_eq by lia. change ("" ++ ?x) with x.
  pose proof (digits_aux_length 16 ltac:(lia) (S (Z.to_nat (Z.log2 t))) t "" 4
                ltac:(lia) ltac:(lia)) as Hlen.
  fold (digits 16 t) in Hlen. cbn [String.length] in Hlen.
  rewrite string_length_app, repeat_char_length. cbn [String.length]. lia.
Qed.

Lemma parse_digits_zeros (base : Z) (k : nat) (after_digit : bool) (s : string) :
  2 <= base <= 16 ->
  parse_digits base after_digit 0 (repeat_char "0" k ++ s)
  = parse_digits base (after_digit || negb (k =? 0)%nat) 0 s.
Proof.
  intros Hb. revert after_digit. induction k as [|k IH]; intros ad.
  - cbn. now rewrite orb_false_r.
  - cbn [repeat_char]. rewrite append_cons. cbn [parse_digits].
    change (Ascii.eqb "0" "_") with false. cbn iota.
    assert (Hz : digit_value base "0" = Some 0).
    { change "0"%char with (digit_char 0). apply digit_value_digit_char; lia. }
    rewrite Hz, Z.mul_0_l, Z.add_0_l, IH. cbn. now rewrite orb_true_r.
Qed.

Lemma all_chars_repeat (f : ascii -> bool) (c : ascii) (n : nat) :
  f c = true -> all_chars f (repeat_char c n) = true.
Proof. intros Hc. induction n as [|n IH]; cbn; [reflexivity | now rewrite Hc, IH]. Qed.

(** [int("%0<w>X" % t, 16)] is [t] for a non-negative [t]. *)
Lemma int_of_string_format_hex (width t : Z) :
  0 <= t -> int_of_string 16 (format_int 16 width t) = Some t.
Proof.
  intros Ht. unfold format_int. destruct (Z.ltb_spec t 0); [lia|].
  rewrite Z.abs_eq by lia. change ("" ++ ?x) with x.
  set (zeros := repeat_char "0" _).
  pose proof (digits_plain 16 t ltac:(lia) Ht) as Hplain.
  assert (Hall : all_chars (fun c => negb (is_space c) && negb (Ascii.eqb c "-")
                                     && negb (Ascii.eqb c "+") && negb (Ascii.eqb c "x")
                                     && negb (Ascii.eqb c "X")) (zeros ++ digits 16 t) = true).
  { rewrite all_chars_app, Hplain, andb_true_r. now apply all_chars_repeat. }
  destruct (parse_digits_digits 16 t "" ltac:(lia) Ht) as (k & Hk & Hparse).
  fold (digits 16 t) in Hparse.
  rewrite int_of_string_unsigned, parse_magnitude_plain.
  - subst zeros. rewrite parse_digits_zeros, Hparse by lia. cbn. f_equal; lia.
  - intros c x s' E. rewrite E in Hall. cbn in Hall.
    destruct (Ascii.eqb x "x"), (Ascii.eqb x "X"); try reflexivity;
      rewrite ?andb_false_r, ?andb_false_l in Hall; cbn in Hall;
      rewrite ?andb_false_r in Hall; discriminate.
  - apply strip_none. eapply all_chars_impl; [|exact Hall].
    intros c Hc. cbv beta in Hc. destruct (is_space c); [discriminate Hc | reflexivity].
  - intros c s' E. rewrite E in Hall. cbn in Hall.
    destruct (Ascii.eqb c "-"), (Ascii.eqb c "+"); try (split; reflexivity);
      rewrite ?andb_false_r, ?andb_false_l in Hall; cbn in Hall;
      rewrite ?andb_false_r in Hall; discriminate.
Qed.

Lemma format_hex_no_minus (width t : Z) :
  0 <= t -> all_chars (fun c => negb (Ascii.eqb c "-")) (format_int 16 width t) = true.
Proof.
  intros Ht. unfold format_int. destruct (Z.ltb_spec t 0); [lia|].
  rewrite Z.abs_eq by lia. change ("" ++ ?x) with x.
  rewrite all_chars_app, all_chars_repeat by reflexivity.
  eapply all_chars_impl; [|apply (digits_plain 16 t); lia].
  intros c Hc. cbv beta in Hc. destruct (Ascii.eqb c "-"); [|reflexivity].
  rewrite andb_false_r in Hc. cbn in Hc. discriminate.
Qed.

Lemma take_chars_app (s t : string) : take_chars (String.length s) (s ++ t) = s.
Proof.
  induction s as [|c s IH]; [now destruct t|]. rewrite append_cons. cbn. now rewrite IH.
Qed.

(** A piece of [split] starts with what has been read so far. *)
Lemma split_aux_head (sep : string) (s cur : string) :
  exists piece more, split_aux sep O cur s = (cur ++ piece) :: more.
Proof.
  revert cur. induction s as [|c s IH]; intros cur; cbn [split_aux].
  - exists "", []. now rewrite append_nil_r.
  - destruct (String.prefix sep (String c s)).
    + exists "". eexists. now rewrite append_nil_r.
    + destruct (IH (cur ++ String c "")) as (piece & more & ->).
      exists (String c piece), more. now rewrite append_assoc.
Qed.

(** Characters other than [-] cannot start the separator ["-> @"]. *)
Lemma split_aux_no_minus (h cur rest : string) :
  all_chars (fun c => negb (Ascii.eqb c "-")) h = true ->
  split_aux "-> @" O cur (h ++ rest) = split_aux "-> @" O (cur ++ h) rest.
Proof.
  revert cur. induction h as [|c h IH]; intros cur Hh.
  - now rewrite append_nil_r.
  - rewrite append_cons. cbn [split_aux]. cbn [all_chars] in Hh.
    apply andb_true_iff in Hh as [Hc Hh].
    assert (Hp : String.prefix "-> @" (String c (h ++ rest)) = false).
    { change (String.prefix "-> @" (String c (h ++ rest)))
        with (if ascii_dec "-"%char c then String.prefix "> @" (h ++ rest) else false).
      destruct (ascii_dec "-"%char c) as [<- | _]; [discriminate Hc | reflexivity]. }
    rewrite Hp, IH by assumption. now rewrite append_assoc.
Qed.
End HexText.

Section JumpTargets.
Import Py Disasm Reconstructor.
Local Open Scope string_scope.
Local Open Scope Z_scope.

Lemma prefix_arrow (x : string) :
  String.prefix "-> @" (String "-" (String ">" (String " " (String "@" x)))) = true.
Proof. cbn. now destruct x. Qed.

(** The reconstructor reads back the target that follows ["-> @"]. *)
Lemma collect_jump_targets_head (inst : Instruction) (rest : list Instruction)
    (target : Z) (suffix : string) :
  0 <= target < 65536 ->
  i_comment inst = "-> @" ++ format_int 16 4 target ++ suffix ->
  collect_jump_targets (inst :: rest)
  = match collect_jump_targets rest with
    | Ok targets => Ok (target :: targets)
    | other => other
    end.
Proof.
  intros Ht Hc. cbn [collect_jump_targets]. rewrite Hc.
  set (hex := format_int 16 4 target).
  change ("-> @" ++ hex ++ suffix)
    with (String "-" (String ">" (String " " (String "@" (hex ++ suffix))))).
  cbn [contains]. rewrite prefix_arrow. cbn [orb].
  unfold split. cbn [split_aux]. rewrite prefix_arrow. cbn [split_aux String.length Nat.sub].
  rewrite split_aux_no_minus by (apply format_hex_no_minus; lia).
  destruct (split_aux_head "-> @" suffix ("" ++ hex)) as (piece & more & ->).
  change ("" ++ hex) with hex.
  rewrite <- (format_hex4_length target Ht). fold hex.
  rewrite take_chars_app. subst hex. now rewrite int_of_string_format_hex by lia.
Qed.
End JumpTargets.

(** ** What the reconstructor reads back from a listing (v6/disasm.py, reconstructor.py) *)

Section JumpComments.
Import Py Disasm Reconstructor.
Local Open Scope string_scope.
Local Open Scope Z_scope.

Lemma jump_is_not_typeof (base : string) :
  str_in base FORWARD_JUMPS = true \/ str_in base BACKWARD_JUMPS = true ->
  String.eqb base "TestTypeOf" = false
  /\ (str_in base BACKWARD_JUMPS = true -> str_in base FORWARD_JUMPS = false).
Proof.
  unfold str_in, FORWARD_JUMPS, BACKWARD_JUMPS. cbn [existsb].
  intros [H | H];
    repeat (apply orb_true_iff in H as [H | H];
            [apply String.eqb_eq in H; subst base;
             split; [reflexivity
                    | intros Hx; first [reflexivity | vm_compute in Hx; discriminate Hx]]|]);
    discriminate H.
Qed.

(** X16. The reconstructor reads back the jump target that the disassembler
    wrote. For a forward or backward jump with an unsigned immediate val
    whose target, inst_start + val or inst_start - val, lies in 0..65535,
    the comment built by the disassembler (whatever constant-pool text
    follows the target) makes the label collection of reconstruct_js add
    exactly that target. *)
Theorem jump_target_comment_is_read_back (mnemonic : string) (inst_start : Z)
    (operands : list (OperandType * OperandVal)) (constant_pool : option (list CPItem))
    (comment operands_str : string) (raw : list byte) (val target : Z)
    (rest : list Instruction) :
  first_operand kUImm (fun _ => true) operands = Some val ->
  (str_in (base_of mnemonic) FORWARD_JUMPS = true /\ target = inst_start + val)
  \/ (str_in (base_of mnemonic) BACKWARD_JUMPS = true /\ target = inst_start - val) ->
  0 <= target < 65536 ->
  build_comment mnemonic inst_start operands constant_pool = Ok comment ->
  collect_jump_targets
    ({| i_offset := inst_start; i_mnemonic := mnemonic; i_operands := operands_str;
        i_raw := raw; i_comment := comment |} :: rest)
  = match collect_jump_targets rest with
    | Ok targets => Ok (target :: targets)
    | other => other
    end.
Proof.
  intros Hval Hdir Ht Hbuild.
  assert (Hcomment : exists suffix, comment = "-> @" ++ format_int 16 4 target ++ suffix).
  { unfold build_comment in Hbuild. remember (base_of mnemonic) as base eqn:Hbase.
    destruct (jump_is_not_typeof base) as [Hty Hback]; [tauto|].
    rewrite Hty, Hval in Hbuild.
    assert (Hjump : (if str_in base FORWARD_JUMPS
                     then "-> @" ++ format_int 16 4 (inst_start + val)
                     else if str_in base BACKWARD_JUMPS
                          then "-> @" ++ format_int 16 4 (inst_start - val) else "")
                    = "-> @" ++ format_int 16 4 target).
    { destruct Hdir as [[Hf ->] | [Hb ->]]; [now rewrite Hf | now rewrite (Hback Hb), Hb]. }
    rewrite Hjump in Hbuild.
    destruct constant_pool as [items|].
    - destruct (first_operand kIdx _ operands) as [idx|].
      + destruct (getitem items idx) as [cp_val|]; [|discriminate].
        injection Hbuild as <-. exists (cp_comment cp_val). apply append_assoc.
      + injection Hbuild as <-. exists "". now rewrite append_nil_r.
    - injection Hbuild as <-. exists "". now rewrite append_nil_r. }
  destruct Hcomment as [suffix ->].
  now apply (collect_jump_targets_head _ rest target suffix).
Qed.
End JumpComments.

Section OperandText.
Import Py Disasm Reconstructor.
Local Open Scope string_scope.
Local Open Scope Z_scope.


Lemma split_ws_aux_word (w cur rest : string) :
  all_chars (fun c => negb (is_space c)) w = true ->
  split_ws_aux cur (w ++ rest) = split_ws_aux (cur ++ w) rest.
Proof.
  revert cur. induction w as [|c w IH]; intros cur Hw.
  - now rewrite append_nil_r.
  - rewrite append_cons. cbn [split_ws_aux]. cbn [all_chars] in Hw.
    apply andb_true_iff in Hw as [Hc Hw]. apply negb_true_iff in Hc.
    rewrite Hc, IH by assumption. now rewrite append_assoc.
Qed.

(** [" ".join(words).split()] gives the words back when none of them is
    empty or contains white space. *)
Lemma split_ws_join (words : list string) :
  Forall (fun w => w <> "" /\ all_chars (fun c => negb (is_space c)) w = true) words ->
  split_ws (join " " words) = words.
Proof.
  unfold split_ws. induction 1 as [|w rest [Hne Hw] Hrest IH]; [reflexivity|].
  destruct rest as [|w' rest'].
  - cbn [join]. rewrite <- (append_nil_r w) at 1. rewrite split_ws_aux_word by assumption.
    cbn [split_ws_aux]. change ("" ++ w) with w. destruct w; [contradiction | reflexivity].
  - change (join " " (w :: w' :: rest')) with (w ++ String " " (join " " (w' :: rest'))).
    rewrite split_ws_aux_word by assumption. cbn [split_ws_aux].
    change (is_space " ") with true. cbn iota. change ("" ++ w) with w.
    destruct w; [contradiction|]. now rewrite IH.
Qed.

Lemma join_nonempty (w : string) (rest : list string) :
  w <> "" -> join " " (w :: rest) <> "".
Proof.
  intros Hw. destruct w as [|c w]; [contradiction|].
  destruct rest; cbn [join]; [discriminate|]. rewrite append_cons. discriminate.
Qed.

Lemma prefix_nil (s : string) : String.prefix "" s = true.
Proof. now destruct s. Qed.

(** [rstrip] and [strip] leave alone a text that ends and starts with
    other characters. *)
Lemma rstrip_last (f : ascii -> bool) (s : string) (c : ascii) :
  f c = false -> rstrip f (s ++ String c "") = s ++ String c "".
Proof.
  intros Hc. unfold rstrip. rewrite rev_string_app.
  change (rev_string (String c "")) with (String c ""). rewrite append_cons.
  cbn [lstrip]. rewrite Hc. rewrite <- append_cons.
  change (String c "") with (rev_string (String c "")) at 1.
  now rewrite <- rev_string_app, rev_string_involutive.
Qed.

(** What [rstrip] keeps is the front of the text. *)
Lemma lstrip_suffix (f : ascii -> bool) (s : string) : exists t, s = t ++ lstrip f s.
Proof.
  induction s as [|c s [t IH]]; [now exists ""|]. cbn [lstrip].
  destruct (f c); [|now exists ""]. exists (String c t). now rewrite append_cons, <- IH.
Qed.

Lemma rstrip_prefix (f : ascii -> bool) (s : string) : exists t, s = rstrip f s ++ t.
Proof.
  unfold rstrip. destruct (lstrip_suffix f (rev_string s)) as [t Ht].
  exists (rev_string t).
  rewrite <- rev_string_app, <- Ht. now rewrite rev_string_involutive.
Qed.

Lemma startswith_app (s t : string) (c : ascii) :
  startswith s (String c "") = true -> startswith (s ++ t) (String c "") = true.
Proof.
  unfold startswith. destruct s as [|d s]; [discriminate|]. rewrite append_cons.
  cbn. destruct (ascii_dec c d); [intros _; apply prefix_nil | discriminate].
Qed.

(** A cleaned operand starts with a bracket only if the operand did. *)
Lemma clean_op_bracket (r : string) :
  all_chars (fun c => negb (is_space c)) r = true ->
  startswith r "[" = false -> startswith (_clean_op r) "[" = false.
Proof.
  intros Hr Hstart. unfold _clean_op.
  destruct (rstrip_prefix (is_char ",") r) as [t Ht].
  assert (Hns : all_chars (fun c => negb (is_space c)) (rstrip (is_char ",") r) = true).
  { rewrite Ht, all_chars_app in Hr. now apply andb_true_iff in Hr as [? _]. }
  rewrite strip_none by assumption.
  destruct (startswith (rstrip (is_char ",") r) "[") eqn:E; [|reflexivity].
  apply (startswith_app _ t) in E. rewrite <- Ht in E. congruence.
Qed.

(** The text of an integer between brackets, as the disassembler prints
    immediates and indexes. *)
Lemma fmt_d_plain (v : Z) :
  all_chars (fun c => negb (is_space c)) (fmt_d v) = true /\ fmt_d v <> "".
Proof.
  unfold fmt_d, format_int. replace (Z.to_nat (0 - _)) with O by lia. cbn [repeat_char].
  assert (Hd : all_chars (fun c => negb (is_space c)) (digits 10 (Z.abs v)) = true).
  { eapply all_chars_impl; [|apply (digits_plain 10 (Z.abs v)); lia].
    intros c Hc. cbv beta in Hc. destruct (is_space c); [discriminate Hc | reflexivity]. }
  destruct (digits_nonempty 10 (Z.abs v)) as (c & s & E).
  destruct (v <? 0).
  - change ("-" ++ "" ++ digits 10 (Z.abs v)) with (String "-" (digits 10 (Z.abs v))).
    split; [cbn [all_chars]; now rewrite Hd | discriminate].
  - change ("" ++ "" ++ digits 10 (Z.abs v)) with (digits 10 (Z.abs v)).
    split; [exact Hd | rewrite E; discriminate].
Qed.

Lemma bracketed_clean (v : Z) : _clean_op ("[" ++ fmt_d v ++ "]") = "[" ++ fmt_d v ++ "]".
Proof.
  unfold _clean_op.
  replace ("[" ++ fmt_d v ++ "]") with (("[" ++ fmt_d v) ++ String "]" "")
    by now rewrite append_assoc.
  rewrite rstrip_last by reflexivity.
  apply strip_none. rewrite all_chars_app. destruct (fmt_d_plain v) as [Hp _].
  change ("[" ++ fmt_d v) with (String "[" (fmt_d v)). cbn [all_chars].
  now rewrite Hp.
Qed.

Lemma bracketed_value (v : Z) :
  let c := "[" ++ fmt_d v ++ "]" in
  startswith c "[" = true /\ endswith c "]" = true
  /\ int_of_string 10 (strip_ends 1 1 c) = Some v.
Proof.
  cbn zeta. split; [|split].
  - change ("[" ++ fmt_d v ++ "]") with (String "[" (fmt_d v ++ "]")).
    unfold startswith. cbn. apply prefix_nil.
  - unfold endswith.
    replace ("[" ++ fmt_d v ++ "]") with (("[" ++ fmt_d v) ++ String "]" "")
      by now rewrite append_assoc.
    rewrite rev_string_app. change (rev_string "]") with "]".
    change (rev_string (String "]" "")) with (String "]" ""). rewrite append_cons.
    cbn. apply prefix_nil.
  - unfold strip_ends.
    change ("[" ++ fmt_d v ++ "]") with (String "[" (fmt_d v ++ "]")).
    cbn [drop_chars String.length].
    rewrite string_length_app. cbn [String.length].
    replace (S (String.length (fmt_d v) + 1) - 1 - 1)%nat with (String.length (fmt_d v)) by lia.
    rewrite take_chars_app. apply int_of_string_fmt_d.
Qed.

(** X17. When the operand text of an instruction is a space-separated list
    of words in which the first word that starts with '[' is '[%d]' of an
    integer v, _get_imm and _get_idx applied to the parsed operands both
    return v, negative values included. *)
Theorem printed_immediate_is_read_back (inst : Instruction) (regs more : list string) (v : Z) :
  i_operands inst = join " " (regs ++ ("[" ++ fmt_d v ++ "]")%string :: more)%list ->
  Forall (fun w => w <> "" /\ all_chars (fun c => negb (is_space c)) w = true) (regs ++ more)%list ->
  Forall (fun r => startswith r "[" = false) regs ->
  _get_imm (_parse_operands inst) = v /\ _get_idx (_parse_operands inst) = v.
Proof.
  intros Hops Hwords Hregs.
  assert (Hparse : _parse_operands inst
                   = (regs ++ ("[" ++ fmt_d v ++ "]")%string :: more)%list).
  { unfold _parse_operands. rewrite Hops.
    apply Forall_app in Hwords as [Hr Hm].
    assert (Hall : Forall (fun w => w <> "" /\ all_chars (fun c => negb (is_space c)) w = true)
                     (regs ++ ("[" ++ fmt_d v ++ "]")%string :: more)%list).
    { apply Forall_app. split; [exact Hr|]. constructor; [|exact Hm].
      destruct (fmt_d_plain v) as [Hp _]. split; [discriminate|].
      change ("[" ++ fmt_d v ++ "]") with (String "[" (fmt_d v ++ "]")).
      cbn [all_chars]. rewrite all_chars_app, Hp. reflexivity. }
    rewrite split_ws_join by exact Hall.
    destruct (String.eqb_spec (join " " (regs ++ ("[" ++ fmt_d v ++ "]")%string :: more)%list) "")
      as [E | _]; [|reflexivity].
    exfalso. destruct regs as [|r regs'].
    - revert E. apply join_nonempty. discriminate.
    - revert E. apply join_nonempty. apply Forall_inv in Hr. tauto. }
  unfold _get_idx. rewrite Hparse.
  enough (_get_imm (regs ++ ("[" ++ fmt_d v ++ "]")%string :: more)%list = v) by now split.
  apply Forall_app in Hwords as [Hr _]. clear Hops Hparse.
  induction regs as [|r regs IH].
  - cbn [app _get_imm]. rewrite bracketed_clean.
    destruct (bracketed_value v) as (-> & -> & ->). reflexivity.
  - cbn [app _get_imm].
    pose proof (Forall_inv Hregs) as Hstart. destruct (Forall_inv Hr) as [_ Hns].
    rewrite (clean_op_bracket r Hns Hstart). cbn [andb].
    apply IH; [exact (Forall_inv_tail Hr) | exact (Forall_inv_tail Hregs)].
Qed.
End OperandText.

Section RegisterNames.
Import Py Disasm Reconstructor.
Local Open Scope string_scope.
Local Open Scope Z_scope.

Lemma fmt_d_nonneg (n : Z) : 0 <= n -> fmt_d n = digits 10 n.
Proof.
  intros Hn. unfold fmt_d, format_int. destruct (Z.ltb_spec n 0); [lia|].
  replace (Z.to_nat (0 - _)) with O by lia. now rewrite Z.abs_eq by lia.
Qed.

Lemma isdigit_fmt_d (n : Z) : 0 <= n -> isdigit (fmt_d n) = true.
Proof.
  intros Hn. rewrite fmt_d_nonneg by assumption.
  destruct (digits_nonempty 10 n) as (c & s & E). unfold isdigit. rewrite E, <- E.
  unfold digits. apply digits_aux_chars; [lia | | assumption | reflexivity].
  apply digit_char_decimal.
Qed.

(** What [_reg_to_name] does with a register name [a<idx>] or [r<idx>]. *)
Lemma reg_to_name_parameter (idx : Z) (params stack_locals : list string) (first : Z) :
  0 <= idx ->
  _reg_to_name ("a" ++ fmt_d idx) params stack_locals first
  = let rev_idx := len params - 1 - idx in
    if (0 <=? rev_idx) && (rev_idx <? len params)
    then default ("a" ++ fmt_d idx) (getitem params rev_idx)
    else "a" ++ fmt_d idx.
Proof.
  intros Hidx. unfold _reg_to_name.
  change ("a" ++ fmt_d idx) with (String "a" (fmt_d idx)).
  change (String.eqb (String "a" (fmt_d idx)) "<this>") with false.
  change (str_in (String "a" (fmt_d idx)) ["<closure>"; "<context>"]) with false.
  cbn iota.
  assert (Hstart : startswith (String "a" (fmt_d idx)) "a" = true) by (cbn; apply prefix_nil).
  rewrite Hstart. cbn [drop_chars andb].
  now rewrite isdigit_fmt_d, int_of_string_fmt_d by assumption.
Qed.

Lemma reg_to_name_local (idx : Z) (params stack_locals : list string) (first : Z) :
  0 <= idx ->
  _reg_to_name ("r" ++ fmt_d idx) params stack_locals first
  = let slot := idx - first in
    if (0 <=? slot) && (slot <? len stack_locals) then
      match getitem stack_locals slot with
      | Some name =>
          if negb (String.eqb name "") && negb (String.eqb name "empty_string")
          then replace " " "_" (replace "." "_" name)
          else "r" ++ fmt_d idx
      | None => "r" ++ fmt_d idx
      end
    else "r" ++ fmt_d idx.
Proof.
  intros Hidx. unfold _reg_to_name.
  change ("r" ++ fmt_d idx) with (String "r" (fmt_d idx)).
  change (String.eqb (String "r" (fmt_d idx)) "<this>") with false.
  change (str_in (String "r" (fmt_d idx)) ["<closure>"; "<context>"]) with false.
  cbn iota.
  change (startswith (String "r" (fmt_d idx)) "a") with false. cbn [andb].
  assert (Hstart : startswith (String "r" (fmt_d idx)) "r" = true) by (cbn; apply prefix_nil).
  rewrite Hstart. cbn [drop_chars andb].
  now rewrite isdigit_fmt_d, int_of_string_fmt_d by assumption.
Qed.

(** X18. Register bytes resolve to the names of the scope. Byte i + 2 (i <=
    125), printed a<i> by _byte_to_register, is resolved by _reg_to_name to
    the i-th parameter counted from the last; byte 251 - (first_slot + j),
    printed r<first_slot + j>, is resolved to the j-th stack local with dots
    and spaces replaced by underscores, when that name is neither empty nor
    empty_string and the register index is in 0..123. *)
Theorem register_bytes_resolve_to_names (params stack_locals : list string) (first : Z) :
  (forall (i : nat) (name : string),
      reverse params !! i = Some name -> (i <= 125)%nat ->
      _reg_to_name (_byte_to_register (Z.of_nat i + 2)) params stack_locals first = name)
  /\ (forall (j : nat) (name : string),
        stack_locals !! j = Some name ->
        name <> "" -> name <> "empty_string" ->
        0 <= first + Z.of_nat j <= 123 ->
        _reg_to_name (_byte_to_register (251 - (first + Z.of_nat j))) params stack_locals first
        = replace " " "_" (replace "." "_" name)).
Proof.
  split.
  - intros i name Hi Hle.
    assert (Hreg : _byte_to_register (Z.of_nat i + 2) = "a" ++ fmt_d (Z.of_nat i)).
    { unfold _byte_to_register.
      destruct (Z.eqb_spec (Z.of_nat i + 2) 0); [lia|].
      destruct (Z.eqb_spec (Z.of_nat i + 2) 1); [lia|].
      destruct (Z.leb_spec 2 (Z.of_nat i + 2)); [|lia].
      destruct (Z.leb_spec (Z.of_nat i + 2) 127); [|lia].
      cbn [andb]. do 2 f_equal. lia. }
    rewrite Hreg, reg_to_name_parameter by lia. cbn zeta.
    apply reverse_lookup_Some in Hi as [Hi Hlt].
    unfold len, getitem.
    destruct (Z.leb_spec 0 (Z.of_nat (length params) - 1 - Z.of_nat i)); [|lia].
    destruct (Z.ltb_spec (Z.of_nat (length params) - 1 - Z.of_nat i) (Z.of_nat (length params)));
      [|lia].
    cbn [andb].
    replace (Z.to_nat (Z.of_nat (length params) - 1 - Z.of_nat i))
      with (length params - S i)%nat by lia.
    now rewrite Hi.
  - intros j name Hj Hne Hnes Hrange.
    assert (Hreg : _byte_to_register (251 - (first + Z.of_nat j))
                   = "r" ++ fmt_d (first + Z.of_nat j)).
    { unfold _byte_to_register.
      destruct (Z.eqb_spec (251 - (first + Z.of_nat j)) 0); [lia|].
      destruct (Z.eqb_spec (251 - (first + Z.of_nat j)) 1); [lia|].
      destruct (Z.leb_spec 2 (251 - (first + Z.of_nat j))); [|lia].
      destruct (Z.leb_spec (251 - (first + Z.of_nat j)) 127); [lia|].
      cbn [andb].
      destruct (Z.leb_spec 128 (251 - (first + Z.of_nat j))); [|lia].
      destruct (Z.leb_spec (251 - (first + Z.of_nat j)) 251); [|lia].
      cbn [andb]. do 2 f_equal. lia. }
    rewrite Hreg, reg_to_name_local by lia. cbn zeta.
    apply lookup_lt_Some in Hj as Hlt.
    replace (first + Z.of_nat j - first) with (Z.of_nat j) by lia.
    unfold len, getitem.
    destruct (Z.leb_spec 0 (Z.of_nat j)); [|lia].
    destruct (Z.ltb_spec (Z.of_nat j) (Z.of_nat (length stack_locals))); [|lia].
    cbn [andb]. rewrite Nat2Z.id, Hj.
    destruct (String.eqb_spec name ""); [contradiction|].
    destruct (String.eqb_spec name "empty_string"); [contradiction|]. reflexivity.
Qed.
End RegisterNames.

Section ReadBackExamples.
Import Py Disasm Reconstructor Samples Fixtures.
Local Open Scope string_scope.
Local Open Scope Z_scope.

Lemma jump_target_comment_is_read_back_witness :
  collect_jump_targets [jump_at_10] = Ok [15].
Proof.
  apply (jump_target_comment_is_read_back "JumpIfTrue" 10 [(kUImm, OInt 5)] None
           "-> @000F" "[5]" (bytes [0x85; 0x05]) 5 15 []).
  - reflexivity.
  - left. split; reflexivity.
  - lia.
  - reflexivity.
Defined.

Lemma printed_immediate_is_read_back_witness :
  _get_imm (_parse_operands add_r0_5) = 5 /\ _get_idx (_parse_operands add_r0_5) = 5.
Proof.
  apply (printed_immediate_is_read_back add_r0_5 ["r0"] [] 5).
  - reflexivity.
  - repeat constructor. discriminate.
  - repeat constructor.
Defined.

(** With parameters [x, y] and the stack local [l.a b] at slot 0: [a0] is
    the last parameter, [r0] the local with its name cleaned, and a
    register without a name keeps its text. *)
Example register_names_of_a_scope :
  _reg_to_name (_byte_to_register 2) ["x"; "y"] ["l.a b"] 0 = "y"
  /\ _reg_to_name (_byte_to_register 3) ["x"; "y"] ["l.a b"] 0 = "x"
  /\ _reg_to_name (_byte_to_register 251) ["x"; "y"] ["l.a b"] 0 = "l_a_b"
  /\ _reg_to_name (_byte_to_register 250) ["x"; "y"] ["l.a b"] 0 = "r1".
Proof. vm_compute. repeat split. Qed.

End ReadBackExamples.

Section RegisterText.
Import Py Disasm.
Local Open Scope string_scope.
Local Open Scope Z_scope.

Lemma fmt_d_inj (x y : Z) : fmt_d x = fmt_d y -> x = y.
Proof.
  intros H. pose proof (int_of_string_fmt_d x) as Hx. rewrite H, int_of_string_fmt_d in Hx.
  now injection Hx.
Qed.

Lemma append_length (s t : string) :
  String.length (s ++ t) = (String.length s + String.length t)%nat.
Proof. induction s as [|c s IH]; [reflexivity|]. rewrite append_cons. cbn. now rewrite IH. Qed.

Lemma append_cancel_r (s t u : string) : s ++ u = t ++ u -> s = t.
Proof.
  revert t. induction s as [|c s IH]; intros [|d t] H.
  - reflexivity.
  - apply (f_equal String.length) in H. rewrite !append_length in H. cbn in H. lia.
  - apply (f_equal String.length) in H. rewrite !append_length in H. cbn in H. lia.
  - rewrite !append_cons in H. injection H as -> H. f_equal. now apply IH.
Qed.

(** X19. _byte_to_register gives different texts to different integers: no
    two operand bytes (and no two values outside 0..255 either) are printed
    as the same register name. *)
Theorem register_names_are_distinct (val1 val2 : Z) :
  val1 <> val2 -> _byte_to_register val1 <> _byte_to_register val2.
Proof.
  intros Hne H. apply Hne. clear Hne. unfold _byte_to_register in H.
  repeat match type of H with
         | context [Z.eqb ?a ?b] => destruct (Z.eqb_spec a b)
         | context [andb (Z.leb ?a ?b) (Z.leb ?c ?d)] =>
             destruct (Z.leb_spec a b), (Z.leb_spec c d); cbn [andb] in H
         end;
    try lia;
    repeat match type of H with
           | context [String.append (String ?c ?s) ?t] =>
               change (String.append (String c s) t) with (String c (String.append s t)) in H
           | context [String.append EmptyString ?t] =>
               change (String.append EmptyString t) with t in H
           end;
    try discriminate H;
    injection H as H;
    try apply append_cancel_r in H;
    apply fmt_d_inj in H; lia.
Qed.
End RegisterText.

Section RegisterTextExamples.
Import Py Disasm.
Local Open Scope string_scope.
Local Open Scope Z_scope.

Lemma register_names_are_distinct_witness :
  _byte_to_register 2 <> _byte_to_register 251.
Proof. apply (register_names_are_distinct 2 251). lia. Defined.

Example register_names_at_the_borders :
  map _byte_to_register [0; 1; 2; 127; 128; 251; 252; 253; 254; -1]
  = ["Wide"; "ExtraWide"; "a0"; "a125"; "r123"; "r0"; "_closure"; "_context";
     "??(254)"; "??(-1)"].
Proof. reflexivity. Qed.

End RegisterTextExamples.

(** ** Declared locals (output_formatter.py) *)

Section FormatterFacts.
Import Py Disasm Structs Formatter.
Local Open Scope string_scope.

Lemma str_in_In (x : string) (names : list string) : str_in x names = true <-> In x names.
Proof.
  unfold str_in. rewrite existsb_exists. split.
  - intros (y & Hy & Heq). apply String.eqb_eq in Heq. now subst.
  - intros H. exists x. split; [exact H | apply String.eqb_refl].
Qed.

Lemma replace_char_map (c d : ascii) (s : string) :
  replace (String c "") (String d "") s
  = map_chars (fun x => if Ascii.eqb x c then d else x) s.
Proof.
  unfold replace. induction s as [|x s IH]; [reflexivity|].
  cbn [replace_aux map_chars String.length Nat.sub].
  rewrite prefix_single, IH. now destruct (Ascii.eqb x c).
Qed.

Lemma map_chars_no_char (c d : ascii) (s : string) :
  c <> d -> has_char c (map_chars (fun x => if Ascii.eqb x c then d else x) s) = false.
Proof.
  intros Hne. induction s as [|x s IH]; [reflexivity|].
  cbn [map_chars has_char]. rewrite IH, orb_false_r.
  destruct (Ascii.eqb_spec x c) as [-> | Hx].
  - now apply Ascii.eqb_neq.
  - apply Ascii.eqb_neq. congruence.
Qed.

Lemma map_chars_keeps_no_char (c e d : ascii) (s : string) :
  c <> d -> has_char c s = false ->
  has_char c (map_chars (fun x => if Ascii.eqb x e then d else x) s) = false.
Proof.
  intros Hne. induction s as [|x s IH]; intros Hs; [reflexivity|].
  cbn [has_char] in Hs. apply orb_false_elim in Hs as [Hx Hs].
  cbn [map_chars has_char]. rewrite (IH Hs), orb_false_r.
  destruct (Ascii.eqb x e); [now apply Ascii.eqb_neq | exact Hx].
Qed.

Lemma map_chars_empty (f : ascii -> ascii) (s : string) : map_chars f s = "" <-> s = "".
Proof. destruct s; cbn; split; congruence. Qed.

(** The cleaned form of a name has neither dot nor space, and is empty
    only for the empty name. *)
Lemma cleaned_name (l : string) :
  let clean := replace " " "_" (replace "." "_" l) in
  has_char "." clean = false /\ has_char " " clean = false /\ (clean = "" <-> l = "").
Proof.
  cbn zeta. rewrite !replace_char_map. split; [|split].
  - apply map_chars_keeps_no_char; [discriminate|]. apply map_chars_no_char. discriminate.
  - apply map_chars_no_char. discriminate.
  - now rewrite !map_chars_empty.
Qed.

(** X20. The names that format_js_output declares in the 'var' line of a
    function have no repetition; a name is declared exactly when it is the
    cleaned form (dots and spaces replaced by underscores) of a stack local
    that is not empty, not empty_string and not itself a parameter; and no
    declared name is empty or contains a dot or a space. *)
Theorem declared_locals_are_distinct_clean_names (params stack_locals : list string) :
  NoDup (declared_locals params stack_locals)
  /\ (forall name,
        In name (declared_locals params stack_locals)
        <-> exists l, In l stack_locals /\ l <> "" /\ l <> "empty_string" /\ ~ In l params
                      /\ name = replace " " "_" (replace "." "_" l))
  /\ (forall name,
        In name (declared_locals params stack_locals) ->
        name <> "" /\ has_char "." name = false /\ has_char " " name = false).
Proof.
  set (keep := fun l => l <> "" /\ l <> "empty_string" /\ ~ In l params).
  set (clean := fun l => replace " " "_" (replace "." "_" l)).
  assert (Hgen : forall locals acc,
            NoDup acc ->
            let out := fold_left (fun locals_list l =>
               if negb (String.eqb l "") && negb (String.eqb l "empty_string")
                  && negb (str_in l params)
               then
                 let clean := replace " " "_" (replace "." "_" l) in
                 if negb (String.eqb clean "") && negb (str_in clean locals_list)
                 then (locals_list ++ [clean])%list
                 else locals_list
               else locals_list) locals acc in
            NoDup out
            /\ forall name, In name out
                 <-> In name acc \/ exists l, In l locals /\ keep l /\ name = clean l).
  { induction locals as [|l locals IH]; intros acc Hacc.
    - cbn. split; [exact Hacc|]. intros name. split; [auto|].
      intros [H | (l & [] & _)]. exact H.
    - cbn [fold_left].
      destruct (String.eqb_spec l "") as [Hl | Hl]; cbn [negb andb].
      { destruct (IH acc Hacc) as [Hnd Hin]. split; [exact Hnd|].
        intros name. rewrite Hin. split; intros [H | (x & Hx & Hk & Hn)]; auto.
        - right. exists x. cbn [In]. auto.
        - destruct Hx as [<- | Hx]; [destruct Hk as [Hk _]; contradiction|].
          right. exists x. auto. }
      destruct (String.eqb_spec l "empty_string") as [He | He]; cbn [negb andb].
      { destruct (IH acc Hacc) as [Hnd Hin]. split; [exact Hnd|].
        intros name. rewrite Hin. split; intros [H | (x & Hx & Hk & Hn)]; auto.
        - right. exists x. cbn [In]. auto.
        - destruct Hx as [<- | Hx]; [destruct Hk as (_ & Hk & _); contradiction|].
          right. exists x. auto. }
      destruct (str_in l params) eqn:Hp; cbn [negb].
      { apply str_in_In in Hp.
        destruct (IH acc Hacc) as [Hnd Hin]. split; [exact Hnd|].
        intros name. rewrite Hin. split; intros [H | (x & Hx & Hk & Hn)]; auto.
        - right. exists x. cbn [In]. auto.
        - destruct Hx as [<- | Hx]; [destruct Hk as (_ & _ & Hk); contradiction|].
          right. exists x. auto. }
      assert (Hkeep : keep l).
      { repeat split; auto. intros Hin. apply str_in_In in Hin. congruence. }
      fold (clean l).
      destruct (cleaned_name l) as (_ & _ & Hempty). fold (clean l) in Hempty.
      destruct (String.eqb_spec (clean l) "") as [Hc | Hc]; [apply Hempty in Hc; contradiction|].
      cbn [negb andb].
      destruct (str_in (clean l) acc) eqn:Hseen; cbn [negb].
      + apply str_in_In in Hseen.
        destruct (IH acc Hacc) as [Hnd Hin]. split; [exact Hnd|].
        intros name. rewrite Hin. split; intros [H | (x & Hx & Hk & Hn)]; auto.
        * right. exists x. cbn [In]. auto.
        * destruct Hx as [<- | Hx]; [left; now subst name|].
          right. exists x. auto.
      + assert (Hnew : ~ In (clean l) acc).
        { intros Hin. apply str_in_In in Hin. congruence. }
        assert (Hacc' : NoDup (acc ++ [clean l])).
        { apply NoDup_app. split; [exact Hacc|]. split; [|apply NoDup_singleton].
          intros x Hx Hx'. apply list_elem_of_In in Hx, Hx'.
          destruct Hx' as [<- | []]. contradiction. }
        destruct (IH _ Hacc') as [Hnd Hin]. split; [exact Hnd|].
        intros name. rewrite Hin, in_app_iff. cbn [In].
        split.
        * intros [[H | [<- | []]] | (x & Hx & Hk & Hn)]; auto.
          -- right. exists l. auto.
          -- right. exists x. auto.
        * intros [H | (x & [<- | Hx] & Hk & Hn)]; auto.
          right. exists x. auto. }
  destruct (Hgen stack_locals [] (NoDup_nil_2 (A:=string))) as [Hnd Hin]. cbn zeta in Hnd, Hin.
  fold (declared_locals params stack_locals) in Hnd, Hin.
  split; [exact Hnd|]. split.
  - intros name. rewrite Hin. unfold keep, clean. split.
    + intros [[] | (l & Hl & (H1 & H2 & H3) & Hn)]. exists l. auto.
    + intros (l & Hl & H1 & H2 & H3 & Hn). right. exists l. auto.
  - intros name Hname. apply Hin in Hname as [[] | (l & Hl & (H1 & _) & ->)].
    unfold clean. destruct (cleaned_name l) as (Hdot & Hsp & Hempty).
    split; [|split; assumption]. intros Hc. apply Hempty in Hc. contradiction.
Qed.
End FormatterFacts.

Section FormatterExamples.
Import Py Formatter.
Local Open Scope string_scope.

(** The parameter test is made on the name as stored, before it is
    cleaned: a local whose cleaned name is a parameter is declared. *)
Example declared_locals_sample :
  declared_locals ["x"; "a_b"] ["i"; ""; "x"; "a.b"; "a b"; "empty_string"; "i"]
  = ["i"; "a_b"].
Proof. reflexivity. Qed.

End FormatterExamples.

(** ** Raw data in objects (common/reserv_object.py, v6/structs.py, v6/object_converter.py) *)

Section RawDataFacts.
Import Py ReservObj RawData.

Lemma store_ints_outside (ints : list Z) (m : gmap Z PyVal) (address i0 key : Z) :
  (forall j : nat, (j < length ints)%nat -> key <> address + (i0 + Z.of_nat j) * 4) ->
  store_ints m address i0 ints !! key = m !! key.
Proof.
  revert m i0. induction ints as [|v ints IH]; intros m i0 Hkey; [reflexivity|].
  cbn [store_ints]. rewrite IH.
  - apply lookup_insert_ne. specialize (Hkey O ltac:(cbn; lia)). intros E. apply Hkey. lia.
  - intros j Hj. specialize (Hkey (S j) ltac:(cbn; lia)). lia.
Qed.

Lemma store_ints_inside (ints : list Z) (m : gmap Z PyVal) (address i0 : Z) (j : nat) (v : Z) :
  ints !! j = Some v ->
  store_ints m address i0 ints !! (address + (i0 + Z.of_nat j) * 4) = Some (VInt v).
Proof.
  revert m i0 j. induction ints as [|w ints IH]; intros m i0 j Hj; [discriminate|].
  cbn [store_ints]. destruct j as [|j].
  - injection Hj as ->. rewrite store_ints_outside.
    + replace (address + (i0 + Z.of_nat 0) * 4) with (address + i0 * 4) by lia.
      apply lookup_insert_eq.
    + intros j _. lia.
  - replace (address + (i0 + Z.of_nat (S j)) * 4) with (address + (i0 + 1 + Z.of_nat j) * 4)
      by lia.
    now apply IH.
Qed.

Lemma bytes_to_ints_lookup (raw : list byte) (k : nat) :
  (4 * k + 4 <= length raw)%nat ->
  _bytes_to_ints raw !! k = Some (le_combine (take 4 (drop (4 * k) raw))).
Proof.
  intros Hk. unfold _bytes_to_ints. rewrite list_lookup_fmap.
  rewrite lookup_seq_lt; [reflexivity|].
  unfold len. apply Nat2Z.inj_lt. rewrite Z2Nat.id by (apply Z.div_pos; lia).
  assert (Z.of_nat k + 1 <= Z.of_nat (length raw) / 4) by (apply Z.div_le_lower_bound; lia).
  lia.
Qed.

Lemma bytes_to_ints_length (raw : list byte) :
  length (_bytes_to_ints raw) = (length raw / 4)%nat.
Proof.
  unfold _bytes_to_ints, len. rewrite length_map, length_seq.
  rewrite <- (Nat2Z.id (length raw / 4)). f_equal. now rewrite Nat2Z.inj_div.
Qed.

Lemma add_object_bytes_holds_raw (o : ReservObject) (address : Z) (raw : list byte) :
  holds_raw (add_object_bytes o address raw) address raw.
Proof.
  intros k Hk. cbn [add_object_bytes objects].
  replace (address + 4 * Z.of_nat k) with (address + (0 + Z.of_nat k) * 4) by lia.
  apply store_ints_inside. now apply bytes_to_ints_lookup.
Qed.

(** X21. add_object with a byte string stores its complete groups of four
    bytes as little-endian words in the slots address, address + 4, ...:
    get_int at address + 4k returns the word made of bytes 4k..4k+3, and
    every slot below address, at or beyond address + 4 * (len // 4), or not
    at a multiple of 4 from address keeps what it held. Trailing bytes that
    do not fill a word are dropped. *)
Theorem raw_bytes_are_stored_as_words (o : ReservObject) (address : Z) (raw : list byte) :
  holds_raw (add_object_bytes o address raw) address raw
  /\ (forall k : nat, (4 * k + 4 <= length raw)%nat ->
        get_int (add_object_bytes o address raw) (address + 4 * Z.of_nat k)
        = le_combine (take 4 (drop (4 * k) raw)))
  /\ (forall key,
        (key < address \/ address + 4 * (len raw / 4) <= key \/ (key - address) mod 4 <> 0) ->
        objects_get (add_object_bytes o address raw) key = objects_get o key).
Proof.
  pose proof (add_object_bytes_holds_raw o address raw) as Hholds.
  split; [exact Hholds|]. split.
  - intros k Hk. unfold get_int, objects_get. rewrite (Hholds k Hk). cbn [default from_option id].
    change 0xFFFFFFFF with (Z.ones 32). rewrite land_ones_mod by lia.
    apply Z.mod_small.
    pose proof (le_combine_bound (take 4 (drop (4 * k) raw))) as Hb.
    rewrite length_take, length_drop in Hb.
    replace (4 `min` (length raw - 4 * k))%nat with 4%nat in Hb by lia. exact Hb.
  - intros key Hkey. unfold objects_get. cbn [add_object_bytes objects].
    rewrite store_ints_outside; [reflexivity|].
    intros j Hj E. rewrite bytes_to_ints_length in Hj.
    assert (Hdiv : Z.of_nat j < len raw / 4).
    { unfold len. apply Nat2Z.inj_lt in Hj. now rewrite Nat2Z.inj_div in Hj. }
    destruct Hkey as [Hlt | [Hge | Hmod]].
    + lia.
    + lia.
    + apply Hmod. subst key. replace (address + (0 + Z.of_nat j) * 4 - address)
        with (Z.of_nat j * 4) by lia. apply Z.mod_mul. lia.
Qed.
End RawDataFacts.

Section SmiFacts.
Import Py ReservObj.

Lemma get_int_range (o : ReservObject) (offset : Z) : 0 <= get_int o offset < 2 ^ 32.
Proof.
  unfold get_int. destruct (objects_get o offset); try lia.
  change 0xFFFFFFFF with (Z.ones 32). rewrite land_ones_mod by lia.
  apply Z.mod_pos_bound. lia.
Qed.

Lemma get_smi_int_32 (o : ReservObject) (offset : Z) :
  pointer_size o = 4 -> get_smi_int o offset = get_int o offset / 2.
Proof.
  intros Hps. pose proof (get_int_range o offset).
  unfold get_smi_int, smi_to_int. rewrite Hps. cbn [Z.eqb Pos.eqb].
  change 0xFFFFFFFF with (Z.ones 32). rewrite land_ones_mod by lia.
  rewrite Z.mod_small by lia. now rewrite Z.shiftr_div_pow2 by lia.
Qed.

Lemma get_smi_int_64 (o : ReservObject) (offset : Z) :
  pointer_size o <> 4 -> get_smi_int o offset = get_int o (offset + 4).
Proof.
  intros Hps. unfold get_smi_int, smi_to_int.
  destruct (Z.eqb_spec (pointer_size o) 4); [contradiction|].
  now rewrite Z.shiftr_shiftl_l, Z.sub_diag, Z.shiftl_0_r by lia.
Qed.

Lemma get_smi_int_range (o : ReservObject) (offset : Z) : 0 <= get_smi_int o offset < 2 ^ 32.
Proof.
  pose proof (get_int_range o offset). pose proof (get_int_range o (offset + 4)).
  destruct (Z.eq_dec (pointer_size o) 4) as [E | E].
  - rewrite (get_smi_int_32 _ _ E). split; [apply Z.div_pos; lia|].
    apply Z.div_lt_upper_bound; lia.
  - now rewrite (get_smi_int_64 _ _ E).
Qed.

(** X22. get_smi_int removes the Smi tag: with a pointer size of 4 it
    returns the 32-bit word at the offset shifted right by one bit, with any
    other pointer size it returns the 32-bit word at offset + 4 (the upper
    half of the 64-bit slot); in both cases the result is in 0 .. 2^32 - 1. *)
Theorem smi_is_read_without_its_tag (o : ReservObject) (offset : Z) :
  (pointer_size o = 4 -> get_smi_int o offset = get_int o offset / 2)
  /\ (pointer_size o <> 4 -> get_smi_int o offset = get_int o (offset + 4))
  /\ 0 <= get_smi_int o offset < 2 ^ 32.
Proof.
  split; [apply get_smi_int_32|]. split; [apply get_smi_int_64 | apply get_smi_int_range].
Qed.
End SmiFacts.

Section LayoutFacts.
Import Py ReservObj Reconstructor Layout.

Lemma fold_left_app_concat {A B : Type} (f : B -> list A) (l : list B) (init : list A) :
  fold_left (fun acc i => acc ++ f i) l init = init ++ concat (map f l).
Proof.
  revert init. induction l as [|x l IH]; intros init; cbn.
  - now rewrite app_nil_r.
  - now rewrite IH, app_assoc.
Qed.

Lemma concat_length_const {A B : Type} (f : B -> list A) (l : list B) (n : nat) :
  (forall x, length (f x) = n) -> length (concat (map f l)) = (n * length l)%nat.
Proof.
  intros Hf. induction l as [|x l IH]; cbn; [lia|].
  rewrite length_app, Hf, IH. lia.
Qed.

Lemma range_by_4_length (stop : Z) :
  0 <= stop -> stop <= 4 * Z.of_nat (length (range_by_4 stop)) < stop + 4.
Proof.
  intros Hs. unfold range_by_4. rewrite length_map, length_seq.
  rewrite Z2Nat.id by (apply Z.div_pos; lia).
  pose proof (Z.div_mod (stop + 3) 4 ltac:(lia)).
  pose proof (Z.mod_pos_bound (stop + 3) 4 ltac:(lia)). lia.
Qed.

Lemma range_by_4_nil (stop : Z) : stop <= 0 -> range_by_4 stop = [].
Proof.
  intros Hs. unfold range_by_4.
  replace (Z.to_nat ((stop + 3) / 4)) with O; [reflexivity|].
  assert ((stop + 3) / 4 <= 0); [|lia].
  apply Z.lt_succ_r. apply Z.div_lt_upper_bound; lia.
Qed.

(** X23. The bytecode that BytecodeData extracts has exactly the length
    declared in the array header (self.length), for every object and pointer
    size: also when the declared length is 0 or 1, or when slots of the
    object are missing. *)
Theorem extracted_bytecode_has_the_declared_length (obj : ReservObject) (pointer_size : Z) :
  len (BytecodeData_bytecode obj pointer_size) = BytecodeData_length obj pointer_size.
Proof.
  unfold BytecodeData_bytecode. set (L := BytecodeData_length obj pointer_size).
  assert (HL : 0 <= L) by apply get_smi_int_range.
  rewrite fold_left_app_concat.
  set (words := concat _).
  assert (Hwords : 4 * Z.of_nat (length (range_by_4 (L - 2))) = Z.of_nat (length words)).
  { subst words. rewrite (concat_length_const _ _ 4); [lia|].
    intros i. apply length_le_split. }
  assert (Hcover : L <= 2 + Z.of_nat (length words)).
  { destruct (Z.le_gt_cases (L - 2) 0) as [Hs | Hs].
    - lia.
    - pose proof (range_by_4_length (L - 2) ltac:(lia)). lia. }
  set (B := _ ++ words).
  assert (HB : len B = 2 + Z.of_nat (length words)).
  { subst B. unfold len. rewrite length_app. cbn [length]. lia. }
  unfold slice, slice_bound.
  change (0 <? 0) with false. cbn iota.
  destruct (Z.ltb_spec L 0); [lia|].
  rewrite (Z.min_l 0), (Z.min_l L) by lia.
  unfold len in *. rewrite length_take, length_drop. lia.
Qed.

(** X24. HandlerTable builds one entry for every four Smi slots of the array
    (count = length // 4); entry i takes start, end, handler and data from
    slots 4i .. 4i+3 after the array header, and splits handler into
    prediction = handler & 7, which is in 0..7, and handler_offset = handler
    >> 3, so that 8 * handler_offset + prediction is the handler slot again. *)
Theorem handler_table_entries (obj : ReservObject) (pointer_size : Z) :
  len (HandlerTable_init obj pointer_size)
  = get_smi_int obj (get_array_length_offset pointer_size) / 4
  /\ forall (i : nat) (entry : HandlerTableEntry),
       HandlerTable_init obj pointer_size !! i = Some entry ->
       let base := get_array_header_size pointer_size + 4 * Z.of_nat i * pointer_size in
       he_start entry = get_smi_int obj base
       /\ he_end entry = get_smi_int obj (base + pointer_size)
       /\ he_data entry = get_smi_int obj (base + 3 * pointer_size)
       /\ 8 * he_handler_offset entry + he_prediction entry
          = get_smi_int obj (base + 2 * pointer_size)
       /\ 0 <= he_prediction entry < 8.
Proof.
  split.
  - unfold HandlerTable_init, len. rewrite length_map, length_seq.
    apply Z2Nat.id. apply Z.div_pos; [apply get_smi_int_range | lia].
  - intros i entry Hi. unfold HandlerTable_init in Hi.
    rewrite list_lookup_fmap in Hi.
    destruct (seq 0 _ !! i) as [k|] eqn:Hk; [|discriminate].
    apply lookup_seq in Hk as [-> _]. injection Hi as <-.
    cbn [he_start he_end he_data he_handler_offset he_prediction Nat.add].
    cbv zeta.
    repeat split.
    + f_equal. lia.
    + f_equal. lia.
    + f_equal. lia.
    + match goal with
      | |- context [Z.shiftr (get_smi_int obj ?X) 3] =>
          replace (get_array_header_size pointer_size + 4 * Z.of_nat i * pointer_size
                   + 2 * pointer_size) with X by lia;
          generalize (get_smi_int obj X)
      end.
      intros handler.
      change 7 with (Z.ones 3). rewrite land_ones_mod, Z.shiftr_div_pow2 by lia.
      pose proof (Z.div_mod handler (2 ^ 3) ltac:(lia)). lia.
    + change 7 with (Z.ones 3). rewrite land_ones_mod by lia. apply Z.mod_pos_bound. lia.
    + change 7 with (Z.ones 3). rewrite land_ones_mod by lia. apply Z.mod_pos_bound. lia.
Qed.
End LayoutFacts.

Section RawDataReaders.
Import Py ReservObj Reconstructor Layout RawData.

Lemma byte_of_Z_land (x : Z) : byte.of_Z (Z.land x 0xFF) = byte.of_Z x.
Proof.
  apply byte.unsigned_inj. rewrite !byte.unsigned_of_Z. unfold byte.wrap.
  change 0xFF with (Z.ones 8). rewrite land_ones_mod by lia. apply Z.mod_mod. lia.
Qed.

(** A word of held raw data, read with [get_int] and packed again. *)
Lemma holds_raw_word (o : ReservObject) (address : Z) (raw : list byte) (k : nat) :
  holds_raw o address raw -> (4 * k + 4 <= length raw)%nat ->
  le_split 4 (Z.land (get_int o (address + 4 * Z.of_nat k)) 0xFFFFFFFF)
  = take 4 (drop (4 * k) raw)
  /\ le_split 4 (get_int o (address + 4 * Z.of_nat k)) = take 4 (drop (4 * k) raw).
Proof.
  intros Hraw Hk.
  assert (Hlen : length (take 4 (drop (4 * k) raw)) = 4%nat).
  { rewrite length_take, length_drop. lia. }
  assert (Hget : get_int o (address + 4 * Z.of_nat k) = le_combine (take 4 (drop (4 * k) raw))).
  { unfold get_int, objects_get. rewrite (Hraw k Hk). cbn [default from_option id].
    change 0xFFFFFFFF with (Z.ones 32). rewrite land_ones_mod by lia.
    apply Z.mod_small. pose proof (le_combine_bound (take 4 (drop (4 * k) raw))) as Hb.
    now rewrite Hlen in Hb. }
  rewrite Hget.
  assert (Hmask : Z.land (le_combine (take 4 (drop (4 * k) raw))) 0xFFFFFFFF
                  = le_combine (take 4 (drop (4 * k) raw))).
  { change 0xFFFFFFFF with (Z.ones 32). rewrite land_ones_mod by lia.
    apply Z.mod_small. pose proof (le_combine_bound (take 4 (drop (4 * k) raw))) as Hb.
    now rewrite Hlen in Hb. }
  rewrite Hmask. split; now apply split_le_combine'.
Qed.

Lemma concat_raw_words (raw : list byte) (s n : nat) :
  concat (map (fun k => take 4 (drop (4 * k) raw)) (seq s n)) = take (4 * n) (drop (4 * s) raw).
Proof.
  revert s. induction n as [|n IH]; intros s; [reflexivity|].
  cbn [seq map concat]. rewrite IH.
  replace (4 * S s)%nat with (4 * s + 4)%nat by lia. rewrite <- drop_drop.
  rewrite take_take_drop. f_equal. lia.
Qed.

(** The words read by a loop over [range_by_4], when they lie in held raw
    data starting [4 * s] bytes into it. *)
Lemma raw_words_read (o : ReservObject) (address base : Z) (raw : list byte) (s : nat)
    (stop : Z) :
  holds_raw o address raw ->
  base = address + 4 * Z.of_nat s ->
  (4 * s + 4 * length (range_by_4 stop) <= length raw)%nat ->
  concat (map (fun i => le_split 4 (Z.land (get_int o (base + i)) 0xFFFFFFFF))
              (range_by_4 stop))
  = take (4 * length (range_by_4 stop)) (drop (4 * s) raw).
Proof.
  intros Hraw -> Hfit. unfold range_by_4 in *. rewrite length_map, length_seq in *.
  set (n := Z.to_nat _) in *. clearbody n. rewrite map_map.
  induction n as [|n IH]; [reflexivity|].
  rewrite seq_S, map_app, concat_app, IH by lia. cbn [map concat Nat.add].
  rewrite app_nil_r.
  replace (address + 4 * Z.of_nat s + 4 * Z.of_nat n) with (address + 4 * Z.of_nat (s + n))
    by lia.
  destruct (holds_raw_word o address raw (s + n) Hraw ltac:(lia)) as [-> _].
  replace (4 * (s + n))%nat with (4 * s + 4 * n)%nat by lia. rewrite <- drop_drop.
  rewrite take_take_drop. f_equal. lia.
Qed.

(** X25. When the slots of a BytecodeArray object hold the words of a raw
    byte string that begins a multiple of four bytes (at least four) before
    kHeaderSize, has a whole number of words and reaches to the end of the
    declared length, the bytecode that BytecodeData extracts is the slice of
    that byte string that starts two bytes before kHeaderSize and has the
    declared length: the two bytes taken from the upper half of the word at
    kOSRNestingLevelOffset and the words from kHeaderSize on are put back in
    their order. *)
Theorem bytecode_is_cut_from_the_raw_data (obj : ReservObject) (pointer_size address : Z)
    (raw : list byte) :
  holds_raw obj address raw ->
  let start := kHeaderSize pointer_size - 2 - address in
  let length := BytecodeData_length obj pointer_size in
  2 <= start -> (start + 2) mod 4 = 0 -> len raw mod 4 = 0 ->
  start + length <= len raw ->
  BytecodeData_bytecode obj pointer_size = slice raw start (start + length).
Proof.
  intros Hraw start L Hstart Hmod Hrawlen Hfit.
  assert (HL : 0 <= L) by apply get_smi_int_range.
  (* the header ends [4 * s] bytes into the raw data *)
  assert (Hs : exists s : nat, start + 2 = 4 * Z.of_nat s /\ (1 <= s)%nat).
  { exists (Z.to_nat ((start + 2) / 4)).
    pose proof (Z.div_mod (start + 2) 4 ltac:(lia)). lia. }
  destruct Hs as (s & Hs & Hs1).
  assert (Hq : exists q : nat, len raw = 4 * Z.of_nat q).
  { exists (Z.to_nat (len raw / 4)). pose proof (Z.div_mod (len raw) 4 ltac:(lia)).
    pose proof (len_nonneg raw). lia. }
  destruct Hq as (q & Hq).
  assert (Hn : (4 * s + 4 * length (range_by_4 (L - 2)) <= length raw)%nat).
  { unfold len in *. destruct (Z.le_gt_cases (L - 2) 0) as [Hsmall | Hbig].
    - rewrite range_by_4_nil by assumption. cbn [Datatypes.length]. lia.
    - pose proof (range_by_4_length (L - 2) ltac:(lia)). lia. }
  unfold BytecodeData_bytecode. fold L.
  rewrite fold_left_app_concat.
  rewrite (raw_words_read obj address (kHeaderSize pointer_size) raw s (L - 2) Hraw);
    [|subst start; lia | exact Hn].
  (* the two bytes in front *)
  assert (Hfront : [byte.of_Z (Z.land (Z.shiftr (get_int obj (kOSRNestingLevelOffset pointer_size)) 16) 0xFF);
                    byte.of_Z (Z.land (Z.shiftr (get_int obj (kOSRNestingLevelOffset pointer_size)) 24) 0xFF)]
                   = take 2 (drop (4 * s - 2) raw)).
  { replace (kOSRNestingLevelOffset pointer_size) with (address + 4 * Z.of_nat (s - 1)).
    2: { unfold kHeaderSize, kBytecodeAgeOffset in start. subst start. lia. }
    destruct (holds_raw_word obj address raw (s - 1) Hraw ltac:(lia)) as [_ Hw].
    rewrite !byte_of_Z_land.
    set (tmp := get_int obj _) in *.
    pose proof (nth_error_le_split 2 4 tmp ltac:(lia)) as H2.
    pose proof (nth_error_le_split 3 4 tmp ltac:(lia)) as H3.
    rewrite Hw in H2, H3.
    change (8 * Z.of_nat 2) with 16 in H2. change (8 * Z.of_nat 3) with 24 in H3.
    replace (4 * s - 2)%nat with (4 * (s - 1) + 2)%nat by lia.
    rewrite <- drop_drop.
    assert (Hlen4 : length (take 4 (drop (4 * (s - 1)) raw)) = 4%nat).
    { rewrite length_take, length_drop. lia. }
    set (l := drop (4 * (s - 1)) raw) in *.
    destruct l as [|w0 [|w1 [|w2 [|w3 l']]]]; try discriminate Hlen4.
    cbn [take nth_error] in H2, H3. injection H2 as ->. injection H3 as ->. reflexivity. }
  rewrite Hfront.
  replace (drop (4 * s) raw) with (drop 2 (drop (4 * s - 2) raw))
    by (rewrite drop_drop; f_equal; lia).
  rewrite take_take_drop.
  (* cutting to the declared length *)
  set (B := take _ _).
  unfold slice at 1, slice_bound. change (0 <? 0) with false. cbn iota.
  destruct (Z.ltb_spec L 0); [lia|].
  assert (HB : len B = 2 + 4 * Z.of_nat (length (range_by_4 (L - 2)))).
  { subst B. unfold len. rewrite length_take, length_drop. lia. }
  assert (Hcover : L <= len B).
  { destruct (Z.le_gt_cases (L - 2) 0) as [Hsmall | Hbig]; [lia|].
    pose proof (range_by_4_length (L - 2) ltac:(lia)). lia. }
  rewrite (Z.min_l 0), (Z.min_l L) by (pose proof (len_nonneg B); lia).
  rewrite Z.sub_0_r. change (Z.to_nat 0) with O. rewrite drop_0. subst B. rewrite take_take.
  rewrite Nat.min_l by lia.
  unfold slice, slice_bound.
  destruct (Z.ltb_spec start 0); [lia|]. destruct (Z.ltb_spec (start + L) 0); [lia|].
  rewrite !Z.min_l by lia.
  replace (Z.to_nat start) with (4 * s - 2)%nat by lia. f_equal. lia.
Qed.
End RawDataReaders.

Section ConverterFacts.
Import Py ReservObj Layout RawData Converter.

(** One pass of the inner loop: the bytes of [tmp] below [total] land at
    [i ..], everything else stays. *)
Lemma store_word_lookup (total : Z) (result : list byte) (i : nat) (tmp : list byte) (p : nat) :
  length tmp = 4%nat ->
  store_word total result (Z.of_nat i) tmp !! p
  = if decide ((i <= p < i + 4)%nat /\ Z.of_nat p < total /\ (p < length result)%nat)
    then tmp !! (p - i)%nat else result !! p.
Proof.
  intros Htmp.
  destruct tmp as [|t0 [|t1 [|t2 [|t3 [|]]]]]; try discriminate Htmp.
  unfold store_word. cbn [seq fold_left nth].
  repeat match goal with
         | |- context [Z.of_nat i + Z.of_nat ?j <? total] =>
             destruct (Z.ltb_spec (Z.of_nat i + Z.of_nat j) total)
         end;
    repeat rewrite list_lookup_insert;
    repeat rewrite length_insert;
    repeat match goal with
           | |- context [decide ?P] => destruct (decide P)
           end;
    try reflexivity; try lia;
    try (replace (p - i)%nat with 0%nat by lia; reflexivity);
    try (replace (p - i)%nat with 1%nat by lia; reflexivity);
    try (replace (p - i)%nat with 2%nat by lia; reflexivity);
    try (replace (p - i)%nat with 3%nat by lia; reflexivity).
Qed.

Lemma store_word_length (total : Z) (result : list byte) (i : Z) (tmp : list byte) :
  length (store_word total result i tmp) = length result.
Proof.
  unfold store_word. cbn [seq fold_left].
  repeat match goal with
         | |- context [i + Z.of_nat ?j <? total] => destruct (i + Z.of_nat j <? total)
         end; now rewrite ?length_insert.
Qed.

Lemma div4_unique (p n r : nat) : p = (4 * n + r)%nat -> (r < 4)%nat ->
  (p / 4 = n /\ p mod 4 = r)%nat.
Proof.
  intros -> Hr. split.
  - symmetry. apply (Nat.div_unique _ 4 n r); lia.
  - symmetry. apply (Nat.mod_unique _ 4 n r); lia.
Qed.

(** The outer loop over [range(0, n * 4, 4)], read position by position. *)
Lemma store_words_lookup (total : Z) (W : Z -> list byte) (n : nat) (result : list byte)
    (p : nat) :
  (forall i, length (W i) = 4%nat) ->
  let final := fold_left (fun result i => store_word total result i (W i))
                 (map (fun k => 4 * Z.of_nat k) (seq 0 n)) result in
  length final = length result
  /\ final !! p
     = if decide ((p < 4 * n)%nat /\ Z.of_nat p < total /\ (p < length result)%nat)
       then W (4 * Z.of_nat (p / 4)) !! (p mod 4)%nat else result !! p.
Proof.
  intros HW. induction n as [|n [IHlen IH]].
  - cbn. split; [reflexivity|]. destruct (decide _); [lia | reflexivity].
  - cbn zeta in *. rewrite seq_S, map_app, fold_left_app. cbn [map fold_left Nat.add].
    split; [now rewrite store_word_length|].
    replace (4 * Z.of_nat n) with (Z.of_nat (4 * n)) by lia.
    rewrite store_word_lookup by apply HW. rewrite IHlen.
    destruct (decide ((4 * n <= p < 4 * n + 4)%nat /\ _)) as [Hin | Hout].
    + destruct Hin as ((H1 & H2) & H3 & H4).
      destruct (decide ((p < 4 * S n)%nat /\ _)) as [_ | Hno];
        [|exfalso; apply Hno; repeat split; lia].
      destruct (div4_unique p n (p - 4 * n) ltac:(lia) ltac:(lia)) as [-> ->].
      do 2 f_equal. lia.
    + rewrite IH. clear IH.
      destruct (decide ((p < 4 * n)%nat /\ _)), (decide ((p < 4 * S n)%nat /\ _));
        try reflexivity; exfalso; lia.
Qed.

(** X26. When the slots of a string object hold the words of a raw byte
    string that begins a multiple of four bytes before the first character,
    has a whole number of words and reaches to the end of the declared
    length, reserv_object_to_bytes returns the slice of that byte string
    that starts after the length slot, at (len_dword_index + 1) *
    pointer_size, and has the length of the Smi in the length slot, doubled
    for two-byte strings: the bytes come back in their order and the padding
    of the last word is cut. *)
Theorem string_bytes_are_cut_from_the_raw_data (obj : ReservObject)
    (len_dword_index : Z) (is_16le : bool) (pointer_size address : Z) (raw : list byte) :
  holds_raw obj address raw ->
  let start := (len_dword_index + 1) * pointer_size - address in
  let total := get_smi_int obj (len_dword_index * pointer_size)
               * (if is_16le then 2 else 1) in
  0 <= start -> start mod 4 = 0 -> len raw mod 4 = 0 ->
  start + total <= len raw ->
  reserv_object_to_bytes obj len_dword_index is_16le pointer_size
  = slice raw start (start + total).
Proof.
  intros Hraw start total Hstart Hmod Hrawlen Hfit.
  assert (Htotal : 0 <= total).
  { subst total. pose proof (get_smi_int_range obj (len_dword_index * pointer_size)).
    destruct is_16le; lia. }
  assert (Hs : exists s : nat, start = 4 * Z.of_nat s).
  { exists (Z.to_nat (start / 4)). pose proof (Z.div_mod start 4 ltac:(lia)). lia. }
  destruct Hs as (s & Hs).
  assert (Hq : exists q : nat, len raw = 4 * Z.of_nat q).
  { exists (Z.to_nat (len raw / 4)). pose proof (Z.div_mod (len raw) 4 ltac:(lia)).
    pose proof (len_nonneg raw). lia. }
  destruct Hq as (q & Hq).
  pose proof (range_by_4_length total Htotal) as Hrange.
  unfold reserv_object_to_bytes. fold total.
  apply list_eq. intros p.
  set (W := fun i => _int_to_bytes_le (get_int obj ((len_dword_index + 1) * pointer_size + i))).
  destruct (store_words_lookup total W (length (range_by_4 total))
              (replicate (Z.to_nat total) Byte.x00) p) as [_ Hlook].
  { intros i. apply length_le_split. }
  cbn zeta in Hlook. unfold range_by_4 in Hlook at 1. rewrite length_map, length_seq in Hlook.
  fold (range_by_4 total) in Hlook. subst W. cbv beta in Hlook. rewrite Hlook. clear Hlook.
  rewrite length_replicate.
  unfold slice, slice_bound.
  destruct (Z.ltb_spec start 0); [lia|]. destruct (Z.ltb_spec (start + total) 0); [lia|].
  rewrite !Z.min_l by lia.
  replace (Z.to_nat (start + total - start)) with (Z.to_nat total) by lia.
  rewrite lookup_take, lookup_drop.
  destruct (decide ((p < 4 * _)%nat /\ _)) as [Hin | Hout].
  - destruct (decide (p < Z.to_nat total)%nat) as [_ | Hno]; [|lia].
    unfold _int_to_bytes_le.
    replace ((len_dword_index + 1) * pointer_size + 4 * Z.of_nat (p / 4))
      with (address + 4 * Z.of_nat (s + p / 4)) by (subst start; lia).
    pose proof (Nat.div_mod_eq p 4) as Hdm. pose proof (Nat.mod_upper_bound p 4 ltac:(lia)).
    set (d := (p / 4)%nat) in *. set (r := (p mod 4)%nat) in *. clearbody d r.
    destruct (holds_raw_word obj address raw (s + d) Hraw) as [-> _].
    { unfold len in *. lia. }
    rewrite lookup_take, lookup_drop.
    destruct (decide (r < 4)%nat); [|lia]. f_equal. lia.
  - destruct (decide (p < Z.to_nat total)%nat) as [Hlt | Hge]; [unfold len in *; lia|].
    apply lookup_replicate_None. lia.
Qed.
End ConverterFacts.

Section RawDataExamples.
Import Py ReservObj Reconstructor Layout RawData Converter Samples Fixtures.

Lemma bytecode_is_cut_from_the_raw_data_witness :
  BytecodeData_bytecode bytecode_array 4
  = slice bytecode_array_raw 38 (38 + BytecodeData_length bytecode_array 4).
Proof.
  apply (bytecode_is_cut_from_the_raw_data bytecode_array 4 0 bytecode_array_raw).
  - apply add_object_bytes_holds_raw.
  - vm_compute. discriminate.
  - reflexivity.
  - reflexivity.
  - vm_compute. discriminate.
Defined.

Example bytecode_of_the_sample_array :
  BytecodeData_bytecode bytecode_array 4 = bytes code_plus_product.
Proof. vm_compute. reflexivity. Qed.

Lemma string_bytes_are_cut_from_the_raw_data_witness :
  reserv_object_to_bytes string_object 2 false 4
  = slice string_raw 12 (12 + get_smi_int string_object (2 * 4) * 1).
Proof.
  apply (string_bytes_are_cut_from_the_raw_data string_object 2 false 4 0 string_raw).
  - apply add_object_bytes_holds_raw.
  - vm_compute. discriminate.
  - reflexivity.
  - reflexivity.
  - vm_compute. discriminate.
Defined.

Example bytes_of_the_sample_string :
  reserv_object_to_bytes string_object 2 false 4 = bytes [0x68; 0x65; 0x6C; 0x6C; 0x6F].
Proof. vm_compute. reflexivity. Qed.

End RawDataExamples.
